(** * Household budget ledger: a shallow embedding of the data layer

    The development follows the JavaScript sources of the application:

    - [assets/js/utils/sanitizer.js]  (class [Sanitizer])
    - [assets/js/data/eventEmitter.js] (class [EventEmitter])
    - [assets/js/data/dataManager.js]  (class [HouseholdBudgetData])
    - [assets/js/constants.js]         ([CONSTANTS], [DEFAULT_CATEGORIES])

    JavaScript strings are sequences of UTF-16 code units and are modelled
    as [list N]; numbers are modelled by [jsnum], whose finite values are
    exact rationals (every IEEE double is one; binary rounding of
    arithmetic results is not modelled).  Stored amounts are integers. *)

From Stdlib Require Import ZArith NArith QArith Qround List Ascii String Lia.
From Stdlib Require Import DecimalString Lqa.
From Stdlib Require DecimalZ DecimalPos.
From Stdlib Require Import Permutation Sorted.
From stdpp Require Import base decidable option list strings gmap.

Local Open Scope Z_scope.

(** ** JavaScript values *)

Abbreviation jsstring := (list N).

(** An ASCII literal as a sequence of code units. *)
Definition js (s : string) : jsstring :=
  map N_of_ascii (list_ascii_of_string s).

Fixpoint str_eqb (a b : jsstring) : bool :=
  match a, b with
  | [], [] => true
  | x :: a', y :: b' => N.eqb x y && str_eqb a' b'
  | _, _ => false
  end.

(** [String.prototype.startsWith] *)
Fixpoint startsWith (s p : jsstring) : bool :=
  match p, s with
  | [], _ => true
  | y :: p', x :: s' => N.eqb x y && startsWith s' p'
  | _ :: _, [] => false
  end.

Inductive jsnum :=
| NaN
| PosInf
| NegInf
| Fin (q : Q).

Inductive jsval :=
| VUndefined
| VNull
| VBool (b : bool)
| VNum (x : jsnum)
| VStr (s : jsstring).

(** [ToBoolean] *)
Definition truthy (v : jsval) : bool :=
  match v with
  | VUndefined | VNull => false
  | VBool b => b
  | VNum NaN => false
  | VNum (Fin q) => negb (Qeq_bool q 0)
  | VNum _ => true
  | VStr s => negb (str_eqb s [])
  end.

(** [a || b] *)
Definition js_or (a b : jsval) : jsval := if truthy a then a else b.

(** [ToNumber] on the primitives that are not strings. *)
Definition ToNumber (v : jsval) : jsnum :=
  match v with
  | VUndefined => NaN
  | VNull => Fin 0
  | VBool b => Fin (if b then 1 else 0)
  | VNum x => x
  | VStr _ => NaN
  end.

(** [Math.round] on a finite number: the nearest integer, ties towards
    positive infinity. *)
Definition Math_round (q : Q) : Z := Qfloor (q + (1 # 2)).

Definition Qlt_bool (a b : Q) : bool := negb (Qle_bool b a).

(** ** Character classes of the regular expressions *)

Module Chars.

Definition between (lo hi c : N) : bool := (N.leb lo c && N.leb c hi)%bool.

Definition is_digit (c : N) : bool := between 48 57 c.
Definition is_lower (c : N) : bool := between 97 122 c.
Definition is_upper (c : N) : bool := between 65 90 c.

(** [\w] *)
Definition is_word (c : N) : bool :=
  (is_lower c || is_upper c || is_digit c || N.eqb c 95)%bool.

(** [\s], which is also what [String.prototype.trim] strips: WhiteSpace
    and LineTerminator. *)
Definition is_space (c : N) : bool :=
  (between 9 13 c || N.eqb c 32 || N.eqb c 160 || N.eqb c 5760
   || between 8192 8202 c || N.eqb c 8232 || N.eqb c 8233
   || N.eqb c 8239 || N.eqb c 8287 || N.eqb c 12288 || N.eqb c 65279)%bool.

(** A pattern character under the [i] flag: only the two ASCII cases of a
    letter canonicalize to the same unit. *)
Definition ci (p c : N) : bool :=
  (N.eqb c p
   || (is_lower p && N.eqb c (p - 32))
   || (is_upper p && N.eqb c (p + 32)))%bool.

End Chars.

(** ** A backtracking matcher for the regular expressions of the sanitizer *)

Module Regex.

Inductive regex :=
| Eps
| Chr (p : N -> bool)
| Seq (a b : regex)
| Star (a : regex)          (* greedy [*] *)
| NotAhead (a : regex)      (* [(?!a)] *)
| WordB.                    (* [\b] *)

Definition word_at (c : option N) : bool :=
  match c with Some x => Chars.is_word x | None => false end.

(** [rmatch r prev s k]: match [r] at the position whose preceding unit is
    [prev] and whose remaining input is [s]; [k] is the continuation.  The
    alternatives are tried in the order of the ECMAScript matcher. *)
Fixpoint rmatch {R} (r : regex) (prev : option N) (s : jsstring)
    (k : option N -> jsstring -> option R) : option R :=
  match r with
  | Eps => k prev s
  | Chr p =>
      match s with
      | c :: s' => if p c then k (Some c) s' else None
      | [] => None
      end
  | Seq a b => rmatch a prev s (fun prev' s' => rmatch b prev' s' k)
  | Star a =>
      (fix iter (fuel : nat) (prev : option N) (s : jsstring) : option R :=
         match fuel with
         | O => k prev s
         | S fuel' =>
             match rmatch a prev s (fun prev' s' =>
                      if (length s' <? length s)%nat
                      then iter fuel' prev' s' else None) with
             | Some r => Some r
             | None => k prev s
             end
         end) (length s) prev s
  | NotAhead a =>
      match rmatch a prev s (fun _ _ => Some tt) with
      | Some _ => None
      | None => k prev s
      end
  | WordB =>
      if xorb (word_at prev) (word_at (head s)) then k prev s else None
  end.

(** [s.replace(/r/g, '')] *)
Fixpoint remove_from (r : regex) (fuel : nat) (prev : option N)
    (s : jsstring) : jsstring :=
  match fuel with
  | O => s
  | S fuel' =>
      match rmatch r prev s (fun p' s' => Some (p', s')) with
      | Some (p', s') =>
          if (length s' <? length s)%nat
          then remove_from r fuel' p' s'
          else match s with
               | [] => []
               | c :: rest => c :: remove_from r fuel' (Some c) rest
               end
      | None =>
          match s with
          | [] => []
          | c :: rest => c :: remove_from r fuel' (Some c) rest
          end
      end
  end.

Definition removeAll (r : regex) (s : jsstring) : jsstring :=
  remove_from r (S (length s)) None s.

(** [regex.test(s)] for an unanchored pattern is not needed; the date
    pattern is anchored at both ends. *)
Definition fullmatch (r : regex) (s : jsstring) : bool :=
  match rmatch r None s (fun _ s' => match s' with [] => Some tt | _ => None end) with
  | Some _ => true
  | None => false
  end.

Fixpoint seqs (l : list regex) : regex :=
  match l with
  | [] => Eps
  | [r] => r
  | r :: l' => Seq r (seqs l')
  end.

(** A literal, case-insensitive. *)
Definition lit_i (s : string) : regex :=
  seqs (map (fun c => Chr (Chars.ci c)) (js s)).

Definition one (c : string) : N -> bool :=
  fun x => match js c with [y] => N.eqb x y | _ => false end.
Definition other (c : string) : N -> bool := fun x => negb (one c x).

Definition plus (a : regex) : regex := Seq a (Star a).

Fixpoint times (n : nat) (a : regex) : regex :=
  match n with
  | O => Eps
  | S n' => Seq a (times n' a)
  end.

End Regex.

(** ** The host environment

    What the code reads from the JavaScript runtime and cannot be computed
    from its arguments: the parser of decimal literals, the [Date]
    constructor on a string (implementations differ on out-of-range days,
    and the local year depends on the time zone), the clock and the source
    of identifiers.  Time stamps, which the code keeps as the result of
    [toISOString], are represented by the time value they render. *)

Class Host := {
  (** [parseFloat(s)] *)
  parseFloat : jsstring -> jsnum;
  (** the time value of [new Date(s)]; [None] for an invalid date *)
  Date_parse : jsstring -> option Z;
  (** [getFullYear()] and [getMonth()] of a time value, in local time *)
  Date_getFullYear : Z -> Z;
  Date_getMonth : Z -> Z;
  (** [toISOString()] of a time value *)
  Date_toISOString : Z -> jsstring;
  (** the [n]-th reading of [new Date()] *)
  Date_now : nat -> Z;
  (** the [n]-th result of [UTILS.generateId()] *)
  generateId : nat -> jsstring
}.

(** ** constants.js *)

Module CONSTANTS.
Definition INCOME : jsstring := js "income".
Definition EXPENSE : jsstring := js "expense".
Definition MIN_AMOUNT : Z := 1.
Definition MAX_AMOUNT : Z := 99999999.
Definition MAX_DESCRIPTION_LENGTH : nat := 200.
Definition MIN_YEAR : Z := 1900.
Definition MAX_YEAR : Z := 2100.
Definition AUTO_BACKUP_INTERVAL : nat := 100.
End CONSTANTS.

(** ** sanitizer.js *)

Module Sanitizer.
Import Regex.

(** The pattern for a paired tag, flags [gi]: the opening [<name], a word
    boundary, a greedy run of units other than [<], then greedily many
    groups made of a negative lookahead for the closing tag, one [<] and
    a greedy run of units other than [<], and last the closing
    [</name>]. *)
Definition pairedTag (name : string) : regex :=
  let close := lit_i ("</" ++ name ++ ">") in
  seqs [ lit_i ("<" ++ name); WordB; Star (Chr (other "<"));
         Star (seqs [NotAhead close; Chr (one "<"); Star (Chr (other "<"))]);
         close ].

(** [<link], a word boundary, units other than [>], then [>]; flags [gi] *)
Definition linkTag : regex :=
  seqs [ lit_i "<link"; WordB; Star (Chr (other ">")); Chr (one ">") ].

(** [javascript:], flags [gi] *)
Definition javascriptScheme : regex := lit_i "javascript:".

(** [on], one or more word units, any white space, [=]; flags [gi] *)
Definition eventAttribute : regex :=
  seqs [ lit_i "on"; plus (Chr Chars.is_word); Star (Chr Chars.is_space);
         Chr (one "=") ].

(** [<], units other than [>], then [>]; flag [g] *)
Definition anyTag : regex :=
  seqs [ Chr (one "<"); Star (Chr (other ">")); Chr (one ">") ].

Definition stripHTML (s : jsstring) : jsstring :=
  removeAll anyTag
    (removeAll eventAttribute
      (removeAll javascriptScheme
        (removeAll (pairedTag "style")
          (removeAll linkTag
            (removeAll (pairedTag "embed")
              (removeAll (pairedTag "object")
                (removeAll (pairedTag "iframe")
                  (removeAll (pairedTag "script") s)))))))).

Definition sanitizeHTML (input : jsval) : jsstring :=
  match input with
  | VStr s => stripHTML s
  | _ => []
  end.

Fixpoint trimStart (s : jsstring) : jsstring :=
  match s with
  | c :: s' => if Chars.is_space c then trimStart s' else s
  | [] => []
  end.

(** [String.prototype.trim] *)
Definition trim (s : jsstring) : jsstring :=
  rev (trimStart (rev (trimStart s))).

(** [s.substring(0, n)] *)
Definition substring0 (n : nat) (s : jsstring) : jsstring := firstn n s.

Definition sanitizeDescription (description : jsval) : jsstring :=
  if negb (truthy description) then []
  else
    let sanitized := sanitizeHTML description in
    let sanitized :=
      if (CONSTANTS.MAX_DESCRIPTION_LENGTH <? length sanitized)%nat
      then substring0 CONSTANTS.MAX_DESCRIPTION_LENGTH sanitized
      else sanitized in
    trim sanitized.

(** The units kept by [sanitizeCategory]: word units, U+3040 to U+309F,
    U+30A0 to U+30FF, U+4E00 to U+9FAF, hyphen, underscore, white
    space. *)
Definition categoryChar (c : N) : bool :=
  (Chars.is_word c || Chars.between 12352 12447 c
   || Chars.between 12448 12543 c || Chars.between 19968 40879 c
   || N.eqb c 45 || N.eqb c 95 || Chars.is_space c)%bool.

Definition sanitizeCategory (category : jsval) : jsstring :=
  if negb (truthy category) then []
  else
    let sanitized := sanitizeHTML category in
    let sanitized := List.filter categoryChar sanitized in
    let sanitized :=
      if (50 <? length sanitized)%nat then substring0 50 sanitized
      else sanitized in
    trim sanitized.

(** [typeof amount === 'string' ? parseFloat(amount) : amount], as the
    number that [isNaN], the comparisons and [Math.round] see. *)
Definition numAmount `{Host} (amount : jsval) : jsnum :=
  match amount with
  | VStr s => parseFloat s
  | _ => ToNumber amount
  end.

Definition sanitizeAmount `{Host} (amount : jsval) : Z :=
  match numAmount amount with
  | NaN => 0
  | NegInf => CONSTANTS.MIN_AMOUNT
  | PosInf => CONSTANTS.MAX_AMOUNT
  | Fin q =>
      if Qlt_bool q (inject_Z CONSTANTS.MIN_AMOUNT) then CONSTANTS.MIN_AMOUNT
      else if Qlt_bool (inject_Z CONSTANTS.MAX_AMOUNT) q then CONSTANTS.MAX_AMOUNT
      else Math_round q
  end.

(** [^\d{4}-\d{2}-\d{2}$] *)
Definition dateRegex : regex :=
  seqs [ times 4 (Chr Chars.is_digit); Chr (one "-");
         times 2 (Chr Chars.is_digit); Chr (one "-");
         times 2 (Chr Chars.is_digit) ].

Definition sanitizeDate `{Host} (dateString : jsval) : jsstring :=
  if negb (truthy dateString) then []
  else
    let sanitized := sanitizeHTML dateString in
    if negb (fullmatch dateRegex sanitized) then []
    else
      match Date_parse sanitized with
      | None => []
      | Some date =>
          let year := Date_getFullYear date in
          if (year <? CONSTANTS.MIN_YEAR) || (CONSTANTS.MAX_YEAR <? year)
          then [] else sanitized
      end.

Inductive FieldError :=
| InvalidDate        (* 有効な日付を入力してください *)
| InvalidType        (* 取引種類を選択してください *)
| MissingCategory    (* カテゴリを入力してください *)
| InvalidAmount.     (* 金額は1円以上で入力してください *)

(** The object that a form, an importer or an update hands over. *)
Record Draft := {
  d_date : jsval;
  d_type : jsval;
  d_category : jsval;
  d_amount : jsval;
  d_description : jsval
}.

(** [sanitizedData]: a key is present only when its check passed. *)
Record SanitizedData := {
  sd_date : option jsstring;
  sd_type : option jsstring;
  sd_category : option jsstring;
  sd_amount : option Z;
  sd_description : jsstring
}.

Record Validation := {
  isValid : bool;
  sanitizedData : SanitizedData;
  errors : list FieldError
}.

(** [!type || !Object.values(TRANSACTION_TYPES).includes(type)] negated *)
Definition knownType (type : jsval) : option jsstring :=
  match type with
  | VStr s =>
      if str_eqb s CONSTANTS.INCOME || str_eqb s CONSTANTS.EXPENSE
      then Some s else None
  | _ => None
  end.

Definition validateAndSanitizeTransaction `{Host} (transactionData : Draft)
    : Validation :=
  let sanitizedDate := sanitizeDate (d_date transactionData) in
  let dateOk := negb (str_eqb sanitizedDate []) in
  let type := knownType (d_type transactionData) in
  let sanitizedCategory := sanitizeCategory (d_category transactionData) in
  let categoryOk := negb (str_eqb sanitizedCategory []) in
  let sanitizedAmount := sanitizeAmount (d_amount transactionData) in
  let amountOk := negb (sanitizedAmount <? CONSTANTS.MIN_AMOUNT) in
  let errors :=
    (if dateOk then [] else [InvalidDate]) ++
    (match type with Some _ => [] | None => [InvalidType] end) ++
    (if categoryOk then [] else [MissingCategory]) ++
    (if amountOk then [] else [InvalidAmount]) in
  {| isValid := match errors with [] => true | _ => false end;
     sanitizedData :=
       {| sd_date := if dateOk then Some sanitizedDate else None;
          sd_type := type;
          sd_category := if categoryOk then Some sanitizedCategory else None;
          sd_amount := if amountOk then Some sanitizedAmount else None;
          sd_description :=
            sanitizeDescription
              (js_or (d_description transactionData) (VStr [])) |};
     errors := errors |}.

(** *** sanitizeFilename *)

(** The units that [sanitizeFilename] removes: the control characters
    U+0000 to U+001F, the two angle brackets, the colon, the double
    quote, the two slashes, the bar, the question mark and the
    asterisk. *)
Definition unsafeInFilename (c : N) : bool :=
  (N.leb c 31 || N.eqb c 60 || N.eqb c 62 || N.eqb c 58 || N.eqb c 34
   || N.eqb c 47 || N.eqb c 92 || N.eqb c 124 || N.eqb c 63
   || N.eqb c 42)%bool.

(** The units before the first full stop. *)
Fixpoint untilDot (s : jsstring) : jsstring :=
  match s with
  | [] => []
  | c :: rest => if N.eqb c 46 then [] else c :: untilDot rest
  end.

(** [s.split('.').pop()]: what follows the last full stop, and all of
    [s] when it has none. *)
Definition lastPart (s : jsstring) : jsstring := rev (untilDot (rev s)).

(** [None] stands for the TypeError of a value that is neither falsy nor
    a string: it has no [replace].  [substring(0, n)] takes a negative
    [n] for zero, as the subtraction of natural numbers does. *)
Definition sanitizeFilename (filename : jsval) : option jsstring :=
  if negb (truthy filename) then Some []
  else
    match filename with
    | VStr s =>
        let sanitized := List.filter (fun c => negb (unsafeInFilename c)) s in
        if (100 <? length sanitized)%nat then
          let extension := lastPart sanitized in
          let name := substring0 (100 - length extension - 1) sanitized in
          Some (name ++ [46%N] ++ extension)
        else Some sanitized
    | _ => None
    end.


End Sanitizer.

(** ** dataManager.js: the state of [HouseholdBudgetData] *)

Module Ledger.
Import Sanitizer.

Record Transaction := {
  t_id : jsstring;
  t_date : jsstring;
  t_type : jsstring;
  t_category : jsstring;
  t_amount : Z;
  t_description : jsstring;
  t_createdAt : Z;
  t_updatedAt : Z
}.

(** [categories]: one array of names per transaction type. *)
Record Categories := {
  income : list jsstring;
  expense : list jsstring
}.

Record Filters := {
  f_type : jsstring;
  f_category : jsstring;
  f_month : jsstring
}.

Record Stats := {
  totalTransactions : nat;
  lastModified : option Z;          (* [null] until the first update *)
  stats_createdAt : Z;
  oldestTransaction : option Z;     (* absent until the first update *)
  newestTransaction : option Z
}.

Record Summary := {
  s_income : Z;
  s_expense : Z;
  s_balance : Z;
  s_transactionCount : nat;
  s_avgIncome : Q;
  s_avgExpense : Q
}.

(** A month of [getMonthlyData]: its key and the two totals. *)
Definition MonthlyData := list (jsstring * (Z * Z)).

Inductive Event :=
| DataLoaded
| DataChanged
| TransactionAdded (t : Transaction)
| TransactionUpdated (t : Transaction)
| TransactionDeleted (t : Transaction)
| TransactionsBatchAdded (ts : list Transaction)
| FiltersApplied (view : list Transaction)
| CategoryAdded (type name : jsstring)
| CategoryRemoved (type name : jsstring)
| DataCleared.

Inductive Error :=
| ValidationError (errs : list FieldError)
| NotFound
| NoValidTransactions (rows : list (nat * list FieldError))
| CategoryInUse (count : nat)
| InvalidCategoryName
| CategoryExists
| RangeError      (* [toISOString] of an invalid date, in [updateStats] *)
| TypeError       (* a property read on [undefined] *)
| SyntaxError     (* [JSON.parse] of what localStorage holds *)
| DatabaseError   (* a request to the database that failed *)
| StorageError.   (* localStorage that is missing or refuses access *)

(** The fields of the object, followed by what the object has consumed
    from the host so far and the events it has emitted.  [db] tells
    whether [dbManager.db] is an open database; what is written to the
    stores is not part of the model. *)
Record HouseholdBudgetData := {
  transactions : list Transaction;
  filteredTransactions : list Transaction;
  idCounter : Z;
  categories : Categories;
  filters : Filters;
  isInitialized : bool;
  db : bool;
  summaryCache : option Summary;
  lastSummaryUpdate : option nat;
  monthlyDataCache : list (jsstring * MonthlyData);
  stats : Stats;
  clockReads : nat;
  idsDrawn : nat;
  emitted : list Event
}.

Definition with_transactions (v : list Transaction) (s : HouseholdBudgetData) :=
  {| transactions := v; filteredTransactions := filteredTransactions s;
     idCounter := idCounter s; categories := categories s;
     filters := filters s; isInitialized := isInitialized s; db := db s;
     summaryCache := summaryCache s;
     lastSummaryUpdate := lastSummaryUpdate s;
     monthlyDataCache := monthlyDataCache s; stats := stats s;
     clockReads := clockReads s; idsDrawn := idsDrawn s;
     emitted := emitted s |}.

Definition with_filteredTransactions (v : list Transaction) (s : HouseholdBudgetData) :=
  {| transactions := transactions s; filteredTransactions := v;
     idCounter := idCounter s; categories := categories s;
     filters := filters s; isInitialized := isInitialized s; db := db s;
     summaryCache := summaryCache s;
     lastSummaryUpdate := lastSummaryUpdate s;
     monthlyDataCache := monthlyDataCache s; stats := stats s;
     clockReads := clockReads s; idsDrawn := idsDrawn s;
     emitted := emitted s |}.

Definition with_idCounter (v : Z) (s : HouseholdBudgetData) :=
  {| transactions := transactions s;
     filteredTransactions := filteredTransactions s;
     idCounter := v; categories := categories s;
     filters := filters s; isInitialized := isInitialized s; db := db s;
     summaryCache := summaryCache s;
     lastSummaryUpdate := lastSummaryUpdate s;
     monthlyDataCache := monthlyDataCache s; stats := stats s;
     clockReads := clockReads s; idsDrawn := idsDrawn s;
     emitted := emitted s |}.

Definition with_categories (v : Categories) (s : HouseholdBudgetData) :=
  {| transactions := transactions s;
     filteredTransactions := filteredTransactions s;
     idCounter := idCounter s; categories := v;
     filters := filters s; isInitialized := isInitialized s; db := db s;
     summaryCache := summaryCache s;
     lastSummaryUpdate := lastSummaryUpdate s;
     monthlyDataCache := monthlyDataCache s; stats := stats s;
     clockReads := clockReads s; idsDrawn := idsDrawn s;
     emitted := emitted s |}.

Definition with_filters (v : Filters) (s : HouseholdBudgetData) :=
  {| transactions := transactions s;
     filteredTransactions := filteredTransactions s;
     idCounter := idCounter s; categories := categories s;
     filters := v; isInitialized := isInitialized s; db := db s;
     summaryCache := summaryCache s;
     lastSummaryUpdate := lastSummaryUpdate s;
     monthlyDataCache := monthlyDataCache s; stats := stats s;
     clockReads := clockReads s; idsDrawn := idsDrawn s;
     emitted := emitted s |}.

Definition with_isInitialized (v : bool) (s : HouseholdBudgetData) :=
  {| transactions := transactions s;
     filteredTransactions := filteredTransactions s;
     idCounter := idCounter s; categories := categories s;
     filters := filters s; isInitialized := v; db := db s;
     summaryCache := summaryCache s;
     lastSummaryUpdate := lastSummaryUpdate s;
     monthlyDataCache := monthlyDataCache s; stats := stats s;
     clockReads := clockReads s; idsDrawn := idsDrawn s;
     emitted := emitted s |}.

Definition with_db (v : bool) (s : HouseholdBudgetData) :=
  {| transactions := transactions s;
     filteredTransactions := filteredTransactions s;
     idCounter := idCounter s; categories := categories s;
     filters := filters s; isInitialized := isInitialized s; db := v;
     summaryCache := summaryCache s;
     lastSummaryUpdate := lastSummaryUpdate s;
     monthlyDataCache := monthlyDataCache s; stats := stats s;
     clockReads := clockReads s; idsDrawn := idsDrawn s;
     emitted := emitted s |}.

Definition with_summary (c : option Summary) (n : option nat) (s : HouseholdBudgetData) :=
  {| transactions := transactions s;
     filteredTransactions := filteredTransactions s;
     idCounter := idCounter s; categories := categories s;
     filters := filters s; isInitialized := isInitialized s; db := db s;
     summaryCache := c; lastSummaryUpdate := n;
     monthlyDataCache := monthlyDataCache s; stats := stats s;
     clockReads := clockReads s; idsDrawn := idsDrawn s;
     emitted := emitted s |}.

Definition with_monthlyDataCache (v : list (jsstring * MonthlyData)) (s : HouseholdBudgetData) :=
  {| transactions := transactions s;
     filteredTransactions := filteredTransactions s;
     idCounter := idCounter s; categories := categories s;
     filters := filters s; isInitialized := isInitialized s; db := db s;
     summaryCache := summaryCache s;
     lastSummaryUpdate := lastSummaryUpdate s;
     monthlyDataCache := v; stats := stats s;
     clockReads := clockReads s; idsDrawn := idsDrawn s;
     emitted := emitted s |}.

Definition with_stats (v : Stats) (s : HouseholdBudgetData) :=
  {| transactions := transactions s;
     filteredTransactions := filteredTransactions s;
     idCounter := idCounter s; categories := categories s;
     filters := filters s; isInitialized := isInitialized s; db := db s;
     summaryCache := summaryCache s;
     lastSummaryUpdate := lastSummaryUpdate s;
     monthlyDataCache := monthlyDataCache s; stats := v;
     clockReads := clockReads s; idsDrawn := idsDrawn s;
     emitted := emitted s |}.

Definition with_clockReads (v : nat) (s : HouseholdBudgetData) :=
  {| transactions := transactions s;
     filteredTransactions := filteredTransactions s;
     idCounter := idCounter s; categories := categories s;
     filters := filters s; isInitialized := isInitialized s; db := db s;
     summaryCache := summaryCache s;
     lastSummaryUpdate := lastSummaryUpdate s;
     monthlyDataCache := monthlyDataCache s; stats := stats s;
     clockReads := v; idsDrawn := idsDrawn s;
     emitted := emitted s |}.

Definition with_idsDrawn (v : nat) (s : HouseholdBudgetData) :=
  {| transactions := transactions s;
     filteredTransactions := filteredTransactions s;
     idCounter := idCounter s; categories := categories s;
     filters := filters s; isInitialized := isInitialized s; db := db s;
     summaryCache := summaryCache s;
     lastSummaryUpdate := lastSummaryUpdate s;
     monthlyDataCache := monthlyDataCache s; stats := stats s;
     clockReads := clockReads s; idsDrawn := v;
     emitted := emitted s |}.

Definition with_emitted (v : list Event) (s : HouseholdBudgetData) :=
  {| transactions := transactions s;
     filteredTransactions := filteredTransactions s;
     idCounter := idCounter s; categories := categories s;
     filters := filters s; isInitialized := isInitialized s; db := db s;
     summaryCache := summaryCache s;
     lastSummaryUpdate := lastSummaryUpdate s;
     monthlyDataCache := monthlyDataCache s; stats := stats s;
     clockReads := clockReads s; idsDrawn := idsDrawn s;
     emitted := v |}.

(** *** A state monad with exceptions

    A method either returns a value or throws; in both cases the object
    is left in the state reached so far. *)

Inductive Outcome (A : Type) :=
| Return (a : A)
| Throw (e : Error).
Arguments Return {A} a.
Arguments Throw {A} e.

Definition M (A : Type) : Type :=
  HouseholdBudgetData -> Outcome A * HouseholdBudgetData.

Definition ret {A} (a : A) : M A := fun s => (Return a, s).
Definition throw {A} (e : Error) : M A := fun s => (Throw e, s).
Definition bind {A B} (m : M A) (k : A -> M B) : M B :=
  fun s => match m s with
           | (Return a, s') => k a s'
           | (Throw e, s') => (Throw e, s')
           end.
Definition get : M HouseholdBudgetData := fun s => (Return s, s).
Definition modify (f : HouseholdBudgetData -> HouseholdBudgetData) : M unit :=
  fun s => (Return tt, f s).

(** [try { m } catch (e) { h }] *)
Definition tryCatch {A} (m : M A) (h : M A) : M A :=
  fun s => match m s with
           | (Return a, s') => (Return a, s')
           | (Throw _, s') => h s'
           end.

(** A call whose promise nobody looks at. *)
Definition forget {A} (m : M A) : M unit :=
  fun s => (Return tt, snd (m s)).

Declare Scope ledger_scope.
Delimit Scope ledger_scope with ledger.
Notation "x <- m ;; k" := (bind m (fun x => k))
  (at level 100, m at next level, right associativity) : ledger_scope.
Notation "m ;;; k" := (bind m (fun _ => k))
  (at level 100, right associativity) : ledger_scope.
Local Open Scope ledger_scope.

Fixpoint forEach {A} (f : A -> M unit) (l : list A) : M unit :=
  match l with
  | [] => ret tt
  | x :: l' => f x ;;; forEach f l'
  end.

(** The state a call leaves behind, and what it answers. *)
Definition after {A} (m : M A) (s : HouseholdBudgetData) : HouseholdBudgetData :=
  snd (m s).
Definition answer {A} (m : M A) (s : HouseholdBudgetData) : Outcome A :=
  fst (m s).

(** *** Reading the host *)

Definition now `{Host} : M Z :=
  fun s => (Return (Date_now (clockReads s)),
            with_clockReads (S (clockReads s)) s).

Definition generateUniqueId `{Host} : M jsstring :=
  fun s => (Return (generateId (idsDrawn s)),
            with_idsDrawn (S (idsDrawn s)) s).

(** [this.emit(...)]: the event is recorded.  What the subscribed
    listeners do is the matter of [EventEmitter] below; here they are
    taken to return and to leave the object alone. *)
Definition emit (e : Event) : M unit :=
  modify (fun s => with_emitted (emitted s ++ [e]) s).

(** [this.isInitialized && this.dbManager.db]: the branch in which a
    method awaits the database. *)
Definition persists (s : HouseholdBudgetData) : bool :=
  isInitialized s && db s.

(** *** The constructor *)

Definition DEFAULT_CATEGORIES : Categories :=
  {| income :=
       [ [32102; 19982]%N; [12508; 12540; 12490; 12473]%N;
         [21103; 26989]%N; [25237; 36039]%N;
         [12381; 12398; 20182; 21454; 20837]%N ];
     expense :=
       [ [39135; 36027]%N; [20132; 36890; 36027]%N;
         [20809; 29105; 36027]%N; [36890; 20449; 36027]%N;
         [23087; 27005]%N; [21307; 30274; 36027]%N; [34915; 26381]%N;
         [26085; 29992; 21697]%N;
         [12381; 12398; 20182; 25903; 20986]%N ] |}.

Definition constructor `{Host} : HouseholdBudgetData :=
  {| transactions := [];
     filteredTransactions := [];
     idCounter := 1;
     categories := DEFAULT_CATEGORIES;
     filters := {| f_type := []; f_category := []; f_month := [] |};
     isInitialized := false;
     db := false;
     summaryCache := None;
     lastSummaryUpdate := None;
     monthlyDataCache := [];
     stats := {| totalTransactions := 0; lastModified := None;
                 stats_createdAt := Date_now 0;
                 oldestTransaction := None; newestTransaction := None |};
     clockReads := 1;
     idsDrawn := 0;
     emitted := [] |}.

(** *** invalidateCache and updateStats *)

Definition invalidateCache : M unit :=
  modify (fun s => with_monthlyDataCache [] (with_summary None None s)).

Fixpoint parseAll `{Host} (dates : list jsstring) : option (list Z) :=
  match dates with
  | [] => Some []
  | d :: rest =>
      match Date_parse d, parseAll rest with
      | Some v, Some vs => Some (v :: vs)
      | _, _ => None
      end
  end.

(** [Math.min(...l)] and [Math.max(...l)] on a list that is not empty. *)
Definition Math_min (l : list Z) : Z :=
  match l with [] => 0 | x :: l' => fold_left Z.min l' x end.
Definition Math_max (l : list Z) : Z :=
  match l with [] => 0 | x :: l' => fold_left Z.max l' x end.

Definition updateStats `{Host} : M unit :=
  t <- now ;;
  modify (fun s =>
    with_stats
      {| totalTransactions := length (transactions s);
         lastModified := Some t;
         stats_createdAt := stats_createdAt (stats s);
         oldestTransaction := oldestTransaction (stats s);
         newestTransaction := newestTransaction (stats s) |} s) ;;;
  s <- get ;;
  if (0 <? length (transactions s))%nat then
    match parseAll (map t_date (transactions s)) with
    | None => throw RangeError
    | Some dates =>
        modify (fun s =>
          with_stats
            {| totalTransactions := totalTransactions (stats s);
               lastModified := lastModified (stats s);
               stats_createdAt := stats_createdAt (stats s);
               oldestTransaction := Some (Math_min dates);
               newestTransaction := Some (Math_max dates) |} s)
    end
  else ret tt.

(** *** toSaveFormat and createAutoBackup *)

Record SaveFormat := {
  sf_timestamp : Z;
  sf_transactions : option (list Transaction);
  sf_categories : option Categories;
  sf_idCounter : option Z;
  sf_filters : option Filters;
  sf_stats : option Stats
}.

(** The object returned refers to the arrays and objects of the
    ledger; the record holds what they contain when the method returns,
    which is what a reader sees who uses it at once or stores it as
    JSON. *)
Definition toSaveFormat `{Host} : M SaveFormat :=
  t <- now ;;
  s <- get ;;
  ret {| sf_timestamp := t;
         sf_transactions := Some (transactions s);
         sf_categories := Some (categories s);
         sf_idCounter := Some (idCounter s);
         sf_filters := Some (filters s);
         sf_stats := Some (stats s) |}.

(** Only the clock readings of the backup are modelled; when there is no
    database the backup written to localStorage is stamped once more. *)
Definition createAutoBackup `{Host} : M unit :=
  _ <- toSaveFormat ;;
  s <- get ;;
  if persists s then ret tt else (_ <- now ;; ret tt).

(** *** addTransaction *)

(** The object built from [sanitizedData]; every key is present when the
    validation succeeded. *)
Definition record (id : jsstring) (sd : SanitizedData) (created updated : Z)
    : Transaction :=
  {| t_id := id;
     t_date := default [] (sd_date sd);
     t_type := default [] (sd_type sd);
     t_category := default [] (sd_category sd);
     t_amount := default 0 (sd_amount sd);
     t_description := sd_description sd;
     t_createdAt := created;
     t_updatedAt := updated |}.

(** [this.transactions.length % AUTO_BACKUP_INTERVAL === 0] *)
Definition backupDue (n : nat) : bool :=
  (n mod CONSTANTS.AUTO_BACKUP_INTERVAL =? 0)%nat.

Definition autoBackup `{Host} : M unit :=
  s <- get ;;
  if backupDue (length (transactions s)) then createAutoBackup else ret tt.

Definition addTransaction `{Host} (transactionData : Draft) : M Transaction :=
  let validation := validateAndSanitizeTransaction transactionData in
  if negb (isValid validation) then
    throw (ValidationError (errors validation))
  else
    id <- generateUniqueId ;;
    created <- now ;;
    updated <- now ;;
    let transaction := record id (sanitizedData validation) created updated in
    modify (fun s => with_transactions (transactions s ++ [transaction]) s) ;;;
    invalidateCache ;;;
    updateStats ;;;
    autoBackup ;;;
    emit (TransactionAdded transaction) ;;;
    emit DataChanged ;;;
    ret transaction.

(** *** updateTransaction *)

Fixpoint findIndex {A} (p : A -> bool) (l : list A) : option nat :=
  match l with
  | [] => None
  | x :: l' => if p x then Some O else S <$> findIndex p l'
  end.

Definition has_id (id : jsstring) (t : Transaction) : bool :=
  str_eqb (t_id t) id.

(** The keys of [updates] that the validation reads. *)
Record Patch := {
  p_date : option jsval;
  p_type : option jsval;
  p_category : option jsval;
  p_amount : option jsval;
  p_description : option jsval
}.

(** [{ ...currentTransaction, ...updates }] *)
Definition merged (current : Transaction) (updates : Patch) : Draft :=
  {| d_date := default (VStr (t_date current)) (p_date updates);
     d_type := default (VStr (t_type current)) (p_type updates);
     d_category := default (VStr (t_category current)) (p_category updates);
     d_amount :=
       default (VNum (Fin (inject_Z (t_amount current)))) (p_amount updates);
     d_description :=
       default (VStr (t_description current)) (p_description updates) |}.

(** The method up to the point where it awaits the database. *)
Definition updateTransaction_replace `{Host} (id : jsstring) (updates : Patch)
    : M Transaction :=
  s <- get ;;
  match findIndex (has_id id) (transactions s) with
  | None => throw NotFound
  | Some index =>
      match transactions s !! index with
      | None => throw TypeError
      | Some currentTransaction =>
          let validation :=
            validateAndSanitizeTransaction (merged currentTransaction updates) in
          if negb (isValid validation) then
            throw (ValidationError (errors validation))
          else
            updated <- now ;;
            let updatedTransaction :=
              record id (sanitizedData validation)
                     (t_createdAt currentTransaction) updated in
            modify (fun s =>
              with_transactions (<[index := updatedTransaction]> (transactions s)) s) ;;;
            ret updatedTransaction
      end
  end.

(** The rest of the method. *)
Definition updateTransaction_settle `{Host} (updatedTransaction : Transaction)
    : M Transaction :=
  invalidateCache ;;;
  updateStats ;;;
  emit (TransactionUpdated updatedTransaction) ;;;
  emit DataChanged ;;;
  ret updatedTransaction.

Definition updateTransaction `{Host} (id : jsstring) (updates : Patch)
    : M Transaction :=
  updatedTransaction <- updateTransaction_replace id updates ;;
  updateTransaction_settle updatedTransaction.

(** *** deleteTransaction *)

Definition deleteTransaction `{Host} (id : jsstring) : M (option Transaction) :=
  s <- get ;;
  match findIndex (has_id id) (transactions s) with
  | None => ret None
  | Some index =>
      match transactions s !! index with
      | None => throw TypeError
      | Some deleted =>
          modify (fun s => with_transactions (delete index (transactions s)) s) ;;;
          invalidateCache ;;;
          updateStats ;;;
          emit (TransactionDeleted deleted) ;;;
          emit DataChanged ;;;
          ret (Some deleted)
      end
  end.

(** *** addTransactionsBatch *)

Definition RowError : Type := nat * list FieldError.

(** The validation loop; [i] is the index of the next row. *)
Fixpoint validateRows `{Host} (i : nat) (rows : list Draft)
    (validTransactions : list Transaction) (errs : list RowError)
    : M (list Transaction * list RowError) :=
  match rows with
  | [] => ret (validTransactions, errs)
  | row :: rest =>
      let validation := validateAndSanitizeTransaction row in
      if isValid validation then
        id <- generateUniqueId ;;
        created <- now ;;
        updated <- now ;;
        validateRows (S i) rest
          (validTransactions ++ [record id (sanitizedData validation) created updated])
          errs
      else
        validateRows (S i) rest validTransactions
          (errs ++ [(S i, errors validation)])
  end.

Definition addTransactionsBatch `{Host} (rows : list Draft)
    : M (list Transaction * list RowError) :=
  checked <- validateRows 0 rows [] [] ;;
  let validTransactions := fst checked in
  let errs := snd checked in
  if (length validTransactions =? 0)%nat then
    throw (NoValidTransactions errs)
  else
    modify (fun s => with_transactions (transactions s ++ validTransactions) s) ;;;
    invalidateCache ;;;
    updateStats ;;;
    emit (TransactionsBatchAdded validTransactions) ;;;
    emit DataChanged ;;;
    ret (validTransactions, errs).

(** *** applyFilters *)

Record FilterPatch := {
  fp_type : option jsstring;
  fp_category : option jsstring;
  fp_month : option jsstring
}.

(** [{ ...this.filters, ...filters }] *)
Definition mergeFilters (old : Filters) (new : FilterPatch) : Filters :=
  {| f_type := default (f_type old) (fp_type new);
     f_category := default (f_category old) (fp_category new);
     f_month := default (f_month old) (fp_month new) |}.

Definition passes (f : Filters) (transaction : Transaction) : bool :=
  let typeMatch :=
    str_eqb (f_type f) [] || str_eqb (t_type transaction) (f_type f) in
  let categoryMatch :=
    str_eqb (f_category f) []
    || str_eqb (t_category transaction) (f_category f) in
  let monthMatch :=
    str_eqb (f_month f) [] || startsWith (t_date transaction) (f_month f) in
  typeMatch && categoryMatch && monthMatch.

(** [new Date(x.date) - new Date(y.date)]; [None] is NaN. *)
Definition dateDifference `{Host} (x y : Transaction) : option Z :=
  match Date_parse (t_date x), Date_parse (t_date y) with
  | Some vx, Some vy => Some (vx - vy)
  | _, _ => None
  end.

(** [Array.prototype.sort] is stable, and a comparator result that is
    NaN counts as zero: [x], which came first, stays before [y] unless
    the comparator is positive.  (With dates that do not parse the
    comparator is not consistent and the order is left to the
    implementation; insertion is one such order.) *)
Definition staysBefore (cmp : Transaction -> Transaction -> option Z)
    (x y : Transaction) : bool :=
  match cmp x y with
  | Some v => v <=? 0
  | None => true
  end.

Fixpoint insertBy (cmp : Transaction -> Transaction -> option Z)
    (x : Transaction) (l : list Transaction) : list Transaction :=
  match l with
  | [] => [x]
  | y :: l' => if staysBefore cmp x y then x :: y :: l' else y :: insertBy cmp x l'
  end.

Definition sortBy (cmp : Transaction -> Transaction -> option Z)
    (l : list Transaction) : list Transaction :=
  fold_right (insertBy cmp) [] l.

Definition applyFilters `{Host} (new : FilterPatch) : M unit :=
  modify (fun s => with_filters (mergeFilters (filters s) new) s) ;;;
  modify (fun s =>
    with_filteredTransactions
      (sortBy (fun a b => dateDifference b a)
              (List.filter (passes (filters s)) (transactions s))) s) ;;;
  s <- get ;;
  emit (FiltersApplied (filteredTransactions s)).

(** *** calculateSummary *)

Definition ofType (type : jsstring) (t : Transaction) : bool :=
  str_eqb (t_type t) type.

(** [.filter(t => t.type === type).reduce((sum, t) => sum + t.amount, 0)] *)
Definition total (type : jsstring) (l : list Transaction) : Z :=
  fold_left (fun sum t => sum + t_amount t) (List.filter (ofType type) l) 0.

Definition average (sum : Z) (count : nat) : Q :=
  if (0 <? count)%nat then (inject_Z sum / inject_Z (Z.of_nat count))%Q
  else 0%Q.

Definition summarize (l : list Transaction) : Summary :=
  let income := total CONSTANTS.INCOME l in
  let expense := total CONSTANTS.EXPENSE l in
  {| s_income := income;
     s_expense := expense;
     s_balance := income - expense;
     s_transactionCount := length l;
     s_avgIncome :=
       average income (length (List.filter (ofType CONSTANTS.INCOME) l));
     s_avgExpense :=
       average expense (length (List.filter (ofType CONSTANTS.EXPENSE) l)) |}.

Definition sameCount (a : option nat) (n : nat) : bool :=
  match a with Some m => (m =? n)%nat | None => false end.

Definition calculateSummary : M Summary :=
  s <- get ;;
  match summaryCache s with
  | Some cached =>
      if sameCount (lastSummaryUpdate s) (length (transactions s))
      then ret cached
      else
        let fresh := summarize (transactions s) in
        modify (with_summary (Some fresh) (Some (length (transactions s)))) ;;;
        ret fresh
  | None =>
      let fresh := summarize (transactions s) in
      modify (with_summary (Some fresh) (Some (length (transactions s)))) ;;;
      ret fresh
  end.

(** *** getMonthlyData *)

Inductive MonthSpan :=
| Months (n : nat)
| AllMonths          (* ['all'] *)
| InfiniteMonths.    (* [Infinity] *)

(** A number in a template literal. *)
Definition decimal (z : Z) : jsstring := js (NilZero.string_of_int (Z.to_int z)).

(** [String(n).padStart(2, '0')] *)
Definition padStart2 (s : jsstring) : jsstring :=
  match s with
  | [] => js "00"
  | [c] => js "0" ++ [c]
  | _ => s
  end.

(** [new Date(year, month, 1)] read back with [getFullYear] and
    [getMonth]: years 0 to 99 mean 1900 to 1999, and the month index
    carries into the year.  (Within the range of [Date].) *)
Definition firstOfMonth (year month : Z) : Z * Z :=
  let yr := if (0 <=? year) && (year <=? 99) then 1900 + year else year in
  (yr + month / 12, month mod 12).

Definition monthKey (date : Z * Z) : jsstring :=
  decimal (fst date) ++ js "-" ++ padStart2 (decimal (snd date + 1)).

(** [Map.prototype.set] *)
Fixpoint mapSet {V} (key : jsstring) (v : V) (m : list (jsstring * V))
    : list (jsstring * V) :=
  match m with
  | [] => [(key, v)]
  | (k, w) :: m' =>
      if str_eqb k key then (k, v) :: m' else (k, w) :: mapSet key v m'
  end.

(** [Map.prototype.get] *)
Fixpoint mapGet {V} (key : jsstring) (m : list (jsstring * V)) : option V :=
  match m with
  | [] => None
  | (k, w) :: m' => if str_eqb k key then Some w else mapGet key m'
  end.

Definition spanKey (months : MonthSpan) : jsstring :=
  match months with
  | Months n => decimal (Z.of_nat n)
  | AllMonths => js "all"
  | InfiniteMonths => js "Infinity"
  end.

(** The months of the window, all at zero. *)
Definition emptyMonths `{Host} (months : MonthSpan) (endDate : Z)
    (l : list Transaction) : MonthlyData :=
  match months with
  | Months n =>
      fold_left
        (fun data i =>
           mapSet (monthKey (firstOfMonth (Date_getFullYear endDate)
                                          (Date_getMonth endDate - Z.of_nat i)))
                  (0, 0) data)
        (rev (seq 0 n)) []
  | _ =>
      let sortedTransactions := sortBy dateDifference l in
      match head sortedTransactions, last sortedTransactions with
      | Some first, Some final =>
          match Date_parse (t_date first), Date_parse (t_date final) with
          | Some firstDate, Some lastDate =>
              let totalMonths :=
                (Date_getFullYear lastDate - Date_getFullYear firstDate) * 12
                + (Date_getMonth lastDate - Date_getMonth firstDate) + 1 in
              fold_left
                (fun data i =>
                   mapSet (monthKey (firstOfMonth (Date_getFullYear firstDate)
                                                  (Date_getMonth firstDate + Z.of_nat i)))
                          (0, 0) data)
                (seq 0 (Z.to_nat totalMonths)) []
          | _, _ => []
          end
      | _, _ => []
      end
  end.

(** One transaction added to the month it falls in, when that month is
    in the window: the income total for an income, the expense total for
    anything else. *)
Definition accumulate (data : MonthlyData) (transaction : Transaction)
    : MonthlyData :=
  let month := firstn 7 (t_date transaction) in
  match mapGet month data with
  | Some (inc, exp) =>
      if str_eqb (t_type transaction) CONSTANTS.INCOME
      then mapSet month (inc + t_amount transaction, exp) data
      else mapSet month (inc, exp + t_amount transaction) data
  | None => data
  end.

(** [endDate] is the time value of the argument, or [None] when the
    argument is left out and defaults to [new Date()]. *)
Definition getMonthlyData `{Host} (months : MonthSpan) (endDate : option Z)
    : M MonthlyData :=
  endDate <- match endDate with Some d => ret d | None => now end ;;
  let cacheKey :=
    spanKey months ++ js "-" ++ firstn 7 (Date_toISOString endDate) in
  s <- get ;;
  match mapGet cacheKey (monthlyDataCache s) with
  | Some cached => ret cached
  | None =>
      let monthlyData :=
        fold_left accumulate (transactions s)
                  (emptyMonths months endDate (transactions s)) in
      modify (fun s =>
        with_monthlyDataCache (mapSet cacheKey monthlyData (monthlyDataCache s)) s) ;;;
      ret monthlyData
  end.

(** *** addCategory and removeCategory *)

(** [this.categories[type]] *)
Definition categoriesOf (type : jsstring) (c : Categories)
    : option (list jsstring) :=
  if str_eqb type CONSTANTS.INCOME then Some (income c)
  else if str_eqb type CONSTANTS.EXPENSE then Some (expense c)
  else None.

(** [this.categories[type] = names] for one of the two types *)
Definition setCategoriesOf (type : jsstring) (names : list jsstring)
    (c : Categories) : Categories :=
  if str_eqb type CONSTANTS.INCOME
  then {| income := names; expense := expense c |}
  else {| income := income c; expense := names |}.

Definition includes (l : list jsstring) (x : jsstring) : bool :=
  existsb (str_eqb x) l.

Definition addCategory (type : jsstring) (categoryName : jsval) : M bool :=
  let sanitizedName := sanitizeCategory categoryName in
  if str_eqb sanitizedName [] then throw InvalidCategoryName
  else
    s <- get ;;
    match categoriesOf type (categories s) with
    | None => throw TypeError
    | Some names =>
        if includes names sanitizedName then throw CategoryExists
        else
          modify (fun s =>
            with_categories
              (setCategoriesOf type (names ++ [sanitizedName]) (categories s)) s) ;;;
          emit (CategoryAdded type sanitizedName) ;;;
          ret true
    end.

Definition refersTo (type categoryName : jsstring) (t : Transaction) : bool :=
  str_eqb (t_type t) type && str_eqb (t_category t) categoryName.

(** [{ category: replacementCategory }] *)
Definition recategorize (replacementCategory : jsval) : Patch :=
  {| p_date := None; p_type := None;
     p_category := Some replacementCategory;
     p_amount := None; p_description := None |}.

(** What a call of [updateTransaction] whose promise is not awaited has
    done when control comes back to the caller, and the record whose
    second half is still to run.  Without a database the method has no
    await to stop at and runs to its end; a rejection is not seen. *)
Definition updateTransaction_started `{Host} (id : jsstring) (updates : Patch)
    : M (option Transaction) :=
  s <- get ;;
  if persists s then
    tryCatch (u <- updateTransaction_replace id updates ;; ret (Some u))
             (ret None)
  else
    forget (updateTransaction id updates) ;;; ret None.

Fixpoint startAll `{Host} (related : list Transaction) (updates : Patch)
    : M (list Transaction) :=
  match related with
  | [] => ret []
  | t :: rest =>
      started <- updateTransaction_started (t_id t) updates ;;
      pending <- startAll rest updates ;;
      ret (match started with Some u => u :: pending | None => pending end)
  end.

(** The method itself, up to its return or throw. *)
Definition removeCategory_body `{Host} (type categoryName : jsstring)
    (replacementCategory : jsval) : M (list Transaction * nat) :=
  s <- get ;;
  let relatedTransactions :=
    List.filter (refersTo type categoryName) (transactions s) in
  pending <-
    (if (0 <? length relatedTransactions)%nat then
       if negb (truthy replacementCategory) then
         throw (CategoryInUse (length relatedTransactions))
       else startAll relatedTransactions (recategorize replacementCategory)
     else ret []) ;;
  fun s' =>
    match
      (match categoriesOf type (categories s') with
       | None => throw TypeError
       | Some names =>
           modify (fun s =>
             with_categories
               (setCategoriesOf type
                  (List.filter (fun c => negb (str_eqb c categoryName)) names)
                  (categories s)) s) ;;;
           emit (CategoryRemoved type categoryName) ;;;
           emit DataChanged ;;;
           ret (length relatedTransactions)
       end) s'
    with
    | (Return n, s'') => (Return (pending, n), s'')
    | (Throw e, s'') =>
        (* the updates already started still run to their end *)
        (Throw e,
         after (forEach (fun u => forget (updateTransaction_settle u)) pending) s'')
    end.

(** The call together with the second halves of the updates it started,
    which run once the database has answered. *)
Definition removeCategory `{Host} (type categoryName : jsstring)
    (replacementCategory : jsval) : M nat :=
  r <- removeCategory_body type categoryName replacementCategory ;;
  forEach (fun u => forget (updateTransaction_settle u)) (fst r) ;;;
  ret (snd r).

(** *** fromSaveFormat and clearAllData *)

(** [{ ...this.stats, ...data.stats }]: the two optional keys are copied
    only when [data.stats] has them. *)
Definition mergeStats (old new : Stats) : Stats :=
  {| totalTransactions := totalTransactions new;
     lastModified := lastModified new;
     stats_createdAt := stats_createdAt new;
     oldestTransaction :=
       match oldestTransaction new with
       | Some v => Some v
       | None => oldestTransaction old
       end;
     newestTransaction :=
       match newestTransaction new with
       | Some v => Some v
       | None => newestTransaction old
       end |}.

(** In [{ ...DEFAULT_CATEGORIES, ...data.categories }] and in
    [{ ...this.filters, ...data.filters }] every key of the left object
    is overwritten, a stored object having all of them. *)
Definition fromSaveFormat `{Host} (data : SaveFormat) : M unit :=
  (match sf_transactions data with
   | Some l => modify (with_transactions l)
   | None => ret tt
   end) ;;;
  (match sf_categories data with
   | Some c => modify (with_categories c)
   | None => ret tt
   end) ;;;
  (match sf_idCounter data with
   | Some n => if n =? 0 then ret tt else modify (with_idCounter n)
   | None => ret tt
   end) ;;;
  (match sf_filters data with
   | Some f => modify (with_filters f)
   | None => ret tt
   end) ;;;
  (match sf_stats data with
   | Some st => modify (fun s => with_stats (mergeStats (stats s) st) s)
   | None => ret tt
   end) ;;;
  invalidateCache ;;;
  updateStats ;;;
  emit DataLoaded ;;;
  emit DataChanged.

(** [localStorage.removeItem] is the one use of localStorage that stands
    outside every [try].  Where the storage is missing or refuses
    access it throws, and the method ends there: the two arrays have been
    emptied, and nothing of what follows has been done.
    [storageAnswers] tells whether the storage lets the item be
    removed. *)
Definition clearAllData `{Host} (storageAnswers : bool) : M unit :=
  modify (with_transactions []) ;;;
  modify (with_filteredTransactions []) ;;;
  (if storageAnswers then ret tt else throw StorageError) ;;;
  invalidateCache ;;;
  updateStats ;;;
  emit DataCleared ;;;
  emit DataChanged.

(** *** init

    What the two stores answer when the object is initialized. *)

Record Settings := {
  set_categories : option Categories;
  set_filters : option Filters;
  set_idCounter : option Z;
  set_stats : option Stats
}.

(** What a request to the database comes to: its promise is rejected,
    or resolved with a value. *)
Inductive Read (A : Type) :=
| Rejected
| Resolved (a : A).
Arguments Rejected {A}.
Arguments Resolved {A} a.

(** The database cannot be opened, or it is open and answers the two
    reads of [loadData]. *)
Inductive Database :=
| DatabaseUnavailable
| DatabaseOpen (stored : Read (list Transaction))
               (settings : Read (option Settings)).

Inductive LocalStorage :=
| LocalEmpty
| LocalUnreadable
| LocalArray (l : list Transaction)
| LocalObject (data : SaveFormat).

(** [this.categories = settings.categories || this.categories] and the
    three assignments that follow it *)
Definition applySettings (st : Settings) (s : HouseholdBudgetData)
    : HouseholdBudgetData :=
  with_stats (default (stats s) (set_stats st))
    (with_idCounter
       (match set_idCounter st with
        | Some n => if n =? 0 then idCounter s else n
        | None => idCounter s
        end)
       (with_filters (default (filters s) (set_filters st))
          (with_categories (default (categories s) (set_categories st)) s))).

Definition loadData `{Host} (stored : Read (list Transaction))
    (settings : Read (option Settings)) : M unit :=
  match stored with
  | Rejected => throw DatabaseError
  | Resolved l =>
      modify (with_transactions l) ;;;
      match settings with
      | Rejected => throw DatabaseError
      | Resolved found =>
          (match found with
           | Some st => modify (applySettings st)
           | None => ret tt
           end) ;;;
          updateStats
      end
  end.

Definition loadFromLocalStorage `{Host} (local : LocalStorage) : M unit :=
  tryCatch
    ((match local with
      | LocalEmpty => ret tt
      | LocalUnreadable => throw SyntaxError
      | LocalArray l => modify (with_transactions l)
      | LocalObject data => fromSaveFormat data
      end) ;;;
     modify (with_isInitialized true) ;;;
     updateStats ;;;
     emit DataLoaded ;;;
     emit DataChanged)
    (modify (with_isInitialized true) ;;; emit DataLoaded).

Definition init `{Host} (database : Database) (local : LocalStorage) : M unit :=
  match database with
  | DatabaseUnavailable => loadFromLocalStorage local
  | DatabaseOpen stored settings =>
      modify (with_db true) ;;;
      tryCatch
        (loadData stored settings ;;;
         modify (with_isInitialized true) ;;;
         emit DataLoaded ;;;
         emit DataChanged)
        (loadFromLocalStorage local)
  end.

(** *** The calls of a session *)

Inductive Call :=
| AddTransaction (transactionData : Draft)
| UpdateTransaction (id : jsstring) (updates : Patch)
| DeleteTransaction (id : jsstring)
| AddTransactionsBatch (rows : list Draft)
| ApplyFilters (new : FilterPatch)
| CalculateSummary
| GetMonthlyData (months : MonthSpan) (endDate : option Z)
| AddCategory (type : jsstring) (categoryName : jsval)
| RemoveCategory (type categoryName : jsstring) (replacementCategory : jsval)
| ToSaveFormat
| FromSaveFormat (data : SaveFormat)
| ClearAllData (storageAnswers : bool).

(** The state in which a call leaves the ledger when all of it has run,
    whether it returned or threw, and nothing else has run in between:
    what follows an await is included, and so are the second halves of
    the updates that [removeCategory] starts and does not wait for.  A
    ledger without a database has no await and no second halves: there
    every method has run to its end when it hands control back.  With a
    database the ledger is also seen while a call waits; the first
    halves ([updateTransaction_replace], [updateTransaction_started],
    [removeCategory_body]) give those states. *)
Definition perform `{Host} (c : Call) (s : HouseholdBudgetData)
    : HouseholdBudgetData :=
  match c with
  | AddTransaction d => after (addTransaction d) s
  | UpdateTransaction id u => after (updateTransaction id u) s
  | DeleteTransaction id => after (deleteTransaction id) s
  | AddTransactionsBatch rows => after (addTransactionsBatch rows) s
  | ApplyFilters f => after (applyFilters f) s
  | CalculateSummary => after calculateSummary s
  | GetMonthlyData m e => after (getMonthlyData m e) s
  | AddCategory ty n => after (addCategory ty n) s
  | RemoveCategory ty n r => after (removeCategory ty n r) s
  | ToSaveFormat => after toSaveFormat s
  | FromSaveFormat data => after (fromSaveFormat data) s
  | ClearAllData storageAnswers => after (clearAllData storageAnswers) s
  end.

(** Calls made one after the other, each having run as [perform] says
    before the next one starts.  Three methods are not among the calls:
    [init], which may be called on a ledger in use as well as on a new
    one and is applied to a state directly; [repairData], which nothing
    calls and which refers to a [DateParser] that the module does not
    import; and [destroy], after which the object is not used. *)
Definition session `{Host} (calls : list Call) (s : HouseholdBudgetData)
    : HouseholdBudgetData :=
  fold_left (fun s c => perform c s) calls s.

(** *** validateDataIntegrity

    The method reads the object and changes nothing.  With the fields of
    a stored record typed as they are here, an id, a date or a category
    is falsy when it is the empty string, and an amount is a number. *)

Inductive Issue :=
| DuplicateId (id : jsstring)                      (* 重複ID *)
| IdMissing (row : nat)                            (* IDが不正 *)
| DateMissing (row : nat)                          (* 日付が不正 *)
| TypeUnknown (row : nat)                          (* 種別が不正 *)
| CategoryMissing (row : nat)                      (* カテゴリが不正 *)
| AmountNotPositive (row : nat)                    (* 金額が不正 *)
| CategoryUnknown (row : nat) (category : jsstring).   (* 存在しないカテゴリ *)

Record Integrity := {
  i_isValid : bool;
  i_issues : list Issue;
  i_duplicateIds : list jsstring;
  i_totalTransactions : nat;
  i_uniqueIds : nat;
  i_categories : nat
}.

(** The first loop.  [seenIds] and [duplicateIds] are sets, kept in the
    order in which their members were added. *)
Fixpoint checkIds (l : list Transaction) (seenIds duplicateIds : list jsstring)
    (issues : list Issue) : list jsstring * list jsstring * list Issue :=
  match l with
  | [] => (seenIds, duplicateIds, issues)
  | t :: rest =>
      if includes seenIds (t_id t) then
        checkIds rest seenIds
          (if includes duplicateIds (t_id t) then duplicateIds
           else duplicateIds ++ [t_id t])
          (issues ++ [DuplicateId (t_id t)])
      else checkIds rest (seenIds ++ [t_id t]) duplicateIds issues
  end.

(** [forEach((t, index) => ...)], the body pushing issues. *)
Fixpoint forEachIndexed (body : nat -> Transaction -> list Issue) (index : nat)
    (l : list Transaction) : list Issue :=
  match l with
  | [] => []
  | t :: rest => body index t ++ forEachIndexed body (S index) rest
  end.

(** The body of the second loop; the rows are numbered from one. *)
Definition checkFields (index : nat) (t : Transaction) : list Issue :=
  (if str_eqb (t_id t) [] then [IdMissing (S index)] else []) ++
  (if str_eqb (t_date t) [] then [DateMissing (S index)] else []) ++
  (match knownType (VStr (t_type t)) with
   | Some _ => []
   | None => [TypeUnknown (S index)]
   end) ++
  (if str_eqb (t_category t) [] then [CategoryMissing (S index)] else []) ++
  (if t_amount t <=? 0 then [AmountNotPositive (S index)] else []).

(** The body of the third loop. *)
Definition checkCategory (allCategories : list jsstring) (index : nat)
    (t : Transaction) : list Issue :=
  if includes allCategories (t_category t) then []
  else [CategoryUnknown (S index) (t_category t)].

Definition validateDataIntegrity (s : HouseholdBudgetData) : Integrity :=
  let '(seenIds, duplicateIds, issues) := checkIds (transactions s) [] [] [] in
  let issues := issues ++ forEachIndexed checkFields 0 (transactions s) in
  let allCategories := income (categories s) ++ expense (categories s) in
  let issues :=
    issues ++ forEachIndexed (checkCategory allCategories) 0 (transactions s) in
  {| i_isValid := (length issues =? 0)%nat;
     i_issues := issues;
     i_duplicateIds := duplicateIds;
     i_totalTransactions := length (transactions s);
     i_uniqueIds := length seenIds;
     i_categories := length allCategories |}.


End Ledger.

(** ** eventEmitter.js

    A listener is known by its identity (the function object subscribed).
    What a listener does when it is called is given by a table: it may
    subscribe and unsubscribe listeners, and it returns or throws.  The
    table is indexed by the event being dispatched and the arguments. *)

Module EventEmitter.

Inductive value :=
| Failure (code : nat)       (* a thrown value *)
| Name (event : string)      (* an event name passed as an argument *)
| Data (n : nat).

Inductive action :=
| On (event : string) (listener : nat)
| Off (event : string) (listener : nat).

Record reaction := {
  acts : list action;
  thrown : option value
}.

Definition behaviour := nat -> string -> list value -> reaction.

(** [this.events] *)
Abbreviation registry := (gmap string (list nat)).

Definition on (event : string) (listener : nat) (events : registry) : registry :=
  <[event := default [] (events !! event) ++ [listener]]> events.

(** [listeners.indexOf(l)] followed by [splice(index, 1)] *)
Fixpoint removeFirst (l : nat) (listeners : list nat) : list nat :=
  match listeners with
  | [] => []
  | x :: rest => if (x =? l)%nat then rest else x :: removeFirst l rest
  end.

Definition off (event : string) (listenerToRemove : nat) (events : registry)
    : registry :=
  match events !! event with
  | None => events
  | Some listeners =>
      match removeFirst listenerToRemove listeners with
      | [] => delete event events
      | rest => <[event := rest]> events
      end
  end.

Definition perform (events : registry) (a : action) : registry :=
  match a with
  | On event l => on event l events
  | Off event l => off event l events
  end.

Inductive entry :=
| Emitted (event : string) (args : list value)
| Called (event : string) (listener : nat) (args : list value).

(** [Done b]: [emit] returned [b].  [Overflow]: the call stack was
    exhausted and the RangeError left [emit]. *)
Inductive outcome :=
| Done (b : bool)
| Overflow.

Definition result : Type := outcome * registry * list entry.

(** The [forEach] over the copy of the listener array. *)
Fixpoint dispatch (beh : behaviour)
    (emit' : string -> list value -> registry -> result)
    (event : string) (args : list value) (listeners : list nat)
    (events : registry) (log : list entry) : result :=
  match listeners with
  | [] => (Done true, events, log)
  | listener :: rest =>
      let r := beh listener event args in
      let events := fold_left perform (acts r) events in
      let log := log ++ [Called event listener args] in
      match thrown r with
      | None => dispatch beh emit' event args rest events log
      | Some error =>
          match emit' "error" [error; Name event] events with
          | (Done _, events, sub) =>
              dispatch beh emit' event args rest events (log ++ sub)
          | (Overflow, events, sub) => (Overflow, events, log ++ sub)
          end
      end
  end.

(** [depth] bounds the nesting of calls that the stack can hold. *)
Fixpoint emit (beh : behaviour) (depth : nat) (event : string)
    (args : list value) (events : registry) : result :=
  match depth with
  | O => (Overflow, events, [])
  | S depth' =>
      match events !! event with
      | None => (Done false, events, [Emitted event args])
      | Some listeners =>
          dispatch beh (emit beh depth') event args listeners events
                   [Emitted event args]
      end
  end.

(** The listeners called for [event], in the order of the calls. *)
Definition calledFor (event : string) (log : list entry) : list nat :=
  flat_map (fun e =>
    match e with
    | Called ev l _ => if String.eqb ev event then [l] else []
    | Emitted _ _ => []
    end) log.

(** [removeAllListeners(event)]: with the argument left out, or falsy as
    the empty name is, the whole registry is cleared. *)
Definition removeAllListeners (event : option string) (events : registry)
    : registry :=
  match event with
  | Some name => if String.eqb name EmptyString then ∅ else delete name events
  | None => ∅
  end.

Definition listenerCount (event : string) (events : registry) : nat :=
  match events !! event with
  | Some l => length l
  | None => 0
  end.

(** [listeners(event)]: a copy of the array, or an empty array. *)
Definition listeners (event : string) (events : registry) : list nat :=
  match events !! event with
  | Some l => l
  | None => []
  end.

(** [once(event, listener)] subscribes a function of its own making,
    [onceWrapper], which unsubscribes itself and then calls [listener].
    [wrapper] is the identity of that function; [onceWrapper] says what
    the table of behaviours holds for it. *)
Definition onceWrapper (beh : behaviour) (event : string)
    (wrapper listener : nat) : behaviour :=
  fun l ev args =>
    if (l =? wrapper)%nat then
      {| acts := Off event wrapper :: acts (beh listener ev args);
         thrown := thrown (beh listener ev args) |}
    else beh l ev args.

Definition once (event : string) (wrapper : nat) (events : registry)
    : registry :=
  on event wrapper events.


End EventEmitter.

(** ** A host to run the code on

    An engine in the UTC time zone whose [Date] constructor reads the
    date-only ISO form the way V8 does (month 1 to 12, day 1 to 31, excess
    days carried into the next month) and rejects every other string,
    whose [parseFloat] yields the exact value of the decimal literal, whose
    clock advances by one second per reading from 2025-01-01T00:00:00Z and
    whose identifiers are numbered. *)

Module SampleHost.

Definition digit (c : N) : Z := Z.of_N c - 48.

Definition number (s : jsstring) : Z :=
  fold_left (fun n c => 10 * n + digit c) s 0.

Definition daysFromCivil (y m d : Z) : Z :=
  let y := if m <=? 2 then y - 1 else y in
  let era := y / 400 in
  let yoe := y - era * 400 in
  let doy := (153 * (if 2 <? m then m - 3 else m + 9) + 2) / 5 + d - 1 in
  let doe := yoe * 365 + yoe / 4 - yoe / 100 + doy in
  era * 146097 + doe - 719468.

(** year, month (1 to 12) and day of a day number *)
Definition civilFromDays (z : Z) : Z * Z * Z :=
  let z := z + 719468 in
  let era := z / 146097 in
  let doe := z - era * 146097 in
  let yoe := (doe - doe / 1460 + doe / 36524 - doe / 146096) / 365 in
  let y := yoe + era * 400 in
  let doy := doe - (365 * yoe + yoe / 4 - yoe / 100) in
  let mp := (5 * doy + 2) / 153 in
  let d := doy - (153 * mp + 2) / 5 + 1 in
  let m := if mp <? 10 then mp + 3 else mp - 9 in
  ((if m <=? 2 then y + 1 else y), m, d).

Definition msPerDay : Z := 86400000.

Definition parseDate (s : jsstring) : option Z :=
  if Regex.fullmatch Sanitizer.dateRegex s then
    let y := number (firstn 4 s) in
    let m := number (firstn 2 (skipn 5 s)) in
    let d := number (firstn 2 (skipn 8 s)) in
    if (1 <=? m) && (m <=? 12) && (1 <=? d) && (d <=? 31)
    then Some ((daysFromCivil y m 1 + d - 1) * msPerDay)
    else None
  else None.

Definition fullYear (t : Z) : Z := fst (fst (civilFromDays (t / msPerDay))).
Definition month (t : Z) : Z := snd (fst (civilFromDays (t / msPerDay))) - 1.

Definition padLeft (n : nat) (s : jsstring) : jsstring :=
  repeat 48%N (n - length s) ++ s.

Definition fixed (width : nat) (z : Z) : jsstring :=
  padLeft width (Ledger.decimal z).

Definition isoString (t : Z) : jsstring :=
  let '(y, m, d) := civilFromDays (t / msPerDay) in
  let ms := t mod msPerDay in
  (if (0 <=? y) && (y <=? 9999) then fixed 4 y
   else js (if y <? 0 then "-" else "+") ++ fixed 6 (Z.abs y))
  ++ js "-" ++ fixed 2 m ++ js "-" ++ fixed 2 d ++ js "T"
  ++ fixed 2 (ms / 3600000) ++ js ":" ++ fixed 2 (ms / 60000 mod 60)
  ++ js ":" ++ fixed 2 (ms / 1000 mod 60) ++ js "." ++ fixed 3 (ms mod 1000)
  ++ js "Z".

(** *** parseFloat: the longest prefix that is a StrDecimalLiteral *)

Fixpoint digits (s : jsstring) : jsstring * jsstring :=
  match s with
  | c :: s' =>
      if Chars.is_digit c then let '(ds, r) := digits s' in (c :: ds, r)
      else ([], s)
  | [] => ([], [])
  end.

Definition power10 (e : Z) : Q :=
  if 0 <=? e then inject_Z (10 ^ e) else (1 / inject_Z (10 ^ (- e)))%Q.

(** An exponent part, when one follows. *)
Definition exponent (s : jsstring) : Z :=
  match s with
  | c :: s' =>
      if N.eqb c 101 || N.eqb c 69 then
        match s' with
        | 43%N :: s'' => match digits s'' with ([], _) => 0 | (ds, _) => number ds end
        | 45%N :: s'' => match digits s'' with ([], _) => 0 | (ds, _) => - number ds end
        | _ => match digits s' with ([], _) => 0 | (ds, _) => number ds end
        end
      else 0
  | [] => 0
  end.

Definition unsignedLiteral (s : jsstring) : option Q :=
  let '(whole, r) := digits s in
  let '(fraction, r') :=
    match r with
    | 46%N :: r1 => digits r1
    | _ => ([], r)
    end in
  match whole, fraction with
  | [], [] => None
  | _, _ =>
      Some ((inject_Z (number (whole ++ fraction))
             * power10 (exponent r' - Z.of_nat (length fraction)))%Q)
  end.

Definition unsigned (s : jsstring) : jsnum :=
  if startsWith s (js "Infinity") then PosInf
  else match unsignedLiteral s with Some q => Fin q | None => NaN end.

Definition negate (x : jsnum) : jsnum :=
  match x with
  | NaN => NaN
  | PosInf => NegInf
  | NegInf => PosInf
  | Fin q => Fin (- q)
  end.

Definition parse (s : jsstring) : jsnum :=
  match Sanitizer.trimStart s with
  | 43%N :: r => unsigned r
  | 45%N :: r => negate (unsigned r)
  | r => unsigned r
  end.

#[export] Instance host : Host := {|
  parseFloat := parse;
  Date_parse := parseDate;
  Date_getFullYear := fullYear;
  Date_getMonth := month;
  Date_toISOString := isoString;
  Date_now := fun n => 1735689600000 + 1000 * Z.of_nat n;
  generateId := fun n => js "id-" ++ Ledger.decimal (Z.of_nat n)
|}.

End SampleHost.

(** * The notions that the properties are stated with *)

Module Notions.
Import Sanitizer Ledger.
Local Open Scope ledger_scope.

(** A cached summary that [calculateSummary] would hand out is the
    summary of the stored transactions. *)
Definition cacheFresh (s : HouseholdBudgetData) : Prop :=
  forall cached,
    summaryCache s = Some cached ->
    sameCount (lastSummaryUpdate s) (length (transactions s)) = true ->
    cached = summarize (transactions s).

(** The statistics describe the stored transactions. *)
Definition statsSynced `{Host} (s : HouseholdBudgetData) : Prop :=
  totalTransactions (stats s) = length (transactions s)
  /\ forall dates,
       transactions s <> [] ->
       parseAll (map t_date (transactions s)) = Some dates ->
       oldestTransaction (stats s) = Some (Math_min dates)
       /\ newestTransaction (stats s) = Some (Math_max dates).

(** What every call maintains, in whatever state the stores have left
    the object. *)
Definition consistent (s : HouseholdBudgetData) : Prop := cacheFresh s.

(** Two states with the same object fields: they may differ in what
    has been read from the host and in the events emitted. *)
Definition same_data (s s' : HouseholdBudgetData) : Prop :=
  transactions s' = transactions s
  /\ filteredTransactions s' = filteredTransactions s
  /\ idCounter s' = idCounter s
  /\ categories s' = categories s
  /\ filters s' = filters s
  /\ isInitialized s' = isInitialized s
  /\ db s' = db s
  /\ summaryCache s' = summaryCache s
  /\ lastSummaryUpdate s' = lastSummaryUpdate s
  /\ monthlyDataCache s' = monthlyDataCache s
  /\ stats s' = stats s.

(** A computation that leaves the object fields alone. *)
Definition quiet {A} (m : M A) : Prop := forall s, same_data s (after m s).

Definition settled `{Host} (s' : HouseholdBudgetData) (l : list Transaction)
    (c : Categories) : Prop :=
  transactions s' = l
  /\ summaryCache s' = None
  /\ lastSummaryUpdate s' = None
  /\ monthlyDataCache s' = []
  /\ categories s' = c
  /\ statsSynced s'.

Definition replaced `{Host} (id : jsstring) (v : Validation) (current : Transaction)
    (s : HouseholdBudgetData) : Transaction :=
  record id (sanitizedData v) (t_createdAt current) (Date_now (clockReads s)).

(** The records that the validation loop builds from the valid rows,
    given the next identifier and the next clock reading. *)
Fixpoint stamped `{Host} (ids clock : nat) (rows : list Draft) : list Transaction :=
  match rows with
  | [] => []
  | row :: rest =>
      let v := validateAndSanitizeTransaction row in
      if isValid v then
        record (generateId ids) (sanitizedData v)
               (Date_now clock) (Date_now (S clock))
        :: stamped (S ids) (S (S clock)) rest
      else stamped ids clock rest
  end.

(** The per-row errors, [i] being the index of the first row. *)
Fixpoint rejected `{Host} (i : nat) (rows : list Draft) : list RowError :=
  match rows with
  | [] => []
  | row :: rest =>
      let v := validateAndSanitizeTransaction row in
      if isValid v then rejected (S i) rest
      else (S i, errors v) :: rejected (S i) rest
  end.

Definition valid `{Host} (row : Draft) : bool :=
  isValid (validateAndSanitizeTransaction row).

Definition preserves {A} (I : HouseholdBudgetData -> Prop) (m : M A) : Prop :=
  forall s, I s -> I (after m s).

Definition establishes {A} (I : HouseholdBudgetData -> Prop) (m : M A) : Prop :=
  forall s, I (after m s).

(** [m] returns, whatever the state. *)
Definition total {A} (m : M A) : Prop :=
  forall s, exists a s', m s = (Return a, s').

(** Two states with the same collection, statistics and summary cache. *)
Definition same_core (s s' : HouseholdBudgetData) : Prop :=
  transactions s' = transactions s
  /\ stats s' = stats s
  /\ summaryCache s' = summaryCache s
  /\ lastSummaryUpdate s' = lastSummaryUpdate s.

Definition noCache (s : HouseholdBudgetData) : Prop := summaryCache s = None.

Definition datesKept (s s' : HouseholdBudgetData) : Prop :=
  oldestTransaction (stats s') = oldestTransaction (stats s)
  /\ newestTransaction (stats s') = newestTransaction (stats s).

Definition datesComputed `{Host} (s s' : HouseholdBudgetData) : Prop :=
  transactions s <> []
  /\ exists dates,
       parseAll (map t_date (transactions s)) = Some dates
       /\ oldestTransaction (stats s') = Some (Math_min dates)
       /\ newestTransaction (stats s') = Some (Math_max dates).

(** The sum of the amounts of the transactions of one kind, by recursion
    on the collection. *)
Fixpoint sumOfKind (kind : jsstring) (l : list Transaction) : Z :=
  match l with
  | [] => 0
  | t :: rest =>
      (if str_eqb (t_type t) kind then t_amount t else 0) + sumOfKind kind rest
  end.

Definition cachesCleared (s : HouseholdBudgetData) : Prop :=
  summaryCache s = None /\ lastSummaryUpdate s = None /\ monthlyDataCache s = [].

Definition withinLimits (t : Transaction) : Prop :=
  CONSTANTS.MIN_AMOUNT <= t_amount t <= CONSTANTS.MAX_AMOUNT.

(** The calls that validate a draft and store the result. *)
Definition stores (c : Call) : Prop :=
  match c with
  | AddTransaction _ | UpdateTransaction _ _ | AddTransactionsBatch _ => True
  | _ => False
  end.

(** The one call that the storage can stop half-way: [clearAllData]
    where localStorage is missing or refuses access. *)
Definition storageFails (c : Call) : bool :=
  match c with
  | ClearAllData storageAnswers => negb storageAnswers
  | _ => false
  end.

(** [t'] is what has become of [t] once the transactions of the
    category [name] have gone to [r]. *)
Definition reassigned (type name r : jsstring) (t t' : Transaction) : Prop :=
  t_id t' = t_id t
  /\ if refersTo type name t
     then t_type t' = type /\ t_category t' = r
     else t' = t.

(** Equal statistics, the time of the last modification left aside. *)
Definition sameButLastModified (a b : Stats) : Prop :=
  totalTransactions a = totalTransactions b
  /\ stats_createdAt a = stats_createdAt b
  /\ oldestTransaction a = oldestTransaction b
  /\ newestTransaction a = newestTransaction b.

(** The ledger restored into has no dates of its own to fall back on
    where the saved statistics have none. *)
Definition noDatesBut (s target : HouseholdBudgetData) : Prop :=
  (oldestTransaction (stats s) = None -> oldestTransaction (stats target) = None)
  /\ (newestTransaction (stats s) = None -> newestTransaction (stats target) = None).




End Notions.

(** Sample drafts and calls, for the host of [SampleHost]. *)
Module Sample.
Import Sanitizer Ledger.

Definition draft (date type category : string) (amount : Q) : Draft :=
  {| d_date := VStr (js date);
     d_type := VStr (js type);
     d_category := VStr (js category);
     d_amount := VNum (Fin amount);
     d_description := VStr (js "note") |}.

Definition salary : Draft := draft "2025-01-15" "income" "Salary" 250000.
Definition lunch : Draft := draft "2025-01-20" "expense" "Food" 1200.
Definition rent : Draft := draft "2025-02-01" "expense" "Housing" 80000.

(** A row whose amount is text that is not a number, and one whose
    amount is negative. *)
Definition unreadable : Draft :=
  {| d_date := VStr (js "2025-01-20");
     d_type := VStr (js "expense");
     d_category := VStr (js "Food");
     d_amount := VStr (js "abc");
     d_description := VStr (js "note") |}.
Definition refund : Draft := draft "2025-01-20" "expense" "Food" (-500).

(** An expense in the first of the default categories. *)
Definition meal : Draft :=
  {| d_date := VStr (js "2025-03-03");
     d_type := VStr CONSTANTS.EXPENSE;
     d_category := VStr [39135; 36027]%N;
     d_amount := VNum (Fin 900);
     d_description := VStr [] |}.

Definition amountPatch (q : Q) : Patch :=
  {| p_date := None; p_type := None; p_category := None;
     p_amount := Some (VNum (Fin q)); p_description := None |}.

(** A stored record, as a saved file or a store may hold it. *)
Definition stored (id date type category : string) (amount : Z) : Transaction :=
  {| t_id := js id;
     t_date := js date;
     t_type := js type;
     t_category := js category;
     t_amount := amount;
     t_description := [];
     t_createdAt := 1700000000000;
     t_updatedAt := 1700000000000 |}.

(** A saved file that has only the transactions. *)
Definition saved (l : list Transaction) : SaveFormat :=
  {| sf_timestamp := 1700000000000;
     sf_transactions := Some l;
     sf_categories := None;
     sf_idCounter := None;
     sf_filters := None;
     sf_stats := None |}.

End Sample.

Module EmitNotions.
Import EventEmitter.

(** No listener throws while the error event is dispatched. *)
Definition errorsHandled (beh : behaviour) : Prop :=
  forall listener args, thrown (beh listener "error" args) = None.

(** What the dispatch of [event] needs of the nested call that
    publishes an error: that it returns, and calls no listener of
    [event]. *)
Definition publishes (emit' : string -> list value -> registry -> result)
    (event : string) : Prop :=
  forall args events,
  exists b events' sub,
    emit' "error"%string args events = (Done b, events', sub)
    /\ In (Emitted "error" args) sub
    /\ calledFor event sub = [].

End EmitNotions.

Module EmitSample.
Import EventEmitter.

Definition silent : reaction := {| acts := []; thrown := None |}.

(** Listener 1 unsubscribes listener 2 and throws when a change is
    published; nobody else throws. *)
Definition careful : behaviour :=
  fun listener event _ =>
    if (listener =? 1)%nat && String.eqb event "change"
    then {| acts := [Off "change" 2%nat]; thrown := Some (Failure 7) |}
    else silent.

(** Listener 1 throws when a change is published, and listener 3 when an
    error is. *)
Definition careless : behaviour :=
  fun listener event _ =>
    if (listener =? 1)%nat && String.eqb event "change"
    then {| acts := []; thrown := Some (Failure 7) |}
    else if (listener =? 3)%nat && String.eqb event "error"
    then {| acts := []; thrown := Some (Failure 9) |}
    else silent.

Definition subscribed : registry :=
  on "error" 3%nat (on "change" 2%nat (on "change" 1%nat ∅)).

End EmitSample.

(** What the sanitized strings are like. *)
Module Shapes.

(** [s] holds a tag: a [<] with a [>] somewhere after it. *)
Definition hasTag (s : jsstring) : Prop :=
  exists before inside rest, s = before ++ 60%N :: inside ++ 62%N :: rest.

(** Neither the first nor the last unit of [s] is white space. *)
Definition trimmed (s : jsstring) : Prop :=
  match head s with Some c => Chars.is_space c = false | None => True end
  /\ match last s with Some c => Chars.is_space c = false | None => True end.

(** [YYYY-MM-DD], each letter a decimal digit. *)
Definition isoDate (s : jsstring) : Prop :=
  exists y1 y2 y3 y4 m1 m2 d1 d2,
    s = [y1; y2; y3; y4; 45%N; m1; m2; 45%N; d1; d2]
    /\ Forall (fun c => Chars.is_digit c = true) [y1; y2; y3; y4; m1; m2; d1; d2].

(** The units that the patterns of [sanitizeHTML] cannot do without: the
    opening angle bracket, the colon and the equals sign. *)
Definition markupUnit (c : N) : bool :=
  (N.eqb c 60 || N.eqb c 58 || N.eqb c 61)%bool.

(** [s] has none of them. *)
Definition plain (s : jsstring) : Prop :=
  Forall (fun c => markupUnit c = false) s.

(** Every match of [r] has a unit that satisfies [q]: [r] is a unit
    pattern that only such units satisfy, or a sequence with such a
    part. *)
Fixpoint demands (q : N -> bool) (r : Regex.regex) : Prop :=
  match r with
  | Regex.Chr p => forall c, p c = true -> q c = true
  | Regex.Seq a b => demands q a \/ demands q b
  | _ => False
  end.


End Shapes.


(** What the further properties of the ledger are stated with. *)
Module LedgerNotions.
Import Sanitizer Ledger Notions Shapes.

(** [m] leaves the part [f] of the state as it finds it, whether it
    returns or throws. *)
Definition leaves {A X} (f : HouseholdBudgetData -> X) (m : M A) : Prop :=
  forall s, f (after m s) = f s.

(** What the validation guarantees of a record that it has let
    through. *)
Definition wellFormed `{Host} (t : Transaction) : Prop :=
  (t_type t = CONSTANTS.INCOME \/ t_type t = CONSTANTS.EXPENSE)
  /\ t_category t <> []
  /\ (length (t_category t) <= 50)%nat
  /\ Forall (fun c => categoryChar c = true) (t_category t)
  /\ withinLimits t
  /\ isoDate (t_date t)
  /\ (exists d,
        Date_parse (t_date t) = Some d
        /\ CONSTANTS.MIN_YEAR <= Date_getFullYear d <= CONSTANTS.MAX_YEAR)
  /\ (length (t_description t) <= CONSTANTS.MAX_DESCRIPTION_LENGTH)%nat
  /\ ~ hasTag (t_description t).

(** The one call that takes records from outside as they are. *)
Definition loads (c : Call) : bool :=
  match c with
  | FromSaveFormat _ => true
  | _ => false
  end.

(** The calls in which the category registry, the filter, the filtered
    view and the id counter are assigned. *)
Definition assignsCategories (c : Call) : bool :=
  match c with
  | AddCategory _ _ | RemoveCategory _ _ _ | FromSaveFormat _ => true
  | _ => false
  end.

Definition assignsFilters (c : Call) : bool :=
  match c with
  | ApplyFilters _ | FromSaveFormat _ => true
  | _ => false
  end.

Definition assignsView (c : Call) : bool :=
  match c with
  | ApplyFilters _ | ClearAllData _ => true
  | _ => false
  end.

(** The transactions of the month [key], a prefix [YYYY-MM] of their
    dates: the incomes, and all the others. *)
Definition inMonth (key : jsstring) (t : Transaction) : bool :=
  str_eqb (firstn 7 (t_date t)) key.

Fixpoint incomeIn (key : jsstring) (l : list Transaction) : Z :=
  match l with
  | [] => 0
  | t :: rest =>
      (if inMonth key t && str_eqb (t_type t) CONSTANTS.INCOME
       then t_amount t else 0) + incomeIn key rest
  end.

Fixpoint outgoIn (key : jsstring) (l : list Transaction) : Z :=
  match l with
  | [] => 0
  | t :: rest =>
      (if inMonth key t && negb (str_eqb (t_type t) CONSTANTS.INCOME)
       then t_amount t else 0) + outgoIn key rest
  end.

(** The keys of the [n] months that end with the month of [endDate]. *)
Definition windowKeys `{Host} (n : nat) (endDate : Z) : list jsstring :=
  map (fun i =>
         monthKey (firstOfMonth (Date_getFullYear endDate)
                                (Date_getMonth endDate - Z.of_nat i)))
      (seq 0 n).

(** What a record has to be like for [validateDataIntegrity] to find
    nothing in it. *)
Definition sound (c : Categories) (t : Transaction) : Prop :=
  t_id t <> []
  /\ t_date t <> []
  /\ (t_type t = CONSTANTS.INCOME \/ t_type t = CONSTANTS.EXPENSE)
  /\ t_category t <> []
  /\ 0 < t_amount t
  /\ In (t_category t) (income c ++ expense c).

(** The identifiers that the host hands out are pairwise distinct. *)
Definition distinctIds `{Host} : Prop :=
  forall m n : nat, generateId m = generateId n -> m = n.

(** The ids stored are pairwise distinct, and each has been handed out
    by the host. *)
Definition idsIssued `{Host} (s : HouseholdBudgetData) : Prop :=
  List.NoDup (map t_id (transactions s))
  /\ Forall (fun id => exists k, (k < idsDrawn s)%nat /\ id = generateId k)
            (map t_id (transactions s)).

(** When [m] returns, [Q] holds of the state it leaves. *)
Definition ensures {A} (m : M A) (Q : HouseholdBudgetData -> Prop) : Prop :=
  forall s a s', m s = (Return a, s') -> Q s'.

(** No name occurs twice in a list of the registry. *)
Definition distinctNames (c : Categories) : Prop :=
  List.NoDup (income c) /\ List.NoDup (expense c).


End LedgerNotions.

Module EmitterNotions.
Import EventEmitter.

(** No event of the registry is left with an empty array. *)
Definition tidy (events : registry) : Prop :=
  forall event l, events !! event = Some l -> l <> [].

(** No listener throws. *)
Definition peaceful (beh : behaviour) : Prop :=
  forall l ev args, thrown (beh l ev args) = None.

(** No listener subscribes the function [wrapper]. *)
Definition unknownTo (beh : behaviour) (wrapper : nat) : Prop :=
  forall l ev args e, ~ In (On e wrapper) (acts (beh l ev args)).

End EmitterNotions.


(** * Properties *)

(** ** Strings *)

Lemma str_eqb_eq (a b : jsstring) : str_eqb a b = true <-> a = b.
Proof.
  revert b. induction a as [|x a IH]; intros [|y b]; simpl;
    try (split; [discriminate | congruence]); try tauto.
  rewrite andb_true_iff, N.eqb_eq, IH. split.
  - intros [-> ->]. reflexivity.
  - intros E. inversion E. auto.
Qed.

Lemma str_eqb_refl (a : jsstring) : str_eqb a a = true.
Proof. apply str_eqb_eq. reflexivity. Qed.

Lemma str_eqb_neq (a b : jsstring) : str_eqb a b = false <-> a <> b.
Proof.
  rewrite <- str_eqb_eq. destruct (str_eqb a b); split; congruence.
Qed.


(** ** The amount *)

Section Amount.
Context `{Host}.
Import Sanitizer.

Local Open Scope Q_scope.

Lemma Qlt_bool_iff (a b : Q) : Qlt_bool a b = true <-> a < b.
Proof.
  unfold Qlt_bool. rewrite negb_true_iff.
  split.
  - intros E. apply Qnot_le_lt. intros L.
    apply Qle_bool_iff in L. congruence.
  - intros L. destruct (Qle_bool b a) eqn:E; [|reflexivity].
    apply Qle_bool_iff in E. exfalso. apply (Qlt_not_le _ _ L E).
Qed.

Lemma Qlt_bool_false (a b : Q) : Qlt_bool a b = false <-> b <= a.
Proof.
  unfold Qlt_bool. rewrite negb_false_iff. apply Qle_bool_iff.
Qed.

(** [Math.round] returns the nearest integer, the upper one on a tie. *)
Lemma Math_round_nearest (q : Q) :
  inject_Z (Math_round q) - (1 # 2) <= q /\ q < inject_Z (Math_round q) + (1 # 2).
Proof.
  unfold Math_round.
  pose proof (Qfloor_le (q + (1 # 2))) as L.
  pose proof (Qlt_floor (q + (1 # 2))) as U.
  rewrite inject_Z_plus in U. change (inject_Z 1) with 1 in U.
  split; lra.
Qed.

Lemma Math_round_lower (q : Q) (n : Z) :
  inject_Z n <= q -> (n <= Math_round q)%Z.
Proof.
  intros L. destruct (Math_round_nearest q) as [_ U].
  assert (inject_Z n < inject_Z (Math_round q + 1)) as D.
  { rewrite inject_Z_plus. change (inject_Z 1) with 1. lra. }
  rewrite <- Zlt_Qlt in D. lia.
Qed.

Lemma Math_round_upper (q : Q) (n : Z) :
  q < inject_Z n + (1 # 2) -> (Math_round q <= n)%Z.
Proof.
  intros U. destruct (Math_round_nearest q) as [L _].
  assert (inject_Z (Math_round q) < inject_Z (n + 1)) as D.
  { rewrite inject_Z_plus. change (inject_Z 1) with 1. lra. }
  rewrite <- Zlt_Qlt in D. lia.
Qed.

(** The value of [sanitizeAmount] on a finite number: rounded, then
    clamped to the limits. *)
Lemma sanitizeAmount_finite (amount : jsval) (q : Q) :
  numAmount amount = Fin q ->
  sanitizeAmount amount =
    Z.max CONSTANTS.MIN_AMOUNT (Z.min CONSTANTS.MAX_AMOUNT (Math_round q)).
Proof.
  intros E. unfold sanitizeAmount. rewrite E.
  unfold CONSTANTS.MIN_AMOUNT, CONSTANTS.MAX_AMOUNT.
  destruct (Qlt_bool q (inject_Z 1)) eqn:Lo.
  - apply Qlt_bool_iff in Lo.
    assert (Math_round q <= 1)%Z.
    { apply Math_round_upper. change (inject_Z 1) with 1 in *. lra. }
    lia.
  - apply Qlt_bool_false in Lo.
    pose proof (Math_round_lower q 1 Lo).
    destruct (Qlt_bool (inject_Z 99999999) q) eqn:Hi.
    + apply Qlt_bool_iff in Hi.
      assert (99999999 <= Math_round q)%Z.
      { apply Math_round_lower. lra. }
      lia.
    + apply Qlt_bool_false in Hi.
      assert (Math_round q <= 99999999)%Z.
      { apply Math_round_upper. lra. }
      lia.
Qed.

Lemma sanitizeAmount_NaN (amount : jsval) :
  sanitizeAmount amount = 0%Z <-> numAmount amount = NaN.
Proof.
  split.
  - intros E. destruct (numAmount amount) as [| | |q] eqn:N; try reflexivity.
    + unfold sanitizeAmount in E. rewrite N in E. discriminate.
    + unfold sanitizeAmount in E. rewrite N in E. discriminate.
    + rewrite (sanitizeAmount_finite _ _ N) in E.
      unfold CONSTANTS.MIN_AMOUNT in E. lia.
  - intros N. unfold sanitizeAmount. rewrite N. reflexivity.
Qed.

Lemma sanitizeAmount_range (amount : jsval) :
  numAmount amount <> NaN ->
  (CONSTANTS.MIN_AMOUNT <= sanitizeAmount amount <= CONSTANTS.MAX_AMOUNT)%Z.
Proof.
  intros N. destruct (numAmount amount) as [| | |q] eqn:E.
  - congruence.
  - unfold sanitizeAmount. rewrite E. cbv. split; discriminate.
  - unfold sanitizeAmount. rewrite E. cbv. split; discriminate.
  - rewrite (sanitizeAmount_finite _ _ E).
    unfold CONSTANTS.MIN_AMOUNT, CONSTANTS.MAX_AMOUNT. lia.
Qed.

End Amount.

(** ** Validation *)

Section Validation.
Context `{Host}.
Import Sanitizer.

Lemma isValid_errors (d : Draft) :
  isValid (validateAndSanitizeTransaction d) = true
  <-> errors (validateAndSanitizeTransaction d) = [].
Proof.
  unfold validateAndSanitizeTransaction. simpl.
  destruct (_ ++ _); split; congruence.
Qed.

Lemma amountOk_iff (amount : jsval) :
  (sanitizeAmount amount <? CONSTANTS.MIN_AMOUNT) = true
  <-> numAmount amount = NaN.
Proof.
  rewrite Z.ltb_lt. split.
  - intros L. destruct (numAmount amount) eqn:E; try reflexivity;
      exfalso;
      (assert (numAmount amount <> NaN) as N by congruence;
       apply sanitizeAmount_range in N; lia).
  - intros N. apply sanitizeAmount_NaN in N. rewrite N. reflexivity.
Qed.

(** The amount is reported exactly when it is not a number. *)
Lemma InvalidAmount_iff (d : Draft) :
  In InvalidAmount (errors (validateAndSanitizeTransaction d))
  <-> numAmount (d_amount d) = NaN.
Proof.
  unfold validateAndSanitizeTransaction. simpl.
  rewrite !in_app_iff. rewrite <- amountOk_iff.
  destruct (sanitizeAmount (d_amount d) <? CONSTANTS.MIN_AMOUNT); simpl.
  - split; auto.
  - split; [|discriminate].
    intros [D | [T | [C | []]]].
    + destruct (negb _); simpl in D; [destruct D|]. destruct D as [D|[]]; discriminate.
    + destruct (knownType _); simpl in T; [destruct T|]. destruct T as [T|[]]; discriminate.
    + destruct (negb _); simpl in C; [destruct C|]. destruct C as [C|[]]; discriminate.
Qed.

(** A valid draft has all its keys, and its amount is within the limits. *)
Lemma valid_sanitized (d : Draft) :
  isValid (validateAndSanitizeTransaction d) = true ->
  let sd := sanitizedData (validateAndSanitizeTransaction d) in
  sd_date sd = Some (sanitizeDate (d_date d))
  /\ sanitizeDate (d_date d) <> []
  /\ knownType (d_type d) = sd_type sd
  /\ (exists ty, sd_type sd = Some ty)
  /\ sd_category sd = Some (sanitizeCategory (d_category d))
  /\ sanitizeCategory (d_category d) <> []
  /\ sd_amount sd = Some (sanitizeAmount (d_amount d))
  /\ CONSTANTS.MIN_AMOUNT <= sanitizeAmount (d_amount d) <= CONSTANTS.MAX_AMOUNT.
Proof.
  unfold validateAndSanitizeTransaction. simpl.
  destruct (str_eqb (sanitizeDate (d_date d)) []) eqn:D; simpl; [discriminate|].
  destruct (knownType (d_type d)) as [ty|] eqn:T; simpl; [|discriminate].
  destruct (str_eqb (sanitizeCategory (d_category d)) []) eqn:C; simpl; [discriminate|].
  destruct (sanitizeAmount (d_amount d) <? CONSTANTS.MIN_AMOUNT) eqn:A; simpl; [discriminate|].
  intros _. apply str_eqb_neq in D, C.
  repeat split; eauto.
  - apply Z.ltb_ge in A. exact A.
  - assert (numAmount (d_amount d) <> NaN) as N.
    { intros N. apply amountOk_iff in N. congruence. }
    apply sanitizeAmount_range in N. lia.
Qed.

Lemma knownType_spec (v : jsval) (ty : jsstring) :
  knownType v = Some ty <->
  v = VStr ty /\ (ty = CONSTANTS.INCOME \/ ty = CONSTANTS.EXPENSE).
Proof.
  destruct v as [| |b|x|s]; simpl; try (split; [discriminate | intros [E _]; discriminate]).
  destruct (str_eqb s CONSTANTS.INCOME) eqn:I; simpl.
  - apply str_eqb_eq in I. split.
    + intros E. inversion E. subst. auto.
    + intros [E _]. inversion E. reflexivity.
  - destruct (str_eqb s CONSTANTS.EXPENSE) eqn:X.
    + apply str_eqb_eq in X. split.
      * intros E. inversion E. subst. auto.
      * intros [E _]. inversion E. reflexivity.
    + apply str_eqb_neq in I, X. split; [discriminate|].
      intros [E [A|A]]; inversion E; subst; congruence.
Qed.

(** The four checks make a draft valid. *)
Lemma isValid_intro (d : Draft) (ty : jsstring) :
  sanitizeDate (d_date d) <> [] ->
  knownType (d_type d) = Some ty ->
  sanitizeCategory (d_category d) <> [] ->
  numAmount (d_amount d) <> NaN ->
  isValid (validateAndSanitizeTransaction d) = true.
Proof.
  intros D T C A. unfold validateAndSanitizeTransaction. simpl.
  apply str_eqb_neq in D, C. rewrite D, C, T. simpl.
  destruct (sanitizeAmount (d_amount d) <? CONSTANTS.MIN_AMOUNT) eqn:L;
    [|reflexivity].
  apply amountOk_iff in L. contradiction.
Qed.

(** A draft whose category has nothing left after sanitizing is not
    valid. *)
Lemma missing_category (d : Draft) :
  sanitizeCategory (d_category d) = [] ->
  isValid (validateAndSanitizeTransaction d) = false.
Proof.
  intros E. unfold validateAndSanitizeTransaction. simpl. rewrite E. simpl.
  destruct (negb (str_eqb (sanitizeDate (d_date d)) [])); simpl;
    [|reflexivity].
  destruct (knownType (d_type d)); reflexivity.
Qed.

End Validation.

(** ** The ledger: what every call maintains *)

Arguments Sanitizer.validateAndSanitizeTransaction : simpl never.
Arguments Ledger.updateStats : simpl never.
Arguments Ledger.createAutoBackup : simpl never.
Arguments Ledger.validateRows : simpl never.
Arguments Ledger.backupDue : simpl never.
Arguments Ledger.autoBackup : simpl never.
Arguments Ledger.after : simpl never.
Arguments Ledger.answer : simpl never.
Arguments Ledger.bind : simpl never.

Module LedgerFacts.
Import Sanitizer Ledger Notions.
Local Open Scope ledger_scope.
#[local] Opaque validateAndSanitizeTransaction.

Ltac conjs := repeat match goal with |- _ /\ _ => split end.

Ltac split_match :=
  match goal with
  | |- context [match ?x with _ => _ end] => destruct x eqn:?
  end.

Section Monad.

Lemma bind_run {A B} (m : M A) (k : A -> M B) s :
  bind m k s =
  match m s with
  | (Return a, s') => k a s'
  | (Throw e, s') => (Throw e, s')
  end.
Proof. reflexivity. Qed.

Lemma after_bind {A B} (m : M A) (k : A -> M B) s :
  after (bind m k) s =
  match m s with
  | (Return a, s') => after (k a) s'
  | (Throw _, s') => s'
  end.
Proof. unfold after, bind. destruct (m s) as [[a|e] s']; reflexivity. Qed.

Lemma answer_bind {A B} (m : M A) (k : A -> M B) s :
  answer (bind m k) s =
  match m s with
  | (Return a, s') => answer (k a) s'
  | (Throw e, _) => Throw e
  end.
Proof. unfold answer, bind. destruct (m s) as [[a|e] s']; reflexivity. Qed.

Lemma after_ret {A} (a : A) s : after (ret a) s = s.
Proof. reflexivity. Qed.
Lemma answer_ret {A} (a : A) s : answer (ret a) s = Return a.
Proof. reflexivity. Qed.
Lemma after_throw {A} e s : after (@throw A e) s = s.
Proof. reflexivity. Qed.
Lemma answer_throw {A} e s : answer (@throw A e) s = Throw e.
Proof. reflexivity. Qed.

Lemma modify_run f s : modify f s = (Return tt, f s).
Proof. reflexivity. Qed.
Lemma get_run s : get s = (Return s, s).
Proof. reflexivity. Qed.
Lemma emit_run e s :
  emit e s = (Return tt, with_emitted (emitted s ++ [e]) s).
Proof. reflexivity. Qed.
Lemma invalidateCache_run s :
  invalidateCache s =
  (Return tt, with_monthlyDataCache [] (with_summary None None s)).
Proof. reflexivity. Qed.

Lemma same_data_refl s : same_data s s.
Proof. unfold same_data. conjs; reflexivity. Qed.

Lemma same_data_trans s1 s2 s3 :
  same_data s1 s2 -> same_data s2 s3 -> same_data s1 s3.
Proof.
  unfold same_data.
  intros (A1 & A2 & A3 & A4 & A5 & A6 & A7 & A8 & A9 & A10 & A11)
         (B1 & B2 & B3 & B4 & B5 & B6 & B7 & B8 & B9 & B10 & B11).
  conjs; etransitivity; eassumption.
Qed.

Lemma quiet_ret {A} (a : A) : quiet (ret a).
Proof. intros s. apply same_data_refl. Qed.

Lemma quiet_throw {A} e : quiet (@throw A e).
Proof. intros s. apply same_data_refl. Qed.

Lemma quiet_get : quiet get.
Proof. intros s. apply same_data_refl. Qed.

Lemma quiet_bind {A B} (m : M A) (k : A -> M B) :
  quiet m -> (forall a, quiet (k a)) -> quiet (bind m k).
Proof.
  intros Qm Qk s. rewrite after_bind.
  specialize (Qm s). unfold after in Qm.
  destruct (m s) as [[a|e] s']; simpl in Qm.
  - eapply same_data_trans; [exact Qm | apply Qk].
  - exact Qm.
Qed.

Lemma quiet_emit e : quiet (emit e).
Proof. intros s. unfold same_data. conjs; reflexivity. Qed.

Lemma quiet_forget {A} (m : M A) : quiet m -> quiet (forget m).
Proof. intros Q s. exact (Q s). Qed.

Lemma quiet_tryCatch {A} (m h : M A) : quiet m -> quiet h -> quiet (tryCatch m h).
Proof.
  intros Qm Qh s. specialize (Qm s). unfold after, tryCatch in *.
  destruct (m s) as [[a|e] s']; simpl in *.
  - exact Qm.
  - eapply same_data_trans; [exact Qm | apply Qh].
Qed.

Lemma quiet_forEach {A} (f : A -> M unit) (l : list A) :
  (forall x, quiet (f x)) -> quiet (forEach f l).
Proof.
  intros Q. induction l as [|x l IH]; simpl.
  - apply quiet_ret.
  - apply quiet_bind; auto.
Qed.

End Monad.

Section WithHost.
Context `{Host}.

Lemma now_run s :
  now s = (Return (Date_now (clockReads s)),
           with_clockReads (S (clockReads s)) s).
Proof. reflexivity. Qed.

Lemma generateUniqueId_run s :
  generateUniqueId s = (Return (generateId (idsDrawn s)),
                        with_idsDrawn (S (idsDrawn s)) s).
Proof. reflexivity. Qed.

Lemma quiet_now : quiet now.
Proof. intros s. unfold same_data. conjs; reflexivity. Qed.

Lemma quiet_generateUniqueId : quiet generateUniqueId.
Proof. intros s. unfold same_data. conjs; reflexivity. Qed.

Lemma quiet_toSaveFormat : quiet toSaveFormat.
Proof.
  unfold toSaveFormat.
  apply quiet_bind; [apply quiet_now|]. intros t.
  apply quiet_bind; [apply quiet_get|]. intros s. apply quiet_ret.
Qed.

Lemma quiet_createAutoBackup : quiet createAutoBackup.
Proof.
  unfold createAutoBackup.
  apply quiet_bind; [apply quiet_toSaveFormat|]. intros _.
  apply quiet_bind; [apply quiet_get|]. intros s.
  destruct (persists s); [apply quiet_ret|].
  apply quiet_bind; [apply quiet_now|]. intros _. apply quiet_ret.
Qed.

Lemma quiet_autoBackup : quiet autoBackup.
Proof.
  unfold autoBackup.
  apply quiet_bind; [apply quiet_get|]. intros s.
  destruct (backupDue _); [apply quiet_createAutoBackup | apply quiet_ret].
Qed.

(** The backup never throws. *)
Lemma autoBackup_returns s : answer autoBackup s = Return tt.
Proof.
  unfold autoBackup. rewrite answer_bind, get_run.
  destruct (backupDue _); [|reflexivity].
  unfold createAutoBackup. rewrite answer_bind.
  unfold toSaveFormat. rewrite bind_run, now_run, bind_run, get_run.
  unfold ret at 1. rewrite answer_bind, get_run.
  destruct (persists _); [reflexivity|].
  rewrite answer_bind, now_run. reflexivity.
Qed.

Lemma length_zero_nil {A} (l : list A) : (0 <? length l)%nat = false -> l = [].
Proof. destruct l; simpl; [reflexivity | discriminate]. Qed.

(** *** updateStats *)

(** [updateStats] brings the statistics up to date, whatever it finds,
    and touches nothing else but the clock. *)
Lemma updateStats_effect (s : HouseholdBudgetData) :
  let s' := after updateStats s in
  statsSynced s'
  /\ transactions s' = transactions s
  /\ summaryCache s' = summaryCache s
  /\ lastSummaryUpdate s' = lastSummaryUpdate s
  /\ monthlyDataCache s' = monthlyDataCache s
  /\ categories s' = categories s
  /\ filters s' = filters s
  /\ filteredTransactions s' = filteredTransactions s
  /\ idCounter s' = idCounter s
  /\ lastModified (stats s') = Some (Date_now (clockReads s))
  /\ stats_createdAt (stats s') = stats_createdAt (stats s)
  /\ clockReads s' = S (clockReads s)
  /\ (transactions s = [] ->
      oldestTransaction (stats s') = oldestTransaction (stats s)
      /\ newestTransaction (stats s') = newestTransaction (stats s)).
Proof.
  unfold updateStats, statsSynced, after, bind, now, modify, get, ret, throw.
  simpl. repeat (split_match; simpl in *); conjs; auto; try congruence;
    try discriminate;
    try match goal with
    | E : (0 <? _)%nat = false |- _ => apply length_zero_nil in E; congruence
    end;
    try match goal with
    | E : (0 <? length ?l)%nat = true |- ?l = [] -> _ =>
        let N := fresh in intros N; rewrite N in E; discriminate
    end;
    try (intros; conjs; congruence).
Qed.

Lemma updateStats_run (s s' : HouseholdBudgetData) (o : Outcome unit) :
  updateStats s = (o, s') ->
  statsSynced s'
  /\ transactions s' = transactions s
  /\ summaryCache s' = summaryCache s
  /\ lastSummaryUpdate s' = lastSummaryUpdate s
  /\ monthlyDataCache s' = monthlyDataCache s
  /\ categories s' = categories s
  /\ filters s' = filters s
  /\ filteredTransactions s' = filteredTransactions s
  /\ idCounter s' = idCounter s
  /\ lastModified (stats s') = Some (Date_now (clockReads s))
  /\ stats_createdAt (stats s') = stats_createdAt (stats s)
  /\ clockReads s' = S (clockReads s)
  /\ (transactions s = [] ->
      oldestTransaction (stats s') = oldestTransaction (stats s)
      /\ newestTransaction (stats s') = newestTransaction (stats s)).
Proof.
  intros E. pose proof (updateStats_effect s) as F.
  unfold after in F. rewrite E in F. exact F.
Qed.

(** It throws only on a date that does not parse. *)
Lemma updateStats_returns (s : HouseholdBudgetData) (dates : list Z) :
  parseAll (map t_date (transactions s)) = Some dates ->
  answer updateStats s = Return tt.
Proof.
  intros E.
  unfold updateStats, answer, bind, now, modify, get, ret, throw.
  simpl. rewrite E. destruct (0 <? _)%nat; reflexivity.
Qed.

Lemma updateStats_throws (s : HouseholdBudgetData) (e : Error) :
  answer updateStats s = Throw e -> e = RangeError.
Proof.
  unfold updateStats, answer, bind, now, modify, get, ret, throw.
  simpl. repeat (split_match; simpl); congruence.
Qed.

Lemma settled_consistent s' l c : settled s' l c -> consistent s'.
Proof.
  intros (_ & C & _). intros cached E. congruence.
Qed.

Lemma statsSynced_same (s s' : HouseholdBudgetData) :
  same_data s s' -> statsSynced s -> statsSynced s'.
Proof.
  intros (T & _ & _ & _ & _ & _ & _ & _ & _ & _ & S) [N D].
  split; rewrite S, T; assumption.
Qed.

Lemma consistent_same (s s' : HouseholdBudgetData) :
  same_data s s' -> consistent s -> consistent s'.
Proof.
  intros E F.
  destruct E as (T & _ & _ & _ & _ & _ & _ & C & L & _ & _).
  intros cached. rewrite C, L, T. apply F.
Qed.

Lemma settled_same (s s' : HouseholdBudgetData) l c :
  same_data s s' -> settled s l c -> settled s' l c.
Proof.
  intros E (T & C & L & Mc & Ca & S).
  pose proof (statsSynced_same _ _ E S) as S'.
  destruct E as (T' & _ & _ & Ca' & _ & _ & _ & C' & L' & M' & _).
  unfold settled. conjs; congruence.
Qed.

(** The common end of the methods that change the collection:
    [invalidateCache(); updateStats();] and then events and backups. *)
Lemma settle_tail {A} (rest : M A) (s : HouseholdBudgetData) :
  quiet rest ->
  let s' := after (invalidateCache ;;; updateStats ;;; rest) s in
  settled s' (transactions s) (categories s)
  /\ filters s' = filters s
  /\ filteredTransactions s' = filteredTransactions s
  /\ idCounter s' = idCounter s
  /\ stats_createdAt (stats s') = stats_createdAt (stats s)
  /\ lastModified (stats s') = Some (Date_now (clockReads s))
  /\ (transactions s = [] ->
      oldestTransaction (stats s') = oldestTransaction (stats s)
      /\ newestTransaction (stats s') = newestTransaction (stats s)).
Proof.
  intros Q. cbv zeta.
  rewrite after_bind, invalidateCache_run. cbv beta iota.
  rewrite after_bind.
  destruct (updateStats _) as [o h] eqn:E.
  apply updateStats_run in E. simpl in E.
  destruct E as (S & T & C & L & Mc & Ca & F & Fi & Ic & Lm & Cr & _ & Old).
  assert (same_data h (match o with Return _ => after rest h | Throw _ => h end)) as D.
  { destruct o; [apply Q | apply same_data_refl]. }
  assert (settled h (transactions s) (categories s)) as Sh.
  { unfold settled. conjs; assumption. }
  pose proof (settled_same _ _ _ _ D Sh) as S'.
  destruct o; simpl in D;
    destruct D as (_ & Fi' & Ic' & _ & F' & _ & _ & _ & _ & _ & St');
    (split; [exact S'|]); rewrite ?St'; conjs; try congruence;
    intros N; auto.
Qed.

Lemma settle_tail_answer {A} (rest : M A) (s : HouseholdBudgetData) dates :
  parseAll (map t_date (transactions s)) = Some dates ->
  answer (invalidateCache ;;; updateStats ;;; rest) s =
  answer rest (after updateStats
                 (with_monthlyDataCache [] (with_summary None None s))).
Proof.
  intros P.
  rewrite answer_bind, invalidateCache_run. cbv beta iota.
  rewrite answer_bind.
  pose proof (updateStats_returns
                (with_monthlyDataCache [] (with_summary None None s)) dates P) as R.
  unfold answer, after in *.
  destruct (updateStats _) as [o h]. simpl in R. subst o. reflexivity.
Qed.

Create HintDb quiet.
Hint Resolve quiet_ret quiet_throw quiet_get quiet_bind quiet_emit
  quiet_forget quiet_tryCatch quiet_now quiet_generateUniqueId
  quiet_toSaveFormat quiet_createAutoBackup quiet_autoBackup : quiet.

Ltac step :=
  first [rewrite after_bind | rewrite answer_bind];
  first [rewrite now_run | rewrite generateUniqueId_run
        | rewrite modify_run | rewrite get_run | rewrite emit_run];
  cbv beta iota.

(** The facts about the end of a method, once the goal has reached it. *)
Ltac tail_facts :=
  match goal with
  | |- context [after (bind invalidateCache
                         (fun _ => bind updateStats (fun _ => ?rest))) ?s] =>
      let F := fresh "F" in
      assert (quiet rest) as F by auto 10 with quiet;
      apply (settle_tail rest s) in F; cbv zeta in F; simpl in F
  end.

(** *** addTransaction *)

Lemma addTransaction_effect (d : Draft) (s : HouseholdBudgetData) :
  let v := validateAndSanitizeTransaction d in
  let s' := after (addTransaction d) s in
  if isValid v then
    settled s'
      (transactions s ++
         [record (generateId (idsDrawn s)) (sanitizedData v)
                 (Date_now (clockReads s)) (Date_now (S (clockReads s)))])
      (categories s)
  else
    s' = s /\ answer (addTransaction d) s = Throw (ValidationError (errors v)).
Proof.
  unfold addTransaction.
  generalize (validateAndSanitizeTransaction d) as v. intros v. cbv zeta.
  destruct (isValid v) eqn:V; simpl.
  - do 4 step. tail_facts. apply F.
  - split; reflexivity.
Qed.

(** *** updateTransaction *)

Lemma updateTransaction_replace_effect (id : jsstring) (u : Patch)
    (s : HouseholdBudgetData) :
  let r := updateTransaction_replace id u s in
  match findIndex (has_id id) (transactions s) with
  | None => r = (Throw NotFound, s)
  | Some i =>
      match transactions s !! i with
      | None => r = (Throw TypeError, s)
      | Some current =>
          let v := validateAndSanitizeTransaction (merged current u) in
          if isValid v then
            r = (Return (replaced id v current s),
                 with_transactions
                   (<[i := replaced id v current s]> (transactions s))
                   (with_clockReads (S (clockReads s)) s))
          else r = (Throw (ValidationError (errors v)), s)
      end
  end.
Proof.
  unfold updateTransaction_replace. cbv zeta.
  rewrite bind_run, get_run. cbv beta iota.
  destruct (findIndex _ _) as [i|]; [|reflexivity].
  destruct (transactions s !! i) as [current|]; [|reflexivity].
  generalize (validateAndSanitizeTransaction (merged current u)) as v.
  intros v. destruct (isValid v); [|reflexivity].
  reflexivity.
Qed.

Lemma updateTransaction_effect (id : jsstring) (u : Patch)
    (s : HouseholdBudgetData) :
  let s' := after (updateTransaction id u) s in
  match findIndex (has_id id) (transactions s) with
  | None => s' = s /\ answer (updateTransaction id u) s = Throw NotFound
  | Some i =>
      match transactions s !! i with
      | None => s' = s /\ answer (updateTransaction id u) s = Throw TypeError
      | Some current =>
          let v := validateAndSanitizeTransaction (merged current u) in
          if isValid v then
            settled s'
              (<[i := replaced id v current s]> (transactions s))
              (categories s)
          else
            s' = s
            /\ answer (updateTransaction id u) s =
               Throw (ValidationError (errors v))
      end
  end.
Proof.
  cbv zeta. unfold updateTransaction.
  rewrite after_bind, answer_bind.
  pose proof (updateTransaction_replace_effect id u s) as R. cbv zeta in R.
  destruct (findIndex _ _) as [i|]; [|rewrite R; split; reflexivity].
  destruct (transactions s !! i) as [current|];
    [|rewrite R; split; reflexivity].
  revert R.
  generalize (validateAndSanitizeTransaction (merged current u)) as v.
  intros v R.
  destruct (isValid v); rewrite R; [|split; reflexivity].
  unfold updateTransaction_settle. tail_facts. apply F.
Qed.

(** *** deleteTransaction *)

Lemma deleteTransaction_effect (id : jsstring) (s : HouseholdBudgetData) :
  let s' := after (deleteTransaction id) s in
  match findIndex (has_id id) (transactions s) with
  | None => s' = s /\ answer (deleteTransaction id) s = Return None
  | Some i =>
      match transactions s !! i with
      | None => s' = s /\ answer (deleteTransaction id) s = Throw TypeError
      | Some deleted =>
          settled s' (delete i (transactions s)) (categories s)
      end
  end.
Proof.
  cbv zeta. unfold deleteTransaction.
  rewrite after_bind, answer_bind, get_run. cbv beta iota.
  destruct (findIndex _ _) as [i|]; [|split; reflexivity].
  destruct (transactions s !! i) as [deleted|]; [|split; reflexivity].
  step. tail_facts. apply F.
Qed.

(** *** addTransactionsBatch *)

Lemma stamped_length ids clock rows :
  length (stamped ids clock rows) = length (List.filter valid rows).
Proof.
  revert ids clock. induction rows as [|row rest IH]; intros; simpl; auto.
  unfold valid at 1. destruct (isValid _); simpl; rewrite IH; reflexivity.
Qed.

Lemma rejected_length i rows :
  length (rejected i rows) =
  length (List.filter (fun r => negb (valid r)) rows).
Proof.
  revert i. induction rows as [|row rest IH]; intros; simpl; auto.
  unfold valid at 1. destruct (isValid _); simpl; rewrite IH; reflexivity.
Qed.

Lemma stamped_from ids clock rows t :
  In t (stamped ids clock rows) ->
  exists row i c c',
    In row rows /\ valid row = true
    /\ t = record i (sanitizedData (validateAndSanitizeTransaction row)) c c'.
Proof.
  revert ids clock. induction rows as [|row rest IH]; intros ids clock; simpl.
  - intros [].
  - destruct (isValid (validateAndSanitizeTransaction row)) eqn:V.
    + intros [E | I].
      * exists row, (generateId ids), (Date_now clock), (Date_now (S clock)).
        auto.
      * destruct (IH _ _ I) as (r & i & c & c' & Hin & Hv & Ht).
        exists r, i, c, c'. auto.
    + intros I. destruct (IH _ _ I) as (r & i & c & c' & Hin & Hv & Ht).
      exists r, i, c, c'. auto.
Qed.

Lemma validateRows_run (rows : list Draft) :
  forall i acc errs s,
  exists s',
    validateRows i rows acc errs s =
      (Return (acc ++ stamped (idsDrawn s) (clockReads s) rows,
               errs ++ rejected i rows), s')
    /\ same_data s s'
    /\ (stamped (idsDrawn s) (clockReads s) rows = [] -> s' = s).
Proof.
  induction rows as [|row rest IH]; intros i acc errs s.
  - exists s. unfold validateRows. simpl. rewrite !app_nil_r.
    split; [reflexivity|]. split; [apply same_data_refl | auto].
  - unfold validateRows; fold (@validateRows H). simpl.
    destruct (isValid (validateAndSanitizeTransaction row)) eqn:V.
    + rewrite bind_run, generateUniqueId_run. cbv beta iota.
      rewrite bind_run, now_run. cbv beta iota.
      rewrite bind_run, now_run. cbv beta iota.
      match goal with |- context [validateRows _ _ ?a ?e ?st] =>
        destruct (IH (S i) a e st) as (s' & R & D & _) end.
      exists s'. rewrite R. simpl. rewrite <- app_assoc. simpl.
      split; [reflexivity|]. split; [|discriminate].
      eapply same_data_trans; [|exact D].
      unfold same_data. conjs; reflexivity.
    + destruct (IH (S i) acc (errs ++ [(S i, errors (validateAndSanitizeTransaction row))]) s)
        as (s' & R & D & Z).
      exists s'. rewrite R. rewrite <- app_assoc. simpl.
      split; [reflexivity|]. split; assumption.
Qed.

Lemma answer_events {A} (e1 e2 : Event) (x : A) s :
  answer (emit e1 ;;; emit e2 ;;; ret x) s = Return x.
Proof. do 2 step. reflexivity. Qed.

Lemma addTransactionsBatch_effect (rows : list Draft) (s : HouseholdBudgetData) :
  let added := stamped (idsDrawn s) (clockReads s) rows in
  let errs := rejected 0 rows in
  let s' := after (addTransactionsBatch rows) s in
  match added with
  | [] =>
      s' = s
      /\ answer (addTransactionsBatch rows) s = Throw (NoValidTransactions errs)
  | _ :: _ =>
      settled s' (transactions s ++ added) (categories s)
      /\ (forall dates,
            parseAll (map t_date (transactions s ++ added)) = Some dates ->
            answer (addTransactionsBatch rows) s = Return (added, errs))
  end.
Proof.
  cbv zeta. unfold addTransactionsBatch.
  rewrite after_bind, answer_bind.
  destruct (validateRows_run rows 0 [] [] s) as (s1 & R & D & Z).
  rewrite R. simpl fst. simpl snd. cbv beta iota. simpl app.
  destruct (stamped (idsDrawn s) (clockReads s) rows) as [|t added] eqn:E.
  - rewrite (Z eq_refl). simpl. split; reflexivity.
  - simpl Nat.eqb. cbv beta iota.
    destruct D as (T & _ & _ & Ca & _).
    split.
    + step. tail_facts. rewrite <- T, <- Ca. apply F.
    + intros dates P. step.
      erewrite settle_tail_answer by (simpl; rewrite T; exact P).
      apply answer_events.
Qed.

(** *** A small calculus for invariants *)

Section Calculus.
Variable I : HouseholdBudgetData -> Prop.

Lemma establishes_preserves {A} (m : M A) :
  establishes I m -> preserves I m.
Proof. intros E s _. apply E. Qed.

Lemma preserves_ret {A} (a : A) : preserves I (ret a).
Proof. intros s J. exact J. Qed.

Lemma preserves_throw {A} e : preserves I (@throw A e).
Proof. intros s J. exact J. Qed.

Lemma preserves_get : preserves I get.
Proof. intros s J. exact J. Qed.

Lemma preserves_bind {A B} (m : M A) (k : A -> M B) :
  preserves I m -> (forall a, preserves I (k a)) -> preserves I (bind m k).
Proof.
  intros Pm Pk s J. rewrite after_bind.
  specialize (Pm s J). unfold after in Pm.
  destruct (m s) as [[a|e] s']; simpl in Pm; [apply Pk|]; exact Pm.
Qed.

Lemma establishes_bind {A B} (m : M A) (k : A -> M B) :
  establishes I m -> (forall a, preserves I (k a)) ->
  establishes I (bind m k).
Proof.
  intros Em Pk s. rewrite after_bind.
  specialize (Em s). unfold after in Em.
  destruct (m s) as [[a|e] s']; simpl in Em; [apply Pk|]; exact Em.
Qed.

Lemma establishes_after {A B} (m : M A) (k : A -> M B) :
  total m -> (forall a, establishes I (k a)) -> establishes I (bind m k).
Proof.
  intros Tm Ek s. rewrite after_bind.
  destruct (Tm s) as (a & s' & R). rewrite R. apply Ek.
Qed.

Lemma preserves_tryCatch {A} (m h : M A) :
  preserves I m -> preserves I h -> preserves I (tryCatch m h).
Proof.
  intros Pm Ph s J. specialize (Pm s J). unfold after, tryCatch in *.
  destruct (m s) as [[a|e] s']; simpl in *; [exact Pm | apply Ph, Pm].
Qed.

Lemma preserves_forget {A} (m : M A) :
  preserves I m -> preserves I (forget m).
Proof. intros P s J. exact (P s J). Qed.

Lemma establishes_forget {A} (m : M A) :
  establishes I m -> establishes I (forget m).
Proof. intros E s. exact (E s). Qed.

Lemma preserves_forEach {A} (f : A -> M unit) (l : list A) :
  (forall x, preserves I (f x)) -> preserves I (forEach f l).
Proof.
  intros P. induction l as [|x l IH]; simpl.
  - apply preserves_ret.
  - apply preserves_bind; auto.
Qed.

Lemma establishes_forEach {A} (f : A -> M unit) (l : list A) :
  (forall x, establishes I (f x)) -> l <> [] -> establishes I (forEach f l).
Proof.
  intros E N. destruct l as [|x l]; [congruence|]. simpl.
  apply establishes_bind; [apply E|]. intros _.
  apply preserves_forEach. intros y. apply establishes_preserves, E.
Qed.

Lemma preserves_modify f :
  (forall s, I s -> I (f s)) -> preserves I (modify f).
Proof. intros C s. apply C. Qed.

End Calculus.

Lemma total_modify f : total (modify f).
Proof. intros s. eexists _, _. reflexivity. Qed.

Lemma total_ret {A} (a : A) : total (ret a).
Proof. intros s. eexists _, _. reflexivity. Qed.

Lemma total_bind {A B} (m : M A) (k : A -> M B) :
  total m -> (forall a, total (k a)) -> total (bind m k).
Proof.
  intros Tm Tk s. destruct (Tm s) as (a & s' & R).
  rewrite bind_run, R. apply Tk.
Qed.

Lemma consistent_core (s s' : HouseholdBudgetData) :
  same_core s s' -> consistent s -> consistent s'.
Proof.
  intros (T & S & C & L) F.
  intros cached. rewrite C, L, T. apply F.
Qed.

Lemma statsSynced_core (s s' : HouseholdBudgetData) :
  same_core s s' -> statsSynced s -> statsSynced s'.
Proof.
  intros (T & S & C & L) [N D]. split; rewrite S, T; assumption.
Qed.

Lemma same_data_core s s' : same_data s s' -> same_core s s'.
Proof.
  intros (T & _ & _ & _ & _ & _ & _ & C & L & _ & S).
  unfold same_core. auto.
Qed.

Lemma synced_quiet {A} (m : M A) : quiet m -> preserves statsSynced m.
Proof. intros Q s. apply statsSynced_same, Q. Qed.

Lemma synced_core f :
  (forall s, same_core s (f s)) -> preserves statsSynced (modify f).
Proof. intros C s. apply statsSynced_core, C. Qed.

Lemma synced_updateStats : establishes statsSynced updateStats.
Proof. intros s. apply updateStats_effect. Qed.

Ltac core := intros ?; unfold same_core; conjs; reflexivity.

Lemma calculateSummary_run (s : HouseholdBudgetData) :
  (exists cached,
     summaryCache s = Some cached
     /\ sameCount (lastSummaryUpdate s) (length (transactions s)) = true
     /\ calculateSummary s = (Return cached, s))
  \/
  calculateSummary s =
    (Return (summarize (transactions s)),
     with_summary (Some (summarize (transactions s)))
                  (Some (length (transactions s))) s).
Proof.
  unfold calculateSummary. rewrite bind_run, get_run. cbv beta iota.
  destruct (summaryCache s) as [cached|] eqn:C; [|right; reflexivity].
  destruct (sameCount _ _) eqn:E; [|right; reflexivity].
  left. exists cached. auto.
Qed.

Lemma sameCount_refl n : sameCount (Some n) n = true.
Proof. simpl. apply Nat.eqb_refl. Qed.

Lemma fresh_calculateSummary : preserves consistent calculateSummary.
Proof.
  intros s F. unfold after.
  destruct (calculateSummary_run s) as [(cached & C & E & R) | R];
    rewrite R; simpl.
  - assumption.
  - intros cached. simpl. intros Q _. congruence.
Qed.

Lemma synced_calculateSummary : preserves statsSynced calculateSummary.
Proof.
  intros s S. unfold after.
  destruct (calculateSummary_run s) as [(cached & C & E & R) | R];
    rewrite R; simpl; exact S.
Qed.

Lemma settled_synced s' l c : settled s' l c -> statsSynced s'.
Proof. intros (_ & _ & _ & _ & _ & S). exact S. Qed.

(** *** What every call maintains

    The calls maintain any property of the state that depends on the
    object fields only, that a change outside the collection, the
    statistics and the summary cache leaves alone, that holds whenever a
    method has come to its common end, and that [calculateSummary]
    maintains.  The freshness of the cache is one, the agreement of the
    statistics with the collection another. *)

Section Maintained.
Variable Inv : HouseholdBudgetData -> Prop.
Hypothesis Inv_same : forall s s', same_data s s' -> Inv s -> Inv s'.
Hypothesis Inv_core : forall s s', same_core s s' -> Inv s -> Inv s'.
Hypothesis Inv_settled : forall s' l c, settled s' l c -> Inv s'.
Hypothesis Inv_summary : preserves Inv calculateSummary.

Lemma preserves_quiet {A} (m : M A) : quiet m -> preserves Inv m.
Proof. intros Q s. apply Inv_same, Q. Qed.

Lemma preserves_core f :
  (forall s, same_core s (f s)) -> preserves Inv (modify f).
Proof. intros C s. apply Inv_core, C. Qed.

Lemma establishes_tail {A} (rest : M A) :
  quiet rest -> establishes Inv (invalidateCache ;;; updateStats ;;; rest).
Proof.
  intros Q s. destruct (settle_tail rest s Q) as [S _].
  eapply Inv_settled, S.
Qed.

(** Every call keeps the invariant: the four that change the
    collection first. *)
Lemma preserves_addTransaction d : preserves Inv (addTransaction d).
Proof.
  intros s I. pose proof (addTransaction_effect d s) as E. cbv zeta in E.
  destruct (isValid _).
  - eapply Inv_settled, E.
  - destruct E as [-> _]. exact I.
Qed.

Lemma preserves_updateTransaction id u : preserves Inv (updateTransaction id u).
Proof.
  intros s I. pose proof (updateTransaction_effect id u s) as E.
  cbv zeta in E.
  destruct (findIndex _ _); [|destruct E as [-> _]; exact I].
  destruct (_ !! _); [|destruct E as [-> _]; exact I].
  destruct (isValid _).
  - eapply Inv_settled, E.
  - destruct E as [-> _]. exact I.
Qed.

Lemma preserves_deleteTransaction id : preserves Inv (deleteTransaction id).
Proof.
  intros s I. pose proof (deleteTransaction_effect id s) as E.
  cbv zeta in E.
  destruct (findIndex _ _); [|destruct E as [-> _]; exact I].
  destruct (_ !! _); [|destruct E as [-> _]; exact I].
  eapply Inv_settled, E.
Qed.

Lemma preserves_addTransactionsBatch rows :
  preserves Inv (addTransactionsBatch rows).
Proof.
  intros s I. pose proof (addTransactionsBatch_effect rows s) as E.
  cbv zeta in E.
  destruct (stamped _ _ _).
  - destruct E as [-> _]. exact I.
  - destruct E as [E _]. eapply Inv_settled, E.
Qed.

(** The calls that leave the collection alone. *)
Lemma preserves_applyFilters f : preserves Inv (applyFilters f).
Proof.
  unfold applyFilters.
  apply preserves_bind; [apply preserves_core; core | intros _].
  apply preserves_bind; [apply preserves_core; core | intros _].
  apply preserves_quiet. auto with quiet.
Qed.

Lemma preserves_getMonthlyData months endDate :
  preserves Inv (getMonthlyData months endDate).
Proof.
  unfold getMonthlyData.
  apply preserves_bind.
  { apply preserves_quiet. destruct endDate; auto with quiet. }
  intros d. apply preserves_bind; [apply preserves_get | intros s].
  destruct (mapGet _ _); [apply preserves_ret|].
  apply preserves_bind; [apply preserves_core; core | intros _].
  apply preserves_ret.
Qed.

Lemma preserves_addCategory type name :
  preserves Inv (addCategory type name).
Proof.
  unfold addCategory.
  destruct (str_eqb _ _); [apply preserves_throw|].
  apply preserves_bind; [apply preserves_get | intros s].
  destruct (categoriesOf _ _); [|apply preserves_throw].
  destruct (includes _ _); [apply preserves_throw|].
  apply preserves_bind; [apply preserves_core; core | intros _].
  apply preserves_quiet. auto with quiet.
Qed.

Lemma preserves_toSaveFormat : preserves Inv toSaveFormat.
Proof. apply preserves_quiet, quiet_toSaveFormat. Qed.

(** The two calls that replace the collection. *)
Lemma establishes_fromSaveFormat data :
  establishes Inv (fromSaveFormat data).
Proof.
  unfold fromSaveFormat.
  apply establishes_after.
  { destruct (sf_transactions data); [apply total_modify | apply total_ret]. }
  intros _. apply establishes_after.
  { destruct (sf_categories data); [apply total_modify | apply total_ret]. }
  intros _. apply establishes_after.
  { destruct (sf_idCounter data) as [n|]; [|apply total_ret].
    destruct (n =? 0); [apply total_ret | apply total_modify]. }
  intros _. apply establishes_after.
  { destruct (sf_filters data); [apply total_modify | apply total_ret]. }
  intros _. apply establishes_after.
  { destruct (sf_stats data); [apply total_modify | apply total_ret]. }
  intros _. apply establishes_tail. auto with quiet.
Qed.

Lemma establishes_clearAllData : establishes Inv (clearAllData true).
Proof.
  unfold clearAllData.
  apply establishes_after; [apply total_modify | intros _].
  apply establishes_after; [apply total_modify | intros _].
  apply establishes_after; [apply total_ret | intros _].
  apply establishes_tail. auto with quiet.
Qed.

(** *** removeCategory *)

Lemma establishes_settle u : establishes Inv (updateTransaction_settle u).
Proof.
  unfold updateTransaction_settle. apply establishes_tail. auto with quiet.
Qed.

Lemma updateTransaction_started_run id u s :
  exists started s1,
    updateTransaction_started id u s = (Return started, s1)
    /\ (started = None -> Inv s -> Inv s1).
Proof.
  unfold updateTransaction_started. rewrite bind_run, get_run.
  cbv beta iota. destruct (persists s).
  - unfold tryCatch. rewrite bind_run.
    pose proof (updateTransaction_replace_effect id u s) as R.
    cbv zeta in R.
    destruct (findIndex _ _) as [i|];
      [|rewrite R; eexists _, _; split; [reflexivity | auto]].
    destruct (_ !! _) as [current|];
      [|rewrite R; eexists _, _; split; [reflexivity | auto]].
    destruct (isValid _); rewrite R;
      eexists _, _; (split; [reflexivity|]); [discriminate | auto].
  - rewrite bind_run. unfold forget at 1. cbv beta iota.
    eexists _, _. split; [reflexivity|].
    intros _. apply preserves_updateTransaction.
Qed.

Lemma startAll_run related u :
  forall s, exists pending s1,
    startAll related u s = (Return pending, s1)
    /\ (pending = [] -> Inv s -> Inv s1).
Proof.
  induction related as [|t rest IH]; intros s.
  - exists [], s. split; [reflexivity | auto].
  - simpl. rewrite bind_run.
    destruct (updateTransaction_started_run (t_id t) u s)
      as (started & s1 & R & C).
    rewrite R. cbv beta iota. rewrite bind_run.
    destruct (IH s1) as (pending & s2 & R' & C').
    rewrite R'. cbv beta iota.
    eexists _, _. split; [reflexivity|].
    destruct started; [discriminate|]. auto.
Qed.

Lemma settle_all pending s :
  (pending = [] -> Inv s) ->
  Inv
    (after (forEach (fun u => forget (updateTransaction_settle u)) pending) s).
Proof.
  intros C. destruct pending as [|u pending].
  - apply C. reflexivity.
  - apply establishes_forEach; [|discriminate].
    intros x. apply establishes_forget, establishes_settle.
Qed.

Lemma preserves_removeCategory type name replacement :
  preserves Inv (removeCategory type name replacement).
Proof.
  intros s I. unfold removeCategory. rewrite after_bind.
  unfold removeCategory_body. rewrite bind_run, get_run.
  cbv beta iota zeta. rewrite bind_run.
  assert (forall pending s1 (n : nat),
            (pending = [] -> Inv s1) ->
            Inv
              (match
                 (let (o, s'') :=
                    match categoriesOf type (categories s1) with
                    | Some names =>
                        (modify (fun s0 =>
                           with_categories
                             (setCategoriesOf type
                                (List.filter (fun c => negb (str_eqb c name)) names)
                                (categories s0)) s0) ;;;
                         emit (CategoryRemoved type name) ;;;
                         emit DataChanged ;;; ret n)
                    | None => throw TypeError
                    end s1 in
                  match o with
                  | Return n0 => (Return (pending, n0), s'')
                  | Throw e =>
                      (Throw e,
                       after (forEach (fun u => forget (updateTransaction_settle u))
                                      pending) s'')
                  end)
               with
               | (Return a, s') =>
                   after (forEach (fun u => forget (updateTransaction_settle u)) (fst a) ;;;
                          ret (snd a)) s'
               | (Throw _, s') => s'
               end)) as Reg.
  { intros pending s1 n C.
    destruct (categoriesOf type (categories s1)) as [names|].
    - rewrite bind_run, modify_run. cbv beta iota.
      rewrite bind_run, emit_run. cbv beta iota.
      rewrite bind_run, emit_run. cbv beta iota.
      unfold ret at 1. cbv beta iota. simpl fst. simpl snd.
      rewrite after_bind.
      match goal with |- context [forEach ?f pending ?st] =>
        assert (pending = [] -> Inv st) as S0
          by (intros E; apply (Inv_core s1);
              [unfold same_core; conjs; reflexivity | auto]);
        pose proof (settle_all pending st S0) as S; unfold after in S;
        destruct (forEach f pending st) as [[[]|e] s3] end;
        rewrite ?after_ret; exact S.
    - unfold throw. apply settle_all. exact C. }
  destruct (0 <? length _)%nat.
  - destruct (negb (truthy replacement)).
    + exact I.
    + destruct (startAll_run
                  (List.filter (refersTo type name) (transactions s))
                  (recategorize replacement) s) as (pending & s1 & R & C).
      rewrite R. cbv beta iota. apply Reg. auto.
  - unfold ret at 1. cbv beta iota. apply Reg. auto.
Qed.

Lemma maintained_perform c s :
  storageFails c = false -> Inv s -> Inv (perform c s).
Proof.
  intros Storage. destruct c as [| | | | | | | | | | |[|]]; simpl;
    try discriminate.
  - apply preserves_addTransaction.
  - apply preserves_updateTransaction.
  - apply preserves_deleteTransaction.
  - apply preserves_addTransactionsBatch.
  - apply preserves_applyFilters.
  - apply Inv_summary.
  - apply preserves_getMonthlyData.
  - apply preserves_addCategory.
  - apply preserves_removeCategory.
  - apply preserves_toSaveFormat.
  - intros _. apply establishes_fromSaveFormat.
  - intros _. apply establishes_clearAllData.
Qed.

End Maintained.

(** *** init, on a new object *)

Lemma noCache_quiet {A} (m : M A) : quiet m -> preserves noCache m.
Proof.
  intros Q s N. destruct (Q s) as (_ & _ & _ & _ & _ & _ & _ & C & _).
  unfold noCache in *. congruence.
Qed.

Lemma noCache_modify f :
  (forall s, summaryCache (f s) = summaryCache s) ->
  preserves noCache (modify f).
Proof. intros C s N. unfold noCache, after in *. simpl. rewrite C. exact N. Qed.

Lemma noCache_updateStats : preserves noCache updateStats.
Proof.
  intros s N. unfold noCache in *.
  destruct (updateStats_effect s) as (_ & _ & C & _). congruence.
Qed.

Lemma noCache_invalidateCache : preserves noCache invalidateCache.
Proof. intros s _. reflexivity. Qed.

Lemma total_invalidateCache : total invalidateCache.
Proof. intros s. eexists _, _. reflexivity. Qed.

Lemma synced_tail {A} (rest : M A) :
  quiet rest -> establishes statsSynced (invalidateCache ;;; updateStats ;;; rest).
Proof.
  intros Q. apply establishes_after; [apply total_invalidateCache | intros _].
  apply establishes_bind; [apply synced_updateStats | intros _].
  apply synced_quiet, Q.
Qed.

Ltac keeps := intros ?; reflexivity.

Lemma noCache_fromSaveFormat data : preserves noCache (fromSaveFormat data).
Proof.
  unfold fromSaveFormat.
  apply preserves_bind.
  { destruct (sf_transactions data);
      [apply noCache_modify; keeps | apply preserves_ret]. }
  intros _. apply preserves_bind.
  { destruct (sf_categories data);
      [apply noCache_modify; keeps | apply preserves_ret]. }
  intros _. apply preserves_bind.
  { destruct (sf_idCounter data) as [n|]; [|apply preserves_ret].
    destruct (n =? 0); [apply preserves_ret | apply noCache_modify; keeps]. }
  intros _. apply preserves_bind.
  { destruct (sf_filters data);
      [apply noCache_modify; keeps | apply preserves_ret]. }
  intros _. apply preserves_bind.
  { destruct (sf_stats data);
      [apply noCache_modify; keeps | apply preserves_ret]. }
  intros _. apply preserves_bind; [apply noCache_invalidateCache | intros _].
  apply preserves_bind; [apply noCache_updateStats | intros _].
  apply noCache_quiet. auto with quiet.
Qed.

Lemma synced_fromSaveFormat data : establishes statsSynced (fromSaveFormat data).
Proof.
  unfold fromSaveFormat.
  apply establishes_after.
  { destruct (sf_transactions data); [apply total_modify | apply total_ret]. }
  intros _. apply establishes_after.
  { destruct (sf_categories data); [apply total_modify | apply total_ret]. }
  intros _. apply establishes_after.
  { destruct (sf_idCounter data) as [n|]; [|apply total_ret].
    destruct (n =? 0); [apply total_ret | apply total_modify]. }
  intros _. apply establishes_after.
  { destruct (sf_filters data); [apply total_modify | apply total_ret]. }
  intros _. apply establishes_after.
  { destruct (sf_stats data); [apply total_modify | apply total_ret]. }
  intros _. apply synced_tail. auto with quiet.
Qed.

Lemma synced_finish {A} (rest : M A) :
  quiet rest ->
  establishes statsSynced
    (modify (with_isInitialized true) ;;; updateStats ;;; rest).
Proof.
  intros Q. apply establishes_after; [apply total_modify | intros _].
  apply establishes_bind; [apply synced_updateStats | intros _].
  apply synced_quiet, Q.
Qed.

Lemma noCache_finish {A} (rest : M A) :
  quiet rest ->
  preserves noCache (modify (with_isInitialized true) ;;; updateStats ;;; rest).
Proof.
  intros Q. apply preserves_bind; [apply noCache_modify; keeps | intros _].
  apply preserves_bind; [apply noCache_updateStats | intros _].
  apply noCache_quiet, Q.
Qed.

Lemma synced_loadFromLocalStorage local :
  preserves statsSynced (loadFromLocalStorage local).
Proof.
  unfold loadFromLocalStorage. apply preserves_tryCatch.
  - destruct local as [| |l|data].
    + apply preserves_bind; [apply preserves_ret | intros _].
      apply establishes_preserves, synced_finish. auto with quiet.
    + apply preserves_bind; [apply preserves_throw | intros _].
      apply establishes_preserves, synced_finish. auto with quiet.
    + apply establishes_preserves.
      apply establishes_after; [apply total_modify | intros _].
      apply synced_finish. auto with quiet.
    + apply establishes_preserves.
      apply establishes_bind; [apply synced_fromSaveFormat | intros _].
      apply establishes_preserves, synced_finish. auto with quiet.
  - apply preserves_bind; [apply synced_core; core | intros _].
    apply synced_quiet. auto with quiet.
Qed.

Lemma noCache_loadFromLocalStorage local :
  preserves noCache (loadFromLocalStorage local).
Proof.
  unfold loadFromLocalStorage. apply preserves_tryCatch.
  - apply preserves_bind.
    + destruct local as [| |l|data].
      * apply preserves_ret.
      * apply preserves_throw.
      * apply noCache_modify; keeps.
      * apply noCache_fromSaveFormat.
    + intros _. apply noCache_finish. auto with quiet.
  - apply preserves_bind; [apply noCache_modify; keeps | intros _].
    apply noCache_quiet. auto with quiet.
Qed.

Lemma noCache_init database local : preserves noCache (init database local).
Proof.
  unfold init. destruct database as [|stored settings].
  - apply noCache_loadFromLocalStorage.
  - apply preserves_bind; [apply noCache_modify; keeps | intros _].
    apply preserves_tryCatch; [|apply noCache_loadFromLocalStorage].
    apply preserves_bind.
    + unfold loadData. destruct stored as [|l]; [apply preserves_throw|].
      apply preserves_bind; [apply noCache_modify; keeps | intros _].
      destruct settings as [|found]; [apply preserves_throw|].
      apply preserves_bind.
      * destruct found; [apply noCache_modify; keeps | apply preserves_ret].
      * intros _. apply noCache_updateStats.
    + intros _. apply preserves_bind; [apply noCache_modify; keeps | intros _].
      apply noCache_quiet. auto with quiet.
Qed.

Lemma consistent_constructor : consistent constructor.
Proof. intros cached E. discriminate. Qed.

Lemma consistent_init database local :
  consistent (after (init database local) constructor).
Proof.
  intros cached E.
  rewrite (noCache_init database local constructor eq_refl) in E.
  discriminate.
Qed.

(** *** Calls made one after the other *)

Lemma preserves_perform c s :
  storageFails c = false -> consistent s -> consistent (perform c s).
Proof.
  apply (maintained_perform consistent consistent_same consistent_core
           settled_consistent fresh_calculateSummary).
Qed.

Lemma synced_perform c s :
  storageFails c = false -> statsSynced s -> statsSynced (perform c s).
Proof.
  apply (maintained_perform statsSynced statsSynced_same statsSynced_core
           settled_synced synced_calculateSummary).
Qed.

Lemma synced_constructor : statsSynced constructor.
Proof.
  split; [reflexivity|]. intros dates N. exfalso. apply N. reflexivity.
Qed.

(** The statistics stay in step with the collection through calls that
    the storage does not stop half-way. *)
Lemma session_synced calls :
  Forall (fun c => storageFails c = false) calls ->
  forall s, statsSynced s -> statsSynced (session calls s).
Proof.
  induction 1 as [|c calls Fc F IH]; intros s S; simpl.
  - exact S.
  - apply IH, synced_perform; assumption.
Qed.

Lemma session_consistent calls :
  Forall (fun c => storageFails c = false) calls ->
  forall s, consistent s -> consistent (session calls s).
Proof.
  induction 1 as [|c calls Fc F IH]; intros s I; simpl.
  - exact I.
  - apply IH, preserves_perform; assumption.
Qed.

(** *** The two dates of the statistics *)

Lemma updateStats_dates (s : HouseholdBudgetData) :
  datesKept s (after updateStats s) \/ datesComputed s (after updateStats s).
Proof.
  unfold updateStats, datesKept, datesComputed, after, bind, now, modify, get,
    ret, throw.
  simpl. destruct (0 <? length (transactions s))%nat eqn:L; simpl.
  - destruct (parseAll (map t_date (transactions s))) as [dates|] eqn:P; simpl.
    + right. split.
      * intros N. rewrite N in L. discriminate.
      * exists dates. auto.
    + left. auto.
  - left. auto.
Qed.

Lemma settle_tail_dates {A} (rest : M A) (s : HouseholdBudgetData) :
  quiet rest ->
  let s' := after (invalidateCache ;;; updateStats ;;; rest) s in
  datesKept s s' \/ datesComputed s s'.
Proof.
  intros Q. cbv zeta.
  rewrite after_bind, invalidateCache_run. cbv beta iota.
  rewrite after_bind.
  pose proof (updateStats_dates
                (with_monthlyDataCache [] (with_summary None None s))) as D.
  unfold after in D at 1 2.
  destruct (updateStats _) as [o h]. simpl snd in D.
  assert (stats (match o with Return _ => after rest h | Throw _ => h end)
          = stats h) as E.
  { destruct o; [|reflexivity]. apply Q. }
  unfold datesKept, datesComputed in *. rewrite E. exact D.
Qed.

End WithHost.

End LedgerFacts.

(** ** Lists *)

Section ListFacts.
Import Ledger.
Context {A : Type}.

Lemma findIndex_None (p : A -> bool) (l : list A) :
  findIndex p l = None <-> forall x, In x l -> p x = false.
Proof.
  induction l as [|y l IH]; simpl.
  - split; [intros _ x [] | reflexivity].
  - destruct (p y) eqn:P.
    + split; [discriminate|]. intros F. rewrite (F y) in P by auto. discriminate.
    + destruct (findIndex p l) as [i|]; simpl.
      * split; [discriminate|]. intros F.
        assert (Some i = None) as E
            by (apply IH; intros x I; apply F; auto).
        discriminate.
      * split; [|reflexivity]. intros _ x [<- | I]; [exact P|].
        apply IH; auto.
Qed.

Lemma findIndex_Some (p : A -> bool) (l : list A) (i : nat) :
  findIndex p l = Some i ->
  exists x, l !! i = Some x /\ p x = true
            /\ forall j y, (j < i)%nat -> l !! j = Some y -> p y = false.
Proof.
  revert i. induction l as [|y l IH]; intros i; simpl; [discriminate|].
  destruct (p y) eqn:P.
  - intros E. inversion E. subst. exists y. repeat split; auto.
    intros j z L. lia.
  - destruct (findIndex p l) as [k|]; simpl; [|discriminate].
    intros E. inversion E. subst.
    destruct (IH k eq_refl) as (x & L & Px & F).
    exists x. repeat split; auto.
    intros [|j] z Lt Lk; simpl in Lk.
    + inversion Lk. subst. exact P.
    + apply (F j z); [lia | exact Lk].
Qed.

Lemma findIndex_found (p : A -> bool) (l : list A) (x : A) :
  In x l -> p x = true -> exists i, findIndex p l = Some i.
Proof.
  intros I P. destruct (findIndex p l) as [i|] eqn:E; [eauto|].
  rewrite findIndex_None in E. rewrite (E x I) in P. discriminate.
Qed.

(** Once the only match is deleted, nothing matches. *)
Lemma findIndex_delete (p : A -> bool) (l : list A) (i : nat) :
  findIndex p l = Some i ->
  (length (List.filter p l) <= 1)%nat ->
  findIndex p (delete i l) = None.
Proof.
  revert i. induction l as [|y l IH]; intros i; simpl; [discriminate|].
  destruct (p y) eqn:P.
  - intros E. inversion E. subst. simpl. intros L.
    apply findIndex_None. intros x I.
    destruct (p x) eqn:Px; [|reflexivity].
    assert (In x (List.filter p l)) as F by (apply filter_In; auto).
    destruct (List.filter p l); [destruct F | simpl in L; lia].
  - destruct (findIndex p l) as [k|] eqn:E; simpl; [|discriminate].
    intros E'. inversion E'. subst. intros L. simpl.
    rewrite P. rewrite (IH k eq_refl L). reflexivity.
Qed.

End ListFacts.

(** Evaluating a closed term, by the virtual machine. *)
Ltac evaluate t E :=
  let v := eval vm_compute in t in
  assert (t = v) as E by (vm_compute; reflexivity).

(** * The ledger's contract *)

Import Sanitizer Ledger Notions.
Local Open Scope ledger_scope.
#[local] Opaque validateAndSanitizeTransaction.

(** ** Sums of a kind *)

Lemma total_from (kind : jsstring) (l : list Transaction) (start : Z) :
  fold_left (fun sum t => sum + t_amount t) (List.filter (ofType kind) l) start
  = start + sumOfKind kind l.
Proof.
  revert start. induction l as [|t rest IH]; intros start; simpl; [lia|].
  unfold ofType at 1. destruct (str_eqb (t_type t) kind); simpl.
  - rewrite IH. lia.
  - rewrite IH. lia.
Qed.

Lemma total_sumOfKind (kind : jsstring) (l : list Transaction) :
  Ledger.total kind l = sumOfKind kind l.
Proof. unfold Ledger.total. rewrite total_from. lia. Qed.

Lemma calculateSummary_fresh `{Host} (s : HouseholdBudgetData) :
  cacheFresh s ->
  answer calculateSummary s = Return (summarize (transactions s)).
Proof.
  intros F. unfold answer.
  destruct (LedgerFacts.calculateSummary_run s) as [(cached & C & E & R) | R];
    rewrite R; simpl; [|reflexivity].
  rewrite (F cached C E). reflexivity.
Qed.

(** The summary cache is looked up by the number of the stored
    transactions. *)
Lemma calculateSummary_hit (s : HouseholdBudgetData) (cached : Summary) :
  summaryCache s = Some cached ->
  lastSummaryUpdate s = Some (length (transactions s)) ->
  calculateSummary s = (Return cached, s).
Proof.
  intros C L. unfold calculateSummary.
  rewrite LedgerFacts.bind_run, LedgerFacts.get_run. cbv beta iota.
  rewrite C, L, LedgerFacts.sameCount_refl. reflexivity.
Qed.

(** The array branch of [loadFromLocalStorage] assigns the collection
    and leaves the summary cache as it is, whether the statistics can
    be updated or not. *)
Lemma loadFromLocalStorage_array `{Host} (l : list Transaction)
    (s : HouseholdBudgetData) :
  let s' := after (loadFromLocalStorage (LocalArray l)) s in
  transactions s' = l
  /\ summaryCache s' = summaryCache s
  /\ lastSummaryUpdate s' = lastSummaryUpdate s.
Proof.
  cbv zeta. unfold loadFromLocalStorage, after, tryCatch.
  unfold bind, modify, emit. cbv beta iota.
  match goal with
  | |- context [updateStats ?st] => destruct (updateStats st) as [o h] eqn:E
  end.
  apply LedgerFacts.updateStats_run in E.
  destruct E as (_ & T & C & L & _).
  destruct o as [[]|e]; cbn; rewrite ?T, ?C, ?L; cbn; auto.
Qed.

(** So does [loadData]. *)
Lemma loadData_resolved `{Host} (l : list Transaction)
    (found : option Settings) (s : HouseholdBudgetData) (dates : list Z) :
  parseAll (map t_date l) = Some dates ->
  let s' := after (loadData (Resolved l) (Resolved found)) s in
  answer (loadData (Resolved l) (Resolved found)) s = Return tt
  /\ transactions s' = l
  /\ summaryCache s' = summaryCache s
  /\ lastSummaryUpdate s' = lastSummaryUpdate s.
Proof.
  intros P. cbv zeta. unfold loadData, after, answer.
  unfold bind, modify. cbv beta iota.
  set (s1 := match found with
             | Some st => applySettings st (with_transactions l s)
             | None => with_transactions l s
             end).
  assert (transactions s1 = l
          /\ summaryCache s1 = summaryCache s
          /\ lastSummaryUpdate s1 = lastSummaryUpdate s) as (T1 & C1 & L1).
  { subst s1. destruct found as [st|]; auto. }
  pose proof (LedgerFacts.updateStats_returns s1 dates) as Ret.
  rewrite T1 in Ret. specialize (Ret P). unfold answer in Ret.
  destruct (updateStats s1) as [o h] eqn:E. simpl in Ret. subst o.
  destruct (LedgerFacts.updateStats_run _ _ _ E) as (_ & T & C & L & _).
  subst s1.
  destruct found as [st|]; unfold ret; cbv beta iota; rewrite E; cbn [fst snd];
    (split; [reflexivity|]); repeat split; congruence.
Qed.

(** C1.  [calculateSummary] returns the sums of the stored incomes
    and of the stored expenses, and their difference as the balance,
    in every state in which the cached summary, if one is to be handed
    out, is that of the stored transactions.  It does not in every state
    that a ledger gets into: [init], called on a ledger in use, assigns
    the collection that the database or the array in localStorage
    holds and leaves the cache; when the cache was filled at the same
    number of transactions, the summary of the old collection is
    handed out for the new one. *)
Theorem calculateSummary_sums `{Host} (s : HouseholdBudgetData) :
  (cacheFresh s ->
   exists summary,
     answer calculateSummary s = Return summary
     /\ s_income summary = sumOfKind CONSTANTS.INCOME (transactions s)
     /\ s_expense summary = sumOfKind CONSTANTS.EXPENSE (transactions s)
     /\ s_balance summary = s_income summary - s_expense summary)
  /\ (forall cached l,
        summaryCache s = Some cached ->
        lastSummaryUpdate s = Some (length l) ->
        let s' := after (init DatabaseUnavailable (LocalArray l)) s in
        transactions s' = l
        /\ answer calculateSummary s' = Return cached)
  /\ (forall cached l found local dates,
        summaryCache s = Some cached ->
        lastSummaryUpdate s = Some (length l) ->
        parseAll (map t_date l) = Some dates ->
        let s' :=
          after (init (DatabaseOpen (Resolved l) (Resolved found)) local) s in
        transactions s' = l
        /\ answer calculateSummary s' = Return cached).
Proof.
  split; [|split].
  - intros F. exists (summarize (transactions s)).
    split; [apply calculateSummary_fresh, F|].
    simpl. rewrite !total_sumOfKind. auto.
  - intros cached l C L. cbv zeta. unfold init.
    destruct (loadFromLocalStorage_array l s) as (T' & C' & L').
    split; [exact T'|].
    unfold answer. rewrite (calculateSummary_hit _ cached); [reflexivity| |].
    + rewrite C'. exact C.
    + rewrite L', T'. exact L.
  - intros cached l found local dates C L P. cbv zeta.
    destruct (loadData_resolved l found (with_db true s) dates P)
      as (Ret & T' & C' & L').
    unfold answer, after in Ret, T', C', L'.
    unfold init, after, tryCatch. unfold bind, modify, emit. cbv beta iota.
    destruct (loadData (Resolved l) (Resolved found) (with_db true s))
      as [o h]. cbn [fst snd] in Ret, T', C', L'. subst o. cbv beta iota.
    cbn [snd].
    split; [exact T'|].
    unfold answer. rewrite (calculateSummary_hit _ cached); [reflexivity| |].
    + cbn. rewrite C'. exact C.
    + cbn. rewrite L', T'. exact L.
Qed.

Section SumsExample.
#[local] Existing Instance SampleHost.host.

(** A ledger holds a salary of 250000 and a lunch of 1200, and its
    summary has been computed.  [init] is called, the database cannot be
    opened, and localStorage holds an array of two expenses of 800 and
    1200.  The summary is still that of the salary and the lunch. *)
Lemma calculateSummary_sums_witness :
  let s := perform CalculateSummary
             (perform (AddTransaction Sample.lunch)
                (perform (AddTransaction Sample.salary) constructor)) in
  let l := [Sample.stored "a1" "2025-02-01" "expense" "Food" 800;
            Sample.stored "a2" "2025-02-02" "expense" "Food" 1200] in
  let s' := after (init DatabaseUnavailable (LocalArray l)) s in
  exists cached,
    answer calculateSummary s' = Return cached
    /\ s_income cached = 250000
    /\ s_expense cached = 1200
    /\ s_balance cached = 248800
    /\ transactions s' = l
    /\ sumOfKind CONSTANTS.INCOME (transactions s') = 0
    /\ sumOfKind CONSTANTS.EXPENSE (transactions s') = 2000.
Proof.
  intros s l.
  evaluate (summaryCache s) C. evaluate (lastSummaryUpdate s) L.
  match type of C with
  | _ = Some ?cached =>
      destruct (proj1 (proj2 (calculateSummary_sums s)) cached l C L)
        as [T A];
      exists cached
  end.
  split; [exact A|]. split; [reflexivity|]. split; [reflexivity|].
  split; [reflexivity|]. split; [exact T|].
  rewrite T. split; reflexivity.
Defined.

End SumsExample.

(** ** The summary cache *)

Lemma settled_cleared `{Host} (s : HouseholdBudgetData) l c :
  settled s l c -> cachesCleared s.
Proof. intros (_ & C & L & Mc & _). repeat split; assumption. Qed.

Lemma updateTransaction_invalidates `{Host} (id : jsstring) (u : Patch)
    (s : HouseholdBudgetData) :
  let s' := after (updateTransaction id u) s in
  s' = s
  \/ (length (transactions s') = length (transactions s) /\ cachesCleared s').
Proof.
  pose proof (LedgerFacts.updateTransaction_effect id u s) as F. cbv zeta in *.
  destruct (findIndex _ _) as [i|]; [|left; apply F].
  destruct (transactions s !! i) as [current|]; [|left; apply F].
  destruct (isValid _); [|left; apply F].
  right. split; [|eapply settled_cleared, F].
  destruct F as (T & _). rewrite T. apply length_insert.
Qed.

Lemma deleteTransaction_invalidates `{Host} (id : jsstring)
    (s : HouseholdBudgetData) :
  let s' := after (deleteTransaction id) s in
  s' = s \/ cachesCleared s'.
Proof.
  pose proof (LedgerFacts.deleteTransaction_effect id s) as F. cbv zeta in *.
  destruct (findIndex _ _) as [i|]; [|left; apply F].
  destruct (transactions s !! i) as [deleted|]; [|left; apply F].
  right. eapply settled_cleared, F.
Qed.

(** C4.  [calculateSummary] hands out the cached summary whenever
    the number of stored transactions is the one the cache was filled
    at.  [updateTransaction] and [deleteTransaction], unless they reject
    the call and change nothing, have emptied the summary cache and the
    monthly cache when all of the call has run, also when the number of
    stored transactions stays the same, and the summary returned then is
    the fresh one.  On a ledger that saves to the database the caches
    are emptied only after the database has answered: while
    [updateTransaction] waits for it the record is already replaced, the
    number of stored transactions is the same, and [calculateSummary]
    returns the summary that was cached before the call. *)
Theorem calculateSummary_never_stale `{Host} (s : HouseholdBudgetData)
    (id : jsstring) (u : Patch) :
  (forall cached,
     summaryCache s = Some cached ->
     lastSummaryUpdate s = Some (length (transactions s)) ->
     calculateSummary s = (Return cached, s))
  /\ (let s' := after (updateTransaction id u) s in
      (s' = s
       \/ (length (transactions s') = length (transactions s)
           /\ cachesCleared s'))
      /\ (cacheFresh s ->
          answer calculateSummary s' = Return (summarize (transactions s'))))
  /\ (let s' := after (deleteTransaction id) s in
      (s' = s \/ cachesCleared s')
      /\ (cacheFresh s ->
          answer calculateSummary s' = Return (summarize (transactions s'))))
  /\ (forall cached i current,
        persists s = true ->
        summaryCache s = Some cached ->
        lastSummaryUpdate s = Some (length (transactions s)) ->
        findIndex (has_id id) (transactions s) = Some i ->
        transactions s !! i = Some current ->
        isValid (validateAndSanitizeTransaction (merged current u)) = true ->
        let waiting := after (updateTransaction_started id u) s in
        transactions waiting =
          <[i := record id
                   (sanitizedData
                      (validateAndSanitizeTransaction (merged current u)))
                   (t_createdAt current) (Date_now (clockReads s))]>
            (transactions s)
        /\ answer calculateSummary waiting = Return cached).
Proof.
  assert (forall s' : HouseholdBudgetData,
            cachesCleared s' ->
            answer calculateSummary s' = Return (summarize (transactions s')))
    as Miss.
  { intros s' (C & _). apply calculateSummary_fresh.
    intros cached Cached. rewrite C in Cached. discriminate. }
  split; [exact (calculateSummary_hit s)|]. split; [|split].
  - split; [apply updateTransaction_invalidates|]. intros F.
    destruct (updateTransaction_invalidates id u s) as [E | [_ E]].
    + rewrite E. apply calculateSummary_fresh, F.
    + apply Miss, E.
  - split; [apply deleteTransaction_invalidates|]. intros F.
    destruct (deleteTransaction_invalidates id s) as [E | E].
    + rewrite E. apply calculateSummary_fresh, F.
    + apply Miss, E.
  - intros cached i current P C L F G V. cbv zeta.
    pose proof (LedgerFacts.updateTransaction_replace_effect id u s) as E.
    cbv zeta in E. rewrite F, G, V in E.
    unfold updateTransaction_started, after.
    rewrite LedgerFacts.bind_run, LedgerFacts.get_run. cbv beta iota.
    rewrite P. unfold tryCatch. rewrite LedgerFacts.bind_run, E.
    cbv beta iota. unfold ret. cbn [snd].
    split; [reflexivity|].
    unfold answer. rewrite (calculateSummary_hit _ cached); [reflexivity| |].
    + exact C.
    + cbn. rewrite length_insert. exact L.
Qed.

Section StaleExample.
#[local] Existing Instance SampleHost.host.

(** A ledger that has opened its database holds a salary of 250000 and
    a lunch of 1200, and its summary has been computed.
    [updateTransaction] is called to make the salary 300000.  While the
    call waits for the database the stored salary is 300000 and the
    summary returned still counts 250000. *)
Lemma calculateSummary_never_stale_witness :
  let opened :=
    after (init (DatabaseOpen (Resolved []) (Resolved None)) LocalEmpty)
          constructor in
  let s := perform CalculateSummary
             (perform (AddTransaction Sample.lunch)
                (perform (AddTransaction Sample.salary) opened)) in
  let waiting :=
    after (updateTransaction_started (js "id-0") (Sample.amountPatch 300000))
          s in
  persists s = true
  /\ exists cached,
       answer calculateSummary waiting = Return cached
       /\ s_income cached = 250000
       /\ s_expense cached = 1200
       /\ s_balance cached = 248800
       /\ map t_amount (transactions waiting) = [300000; 1200]
       /\ sumOfKind CONSTANTS.INCOME (transactions waiting) = 300000
       /\ sumOfKind CONSTANTS.EXPENSE (transactions waiting) = 1200.
Proof.
  intros opened s.
  evaluate (persists s) P.
  evaluate (summaryCache s) C. evaluate (lastSummaryUpdate s) L.
  evaluate (findIndex (has_id (js "id-0")) (transactions s)) F.
  evaluate (transactions s !! 0%nat) G.
  match type of C with
  | _ = Some ?cached =>
      match type of G with
      | _ = Some ?current =>
          evaluate (isValid (validateAndSanitizeTransaction
                               (merged current (Sample.amountPatch 300000)))) V;
          destruct (proj2 (proj2 (proj2
                      (calculateSummary_never_stale s (js "id-0")
                         (Sample.amountPatch 300000))))
                      cached 0%nat current P C L F G V) as [T A];
          split; [exact P|]; exists cached
      end
  end.
  split; [exact A|]. split; [reflexivity|]. split; [reflexivity|].
  split; [reflexivity|].
  rewrite T. repeat split; vm_compute; reflexivity.
Defined.

End StaleExample.

(** ** updateTransaction *)

Lemma findIndex_first {A} (p : A -> bool) (l : list A) (i : nat) (x : A) :
  l !! i = Some x ->
  p x = true ->
  (forall j y, (j < i)%nat -> l !! j = Some y -> p y = false) ->
  findIndex p l = Some i.
Proof.
  revert i. induction l as [|y l IH]; intros [|i]; simpl; try discriminate.
  - intros E P _. inversion E. subst. rewrite P. reflexivity.
  - intros E P F. rewrite (F O y) by (reflexivity || lia).
    rewrite (IH i E P); [reflexivity|].
    intros j z L Lz. apply (F (S j) z); [lia | exact Lz].
Qed.

Lemma has_id_false (id : jsstring) (t : Transaction) :
  has_id id t = false <-> t_id t <> id.
Proof. unfold has_id. apply str_eqb_neq. Qed.

Lemma has_id_true (id : jsstring) (t : Transaction) :
  has_id id t = true <-> t_id t = id.
Proof. unfold has_id. apply str_eqb_eq. Qed.


Section UpdateExample.
#[local] Existing Instance SampleHost.host.


End UpdateExample.

(** ** Amounts *)

Lemma record_withinLimits `{Host} (d : Draft) (id : jsstring) (created updated : Z) :
  isValid (validateAndSanitizeTransaction d) = true ->
  withinLimits
    (record id (sanitizedData (validateAndSanitizeTransaction d)) created updated).
Proof.
  intros V. destruct (valid_sanitized d V) as (_ & _ & _ & _ & _ & _ & A & R).
  unfold withinLimits, record. cbn [t_amount]. rewrite A. exact R.
Qed.

Lemma In_insert {A} (l : list A) (i : nat) (x y : A) :
  In x (<[i := y]> l) -> x = y \/ In x l.
Proof.
  revert i. induction l as [|z l IH]; intros [|i]; simpl; auto.
  - intros [E | I]; auto.
  - intros [E | I]; auto. destruct (IH i I); auto.
Qed.

Lemma stores_withinLimits `{Host} (c : Call) (s : HouseholdBudgetData)
    (t : Transaction) :
  stores c ->
  In t (transactions (perform c s)) ->
  In t (transactions s) \/ withinLimits t.
Proof.
  destruct c; simpl; try contradiction; intros _.
  - pose proof (LedgerFacts.addTransaction_effect transactionData s) as F.
    cbv zeta in F.
    destruct (isValid (validateAndSanitizeTransaction transactionData)) eqn:V.
    + destruct F as (T & _). rewrite T, in_app_iff.
      intros [I | [<- | []]]; [auto|]. right. apply record_withinLimits, V.
    + destruct F as [-> _]. auto.
  - pose proof (LedgerFacts.updateTransaction_effect id updates s) as F.
    cbv zeta in F.
    destruct (findIndex _ _) as [i|]; [|destruct F as [-> _]; auto].
    destruct (transactions s !! i) as [current|]; [|destruct F as [-> _]; auto].
    destruct (isValid (validateAndSanitizeTransaction (merged current updates)))
      eqn:V; [|destruct F as [-> _]; auto].
    destruct F as (T & _). rewrite T. intros I.
    apply In_insert in I. destruct I as [-> | I]; [|auto].
    right. apply record_withinLimits, V.
  - pose proof (LedgerFacts.addTransactionsBatch_effect rows s) as F.
    cbv zeta in F.
    destruct (stamped _ _ rows) as [|a added] eqn:E;
      [destruct F as [-> _]; auto|].
    destruct F as ((T & _) & _). rewrite T, in_app_iff.
    intros [I | I]; [auto|]. right. rewrite <- E in I.
    apply LedgerFacts.stamped_from in I.
    destruct I as (row & i & c & c' & _ & V & ->).
    apply record_withinLimits, V.
Qed.

(** C9. [sanitizeAmount] gives a whole number between 1 and 99,999,999
    for every input that is a number: a finite one is rounded to the
    nearest whole number and brought within the two limits.  It gives 0
    exactly when the input is not a number, and the validation reports
    the amount exactly then.
    Hence every transaction that [addTransaction], [updateTransaction] or
    [addTransactionsBatch] puts into the collection has a whole amount
    between 1 and 99,999,999. *)
Theorem stored_amount_within_limits `{Host} :
  (forall amount,
     numAmount amount <> NaN ->
     CONSTANTS.MIN_AMOUNT <= sanitizeAmount amount <= CONSTANTS.MAX_AMOUNT)
  /\ (forall amount q,
        numAmount amount = Fin q ->
        sanitizeAmount amount =
          Z.max CONSTANTS.MIN_AMOUNT (Z.min CONSTANTS.MAX_AMOUNT (Math_round q)))
  /\ (forall amount, sanitizeAmount amount = 0 <-> numAmount amount = NaN)
  /\ (forall d,
        In InvalidAmount (errors (validateAndSanitizeTransaction d))
        <-> numAmount (d_amount d) = NaN)
  /\ (forall c s t,
        stores c ->
        In t (transactions (perform c s)) ->
        In t (transactions s) \/ withinLimits t).
Proof.
  split; [apply sanitizeAmount_range|].
  split; [apply sanitizeAmount_finite|].
  split; [apply sanitizeAmount_NaN|].
  split; [apply InvalidAmount_iff|].
  apply stores_withinLimits.
Qed.

Section AmountExample.
#[local] Existing Instance SampleHost.host.

Lemma stored_amount_within_limits_witness :
  (1 <= sanitizeAmount (VNum (Fin (-5))) <= 99999999)
  /\ sanitizeAmount (VNum (Fin (12006 # 10))) =
       Z.max 1 (Z.min 99999999 (Math_round (12006 # 10)))
  /\ forall t,
       In t (transactions (perform (AddTransaction Sample.lunch) constructor)) ->
       In t (transactions constructor) \/ withinLimits t.
Proof.
  destruct (stored_amount_within_limits (H := SampleHost.host))
    as (A & B & _ & _ & D).
  split; [apply A; discriminate|].
  split; [apply B; reflexivity|].
  intros t I. apply (D (AddTransaction Sample.lunch) constructor t); [exact Logic.I | exact I].
Defined.

End AmountExample.

(** ** deleteTransaction *)

(** C6, with the condition it needs.  In a state where at most one
    stored transaction has the id, a second [deleteTransaction] of that
    id finds no record, returns null and leaves the whole state as the
    first call left it. *)
Theorem deleteTransaction_twice `{Host} (id : jsstring) (s : HouseholdBudgetData) :
  (length (List.filter (has_id id) (transactions s)) <= 1)%nat ->
  let once := after (deleteTransaction id) s in
  let twice := after (deleteTransaction id) once in
  twice = once /\ answer (deleteTransaction id) once = Return None.
Proof.
  intros U. cbv zeta.
  pose proof (LedgerFacts.deleteTransaction_effect id s) as F. cbv zeta in F.
  assert (findIndex (has_id id)
            (transactions (after (deleteTransaction id) s)) = None) as N.
  { destruct (findIndex (has_id id) (transactions s)) as [i|] eqn:E.
    - destruct (findIndex_Some _ _ _ E) as (x & L & _). rewrite L in F.
      destruct F as (T & _). rewrite T. apply findIndex_delete; assumption.
    - destruct F as [-> _]. exact E. }
  pose proof (LedgerFacts.deleteTransaction_effect id
                (after (deleteTransaction id) s)) as G.
  cbv zeta in G. rewrite N in G. destruct G; auto.
Qed.

Section DeleteExample.
#[local] Existing Instance SampleHost.host.

Lemma deleteTransaction_twice_witness :
  let s := perform (AddTransaction Sample.lunch)
             (perform (AddTransaction Sample.salary) constructor) in
  let once := after (deleteTransaction (js "id-0")) s in
  after (deleteTransaction (js "id-0")) once = once
  /\ answer (deleteTransaction (js "id-0")) once = Return None.
Proof.
  intros s. apply (deleteTransaction_twice (js "id-0") s).
  vm_compute. apply le_n.
Defined.

(** Two stored records with one id: the second call deletes the second
    record. *)
Lemma deleteTransaction_twice_counterexample :
  let s := perform
             (FromSaveFormat
                (Sample.saved [Sample.stored "a1" "2025-01-15" "expense" "Food" 1200;
                               Sample.stored "a1" "2025-01-16" "expense" "Food" 800]))
             constructor in
  let once := after (deleteTransaction (js "a1")) s in
  let twice := after (deleteTransaction (js "a1")) once in
  length (transactions s) = 2%nat
  /\ length (transactions once) = 1%nat
  /\ length (transactions twice) = 0%nat
  /\ transactions twice <> transactions once.
Proof.
  intros s once twice.
  evaluate (transactions once) E1. evaluate (transactions twice) E2.
  rewrite E1, E2.
  split; [vm_compute; reflexivity|].
  split; [reflexivity|]. split; [reflexivity|]. discriminate.
Qed.

End DeleteExample.

(** ** toSaveFormat and fromSaveFormat *)

Lemma toSaveFormat_run `{Host} (s : HouseholdBudgetData) :
  toSaveFormat s =
  (Return {| sf_timestamp := Date_now (clockReads s);
             sf_transactions := Some (transactions s);
             sf_categories := Some (categories s);
             sf_idCounter := Some (idCounter s);
             sf_filters := Some (filters s);
             sf_stats := Some (stats s) |},
   with_clockReads (S (clockReads s)) s).
Proof. reflexivity. Qed.

Lemma fromSaveFormat_restores `{Host} (s target : HouseholdBudgetData) (ts : Z) :
  statsSynced s ->
  noDatesBut s target ->
  let data := {| sf_timestamp := ts;
                 sf_transactions := Some (transactions s);
                 sf_categories := Some (categories s);
                 sf_idCounter := Some (idCounter s);
                 sf_filters := Some (filters s);
                 sf_stats := Some (stats s) |} in
  let s' := after (fromSaveFormat data) target in
  transactions s' = transactions s
  /\ categories s' = categories s
  /\ sameButLastModified (stats s') (stats s)
  /\ lastModified (stats s') = Some (Date_now (clockReads target)).
Proof.
  intros [Count Dates] [Old New]. cbv zeta. unfold fromSaveFormat.
  cbn [sf_transactions sf_categories sf_idCounter sf_filters sf_stats].
  rewrite LedgerFacts.after_bind, LedgerFacts.modify_run. cbv beta iota.
  rewrite LedgerFacts.after_bind, LedgerFacts.modify_run. cbv beta iota.
  rewrite LedgerFacts.after_bind.
  assert (quiet (emit DataLoaded ;;; emit DataChanged)) as Q
      by (apply LedgerFacts.quiet_bind;
          [apply LedgerFacts.quiet_emit | intros _; apply LedgerFacts.quiet_emit]).
  assert (forall x : HouseholdBudgetData,
            transactions x = transactions s ->
            categories x = categories s ->
            clockReads x = clockReads target ->
            stats x = stats target ->
            let s' := after (modify (with_filters (filters s)) ;;;
                             modify (fun s0 =>
                               with_stats (mergeStats (stats s0) (stats s)) s0) ;;;
                             invalidateCache ;;; updateStats ;;;
                             emit DataLoaded ;;; emit DataChanged) x in
            transactions s' = transactions s
            /\ categories s' = categories s
            /\ sameButLastModified (stats s') (stats s)
            /\ lastModified (stats s') = Some (Date_now (clockReads target))) as Tail.
  { intros x T C Clock St. cbv zeta.
    rewrite LedgerFacts.after_bind, LedgerFacts.modify_run. cbv beta iota.
    rewrite LedgerFacts.after_bind, LedgerFacts.modify_run. cbv beta iota.
    match goal with
    | |- context [after _ ?y] =>
        pose proof (LedgerFacts.settle_tail _ y Q) as F;
        pose proof (LedgerFacts.settle_tail_dates _ y Q) as D;
        cbv zeta in F, D; set (s' := after _ y) in *
    end.
    destruct F as ((T' & _ & _ & _ & C' & Count' & _) & _ & _ & _ & Cr & Lm & _).
    simpl in T', C', Cr, Lm.
    split; [congruence|]. split; [congruence|]. split; [|congruence].
    unfold sameButLastModified.
    split; [rewrite Count', T', T; auto|]. split; [exact Cr|].
    unfold datesKept, datesComputed in D. simpl in D.
    rewrite St in D.
    destruct D as [[O N] | (Ne & dates & P & O & N)].
    - rewrite O, N. split.
      + destruct (oldestTransaction (stats s)); auto.
      + destruct (newestTransaction (stats s)); auto.
    - rewrite T in Ne, P. destruct (Dates dates Ne P) as [O' N'].
      rewrite O, N. auto. }
  destruct (idCounter s =? 0).
  - unfold ret at 1. apply Tail; reflexivity.
  - rewrite LedgerFacts.modify_run. apply Tail; reflexivity.
Qed.

(** C7, with the one field that differs.  Take a state whose
    statistics are those of its transactions.  A ledger restored from
    what [toSaveFormat] returns in it -- the same ledger or a new
    one -- has the same transactions, the same categories and the same
    statistics, except that the time of the last modification is the
    time of the restore.  A new ledger is such a state, and the state
    stays one through [addTransaction], [updateTransaction],
    [deleteTransaction], [addTransactionsBatch], [applyFilters],
    [calculateSummary], [getMonthlyData], [addCategory],
    [removeCategory], [toSaveFormat], [fromSaveFormat] and a
    [clearAllData] in which localStorage lets the saved item be removed,
    each run to its end.  [init] does not make it one: when the
    database hands over its transactions and then fails on the settings,
    and localStorage cannot be read, the ledger holds the transactions
    and counts none. *)
Theorem fromSaveFormat_toSaveFormat `{Host} (s target : HouseholdBudgetData) :
  (statsSynced s ->
   target = after toSaveFormat s \/ target = constructor ->
   exists data,
     answer toSaveFormat s = Return data
     /\ let s' := after (fromSaveFormat data) target in
        transactions s' = transactions s
        /\ categories s' = categories s
        /\ sameButLastModified (stats s') (stats s)
        /\ lastModified (stats s') = Some (Date_now (clockReads target)))
  /\ statsSynced constructor
  /\ (forall c,
        storageFails c = false ->
        statsSynced s -> statsSynced (perform c s))
  /\ (forall l,
        let loaded :=
          after (init (DatabaseOpen (Resolved l) Rejected) LocalUnreadable)
                constructor in
        transactions loaded = l
        /\ totalTransactions (stats loaded) = 0%nat).
Proof.
  split; [|split; [|split]];
    [|apply LedgerFacts.synced_constructor
     |intros c; apply LedgerFacts.synced_perform
     |intros l; split; reflexivity].
  intros S Target.
  unfold answer. rewrite toSaveFormat_run. simpl fst.
  eexists. split; [reflexivity|].
  apply fromSaveFormat_restores; [exact S|].
  destruct Target as [-> | ->].
  - unfold after. rewrite toSaveFormat_run. split; auto.
  - split; reflexivity.
Qed.

Section RestoreExample.
#[local] Existing Instance SampleHost.host.

Lemma fromSaveFormat_toSaveFormat_witness :
  let s := perform (AddTransaction Sample.lunch)
             (perform (AddTransaction Sample.salary) constructor) in
  exists data,
    answer toSaveFormat s = Return data
    /\ let s' := after (fromSaveFormat data) (after toSaveFormat s) in
       transactions s' = transactions s
       /\ categories s' = categories s
       /\ sameButLastModified (stats s') (stats s)
       /\ lastModified (stats s') =
          Some (Date_now (clockReads (after toSaveFormat s))).
Proof.
  intros s.
  apply (proj1 (fromSaveFormat_toSaveFormat s (after toSaveFormat s))).
  - split; [vm_compute; reflexivity|].
    intros dates _ P.
    evaluate (parseAll (map t_date (transactions s))) E.
    rewrite E in P. injection P as <-.
    split; vm_compute; reflexivity.
  - left. reflexivity.
Defined.

(** A new ledger has never been modified; once restored from its own
    saved form it has. *)
Lemma fromSaveFormat_toSaveFormat_counterexample :
  let s := constructor in
  exists data,
    answer toSaveFormat s = Return data
    /\ lastModified (stats s) = None
    /\ lastModified (stats (after (fromSaveFormat data) (after toSaveFormat s)))
       = Some 1735689602000
    /\ stats (after (fromSaveFormat data) (after toSaveFormat s)) <> stats s.
Proof.
  intros s. eexists. split.
  - unfold answer. rewrite toSaveFormat_run. reflexivity.
  - match goal with
    | |- _ /\ lastModified ?st = _ /\ _ => evaluate st E
    end.
    evaluate (stats s) E0. rewrite E, E0.
    split; [reflexivity|]. split; [reflexivity|]. discriminate.
Qed.

End RestoreExample.

(** ** addTransactionsBatch *)

Lemma sanitizeDate_parses `{Host} (v : jsval) :
  sanitizeDate v <> [] -> exists t, Date_parse (sanitizeDate v) = Some t.
Proof.
  unfold sanitizeDate.
  destruct (negb (truthy v)); [congruence|].
  destruct (negb (Regex.fullmatch dateRegex (sanitizeHTML v))); [congruence|].
  destruct (Date_parse (sanitizeHTML v)) as [date|] eqn:P; [|congruence].
  destruct (_ || _); [congruence|]. intros _. eauto.
Qed.

Lemma parseAll_app `{Host} (a b : list jsstring) (da db : list Z) :
  parseAll a = Some da -> parseAll b = Some db ->
  parseAll (a ++ b) = Some (da ++ db).
Proof.
  revert da. induction a as [|x a IH]; intros da; simpl.
  - intros E. inversion E. auto.
  - destruct (Date_parse x) as [v|]; [|discriminate].
    destruct (parseAll a) as [vs|]; [|discriminate].
    intros E Pb. inversion E. subst. rewrite (IH vs eq_refl Pb). reflexivity.
Qed.

Lemma stamped_parse `{Host} (ids clock : nat) (rows : list Draft) :
  exists dates,
    parseAll (map t_date (stamped ids clock rows)) = Some dates.
Proof.
  revert ids clock. induction rows as [|row rest IH]; intros ids clock; simpl.
  - eauto.
  - destruct (isValid (validateAndSanitizeTransaction row)) eqn:V; [|apply IH].
    destruct (valid_sanitized row V) as (D & Ne & _).
    destruct (sanitizeDate_parses _ Ne) as [t P].
    destruct (IH (S ids) (S (S clock))) as [dates Q].
    exists (t :: dates). simpl. rewrite D. simpl. rewrite P, Q. reflexivity.
Qed.

(** The [k]-th record built is that of the [k]-th row that passes, with
    the [k]-th identifier drawn and the clock read twice for it. *)
Lemma stamped_lookup `{Host} (rows : list Draft) :
  forall ids clock k t,
    stamped ids clock rows !! k = Some t ->
    exists row,
      List.filter valid rows !! k = Some row
      /\ valid row = true
      /\ t = record (generateId (ids + k))
                    (sanitizedData (validateAndSanitizeTransaction row))
                    (Date_now (clock + 2 * k))
                    (Date_now (S (clock + 2 * k))).
Proof.
  induction rows as [|row rest IH]; intros ids clock k t; simpl.
  - destruct k; discriminate.
  - unfold valid at 1.
    destruct (isValid (validateAndSanitizeTransaction row)) eqn:V; [|apply IH].
    destruct k as [|k]; simpl.
    + intros E. inversion E. exists row.
      split; [reflexivity|]. split; [exact V|].
      rewrite !Nat.add_0_r. reflexivity.
    + intros E. destruct (IH _ _ _ _ E) as (r & L & Vr & ->). exists r.
      split; [exact L|]. split; [exact Vr|].
      replace (S ids + k)%nat with (ids + S k)%nat by lia.
      replace (S (S clock) + 2 * k)%nat with (clock + 2 * S k)%nat by lia.
      reflexivity.
Qed.

(** The entries are those of the rows that do not pass, in the order
    of the rows, each with the number of its row, counted from one. *)
Lemma rejected_numbered `{Host} (rows : list Draft) :
  forall i,
    rejected i rows =
    map (fun p => (S (fst p), errors (validateAndSanitizeTransaction (snd p))))
        (List.filter (fun p => negb (valid (snd p)))
                     (combine (seq i (length rows)) rows)).
Proof.
  induction rows as [|row rest IH]; intros i; simpl; [reflexivity|].
  unfold valid at 1.
  destruct (isValid (validateAndSanitizeTransaction row)); simpl;
    rewrite IH; reflexivity.
Qed.

(** A row passes exactly when it has a date, a known type and a
    category, and its amount is a number. *)
Lemma valid_iff `{Host} (row : Draft) :
  valid row = true <->
  sanitizeDate (d_date row) <> []
  /\ (exists ty, knownType (d_type row) = Some ty)
  /\ sanitizeCategory (d_category row) <> []
  /\ numAmount (d_amount row) <> NaN.
Proof.
  unfold valid. split.
  - intros V.
    destruct (valid_sanitized row V)
      as (_ & D & Ty & (ty & Ty') & _ & C & _ & R).
    cbv zeta in *. split; [exact D|].
    split; [exists ty; congruence|]. split; [exact C|].
    intros N. apply sanitizeAmount_NaN in N. rewrite N in R.
    unfold CONSTANTS.MIN_AMOUNT in R. lia.
  - intros (D & (ty & T) & C & A). apply (isValid_intro row ty); assumption.
Qed.

(** C2.  What [addTransactionsBatch] does with its rows.  A row passes
    the validation when it has a date, a known type and a category and
    its amount is a number; an amount that is a number below 1, a
    negative one too, is raised to 1 and does not make the row fail.
    The rows that pass are added in their order, each with the next
    identifier and two readings of the clock; the others are reported
    in their order, one entry each with the number of the row and its
    validation errors.  When no row passes, the call throws with these
    entries and changes nothing.  Otherwise the collection grows by the
    records of the rows that pass, and the call returns these records
    and the entries whenever the dates stored before are dates.  So of
    three rows that are valid but for the negative amount of one, all
    three are added and none is reported. *)
Theorem addTransactionsBatch_rows `{Host} (rows : list Draft)
    (s : HouseholdBudgetData) :
  let accepted := List.filter valid rows in
  let refused := List.filter (fun r => negb (valid r)) rows in
  let added := stamped (idsDrawn s) (clockReads s) rows in
  let errs := rejected 0 rows in
  let s' := after (addTransactionsBatch rows) s in
  (forall row,
     valid row = true <->
     sanitizeDate (d_date row) <> []
     /\ (exists ty, knownType (d_type row) = Some ty)
     /\ sanitizeCategory (d_category row) <> []
     /\ numAmount (d_amount row) <> NaN)
  /\ (forall row q,
        d_amount row = VNum (Fin q) ->
        numAmount (d_amount row) = Fin q
        /\ ((q < 1)%Q -> sanitizeAmount (d_amount row) = CONSTANTS.MIN_AMOUNT))
  /\ length added = length accepted
  /\ (forall k t,
        added !! k = Some t ->
        exists row,
          accepted !! k = Some row
          /\ t_id t = generateId (idsDrawn s + k)
          /\ t_date t = sanitizeDate (d_date row)
          /\ knownType (d_type row) = Some (t_type t)
          /\ t_category t = sanitizeCategory (d_category row)
          /\ t_amount t = sanitizeAmount (d_amount row)
          /\ t_description t
             = sanitizeDescription (js_or (d_description row) (VStr []))
          /\ t_createdAt t = Date_now (clockReads s + 2 * k)
          /\ t_updatedAt t = Date_now (S (clockReads s + 2 * k)))
  /\ length errs = length refused
  /\ errs =
     map (fun p => (S (fst p), errors (validateAndSanitizeTransaction (snd p))))
         (List.filter (fun p => negb (valid (snd p)))
                      (combine (seq 0 (length rows)) rows))
  /\ match accepted with
     | [] =>
         answer (addTransactionsBatch rows) s = Throw (NoValidTransactions errs)
         /\ s' = s
     | _ :: _ =>
         transactions s' = transactions s ++ added
         /\ forall dates,
              parseAll (map t_date (transactions s)) = Some dates ->
              answer (addTransactionsBatch rows) s = Return (added, errs)
     end.
Proof.
  cbv zeta.
  split; [apply valid_iff|].
  split.
  { intros row q E. rewrite E. split; [reflexivity|].
    intros L. unfold sanitizeAmount. cbn [numAmount ToNumber].
    change (inject_Z CONSTANTS.MIN_AMOUNT) with 1%Q.
    rewrite (proj2 (Qlt_bool_iff q 1) L). reflexivity. }
  split; [apply LedgerFacts.stamped_length|].
  split.
  { intros k t E.
    destruct (stamped_lookup rows _ _ _ _ E) as (row & L & V & ->).
    exists row. split; [exact L|].
    destruct (valid_sanitized row V)
      as (Sd & _ & Ty & (ty & Ty') & Sc & _ & Sa & _).
    cbv zeta in *. unfold record.
    cbn [t_id t_date t_type t_category t_amount t_description t_createdAt
         t_updatedAt].
    rewrite Ty' in Ty. rewrite Sd, Sc, Sa, Ty'.
    repeat split. exact Ty. }
  split; [apply LedgerFacts.rejected_length|].
  split; [apply rejected_numbered|].
  pose proof (LedgerFacts.addTransactionsBatch_effect rows s) as F. cbv zeta in F.
  pose proof (LedgerFacts.stamped_length (idsDrawn s) (clockReads s) rows) as L.
  destruct (stamped_parse (idsDrawn s) (clockReads s) rows) as [new P].
  destruct (stamped (idsDrawn s) (clockReads s) rows)
    as [|t added] eqn:E.
  - destruct (List.filter valid rows); [|discriminate].
    destruct F as [St A]. auto.
  - destruct (List.filter valid rows) as [|r accepted];
      [discriminate|].
    destruct F as ((T & _) & A).
    split; [exact T|].
    intros dates Q. apply (A (dates ++ new)).
    rewrite map_app. apply parseAll_app; assumption.
Qed.

Section BatchExample.
#[local] Existing Instance SampleHost.host.

(** A salary, a refund of -500 and a rent: the negative amount is
    raised to the lower limit, and the row is added like the others. *)
Lemma addTransactionsBatch_rows_witness :
  let rows := [Sample.salary; Sample.refund; Sample.rent] in
  let s := constructor in
  exists added,
    answer (addTransactionsBatch rows) s = Return (added, [])
    /\ map t_amount added = [250000; 1; 80000]
    /\ transactions (after (addTransactionsBatch rows) s)
       = transactions s ++ added
    /\ length (transactions (after (addTransactionsBatch rows) s))
       = (length (transactions s) + 3)%nat.
Proof.
  intros rows s.
  pose proof (addTransactionsBatch_rows rows s) as F. cbv zeta in F.
  destruct F as (_ & _ & _ & _ & _ & _ & F).
  evaluate (List.filter valid rows) E. rewrite E in F.
  destruct F as (T & A). specialize (A [] eq_refl).
  evaluate (rejected 0 rows) R. rewrite R in A.
  exists (stamped (idsDrawn s) (clockReads s) rows).
  split; [exact A|]. split; [vm_compute; reflexivity|].
  split; [exact T|]. rewrite T. vm_compute. reflexivity.
Defined.

End BatchExample.

(** ** applyFilters *)








Section FilterExample.
#[local] Existing Instance SampleHost.host.


End FilterExample.

(** ** removeCategory *)

(** An update that moves a transaction to a name of which sanitizing
    leaves nothing is rejected; started by [removeCategory], it leaves no
    trace. *)
Lemma updateTransaction_started_rejected `{Host} (id : jsstring)
    (replacement : jsval) (s : HouseholdBudgetData) :
  sanitizeCategory replacement = [] ->
  updateTransaction_started id (recategorize replacement) s = (Return None, s).
Proof.
  intros E. unfold updateTransaction_started.
  rewrite LedgerFacts.bind_run, LedgerFacts.get_run. cbv beta iota.
  assert (forall current,
            isValid (validateAndSanitizeTransaction
                       (merged current (recategorize replacement))) = false) as V
      by (intros current; apply missing_category; exact E).
  destruct (persists s).
  - unfold tryCatch. rewrite LedgerFacts.bind_run.
    pose proof (LedgerFacts.updateTransaction_replace_effect id
                  (recategorize replacement) s) as R.
    cbv zeta in R.
    destruct (findIndex _ _) as [i|]; [|rewrite R; reflexivity].
    destruct (_ !! _) as [current|]; [|rewrite R; reflexivity].
    rewrite V in R. rewrite R. reflexivity.
  - rewrite LedgerFacts.bind_run. unfold forget at 1. cbv beta iota.
    pose proof (LedgerFacts.updateTransaction_effect id
                  (recategorize replacement) s) as F.
    cbv zeta in F. unfold after in F.
    destruct (findIndex _ _) as [i|]; [|destruct F as [-> _]; reflexivity].
    destruct (_ !! _) as [current|]; [|destruct F as [-> _]; reflexivity].
    rewrite V in F. destruct F as [-> _]. reflexivity.
Qed.

Lemma startAll_rejected `{Host} (related : list Transaction)
    (replacement : jsval) (s : HouseholdBudgetData) :
  sanitizeCategory replacement = [] ->
  startAll related (recategorize replacement) s = (Return [], s).
Proof.
  intros E. induction related as [|t rest IH]; [reflexivity|].
  simpl. rewrite LedgerFacts.bind_run, updateTransaction_started_rejected by exact E.
  cbv beta iota. rewrite LedgerFacts.bind_run, IH. reflexivity.
Qed.

Lemma categoriesOf_set (type : jsstring) (names new : list jsstring)
    (c : Categories) :
  categoriesOf type c = Some names ->
  categoriesOf type (setCategoriesOf type new c) = Some new.
Proof.
  unfold categoriesOf, setCategoriesOf.
  destruct (str_eqb type CONSTANTS.INCOME) eqn:I; [reflexivity|].
  destruct (str_eqb type CONSTANTS.EXPENSE) eqn:X; [|discriminate].
  reflexivity.
Qed.

(** *** When every reassignment is accepted *)

Lemma findIndex_middle (id : jsstring) (a b : list Transaction)
    (t : Transaction) :
  t_id t = id ->
  ~ In id (map t_id a) ->
  findIndex (has_id id) (a ++ t :: b) = Some (length a).
Proof.
  intros E N. induction a as [|x a IH]; simpl.
  - rewrite (proj2 (has_id_true id t) E). reflexivity.
  - simpl in N.
    rewrite (proj2 (has_id_false id x)) by (intros Q; apply N; auto).
    rewrite IH by (intros Q; apply N; auto). reflexivity.
Qed.

Lemma lookup_middle {A} (a b : list A) (x : A) :
  (a ++ x :: b) !! length a = Some x.
Proof. induction a as [|z a IH]; simpl; auto. Qed.

Lemma insert_middle {A} (a b : list A) (x y : A) :
  <[length a := y]> (a ++ x :: b) = a ++ y :: b.
Proof. induction a as [|z a IH]; simpl; [reflexivity|]. rewrite IH. reflexivity. Qed.

(** The second halves of the updates leave the collection and the
    registry alone. *)
Lemma settle_all_keeps `{Host} (pending : list Transaction)
    (s : HouseholdBudgetData) :
  let s' := after (forEach (fun u => forget (updateTransaction_settle u)) pending) s in
  transactions s' = transactions s /\ categories s' = categories s.
Proof.
  cbv zeta. revert s. induction pending as [|u pending IH]; intros s.
  - split; reflexivity.
  - assert (after (forEach (fun u => forget (updateTransaction_settle u))
                           (u :: pending)) s
            = after (forEach (fun u => forget (updateTransaction_settle u)) pending)
                    (after (updateTransaction_settle u) s)) as E.
    { simpl forEach. rewrite LedgerFacts.after_bind. reflexivity. }
    rewrite E. clear E.
    assert (quiet (emit (TransactionUpdated u) ;;; emit DataChanged ;;; ret u))
      as Q.
    { apply LedgerFacts.quiet_bind; [apply LedgerFacts.quiet_emit | intros _].
      apply LedgerFacts.quiet_bind; [apply LedgerFacts.quiet_emit | intros _].
      apply LedgerFacts.quiet_ret. }
    pose proof (LedgerFacts.settle_tail _ s Q) as F. cbv zeta in F.
    destruct F as ((T & _ & _ & _ & C & _) & _).
    destruct (IH (after (updateTransaction_settle u) s)) as [T' C'].
    rewrite T', C'. unfold updateTransaction_settle. split; assumption.
Qed.

Lemma settle_all_returns `{Host} (pending : list Transaction)
    (s : HouseholdBudgetData) :
  exists s',
    forEach (fun u => forget (updateTransaction_settle u)) pending s
    = (Return tt, s').
Proof.
  revert s. induction pending as [|u pending IH]; intros s.
  - exists s. reflexivity.
  - simpl forEach. rewrite LedgerFacts.bind_run. unfold forget at 1.
    cbv beta iota. apply IH.
Qed.

Lemma categoriesOf_known (type : jsstring) (c : Categories)
    (names : list jsstring) :
  categoriesOf type c = Some names -> knownType (VStr type) = Some type.
Proof.
  unfold categoriesOf, knownType.
  destruct (str_eqb type CONSTANTS.INCOME); [reflexivity|].
  destruct (str_eqb type CONSTANTS.EXPENSE); [reflexivity | discriminate].
Qed.

(** A transaction of the category, with a date that passes the
    validation again, goes to the sanitized replacement, whether or not
    the update has a database to wait for. *)
Lemma updateTransaction_started_moves `{Host} (type name : jsstring)
    (replacement : jsval) (done rest : list Transaction) (t : Transaction)
    (s : HouseholdBudgetData) :
  knownType (VStr type) = Some type ->
  sanitizeCategory replacement <> [] ->
  refersTo type name t = true ->
  sanitizeDate (VStr (t_date t)) <> [] ->
  transactions s = done ++ t :: rest ->
  ~ In (t_id t) (map t_id done) ->
  exists started new s1,
    updateTransaction_started (t_id t) (recategorize replacement) s
      = (Return started, s1)
    /\ transactions s1 = done ++ new :: rest
    /\ categories s1 = categories s
    /\ t_id new = t_id t
    /\ t_type new = type
    /\ t_category new = sanitizeCategory replacement.
Proof.
  intros K C R D Tx N.
  apply andb_true_iff in R. destruct R as [Ty _]. apply str_eqb_eq in Ty.
  assert (isValid (validateAndSanitizeTransaction
                     (merged t (recategorize replacement))) = true) as V.
  { apply (isValid_intro _ type); simpl; try assumption.
    - rewrite Ty. exact K.
    - discriminate. }
  destruct (valid_sanitized _ V) as (_ & _ & Kt & _ & Sc & _).
  change (d_type (merged t (recategorize replacement)))
    with (VStr (t_type t)) in Kt.
  change (d_category (merged t (recategorize replacement)))
    with replacement in Sc.
  rewrite Ty, K in Kt.
  assert (findIndex (has_id (t_id t)) (transactions s) = Some (length done)) as F
      by (rewrite Tx; apply findIndex_middle; auto).
  assert (transactions s !! length done = Some t) as L
      by (rewrite Tx; apply lookup_middle).
  set (new := replaced (t_id t)
                (validateAndSanitizeTransaction (merged t (recategorize replacement)))
                t s).
  assert (t_id new = t_id t /\ t_type new = type
          /\ t_category new = sanitizeCategory replacement) as Fields.
  { unfold new, replaced, record. cbn [t_id t_type t_category].
    rewrite <- Kt, Sc. auto. }
  assert (<[length done := new]> (transactions s) = done ++ new :: rest) as I
      by (rewrite Tx; apply insert_middle).
  unfold updateTransaction_started.
  rewrite LedgerFacts.bind_run, LedgerFacts.get_run. cbv beta iota.
  destruct (persists s).
  - unfold tryCatch. rewrite LedgerFacts.bind_run.
    pose proof (LedgerFacts.updateTransaction_replace_effect (t_id t)
                  (recategorize replacement) s) as E.
    cbv zeta in E. rewrite F, L, V in E. rewrite E. cbv beta iota.
    eexists _, new, _. split; [reflexivity|].
    split; [exact I|]. split; [reflexivity | exact Fields].
  - rewrite LedgerFacts.bind_run. unfold forget at 1. cbv beta iota.
    pose proof (LedgerFacts.updateTransaction_effect (t_id t)
                  (recategorize replacement) s) as E.
    cbv zeta in E. rewrite F, L, V in E.
    destruct E as (T' & _ & _ & _ & C' & _).
    eexists _, new, _. split; [reflexivity|].
    split; [rewrite <- I; exact T'|]. split; [exact C' | exact Fields].
Qed.

Lemma startAll_moves `{Host} (type name : jsstring) (replacement : jsval)
    (rest : list Transaction) :
  knownType (VStr type) = Some type ->
  sanitizeCategory replacement <> [] ->
  (forall t, In t rest -> refersTo type name t = true ->
             sanitizeDate (VStr (t_date t)) <> []) ->
  forall (done : list Transaction) (s : HouseholdBudgetData),
    transactions s = done ++ rest ->
    List.NoDup (map t_id (done ++ rest)) ->
    exists pending rest' s1,
      startAll (List.filter (refersTo type name) rest)
               (recategorize replacement) s = (Return pending, s1)
      /\ transactions s1 = done ++ rest'
      /\ categories s1 = categories s
      /\ Forall2 (reassigned type name (sanitizeCategory replacement)) rest rest'.
Proof.
  intros K C. induction rest as [|t rest IH]; intros D done s Tx ND.
  - exists [], [], s. repeat split; auto.
  - simpl List.filter. destruct (refersTo type name t) eqn:R.
    + assert (~ In (t_id t) (map t_id done)) as N.
      { rewrite map_app in ND. simpl in ND.
        apply List.NoDup_remove_2 in ND. intros I. apply ND.
        apply in_or_app. auto. }
      destruct (updateTransaction_started_moves type name replacement done rest
                  t s K C R (D t (or_introl eq_refl) R) Tx N)
        as (started & new & sa & E & Ta & Ca & Id & Ty & Cat).
      destruct (IH (fun x I => D x (or_intror I)) (done ++ [new]) sa)
        as (pending & rest' & s1 & E' & T1 & C1 & F).
      { rewrite Ta, <- app_assoc. reflexivity. }
      { rewrite <- app_assoc. simpl. rewrite map_app in *. simpl in *.
        rewrite Id. exact ND. }
      simpl startAll. rewrite LedgerFacts.bind_run, E. cbv beta iota.
      rewrite LedgerFacts.bind_run, E'. cbv beta iota.
      eexists _, (new :: rest'), s1. split; [reflexivity|].
      split; [rewrite T1, <- app_assoc; reflexivity|].
      split; [congruence|].
      constructor; [|exact F]. split; [exact Id|]. rewrite R. auto.
    + destruct (IH (fun x I => D x (or_intror I)) (done ++ [t]) s)
        as (pending & rest' & s1 & E' & T1 & C1 & F).
      { rewrite Tx, <- app_assoc. reflexivity. }
      { rewrite <- app_assoc. exact ND. }
      exists pending, (t :: rest'), s1. split; [exact E'|].
      split; [rewrite T1, <- app_assoc; reflexivity|].
      split; [exact C1|].
      constructor; [|exact F]. split; [reflexivity|]. rewrite R. reflexivity.
Qed.

(** With the transactions reassigned, none is left in the category and
    the replacement has gained as many. *)
Lemma reassigned_none (type name r : jsstring) (l l' : list Transaction) :
  r <> name ->
  Forall2 (reassigned type name r) l l' ->
  List.filter (refersTo type name) l' = [].
Proof.
  intros N. induction 1 as [|t t' l l' [Id R] F IH]; simpl; [reflexivity|].
  destruct (refersTo type name t) eqn:E.
  - destruct R as [Ty Cat]. unfold refersTo at 1.
    rewrite Cat, (proj2 (str_eqb_neq r name) N), andb_false_r. exact IH.
  - subst t'. rewrite E. exact IH.
Qed.

Lemma reassigned_count (type name r : jsstring) (l l' : list Transaction) :
  r <> name ->
  Forall2 (reassigned type name r) l l' ->
  length (List.filter (refersTo type r) l')
  = (length (List.filter (refersTo type name) l)
     + length (List.filter (refersTo type r) l))%nat.
Proof.
  intros N. induction 1 as [|t t' l l' [Id R] F IH]; simpl; [reflexivity|].
  destruct (refersTo type name t) eqn:E.
  - destruct R as [Ty Cat].
    assert (refersTo type r t' = true) as Rt'
        by (unfold refersTo; rewrite Ty, Cat, !str_eqb_refl; reflexivity).
    assert (refersTo type r t = false) as Rt.
    { unfold refersTo in *. apply andb_true_iff in E. destruct E as [_ E].
      apply str_eqb_eq in E. rewrite E.
      rewrite (proj2 (str_eqb_neq name r)) by congruence.
      apply andb_false_r. }
    rewrite Rt', Rt. simpl. rewrite IH. reflexivity.
  - subst t'. destruct (refersTo type r t); simpl; rewrite IH; lia.
Qed.

Lemma removeCategory_reassigns `{Host} (type name : jsstring)
    (replacement : jsval) (names : list jsstring) (s : HouseholdBudgetData) :
  categoriesOf type (categories s) = Some names ->
  truthy replacement = true ->
  sanitizeCategory replacement <> [] ->
  List.NoDup (map t_id (transactions s)) ->
  (forall t, In t (transactions s) -> refersTo type name t = true ->
             sanitizeDate (VStr (t_date t)) <> []) ->
  let s' := after (removeCategory type name replacement) s in
  answer (removeCategory type name replacement) s
    = Return (length (List.filter (refersTo type name) (transactions s)))
  /\ Forall2 (reassigned type name (sanitizeCategory replacement))
             (transactions s) (transactions s')
  /\ categoriesOf type (categories s') =
       Some (List.filter (fun c => negb (str_eqb c name)) names).
Proof.
  intros C T E ND D. cbv zeta.
  destruct (startAll_moves type name replacement (transactions s)
              (categoriesOf_known _ _ _ C) E D [] s eq_refl ND)
    as (pending & rest' & s1 & S & T1 & C1 & F).
  simpl in T1.
  assert (removeCategory_body type name replacement s =
          (Return (pending,
                   length (List.filter (refersTo type name) (transactions s))),
           with_emitted
             (emitted s1 ++ [CategoryRemoved type name; DataChanged])
             (with_categories
                (setCategoriesOf type
                   (List.filter (fun c => negb (str_eqb c name)) names)
                   (categories s1)) s1))) as B.
  { unfold removeCategory_body.
    rewrite LedgerFacts.bind_run, LedgerFacts.get_run. cbv beta iota zeta.
    rewrite LedgerFacts.bind_run.
    assert ((if (0 <? length (List.filter (refersTo type name) (transactions s)))%nat
             then if negb (truthy replacement)
                  then throw (CategoryInUse
                                (length (List.filter (refersTo type name)
                                                     (transactions s))))
                  else startAll (List.filter (refersTo type name) (transactions s))
                                (recategorize replacement)
             else ret []) s = (Return pending, s1)) as P.
    { rewrite T. simpl negb. cbv iota.
      destruct (0 <? _)%nat eqn:L; [exact S|].
      apply LedgerFacts.length_zero_nil in L. rewrite L in S. exact S. }
    rewrite P. cbv beta iota.
    assert (categoriesOf type (categories s1) = Some names) as C'
        by (rewrite C1; exact C).
    rewrite C'.
    rewrite LedgerFacts.bind_run, LedgerFacts.modify_run. cbv beta iota.
    rewrite LedgerFacts.bind_run, LedgerFacts.emit_run. cbv beta iota.
    rewrite LedgerFacts.bind_run, LedgerFacts.emit_run. cbv beta iota.
    unfold ret. simpl. rewrite <- app_assoc. reflexivity. }
  unfold removeCategory.
  rewrite LedgerFacts.answer_bind, LedgerFacts.after_bind, B. cbv beta iota.
  simpl fst. simpl snd.
  rewrite LedgerFacts.answer_bind, LedgerFacts.after_bind.
  match goal with
  | |- context [forEach ?f pending ?st] =>
      pose proof (settle_all_keeps pending st) as K; cbv zeta in K;
      unfold after in K;
      destruct (settle_all_returns pending st) as [s2 R]; rewrite R in *
  end.
  simpl in K. destruct K as [Tk Ck].
  unfold ret, after, answer. cbv beta. cbn [fst snd].
  split; [reflexivity|].
  rewrite Tk, Ck, T1. split; [exact F|].
  rewrite C1. eapply categoriesOf_set, C.
Qed.

Lemma categoriesOf_expense (c : Categories) :
  categoriesOf CONSTANTS.EXPENSE c = Some (expense c).
Proof. reflexivity. Qed.

Lemma removeCategory_in_use `{Host} (type name : jsstring)
    (replacement : jsval) (s : HouseholdBudgetData) :
  let related := List.filter (refersTo type name) (transactions s) in
  (0 < length related)%nat ->
  truthy replacement = false ->
  answer (removeCategory type name replacement) s
    = Throw (CategoryInUse (length related))
  /\ after (removeCategory type name replacement) s = s.
Proof.
  cbv zeta. intros N T.
  assert (removeCategory_body type name replacement s =
          (Throw (CategoryInUse
                    (length (List.filter (refersTo type name) (transactions s)))),
           s)) as B.
  { unfold removeCategory_body.
    rewrite LedgerFacts.bind_run, LedgerFacts.get_run. cbv beta iota zeta.
    rewrite LedgerFacts.bind_run.
    apply Nat.ltb_lt in N. rewrite N, T. reflexivity. }
  unfold removeCategory.
  rewrite LedgerFacts.answer_bind, LedgerFacts.after_bind, B. auto.
Qed.

Lemma removeCategory_rejected `{Host} (type name : jsstring)
    (replacement : jsval) (names : list jsstring) (s : HouseholdBudgetData) :
  truthy replacement = true ->
  sanitizeCategory replacement = [] ->
  categoriesOf type (categories s) = Some names ->
  let related := List.filter (refersTo type name) (transactions s) in
  let s' := after (removeCategory type name replacement) s in
  answer (removeCategory type name replacement) s = Return (length related)
  /\ transactions s' = transactions s
  /\ categoriesOf type (categories s') =
       Some (List.filter (fun c => negb (str_eqb c name)) names).
Proof.
  intros T E C. cbv zeta.
  assert (removeCategory_body type name replacement s =
          (Return ([], length (List.filter (refersTo type name) (transactions s))),
           with_emitted
             (emitted s ++ [CategoryRemoved type name; DataChanged])
             (with_categories
                (setCategoriesOf type
                   (List.filter (fun c => negb (str_eqb c name)) names)
                   (categories s)) s))) as B.
  { unfold removeCategory_body.
    rewrite LedgerFacts.bind_run, LedgerFacts.get_run. cbv beta iota zeta.
    rewrite LedgerFacts.bind_run.
    assert ((if (0 <? length (List.filter (refersTo type name) (transactions s)))%nat
             then if negb (truthy replacement)
                  then throw (CategoryInUse
                                (length (List.filter (refersTo type name)
                                                     (transactions s))))
                  else startAll (List.filter (refersTo type name) (transactions s))
                                (recategorize replacement)
             else ret []) s = (Return [], s)) as P.
    { rewrite T. simpl negb. cbv iota.
      destruct (0 <? _)%nat; [apply startAll_rejected, E | reflexivity]. }
    rewrite P. cbv beta iota. rewrite C.
    rewrite LedgerFacts.bind_run, LedgerFacts.modify_run. cbv beta iota.
    rewrite LedgerFacts.bind_run, LedgerFacts.emit_run. cbv beta iota.
    rewrite LedgerFacts.bind_run, LedgerFacts.emit_run. cbv beta iota.
    unfold ret. simpl. rewrite <- app_assoc. reflexivity. }
  unfold removeCategory.
  rewrite LedgerFacts.answer_bind, LedgerFacts.after_bind, B. cbv beta iota.
  simpl fst. simpl snd. simpl forEach.
  rewrite LedgerFacts.answer_bind, LedgerFacts.after_bind. unfold ret at 1 3.
  cbv beta iota.
  split; [reflexivity|]. split; [reflexivity|].
  simpl. eapply categoriesOf_set, C.
Qed.

(** C3, as far as it holds, and the case that goes wrong.  With at
    least one transaction in the category and no replacement,
    [removeCategory] throws with their number and changes nothing.
    Given a replacement of which sanitizing leaves nothing, every
    reassignment that it starts is rejected and nobody sees the
    rejections: the call returns the number of the transactions in the
    category and takes the name out of the registry, and the transactions
    are what they were -- those of the category still refer to the
    removed name.  Given a replacement of which sanitizing leaves another
    name, in a collection without two equal ids and with dates in the
    category that pass the validation again, the transactions of the
    category go to that name, the others stay, and the name leaves the
    registry. *)
Theorem removeCategory_outcomes `{Host} (type name : jsstring)
    (replacement : jsval) (names : list jsstring) (s : HouseholdBudgetData) :
  categoriesOf type (categories s) = Some names ->
  let related := List.filter (refersTo type name) (transactions s) in
  let r := sanitizeCategory replacement in
  let s' := after (removeCategory type name replacement) s in
  ((0 < length related)%nat ->
   truthy replacement = false ->
   answer (removeCategory type name replacement) s
     = Throw (CategoryInUse (length related))
   /\ s' = s)
  /\ (truthy replacement = true ->
      r = [] ->
      answer (removeCategory type name replacement) s = Return (length related)
      /\ transactions s' = transactions s
      /\ List.filter (refersTo type name) (transactions s') = related
      /\ categoriesOf type (categories s') =
           Some (List.filter (fun c => negb (str_eqb c name)) names))
  /\ (truthy replacement = true ->
      r <> [] ->
      r <> name ->
      List.NoDup (map t_id (transactions s)) ->
      (forall t, In t related -> sanitizeDate (VStr (t_date t)) <> []) ->
      answer (removeCategory type name replacement) s = Return (length related)
      /\ Forall2 (reassigned type name r) (transactions s) (transactions s')
      /\ List.filter (refersTo type name) (transactions s') = []
      /\ length (List.filter (refersTo type r) (transactions s'))
         = (length related
            + length (List.filter (refersTo type r) (transactions s)))%nat
      /\ categoriesOf type (categories s') =
           Some (List.filter (fun c => negb (str_eqb c name)) names)).
Proof.
  intros C. cbv zeta. split; [|split].
  - apply removeCategory_in_use.
  - intros T E.
    destruct (removeCategory_rejected type name replacement names s T E C)
      as (A & Tr & R).
    cbv zeta in Tr. rewrite Tr. auto.
  - intros T E N ND D.
    destruct (removeCategory_reassigns type name replacement names s C T E ND)
      as (A & F & R).
    { intros t I Rt. apply D. apply filter_In. auto. }
    cbv zeta in F, R. split; [exact A|]. split; [exact F|].
    split; [eapply reassigned_none; eauto|].
    split; [eapply reassigned_count; eauto | exact R].
Qed.

Section RemoveExample.
#[local] Existing Instance SampleHost.host.

Lemma removeCategory_outcomes_witness :
  let name := [39135; 36027]%N in
  let other := [20132; 36890; 36027]%N in
  let s := perform (AddTransaction Sample.meal) constructor in
  let lost := after (removeCategory CONSTANTS.EXPENSE name (VStr (js "!!!"))) s in
  let moved := after (removeCategory CONSTANTS.EXPENSE name (VStr other)) s in
  map t_category (transactions s) = [name]
  /\ answer (removeCategory CONSTANTS.EXPENSE name VNull) s
     = Throw (CategoryInUse 1)
  /\ (answer (removeCategory CONSTANTS.EXPENSE name (VStr (js "!!!"))) s
      = Return 1%nat
      /\ map t_category (transactions lost) = [name]
      /\ includes (expense (categories s)) name = true
      /\ includes (expense (categories lost)) name = false)
  /\ (answer (removeCategory CONSTANTS.EXPENSE name (VStr other)) s
      = Return 1%nat
      /\ List.filter (refersTo CONSTANTS.EXPENSE name) (transactions moved) = []
      /\ length (List.filter (refersTo CONSTANTS.EXPENSE other)
                             (transactions moved)) = 1%nat).
Proof.
  intros name other s lost moved.
  evaluate (categoriesOf CONSTANTS.EXPENSE (categories s)) C.
  evaluate (transactions s) Ts.
  match type of C with
  | _ = Some ?names =>
      pose proof (removeCategory_outcomes CONSTANTS.EXPENSE name
                    (VStr (js "!!!")) names s C) as F;
      pose proof (removeCategory_outcomes CONSTANTS.EXPENSE name
                    VNull names s C) as G;
      pose proof (removeCategory_outcomes CONSTANTS.EXPENSE name
                    (VStr other) names s C) as P
  end.
  cbv zeta in F, G, P.
  destruct F as (_ & F & _). destruct G as (G & _). destruct P as (_ & _ & P).
  destruct F as (A & T & _ & R); [reflexivity | vm_compute; reflexivity |].
  destruct G as (B & _); [rewrite Ts; vm_compute; lia | reflexivity |].
  evaluate (sanitizeCategory (VStr other)) So.
  destruct P as (A' & _ & Z & N & _).
  { reflexivity. }
  { rewrite So. discriminate. }
  { rewrite So. discriminate. }
  { rewrite Ts. repeat constructor. intros []. }
  { intros t I. rewrite Ts in I.
    evaluate (sanitizeDate (VStr (js "2025-03-03"))) Sd.
    destruct I as [<- | []]. cbn [t_date].
    change [50; 48; 50; 53; 45; 48; 51; 45; 48; 51]%N
      with (js "2025-03-03").
    rewrite Sd. discriminate. }
  fold lost in T, R. fold moved in Z, N. rewrite So in N.
  split; [rewrite Ts; reflexivity|].
  split; [rewrite B, Ts; reflexivity|].
  split; [|split; [rewrite A', Ts; reflexivity|split; [exact Z|]]].
  - split; [rewrite A, Ts; reflexivity|].
    split; [rewrite T, Ts; reflexivity|].
    split; [vm_compute; reflexivity|].
    rewrite categoriesOf_expense in R.
    pose proof (f_equal (fun o => match o with Some x => x | None => [] end) R)
      as R'.
    cbv beta iota in R'. rewrite R'. vm_compute. reflexivity.
  - unfold other. rewrite N, Ts. reflexivity.
Defined.

End RemoveExample.

(** * The event emitter *)

Module EmitFacts.
Import EventEmitter EmitNotions.

Lemma calledFor_app (event : string) (a b : list entry) :
  calledFor event (a ++ b) = calledFor event a ++ calledFor event b.
Proof. unfold calledFor. apply flat_map_app. Qed.

Lemma calledFor_Called (event : string) (l : nat) (args : list value) :
  calledFor event [Called event l args] = [l].
Proof. simpl. rewrite String.eqb_refl. reflexivity. Qed.

Lemma calledFor_calls_other (event other : string) (args : list value)
    (listeners : list nat) :
  other <> event ->
  calledFor event (map (fun l => Called other l args) listeners) = [].
Proof.
  intros N. induction listeners as [|l rest IH]; simpl; [reflexivity|].
  destruct (String.eqb other event) eqn:E; [|exact IH].
  apply String.eqb_eq in E. contradiction.
Qed.

Lemma calledFor_calls (event : string) (args : list value) (listeners : list nat) :
  calledFor event (map (fun l => Called event l args) listeners) = listeners.
Proof.
  induction listeners as [|l rest IH]; simpl; [reflexivity|].
  rewrite String.eqb_refl. simpl. rewrite IH. reflexivity.
Qed.

Section Quiet.
Variable beh : behaviour.

Hypothesis handled : errorsHandled beh.

(** A dispatch in which no listener throws calls them all, in order. *)
Lemma dispatch_quiet emit' (event : string) (args : list value)
    (listeners : list nat) :
  (forall l, In l listeners -> thrown (beh l event args) = None) ->
  forall events log,
  exists events',
    dispatch beh emit' event args listeners events log =
    (Done true, events', log ++ map (fun l => Called event l args) listeners).
Proof.
  induction listeners as [|l rest IH]; intros Q events log; simpl.
  - exists events. rewrite app_nil_r. reflexivity.
  - rewrite (Q l) by (left; reflexivity).
    destruct (IH (fun x I => Q x (or_intror I))
                 (fold_left perform (acts (beh l event args)) events)
                 (log ++ [Called event l args])) as [events' E].
    exists events'. rewrite E, <- app_assoc. reflexivity.
Qed.

Lemma emit_publishes (depth : nat) (event : string) :
  event <> "error"%string ->
  publishes (emit beh (S depth)) event.
Proof.
  intros N args events. simpl.
  destruct (events !! "error"%string) as [listeners|].
  - destruct (dispatch_quiet (emit beh depth) "error" args listeners
                (fun l _ => handled l args) events [Emitted "error" args])
      as [events' E].
    exists true, events', ([Emitted "error" args] ++
                            map (fun l => Called "error" l args) listeners).
    split; [exact E|]. split; [left; reflexivity|].
    rewrite calledFor_app, calledFor_calls_other by auto. reflexivity.
  - exists false, events, [Emitted "error" args].
    split; [reflexivity|]. split; [left; reflexivity | reflexivity].
Qed.

(** A dispatch calls every listener of the copy, whatever some of them
    throw, and publishes what they throw. *)
Lemma dispatch_all emit' (event : string) (args : list value)
    (listeners : list nat) :
  publishes emit' event ->
  forall events log,
  exists events' log',
    dispatch beh emit' event args listeners events log =
      (Done true, events', log')
    /\ calledFor event log' = calledFor event log ++ listeners
    /\ (forall x, In x log -> In x log')
    /\ (forall l e,
          In l listeners ->
          thrown (beh l event args) = Some e ->
          In (Emitted "error" [e; Name event]) log').
Proof.
  intros P. induction listeners as [|l rest IH]; intros events log; simpl.
  - exists events, log. rewrite app_nil_r. repeat split; auto. intros l e [].
  - destruct (thrown (beh l event args)) as [error|] eqn:T.
    + destruct (P [error; Name event]
                  (fold_left perform (acts (beh l event args)) events))
        as (b & events1 & sub & E & Pub & Calls).
      rewrite E.
      destruct (IH events1 ((log ++ [Called event l args]) ++ sub))
        as (events' & log' & D & C & Inc & Thrown).
      exists events', log'. split; [exact D|]. split; [|split].
      * rewrite C, !calledFor_app, Calls, calledFor_Called, app_nil_r,
          <- app_assoc. reflexivity.
      * intros x I. apply Inc. rewrite !in_app_iff. auto.
      * intros l' e [<- | I] Te.
        -- rewrite T in Te. inversion Te. subst.
           apply Inc. rewrite in_app_iff. auto.
        -- eapply Thrown; eauto.
    + destruct (IH (fold_left perform (acts (beh l event args)) events)
                  (log ++ [Called event l args]))
        as (events' & log' & D & C & Inc & Thrown).
      exists events', log'. split; [exact D|]. split; [|split].
      * rewrite C, calledFor_app, calledFor_Called, <- app_assoc. reflexivity.
      * intros x I. apply Inc. rewrite in_app_iff. auto.
      * intros l' e [<- | I] Te; [congruence|]. eapply Thrown; eauto.
Qed.

End Quiet.

End EmitFacts.

Import EventEmitter.

Lemma emit_S (beh : behaviour) (depth : nat) (event : string)
    (args : list value) (events : registry) :
  emit beh (S depth) event args events =
  match events !! event with
  | None => (Done false, events, [Emitted event args])
  | Some listeners =>
      dispatch beh (emit beh depth) event args listeners events
               [Emitted event args]
  end.
Proof. reflexivity. Qed.

Lemma dispatch_cons (beh : behaviour) emit' (event : string)
    (args : list value) (l : nat) (rest : list nat) (events : registry)
    (log : list entry) :
  dispatch beh emit' event args (l :: rest) events log =
  let r := beh l event args in
  let events1 := fold_left perform (acts r) events in
  let log1 := log ++ [Called event l args] in
  match thrown r with
  | None => dispatch beh emit' event args rest events1 log1
  | Some error =>
      match emit' "error"%string [error; Name event] events1 with
      | (Done _, events2, sub) =>
          dispatch beh emit' event args rest events2 (log1 ++ sub)
      | (Overflow, events2, sub) => (Overflow, events2, log1 ++ sub)
      end
  end.
Proof. reflexivity. Qed.

(** C8, for listeners of the error topic that do not throw themselves.
    [emit] then returns true, having called every listener that was
    subscribed to the event when it started, in order, whatever some of
    them threw and whatever they subscribed or unsubscribed; and each
    thrown value has been published on the error topic together with the
    name of the event. *)
Theorem emit_calls_all (beh : behaviour) (depth : nat) (event : string)
    (args : list value) (events : registry) (listeners : list nat) :
  EmitNotions.errorsHandled beh ->
  events !! event = Some listeners ->
  exists events' log,
    emit beh (S (S depth)) event args events = (Done true, events', log)
    /\ calledFor event log = listeners
    /\ forall l e,
         In l listeners ->
         thrown (beh l event args) = Some e ->
         In (Emitted "error" [e; Name event]) log.
Proof.
  intros H L. rewrite emit_S, L.
  destruct (string_dec event "error") as [-> | N].
  - destruct (EmitFacts.dispatch_quiet beh (emit beh (S depth)) "error" args
                listeners (fun l _ => H l args) events [Emitted "error" args])
      as [events' E].
    eexists _, _. split; [exact E|]. split.
    + rewrite EmitFacts.calledFor_app, EmitFacts.calledFor_calls. reflexivity.
    + intros l e _ T. rewrite H in T. discriminate.
  - destruct (EmitFacts.dispatch_all beh (emit beh (S depth)) event args listeners
                (EmitFacts.emit_publishes beh H depth event N)
                events [Emitted event args])
      as (events' & log & E & C & _ & T).
    exists events', log. split; [exact E|]. split; [exact C | exact T].
Qed.

Lemma emit_calls_all_witness :
  exists events' log,
    emit EmitSample.careful 2 "change" [] EmitSample.subscribed
      = (Done true, events', log)
    /\ calledFor "change" log = [1; 2]%nat
    /\ In (Emitted "error" [Failure 7; Name "change"]) log.
Proof.
  destruct (emit_calls_all EmitSample.careful 0 "change" []
              EmitSample.subscribed [1; 2]%nat)
    as (events' & log & E & C & T).
  - intros listener args. unfold EmitSample.careful.
    destruct (listener =? 1)%nat; reflexivity.
  - vm_compute. reflexivity.
  - exists events', log. split; [exact E|]. split; [exact C|].
    apply (T 1%nat (Failure 7)); [left; reflexivity | reflexivity].
Defined.

Lemma subscribed_error :
  EmitSample.subscribed !! "error"%string = Some [3%nat].
Proof. vm_compute. reflexivity. Qed.

Lemma subscribed_change :
  EmitSample.subscribed !! "change"%string = Some [1; 2]%nat.
Proof. vm_compute. reflexivity. Qed.

(** The listener of the error topic throws: publishing an error never
    comes to an end. *)
Lemma careless_error (depth : nat) (args : list value) :
  exists log,
    emit EmitSample.careless depth "error" args EmitSample.subscribed
      = (Overflow, EmitSample.subscribed, log)
    /\ calledFor "change" log = [].
Proof.
  revert args. induction depth as [|depth IH]; intros args.
  - exists []. split; reflexivity.
  - rewrite emit_S, subscribed_error.
    destruct (IH [Failure 9; Name "error"]) as (sub & E & C).
    rewrite dispatch_cons. cbv zeta.
    change (EmitSample.careless 3%nat "error" args)
      with {| acts := []; thrown := Some (Failure 9) |}.
    cbn [acts thrown fold_left]. rewrite E. eexists. split; [reflexivity|].
    rewrite EmitFacts.calledFor_app, C. reflexivity.
Qed.

(** Listeners 1 and 2 are subscribed to the event; listener 1 throws and
    the listener of the error topic throws as well.  Whatever the depth
    of the stack, [emit] does not return and listener 2 is not called. *)
Lemma emit_calls_all_counterexample :
  EmitSample.subscribed !! "change"%string = Some [1; 2]%nat
  /\ forall depth,
     exists log,
       emit EmitSample.careless (S depth) "change" [] EmitSample.subscribed
         = (Overflow, EmitSample.subscribed, log)
       /\ calledFor "change" log = [1%nat].
Proof.
  split; [exact subscribed_change|]. intros depth.
  rewrite emit_S, subscribed_change.
  destruct (careless_error depth [Failure 7; Name "change"]) as (sub & E & C).
  rewrite dispatch_cons. cbv zeta.
  change (EmitSample.careless 1%nat "change" [])
    with {| acts := []; thrown := Some (Failure 7) |}.
  cbn [acts thrown fold_left]. rewrite E. eexists. split; [reflexivity|].
  rewrite !EmitFacts.calledFor_app, C. reflexivity.
Qed.

(** * The sanitizer: what its results are like *)

(** ** Markup *)

Section Markup.
Import Regex Sanitizer Shapes.

Lemma rmatch_suffix (r : regex) :
  forall R prev s (k : option N -> jsstring -> option R) x,
    rmatch r prev s k = Some x ->
    exists prev' s', s' `suffix_of` s /\ k prev' s' = Some x.
Proof.
  induction r as [|p|a IHa b IHb|a IHa|a IHa|]; intros R prev s k x; simpl.
  - intros E. exists prev, s. split; [reflexivity | exact E].
  - destruct s as [|c s']; [discriminate|].
    destruct (p c); [|discriminate].
    intros E. exists (Some c), s'. split; [|exact E].
    apply suffix_cons_r. reflexivity.
  - intros E. apply IHa in E. destruct E as (p1 & s1 & S1 & E).
    apply IHb in E. destruct E as (p2 & s2 & S2 & E).
    exists p2, s2. split; [|exact E]. etransitivity; eassumption.
  - generalize (length s) at 1. intros fuel. revert prev s.
    induction fuel as [|fuel IH]; intros prev s.
    + intros E. exists prev, s. split; [reflexivity | exact E].
    + destruct (rmatch a prev s _) as [y|] eqn:M.
      * intros E. inversion E. subst y.
        apply IHa in M. destruct M as (p1 & s1 & S1 & M).
        destruct (length s1 <? length s)%nat; [|discriminate].
        apply IH in M. destruct M as (p2 & s2 & S2 & M).
        exists p2, s2. split; [|exact M]. etransitivity; eassumption.
      * intros E. exists prev, s. split; [reflexivity | exact E].
  - destruct (rmatch a prev s _); [discriminate|].
    intros E. exists prev, s. split; [reflexivity | exact E].
  - destruct (xorb _ _); [|discriminate].
    intros E. exists prev, s. split; [reflexivity | exact E].
Qed.

(** Removing the matches of a pattern leaves units of the string, in
    their order. *)
Lemma remove_from_sublist (r : regex) (fuel : nat) :
  forall prev s, remove_from r fuel prev s `sublist_of` s.
Proof.
  induction fuel as [|fuel IH]; intros prev s; simpl; [reflexivity|].
  assert (match s with
          | [] => []
          | c :: rest => c :: remove_from r fuel (Some c) rest
          end `sublist_of` s) as Step.
  { destruct s as [|c rest]; [reflexivity|]. apply sublist_skip, IH. }
  destruct (rmatch r prev s _) as [[p' s']|] eqn:M; [|exact Step].
  destruct (length s' <? length s)%nat; [|exact Step].
  apply rmatch_suffix in M. destruct M as (p1 & s1 & S1 & E).
  inversion E. subst. etransitivity; [apply IH|].
  destruct S1 as [front ->]. apply sublist_inserts_l. reflexivity.
Qed.

Lemma removeAll_sublist (r : regex) (s : jsstring) :
  removeAll r s `sublist_of` s.
Proof. apply remove_from_sublist. Qed.

Lemma stripHTML_sublist (s : jsstring) : stripHTML s `sublist_of` s.
Proof.
  unfold stripHTML.
  repeat (etransitivity; [apply removeAll_sublist|]). reflexivity.
Qed.

(** *** Tags *)

Lemma hasTag_cons (c : N) (s : jsstring) :
  hasTag (c :: s) <-> (c = 60%N /\ In 62%N s) \/ hasTag s.
Proof.
  split.
  - intros (before & inside & rest & E). destruct before as [|b before].
    + simpl in E. inversion E. subst. left. split; [reflexivity|].
      apply in_or_app. right. left. reflexivity.
    + simpl in E. inversion E. subst. right. exists before, inside, rest.
      reflexivity.
  - intros [[-> I] | (before & inside & rest & ->)].
    + apply in_split in I. destruct I as (inside & rest & ->).
      exists [], inside, rest. reflexivity.
    + exists (c :: before), inside, rest. reflexivity.
Qed.

Lemma hasTag_nil : ~ hasTag [].
Proof.
  intros (before & inside & rest & E). destruct before; discriminate.
Qed.

Lemma sublist_In (a b : jsstring) (x : N) :
  a `sublist_of` b -> In x a -> In x b.
Proof.
  intros S I. apply list_elem_of_In. apply list_elem_of_In in I.
  eapply elem_of_sublist; eassumption.
Qed.

Lemma hasTag_sublist (a b : jsstring) :
  a `sublist_of` b -> hasTag a -> hasTag b.
Proof.
  induction 1 as [|x a b S IH|x a b S IH].
  - auto.
  - rewrite !hasTag_cons. intros [[-> I] | T].
    + left. split; [reflexivity|]. eapply sublist_In; eassumption.
    + right. auto.
  - intros T. apply hasTag_cons. right. auto.
Qed.

(** *** The last pattern: a tag of any name *)

Lemma ltb_tail {A} (s : list A) : (length s <? S (length s))%nat = true.
Proof. apply Nat.ltb_lt. lia. Qed.

(** After the opening bracket the pattern runs to the first closing
    bracket, and fails when there is none. *)
Lemma rest_of_tag (s : jsstring) :
  forall prev,
    match rmatch (Seq (Star (Chr (other ">"))) (Chr (one ">"))) prev s
                 (fun p' s' => Some (p', s')) with
    | Some (_, s') => exists inside, s = inside ++ 62%N :: s'
    | None => ~ In 62%N s
    end.
Proof.
  induction s as [|c s IH]; intros prev.
  - simpl. tauto.
  - cbn [rmatch length]. 
    change (other ">" c) with (negb (N.eqb c 62)).
    destruct (N.eqb c 62) eqn:C; cbn [negb].
    + apply N.eqb_eq in C. subst c. simpl. exists []. reflexivity.
    + apply N.eqb_neq in C. rewrite ltb_tail.
      specialize (IH (Some c)). cbn [rmatch] in IH.
      match goal with
      | |- context [match ?m with Some r => Some r | None => _ end] =>
          destruct m as [[p' s']|] eqn:M
      end.
      * destruct IH as (inside & ->). exists (c :: inside). reflexivity.
      * change (one ">" c) with (N.eqb c 62).
        destruct (N.eqb c 62) eqn:C'; [apply N.eqb_eq in C'; congruence|].
        intros [E | I]; [congruence | contradiction].
Qed.

Lemma anyTag_match (prev : option N) (s : jsstring) :
  match rmatch anyTag prev s (fun p' s' => Some (p', s')) with
  | Some (_, s') => exists inside, s = 60%N :: inside ++ 62%N :: s'
  | None => forall rest, s = 60%N :: rest -> ~ In 62%N rest
  end.
Proof.
  change anyTag
    with (Seq (Chr (one "<")) (Seq (Star (Chr (other ">"))) (Chr (one ">")))).
  destruct s as [|c s]; [simpl; discriminate|].
  change (rmatch (Seq (Chr (one "<")) ?b) prev (c :: s) ?k)
    with (if one "<" c then rmatch b (Some c) s k else None).
  change (one "<" c) with (N.eqb c 60).
  destruct (N.eqb c 60) eqn:C.
  - apply N.eqb_eq in C. subst c.
    pose proof (rest_of_tag s (Some 60%N)) as M.
    destruct (rmatch _ _ s _) as [[p' s']|].
    + destruct M as (inside & ->). exists inside. reflexivity.
    + intros rest E. inversion E. subst. exact M.
  - apply N.eqb_neq in C. intros rest E. inversion E. congruence.
Qed.

Lemma remove_from_S (r : regex) (fuel : nat) (prev : option N) (s : jsstring) :
  remove_from r (S fuel) prev s =
  match rmatch r prev s (fun p' s' => Some (p', s')) with
  | Some (p', s') =>
      if (length s' <? length s)%nat
      then remove_from r fuel p' s'
      else match s with
           | [] => []
           | c :: rest => c :: remove_from r fuel (Some c) rest
           end
  | None =>
      match s with
      | [] => []
      | c :: rest => c :: remove_from r fuel (Some c) rest
      end
  end.
Proof. reflexivity. Qed.

(** Once the tags of any name are removed, none is left. *)
Lemma remove_tags (fuel : nat) :
  forall prev s,
    (length s < fuel)%nat -> ~ hasTag (remove_from anyTag fuel prev s).
Proof.
  induction fuel as [|fuel IH]; intros prev s L; [lia|].
  rewrite remove_from_S. pose proof (anyTag_match prev s) as M.
  destruct (rmatch anyTag prev s _) as [[p' s']|].
  - destruct M as (inside & ->).
    assert (length s' < length (60%N :: inside ++ 62%N :: s'))%nat as Shorter.
    { simpl. rewrite length_app. simpl. lia. }
    apply Nat.ltb_lt in Shorter as B. rewrite B. apply IH. lia.
  - destruct s as [|c rest]; [apply hasTag_nil|].
    rewrite hasTag_cons. simpl in L. intros [[-> I] | T].
    + apply (M rest eq_refl).
      eapply sublist_In; [apply remove_from_sublist | exact I].
    + revert T. apply IH. lia.
Qed.

Lemma stripHTML_no_tag (s : jsstring) : ~ hasTag (stripHTML s).
Proof. unfold stripHTML, removeAll at 1. apply remove_tags. lia. Qed.

(** *** Trimming *)

Lemma trimStart_suffix (s : jsstring) : trimStart s `suffix_of` s.
Proof.
  induction s as [|c s IH]; simpl; [reflexivity|].
  destruct (Chars.is_space c); [|reflexivity].
  apply suffix_cons_r, IH.
Qed.

Lemma trimStart_head (s : jsstring) :
  match head (trimStart s) with
  | Some c => Chars.is_space c = false
  | None => True
  end.
Proof.
  induction s as [|c s IH]; simpl; [exact I|].
  destruct (Chars.is_space c) eqn:E; [exact IH | exact E].
Qed.

(** Trimming the end leaves the beginning. *)
Lemma trimEnd_prefix (t : jsstring) :
  exists back, t = rev (trimStart (rev t)) ++ back.
Proof.
  destruct (trimStart_suffix (rev t)) as [back E].
  apply (f_equal (@rev N)) in E. rewrite rev_app_distr, rev_involutive in E.
  exists (rev back). exact E.
Qed.

Lemma trim_sublist (s : jsstring) : trim s `sublist_of` s.
Proof.
  unfold trim. destruct (trimStart_suffix s) as [front F].
  destruct (trimEnd_prefix (trimStart s)) as [back E].
  transitivity (trimStart s).
  - rewrite E at 2. apply sublist_inserts_r. reflexivity.
  - rewrite F at 2. apply sublist_inserts_l. reflexivity.
Qed.

Lemma last_of_rev {A} (l : list A) : last (rev l) = head l.
Proof.
  destruct l as [|x l]; [reflexivity|]. simpl. apply last_snoc.
Qed.

Lemma trim_trimmed (s : jsstring) : trimmed (trim s).
Proof.
  unfold trim, trimmed. split.
  - destruct (trimEnd_prefix (trimStart s)) as [back E].
    pose proof (trimStart_head s) as Hd. rewrite E in Hd.
    destruct (rev (trimStart (rev (trimStart s)))) as [|c t]; [exact I|].
    exact Hd.
  - rewrite last_of_rev. apply trimStart_head.
Qed.


Lemma sublist_Forall_keep {A} (P : A -> Prop) (a b : list A) :
  a `sublist_of` b -> Forall P b -> Forall P a.
Proof.
  induction 1 as [|x a b S IH|x a b S IH]; intros F.
  - constructor.
  - inversion F; subst. constructor; auto.
  - inversion F; subst. auto.
Qed.

Lemma firstn_sublist {A} (n : nat) (l : list A) : firstn n l `sublist_of` l.
Proof.
  rewrite <- (firstn_skipn n l) at 2. apply sublist_inserts_r. reflexivity.
Qed.

Lemma filter_sublist_of {A} (p : A -> bool) (l : list A) :
  List.filter p l `sublist_of` l.
Proof.
  induction l as [|x l IH]; simpl; [reflexivity|].
  destruct (p x); [apply sublist_skip | apply sublist_cons]; exact IH.
Qed.

Lemma filter_Forall_true {A} (p : A -> bool) (l : list A) :
  Forall (fun x => p x = true) (List.filter p l).
Proof.
  induction l as [|x l IH]; simpl; [constructor|].
  destruct (p x) eqn:E; [constructor|]; assumption.
Qed.

(** The shortening that two of the sanitizers apply. *)
Lemma shortened (n : nat) (s : jsstring) :
  let t := if (n <? length s)%nat then substring0 n s else s in
  (length t <= n)%nat /\ t `sublist_of` s.
Proof.
  cbv zeta. destruct (n <? length s)%nat eqn:L.
  - split; [|apply firstn_sublist].
    unfold substring0. rewrite length_firstn. lia.
  - apply Nat.ltb_ge in L. split; [exact L | reflexivity].
Qed.

(** X1. The result of [sanitizeHTML] holds no tag, that is no [<] with
    a [>] anywhere after it; it is made of units of the input, in their
    order; and it is empty when the input is not a string. *)
Theorem sanitizeHTML_no_tag (input : jsval) :
  ~ hasTag (sanitizeHTML input)
  /\ (forall s, input = VStr s -> sanitizeHTML input `sublist_of` s)
  /\ ((forall s, input <> VStr s) -> sanitizeHTML input = []).
Proof.
  destruct input as [| |b|x|s]; simpl;
    try (split; [apply hasTag_nil | split; [discriminate | reflexivity]]).
  split; [apply stripHTML_no_tag|]. split.
  - intros s' E. inversion E. subst. apply stripHTML_sublist.
  - intros N. exfalso. apply (N s). reflexivity.
Qed.

Lemma sanitizeHTML_sublist (v : jsval) (s : jsstring) :
  v = VStr s -> sanitizeHTML v `sublist_of` s.
Proof. intros ->. apply stripHTML_sublist. Qed.

Lemma sanitizeHTML_clean (v : jsval) : ~ hasTag (sanitizeHTML v).
Proof. destruct v; simpl; try apply hasTag_nil. apply stripHTML_no_tag. Qed.

(** X2. A sanitized description is at most 200 units long, neither
    begins nor ends with white space, holds no tag and is made of units
    of the text given; it is empty when nothing is given. *)
Theorem sanitizeDescription_shape (description : jsval) :
  let result := sanitizeDescription description in
  (length result <= CONSTANTS.MAX_DESCRIPTION_LENGTH)%nat
  /\ trimmed result
  /\ ~ hasTag result
  /\ (forall s, description = VStr s -> result `sublist_of` s)
  /\ (truthy description = false -> result = []).
Proof.
  cbv zeta. unfold sanitizeDescription.
  destruct (truthy description) eqn:T; simpl negb; cbv iota.
  - pose proof (shortened CONSTANTS.MAX_DESCRIPTION_LENGTH
                  (sanitizeHTML description)) as [Len Sub].
    cbv zeta in Len, Sub.
    set (cut := if (_ <? _)%nat then _ else _) in *.
    pose proof (trim_sublist cut) as Tr.
    split; [apply sublist_length in Tr; lia|].
    split; [apply trim_trimmed|].
    split.
    + intros Tag. apply (sanitizeHTML_clean description).
      eapply hasTag_sublist; [|exact Tag]. etransitivity; eassumption.
    + split; [|discriminate]. intros s E.
      etransitivity; [exact Tr|]. etransitivity; [exact Sub|].
      apply sanitizeHTML_sublist, E.
  - split; [simpl; lia|]. split; [split; exact I|].
    split; [apply hasTag_nil|]. split; [|reflexivity].
    intros s _. apply sublist_nil_l.
Qed.

(** X3. A sanitized category name is at most 50 units long, is made of
    the permitted units only (letters, digits, underscore, hyphen, kana,
    the common ideographs and white space) and neither begins nor ends
    with white space; it is empty when nothing is given. *)
Theorem sanitizeCategory_shape (category : jsval) :
  let result := sanitizeCategory category in
  (length result <= 50)%nat
  /\ Forall (fun c => categoryChar c = true) result
  /\ trimmed result
  /\ (forall s, category = VStr s -> result `sublist_of` s)
  /\ (truthy category = false -> result = []).
Proof.
  cbv zeta. unfold sanitizeCategory.
  destruct (truthy category) eqn:T; simpl negb; cbv iota.
  - pose proof (shortened 50
                  (List.filter categoryChar (sanitizeHTML category)))
      as [Len Sub].
    cbv zeta in Len, Sub.
    set (cut := if (_ <? _)%nat then _ else _) in *.
    pose proof (trim_sublist cut) as Tr.
    split; [apply sublist_length in Tr; lia|].
    split.
    { eapply sublist_Forall_keep; [etransitivity; eassumption|].
      apply filter_Forall_true. }
    split; [apply trim_trimmed|].
    split; [|discriminate]. intros s E.
    etransitivity; [exact Tr|]. etransitivity; [exact Sub|].
    etransitivity; [apply filter_sublist_of|].
    apply sanitizeHTML_sublist, E.
  - split; [simpl; lia|]. split; [constructor|]. split; [split; exact I|].
    split; [|reflexivity]. intros s _. apply sublist_nil_l.
Qed.

End Markup.

(** ** Dates, amounts and file names *)

Section Shaped.
Import Regex Sanitizer Shapes.
Context `{Host}.

Lemma dateRegex_isoDate (s : jsstring) :
  fullmatch dateRegex s = true <-> isoDate s.
Proof.
  split.
  - unfold fullmatch. intros E.
    do 11 (destruct s as [|? s]; cbn in E;
           repeat match type of E with
             | context [if Chars.is_digit ?c then _ else _] =>
                 destruct (Chars.is_digit c) eqn:?
             | context [if N.eqb ?c ?d then _ else _] =>
                 destruct (N.eqb c d) eqn:?
             end;
           try discriminate).
    repeat match goal with
           | E : N.eqb _ _ = true |- _ => apply N.eqb_eq in E; subst
           end.
    eexists _, _, _, _, _, _, _, _. split; [reflexivity|].
    repeat constructor; assumption.
  - intros (y1 & y2 & y3 & y4 & m1 & m2 & d1 & d2 & -> & F).
    repeat match goal with
           | F : Forall _ (_ :: _) |- _ => inversion F; subst; clear F
           end.
    unfold fullmatch. cbn.
    repeat match goal with
           | E : Chars.is_digit _ = true |- _ => rewrite E; clear E
           end.
    reflexivity.
Qed.

Lemma isoDate_nonempty (s : jsstring) : isoDate s -> s <> [].
Proof.
  intros (y1 & y2 & y3 & y4 & m1 & m2 & d1 & d2 & -> & _). discriminate.
Qed.

Lemma isoDate_truthy (dateString : jsval) :
  isoDate (sanitizeHTML dateString) -> truthy dateString = true.
Proof.
  intros Iso. apply isoDate_nonempty in Iso.
  destruct dateString as [| |b|x|s]; try (exfalso; apply Iso; reflexivity).
  destruct s as [|c s]; [|reflexivity].
  exfalso. apply Iso. reflexivity.
Qed.

(** X4. When [sanitizeDate] does not return the empty string it returns
    the text given, cleared of markup, and that text has the form
    YYYY-MM-DD, is a date for the [Date] constructor and has a year
    between 1900 and 2100.  Every text of which this is true is
    returned. *)
Theorem sanitizeDate_shape (dateString : jsval) :
  let result := sanitizeDate dateString in
  (result <> [] ->
   result = sanitizeHTML dateString
   /\ isoDate result
   /\ exists t,
        Date_parse result = Some t
        /\ CONSTANTS.MIN_YEAR <= Date_getFullYear t <= CONSTANTS.MAX_YEAR)
  /\ (forall t,
        isoDate (sanitizeHTML dateString) ->
        Date_parse (sanitizeHTML dateString) = Some t ->
        CONSTANTS.MIN_YEAR <= Date_getFullYear t <= CONSTANTS.MAX_YEAR ->
        result = sanitizeHTML dateString).
Proof.
  cbv zeta. unfold sanitizeDate. split.
  - destruct (negb (truthy dateString)); [congruence|].
    destruct (fullmatch dateRegex (sanitizeHTML dateString)) eqn:F;
      simpl negb; cbv iota; [|congruence].
    destruct (Date_parse (sanitizeHTML dateString)) as [t|] eqn:P;
      [|congruence].
    destruct (Date_getFullYear t <? CONSTANTS.MIN_YEAR) eqn:Lo;
      [simpl; congruence|].
    destruct (CONSTANTS.MAX_YEAR <? Date_getFullYear t) eqn:Hi;
      [simpl; congruence|].
    simpl orb. cbv iota. intros _. split; [reflexivity|].
    split; [apply dateRegex_isoDate, F|].
    exists t. split; [exact P|]. apply Z.ltb_ge in Lo, Hi. lia.
  - intros t Iso P [Lo Hi].
    rewrite (isoDate_truthy _ Iso). simpl negb. cbv iota.
    apply dateRegex_isoDate in Iso. rewrite Iso. simpl negb. cbv iota.
    rewrite P.
    apply Z.ltb_ge in Lo. apply Z.ltb_ge in Hi. rewrite Lo, Hi. reflexivity.
Qed.

(** *** The amount, once more *)

Lemma Math_round_whole (n : Z) : Math_round (inject_Z n) = n.
Proof.
  apply Z.le_antisymm.
  - apply Math_round_upper. lra.
  - apply Math_round_lower. lra.
Qed.

Lemma Math_round_le (p q : Q) : (p <= q)%Q -> Math_round p <= Math_round q.
Proof.
  intros L. unfold Math_round. apply Qfloor_resp_le. lra.
Qed.

(** X5. Sanitizing an amount a second time changes nothing, unless the
    amount was not a number: then the first result is 0 and the second
    is 1.  And of two finite amounts the larger has the larger
    result. *)
Theorem sanitizeAmount_again (amount other : jsval) :
  let once := sanitizeAmount amount in
  let twice := sanitizeAmount (VNum (Fin (inject_Z once))) in
  (numAmount amount <> NaN -> twice = once)
  /\ (numAmount amount = NaN -> once = 0 /\ twice = CONSTANTS.MIN_AMOUNT)
  /\ (forall p q,
        numAmount amount = Fin p ->
        numAmount other = Fin q ->
        (p <= q)%Q ->
        once <= sanitizeAmount other).
Proof.
  cbv zeta.
  assert (forall n, sanitizeAmount (VNum (Fin (inject_Z n)))
                    = Z.max CONSTANTS.MIN_AMOUNT (Z.min CONSTANTS.MAX_AMOUNT n))
    as Whole.
  { intros n. rewrite (sanitizeAmount_finite _ (inject_Z n)) by reflexivity.
    rewrite Math_round_whole. reflexivity. }
  split; [|split].
  - intros N. rewrite Whole. apply sanitizeAmount_range in N. lia.
  - intros N. apply sanitizeAmount_NaN in N. rewrite N.
    split; [reflexivity|]. rewrite Whole. reflexivity.
  - intros p q P Q L.
    rewrite (sanitizeAmount_finite _ _ P), (sanitizeAmount_finite _ _ Q).
    apply Math_round_le in L. lia.
Qed.

(** *** File names *)

Lemma untilDot_prefix (s : jsstring) : untilDot s `prefix_of` s.
Proof.
  induction s as [|c s IH]; simpl; [reflexivity|].
  destruct (N.eqb c 46); [apply prefix_nil|]. apply prefix_cons, IH.
Qed.

Lemma lastPart_suffix (s : jsstring) : lastPart s `suffix_of` s.
Proof.
  unfold lastPart. destruct (untilDot_prefix (rev s)) as [back E].
  exists (rev back). apply (f_equal (@rev N)) in E.
  rewrite rev_app_distr, rev_involutive in E. exact E.
Qed.

Lemma filter_Forall_safe (s : jsstring) :
  Forall (fun c => unsafeInFilename c = false)
         (List.filter (fun c => negb (unsafeInFilename c)) s).
Proof.
  induction s as [|c s IH]; simpl; [constructor|].
  destruct (unsafeInFilename c) eqn:E; simpl; [|constructor]; assumption.
Qed.

(** X6. [sanitizeFilename] fails only on a value that is neither falsy
    nor a string.  Its result holds none of the units it removes.  A
    cleaned name of at most 100 units is returned as it is.  A longer one
    is cut to exactly 100 units, keeping what follows its last full stop,
    provided that this is shorter than 100 units; otherwise -- as for a
    long name without a full stop -- the result is a full stop followed
    by all of it, and longer than 100 units. *)
Theorem sanitizeFilename_shape (filename : jsval) :
  match sanitizeFilename filename with
  | None => truthy filename = true /\ forall s, filename <> VStr s
  | Some result =>
      Forall (fun c => unsafeInFilename c = false) result
      /\ (truthy filename = false -> result = [])
      /\ forall s,
           filename = VStr s ->
           let cleaned := List.filter (fun c => negb (unsafeInFilename c)) s in
           let extension := lastPart cleaned in
           if (100 <? length cleaned)%nat then
             if (length extension <? 100)%nat then
               length result = 100%nat
               /\ exists name,
                    result = name ++ [46%N] ++ extension
                    /\ name `prefix_of` cleaned
             else
               result = [46%N] ++ extension /\ (100 < length result)%nat
           else result = cleaned
  end.
Proof.
  unfold sanitizeFilename.
  destruct (truthy filename) eqn:T; simpl negb; cbv iota.
  2:{ split; [constructor|]. split; [reflexivity|].
      intros s ->. cbv zeta. simpl in T.
      destruct s as [|c s]; [reflexivity | discriminate]. }
  destruct filename as [| |b|x|s]; try (split; [reflexivity | discriminate]).
  set (cleaned := List.filter (fun c => negb (unsafeInFilename c)) s).
  assert (Forall (fun c => unsafeInFilename c = false) cleaned) as Safe
    by apply filter_Forall_safe.
  destruct (100 <? length cleaned)%nat eqn:Long.
  - destruct (lastPart_suffix cleaned) as [front Ext].
    set (extension := lastPart cleaned) in *.
    split; [|split; [discriminate|]].
    + apply Forall_app. split.
      * eapply sublist_Forall_keep; [apply firstn_sublist | exact Safe].
      * constructor; [reflexivity|].
        rewrite Ext in Safe. apply Forall_app in Safe. apply Safe.
    + intros s' E. inversion E. subst s'. cbv zeta.
      fold cleaned. fold extension. rewrite Long.
      apply Nat.ltb_lt in Long.
      destruct (length extension <? 100)%nat eqn:Short.
      * apply Nat.ltb_lt in Short. split.
        -- rewrite !length_app. unfold substring0. rewrite length_firstn.
           simpl. lia.
        -- exists (substring0 (100 - length extension - 1) cleaned).
           split; [reflexivity|].
           exists (skipn (100 - length extension - 1) cleaned).
           unfold substring0. symmetry. apply firstn_skipn.
      * apply Nat.ltb_ge in Short.
        replace (100 - length extension - 1)%nat with 0%nat by lia.
        split; [reflexivity|]. simpl. lia.
  - split; [exact Safe|]. split; [discriminate|].
    intros s' E. inversion E. subst s'. cbv zeta. fold cleaned.
    rewrite Long. reflexivity.
Qed.


End Shaped.

(** * The ledger: further properties *)

(** ** What a method leaves alone *)

Section Frames.
Import Sanitizer Ledger Notions Shapes LedgerNotions LedgerFacts.
Context `{Host}.
Context {X : Type} (f : HouseholdBudgetData -> X).

Lemma leaves_ret {A} (a : A) : leaves f (ret a).
Proof. intros s. reflexivity. Qed.

Lemma leaves_throw {A} e : leaves f (@throw A e).
Proof. intros s. reflexivity. Qed.

Lemma leaves_get : leaves f get.
Proof. intros s. reflexivity. Qed.

Lemma leaves_bind {A B} (m : M A) (k : A -> M B) :
  leaves f m -> (forall a, leaves f (k a)) -> leaves f (bind m k).
Proof.
  intros Lm Lk s. rewrite after_bind. specialize (Lm s). unfold after in Lm.
  destruct (m s) as [[a|e] s1]; simpl in Lm; [|exact Lm].
  rewrite Lk. exact Lm.
Qed.

Lemma leaves_tryCatch {A} (m h : M A) :
  leaves f m -> leaves f h -> leaves f (tryCatch m h).
Proof.
  intros Lm Lh s. specialize (Lm s). unfold after, tryCatch in *.
  destruct (m s) as [[a|e] s1]; simpl in *; [exact Lm|].
  specialize (Lh s1). unfold after in Lh. rewrite Lh. exact Lm.
Qed.

Lemma leaves_forget {A} (m : M A) : leaves f m -> leaves f (forget m).
Proof. intros L s. exact (L s). Qed.

Lemma leaves_forEach {A} (g : A -> M unit) (l : list A) :
  (forall x, leaves f (g x)) -> leaves f (forEach g l).
Proof.
  intros L. induction l as [|x l IH]; simpl.
  - apply leaves_ret.
  - apply leaves_bind; auto.
Qed.

Lemma leaves_modify g : (forall s, f (g s) = f s) -> leaves f (modify g).
Proof. intros E s. apply E. Qed.

Lemma leaves_now :
  (forall n s, f (with_clockReads n s) = f s) -> leaves f now.
Proof. intros E s. apply E. Qed.

Lemma leaves_generateUniqueId :
  (forall n s, f (with_idsDrawn n s) = f s) -> leaves f generateUniqueId.
Proof. intros E s. apply E. Qed.

End Frames.

(** Which parts the pieces of a method leave alone is read off their
    text. *)
Ltac frame_step :=
  lazymatch goal with
  | |- LedgerNotions.leaves _ (Ledger.ret _) => apply leaves_ret
  | |- LedgerNotions.leaves _ (Ledger.throw _) => apply leaves_throw
  | |- LedgerNotions.leaves _ Ledger.get => apply leaves_get
  | |- LedgerNotions.leaves _ Ledger.now =>
      apply leaves_now; intros; reflexivity
  | |- LedgerNotions.leaves _ Ledger.generateUniqueId =>
      apply leaves_generateUniqueId; intros; reflexivity
  | |- LedgerNotions.leaves _ (Ledger.modify _) =>
      apply leaves_modify; intros; reflexivity
  | |- LedgerNotions.leaves _ (Ledger.bind _ _) =>
      apply leaves_bind; [|intros ?]
  | |- LedgerNotions.leaves _ (Ledger.tryCatch _ _) => apply leaves_tryCatch
  | |- LedgerNotions.leaves _ (Ledger.forget _) => apply leaves_forget
  | |- LedgerNotions.leaves _ (Ledger.forEach _ _) =>
      apply leaves_forEach; intros ?
  | |- LedgerNotions.leaves _ (Ledger.emit _) => unfold Ledger.emit
  | |- LedgerNotions.leaves _ Ledger.updateStats => unfold Ledger.updateStats
  | |- LedgerNotions.leaves _ Ledger.invalidateCache =>
      unfold Ledger.invalidateCache
  | |- LedgerNotions.leaves _ Ledger.autoBackup => unfold Ledger.autoBackup
  | |- LedgerNotions.leaves _ Ledger.createAutoBackup =>
      unfold Ledger.createAutoBackup
  | |- LedgerNotions.leaves _ Ledger.toSaveFormat =>
      unfold Ledger.toSaveFormat
  | |- LedgerNotions.leaves _ (match ?x with _ => _ end) => destruct x
  end.

Ltac frame := repeat frame_step.

Section LedgerMore.
Import Sanitizer Ledger Notions Shapes LedgerNotions LedgerFacts.
Context `{Host}.


(** ** How a method runs *)

Lemma run_pair {A} (m : M A) s : m s = (answer m s, after m s).
Proof. unfold answer, after. destruct (m s); reflexivity. Qed.

Lemma bind_returns {A B} (m : M A) (k : A -> M B) s a :
  answer m s = Return a -> bind m k s = k a (after m s).
Proof. intros E. rewrite bind_run, (run_pair m s), E. reflexivity. Qed.

Lemma bind_throws {A B} (m : M A) (k : A -> M B) s e :
  answer m s = Throw e -> bind m k s = (Throw e, after m s).
Proof. intros E. rewrite bind_run, (run_pair m s), E. reflexivity. Qed.

Lemma updateStats_fails (s : HouseholdBudgetData) :
  parseAll (map t_date (transactions s)) = None ->
  answer updateStats s = Throw RangeError.
Proof.
  intros E.
  unfold updateStats, answer, bind, now, modify, get, ret, throw.
  simpl. rewrite E.
  destruct (transactions s) as [|t l]; [discriminate | reflexivity].
Qed.

Lemma updateStats_count (s : HouseholdBudgetData) :
  totalTransactions (stats (after updateStats s)) = length (transactions s).
Proof.
  destruct (updateStats_effect s) as ([N _] & T & _). rewrite N, T. reflexivity.
Qed.

(** The common end of the methods that change the collection, as a
    whole: the caches are emptied, the statistics brought up to date, and
    the rest runs unless a stored date is not a date. *)
Lemma tail_run {A} (rest : M A) (s : HouseholdBudgetData) :
  let s1 := after updateStats
              (with_monthlyDataCache [] (with_summary None None s)) in
  (invalidateCache ;;; updateStats ;;; rest) s =
  match parseAll (map t_date (transactions s)) with
  | Some _ => rest s1
  | None => (Throw RangeError, s1)
  end.
Proof.
  cbv zeta. rewrite bind_run, invalidateCache_run. cbv beta iota.
  destruct (parseAll (map t_date (transactions s))) as [dates|] eqn:P.
  - apply (bind_returns updateStats (fun _ => rest) _ tt).
    eapply updateStats_returns. exact P.
  - apply bind_throws. apply updateStats_fails. exact P.
Qed.

Lemma autoBackup_then {A} (rest : M A) (s : HouseholdBudgetData) :
  (autoBackup ;;; rest) s = rest (after autoBackup s).
Proof.
  apply (bind_returns autoBackup (fun _ => rest) _ tt), autoBackup_returns.
Qed.

Lemma parseAll_snoc (l : list jsstring) (x : jsstring) (v : Z) :
  Date_parse x = Some v ->
  parseAll (l ++ [x]) =
  match parseAll l with Some ds => Some (ds ++ [v]) | None => None end.
Proof.
  intros P. induction l as [|y l IH]; simpl.
  - rewrite P. reflexivity.
  - rewrite IH. destruct (Date_parse y); [|reflexivity].
    destruct (parseAll l); reflexivity.
Qed.

(** ** addTransaction *)

Lemma leaves_addTransaction_filters d : leaves filters (addTransaction d).
Proof. unfold addTransaction. frame. Qed.

Lemma leaves_addTransaction_view d :
  leaves filteredTransactions (addTransaction d).
Proof. unfold addTransaction. frame. Qed.

(** X7. [addTransaction] refuses a draft that is not valid: it throws
    the errors of the validation and leaves the ledger as it was.  A
    valid draft goes to the end of the collection, under the next
    identifier of the host and with the two next readings of the clock;
    the caches are emptied, the count of the statistics follows, and the
    categories, the filter and the filtered view stay as they are.  The
    call then returns the record and emits [transactionAdded] and
    [dataChanged], in this order -- unless one of the dates stored
    before is not a date: then it throws a RangeError after the record
    has been stored, and emits nothing. *)
Theorem addTransaction_contract (d : Draft) (s : HouseholdBudgetData) :
  let v := validateAndSanitizeTransaction d in
  let t := record (generateId (idsDrawn s)) (sanitizedData v)
                  (Date_now (clockReads s)) (Date_now (S (clockReads s))) in
  let s' := after (addTransaction d) s in
  if isValid v then
    transactions s' = transactions s ++ [t]
    /\ cachesCleared s'
    /\ totalTransactions (stats s') = S (length (transactions s))
    /\ categories s' = categories s
    /\ filters s' = filters s
    /\ filteredTransactions s' = filteredTransactions s
    /\ match parseAll (map t_date (transactions s)) with
       | Some _ =>
           answer (addTransaction d) s = Return t
           /\ emitted s' = emitted s ++ [TransactionAdded t; DataChanged]
       | None =>
           answer (addTransaction d) s = Throw RangeError
           /\ emitted s' = emitted s
       end
  else
    answer (addTransaction d) s = Throw (ValidationError (errors v))
    /\ s' = s.
Proof.
  cbv zeta. pose proof (addTransaction_effect d s) as E. cbv zeta in E.
  destruct (isValid (validateAndSanitizeTransaction d)) eqn:V;
    [|destruct E as [E1 E2]; split; assumption].
  pose proof (settled_cleared _ _ _ E) as Cl.
  destruct E as (T & _ & _ & _ & Ca & [N _]).
  split; [exact T|]. split; [exact Cl|].
  split; [rewrite N, T, length_app; simpl; lia|].
  split; [exact Ca|].
  split; [apply leaves_addTransaction_filters|].
  split; [apply leaves_addTransaction_view|].
  destruct (valid_sanitized d V) as (D & Ne & _).
  destruct (sanitizeDate_parses _ Ne) as [date P].
  unfold answer, after, addTransaction. rewrite V.
  change (negb true) with false. cbv iota.
  rewrite bind_run, generateUniqueId_run. cbv beta iota.
  rewrite bind_run, now_run. cbv beta iota.
  rewrite bind_run, now_run. cbv beta iota.
  rewrite bind_run, modify_run. cbv beta iota.
  rewrite tail_run. cbv zeta.
  cbn [transactions with_transactions with_clockReads with_idsDrawn clockReads
       idsDrawn].
  rewrite map_app. simpl map.
  rewrite (parseAll_snoc _ _ date)
    by (unfold record; cbn [t_date]; rewrite D; exact P).
  destruct (parseAll (map t_date (transactions s))) as [dates|].
  - rewrite autoBackup_then.
    rewrite bind_run, emit_run. cbv beta iota.
    rewrite bind_run, emit_run. cbv beta iota.
    split; [reflexivity|]. cbn [snd emitted with_emitted].
    assert (leaves emitted autoBackup) as L1 by frame.
    assert (leaves emitted updateStats) as L2 by frame.
    rewrite L1, L2. cbn. rewrite <- app_assoc. reflexivity.
  - split; [reflexivity|].
    assert (leaves emitted updateStats) as L2 by frame.
    cbn [snd]. rewrite L2. reflexivity.
Qed.


(** ** deleteTransaction *)

Lemma delete_at_middle {A} (a b : list A) (x : A) :
  delete (length a) (a ++ x :: b) = a ++ b.
Proof. induction a as [|z a IH]; simpl; [reflexivity|]. rewrite IH. reflexivity. Qed.

(** The record that [deleteTransaction] takes out: the first one with
    the id. *)
Lemma deleteTransaction_middle (id : jsstring) (before rest : list Transaction)
    (t : Transaction) (s : HouseholdBudgetData) :
  transactions s = before ++ t :: rest ->
  t_id t = id ->
  ~ In id (map t_id before) ->
  settled (after (deleteTransaction id) s) (before ++ rest) (categories s).
Proof.
  intros T I N. pose proof (deleteTransaction_effect id s) as E.
  cbv zeta in E. rewrite T in E.
  rewrite (findIndex_middle id before rest t I N) in E.
  rewrite lookup_middle, delete_at_middle in E. exact E.
Qed.

(** X8. [deleteTransaction] takes out the first stored record that has
    the id and nothing else: the records before it and after it stay, in
    their order.  The caches are emptied and the count follows.  The call
    returns the record and emits [transactionDeleted] and [dataChanged]
    -- unless one of the dates that remain is not a date: then it throws
    a RangeError, the record being gone, and emits nothing. *)
Theorem deleteTransaction_removes_first (id : jsstring)
    (before rest : list Transaction) (t : Transaction)
    (s : HouseholdBudgetData) :
  transactions s = before ++ t :: rest ->
  t_id t = id ->
  ~ In id (map t_id before) ->
  let s' := after (deleteTransaction id) s in
  transactions s' = before ++ rest
  /\ cachesCleared s'
  /\ totalTransactions (stats s') = length (before ++ rest)
  /\ categories s' = categories s
  /\ match parseAll (map t_date (before ++ rest)) with
     | Some _ =>
         answer (deleteTransaction id) s = Return (Some t)
         /\ emitted s' = emitted s ++ [TransactionDeleted t; DataChanged]
     | None =>
         answer (deleteTransaction id) s = Throw RangeError
         /\ emitted s' = emitted s
     end.
Proof.
  intros T I N. cbv zeta.
  pose proof (deleteTransaction_middle id before rest t s T I N) as E.
  pose proof (settled_cleared _ _ _ E) as Cl.
  destruct E as (T' & _ & _ & _ & Ca & [Count _]).
  split; [exact T'|]. split; [exact Cl|].
  split; [rewrite Count, T'; reflexivity|]. split; [exact Ca|].
  unfold answer, after, deleteTransaction.
  rewrite bind_run, get_run. cbv beta iota. rewrite T.
  rewrite (findIndex_middle id before rest t I N), lookup_middle.
  rewrite bind_run, modify_run. cbv beta iota.
  rewrite tail_run. cbv zeta. cbn [transactions with_transactions].
  rewrite T, delete_at_middle.
  assert (leaves emitted updateStats) as L by frame.
  destruct (parseAll (map t_date (before ++ rest))) as [dates|].
  - rewrite bind_run, emit_run. cbv beta iota.
    rewrite bind_run, emit_run. cbv beta iota.
    split; [reflexivity|]. cbn [snd emitted with_emitted].
    rewrite L. cbn. rewrite <- app_assoc. reflexivity.
  - split; [reflexivity|]. cbn [snd]. rewrite L. reflexivity.
Qed.

Lemma leaves_deleteTransaction_filters id :
  leaves filters (deleteTransaction id).
Proof. unfold deleteTransaction. frame. Qed.

Lemma leaves_deleteTransaction_view id :
  leaves filteredTransactions (deleteTransaction id).
Proof. unfold deleteTransaction. frame. Qed.

(** X9. A record that has just been added, deleted under the
    identifier it was given, leaves the ledger with the transactions,
    the categories, the filter and the view it had before, provided no
    stored record had that identifier already.  The caches are empty and
    the count is the old one. *)
Theorem addTransaction_then_delete (d : Draft) (s : HouseholdBudgetData) :
  isValid (validateAndSanitizeTransaction d) = true ->
  ~ In (generateId (idsDrawn s)) (map t_id (transactions s)) ->
  let s1 := after (addTransaction d) s in
  let s2 := after (deleteTransaction (generateId (idsDrawn s))) s1 in
  transactions s2 = transactions s
  /\ categories s2 = categories s
  /\ filters s2 = filters s
  /\ filteredTransactions s2 = filteredTransactions s
  /\ cachesCleared s2
  /\ totalTransactions (stats s2) = length (transactions s).
Proof.
  intros V Fresh. cbv zeta.
  pose proof (addTransaction_effect d s) as E. cbv zeta in E. rewrite V in E.
  destruct E as (T1 & _ & _ & _ & Ca1 & _).
  pose proof (deleteTransaction_middle (generateId (idsDrawn s))
                (transactions s) [] _ _ T1 eq_refl Fresh) as E2.
  rewrite app_nil_r in E2.
  pose proof (settled_cleared _ _ _ E2) as Cl.
  destruct E2 as (T2 & _ & _ & _ & Ca2 & [Count _]).
  split; [exact T2|]. split; [congruence|].
  split.
  { rewrite leaves_deleteTransaction_filters. apply leaves_addTransaction_filters. }
  split.
  { rewrite leaves_deleteTransaction_view. apply leaves_addTransaction_view. }
  split; [exact Cl|]. rewrite Count, T2. reflexivity.
Qed.

(** ** updateStats *)

Lemma fold_min (l : list Z) (x : Z) :
  In (fold_left Z.min l x) (x :: l)
  /\ Forall (fun d => fold_left Z.min l x <= d) (x :: l).
Proof.
  revert x. induction l as [|y l IH]; intros x; simpl.
  - split; [auto | repeat constructor; lia].
  - destruct (IH (Z.min x y)) as [I F]. inversion F as [|? ? F1 F2]; subst.
    split.
    + destruct I as [E | I]; [|auto].
      rewrite <- E. destruct (Z.min_spec x y) as [[_ ->] | [_ ->]]; auto.
    + constructor; [lia|]. constructor; [lia | exact F2].
Qed.

Lemma fold_max (l : list Z) (x : Z) :
  In (fold_left Z.max l x) (x :: l)
  /\ Forall (fun d => d <= fold_left Z.max l x) (x :: l).
Proof.
  revert x. induction l as [|y l IH]; intros x; simpl.
  - split; [auto | repeat constructor; lia].
  - destruct (IH (Z.max x y)) as [I F]. inversion F as [|? ? F1 F2]; subst.
    split.
    + destruct I as [E | I]; [|auto].
      rewrite <- E. destruct (Z.max_spec x y) as [[_ ->] | [_ ->]]; auto.
    + constructor; [lia|]. constructor; [lia | exact F2].
Qed.

Lemma parseAll_nonempty (l : list jsstring) (dates : list Z) :
  l <> [] -> parseAll l = Some dates -> dates <> [].
Proof.
  destruct l as [|x l]; [congruence|]. intros _. simpl.
  destruct (Date_parse x); [|discriminate].
  destruct (parseAll l); [|discriminate]. intros E. inversion E. discriminate.
Qed.

(** X10. [updateStats] sets the count to the number of stored
    transactions and the time of the last modification to the reading of
    the clock.  With transactions stored whose dates are all dates, it
    sets the oldest and the newest date to two of these dates, between
    which all the others lie.  With a stored date that is not a date it
    throws a RangeError, the two dates being left as they were; and so
    are they left when nothing is stored. *)
Theorem updateStats_outcome (s : HouseholdBudgetData) :
  let s' := after updateStats s in
  totalTransactions (stats s') = length (transactions s)
  /\ lastModified (stats s') = Some (Date_now (clockReads s))
  /\ transactions s' = transactions s
  /\ match transactions s with
     | [] =>
         answer updateStats s = Return tt
         /\ oldestTransaction (stats s') = oldestTransaction (stats s)
         /\ newestTransaction (stats s') = newestTransaction (stats s)
     | _ :: _ =>
         match parseAll (map t_date (transactions s)) with
         | Some dates =>
             answer updateStats s = Return tt
             /\ exists lo hi,
                  oldestTransaction (stats s') = Some lo
                  /\ newestTransaction (stats s') = Some hi
                  /\ In lo dates /\ In hi dates
                  /\ Forall (fun d => lo <= d <= hi) dates
         | None =>
             answer updateStats s = Throw RangeError
             /\ oldestTransaction (stats s') = oldestTransaction (stats s)
             /\ newestTransaction (stats s') = newestTransaction (stats s)
         end
     end.
Proof.
  cbv zeta.
  destruct (updateStats_effect s)
    as ([Count Dates] & T & _ & _ & _ & _ & _ & _ & _ & Lm & _ & _ & Empty).
  split; [rewrite Count, T; reflexivity|]. split; [exact Lm|].
  split; [exact T|].
  destruct (transactions s) as [|t l] eqn:L.
  - split; [|apply Empty; reflexivity].
    apply (updateStats_returns s []). rewrite L. reflexivity.
  - destruct (parseAll (map t_date (t :: l))) as [dates|] eqn:P.
    + split; [apply (updateStats_returns s dates); rewrite L; exact P|].
      rewrite T in Dates.
      destruct (Dates dates) as [Lo Hi]; [discriminate | exact P |].
      assert (dates <> []) as Ne.
      { eapply parseAll_nonempty; [|exact P]. discriminate. }
      destruct dates as [|x dates]; [congruence|].
      exists (Math_min (x :: dates)), (Math_max (x :: dates)).
      split; [exact Lo|]. split; [exact Hi|]. unfold Math_min, Math_max.
      destruct (fold_min dates x) as [I1 F1]. destruct (fold_max dates x) as [I2 F2].
      split; [exact I1|]. split; [exact I2|].
      rewrite Forall_forall in *. intros d Id. split; auto.
    + split; [apply updateStats_fails; rewrite L; exact P|].
      destruct (updateStats_dates s) as [[K1 K2] | (_ & dates & P' & _)];
        [split; assumption|].
      rewrite L in P'. congruence.
Qed.

(** ** clearAllData *)

(** When the storage lets the item be removed. *)
Lemma clearAllData_answered (s : HouseholdBudgetData) :
  let s' := after (clearAllData true) s in
  answer (clearAllData true) s = Return tt
  /\ transactions s' = []
  /\ filteredTransactions s' = []
  /\ cachesCleared s'
  /\ totalTransactions (stats s') = 0%nat
  /\ oldestTransaction (stats s') = oldestTransaction (stats s)
  /\ newestTransaction (stats s') = newestTransaction (stats s)
  /\ categories s' = categories s
  /\ filters s' = filters s
  /\ idCounter s' = idCounter s
  /\ emitted s' = emitted s ++ [DataCleared; DataChanged]
  /\ answer calculateSummary s' =
     Return {| s_income := 0; s_expense := 0; s_balance := 0;
               s_transactionCount := 0; s_avgIncome := 0; s_avgExpense := 0 |}.
Proof.
  cbv zeta.
  assert (clearAllData true s =
          (Return tt,
           after (emit DataCleared ;;; emit DataChanged)
             (after updateStats
                (with_monthlyDataCache []
                   (with_summary None None
                      (with_filteredTransactions [] (with_transactions [] s)))))))
    as Run.
  { change (clearAllData true s)
      with ((invalidateCache ;;; updateStats ;;;
             emit DataCleared ;;; emit DataChanged)
              (with_filteredTransactions [] (with_transactions [] s))).
    rewrite tail_run. cbv zeta. cbn [transactions with_transactions
      with_filteredTransactions map parseAll].
    rewrite bind_run, emit_run. cbv beta iota. rewrite emit_run.
    unfold after. rewrite bind_run, emit_run. cbv beta iota.
    rewrite emit_run. reflexivity. }
  assert (answer (clearAllData true) s = Return tt) as Ans
    by (unfold answer; rewrite Run; reflexivity).
  assert (after (clearAllData true) s = snd (clearAllData true s)) as Aft
    by reflexivity.
  rewrite Run in Aft. cbn [snd] in Aft. rewrite Ans, Aft. clear Ans Aft Run.
  set (s0 := with_monthlyDataCache [] _).
  destruct (updateStats_effect s0)
    as ([Count Dates] & T & Sc & Ls & Mc & Ca & Fi & Vw & Ic & Lm & _ & _ & Empty).
  destruct (Empty eq_refl) as [Old New].
  set (s1 := after updateStats s0) in *.
  assert (after (emit DataCleared ;;; emit DataChanged) s1
          = with_emitted ((emitted s1 ++ [DataCleared]) ++ [DataChanged])
              (with_emitted (emitted s1 ++ [DataCleared]) s1)) as Ev.
  { unfold after. rewrite bind_run, emit_run. cbv beta iota. rewrite emit_run.
    reflexivity. }
  rewrite Ev. cbn [transactions filteredTransactions with_emitted stats
                   categories filters idCounter emitted].
  assert (leaves emitted updateStats) as L by frame.
  split; [reflexivity|]. split; [exact T|]. split; [exact Vw|].
  split.
  { unfold cachesCleared.
    cbn [summaryCache lastSummaryUpdate monthlyDataCache with_emitted].
    rewrite Sc, Ls, Mc. repeat split. }
  split; [rewrite Count, T; reflexivity|].
  split; [exact Old|]. split; [exact New|].
  split; [exact Ca|]. split; [exact Fi|]. split; [exact Ic|].
  split.
  { unfold s1. rewrite L. cbn. rewrite <- app_assoc. reflexivity. }
  match goal with |- answer calculateSummary ?s' = _ =>
    destruct (calculateSummary_run s') as [(c & C & _) | R] end.
  - cbn [summaryCache with_emitted] in C. rewrite Sc in C. discriminate.
  - unfold answer. rewrite R. cbn [fst transactions with_emitted].
    rewrite T. reflexivity.
Qed.


(** When it does not, the method ends at [localStorage.removeItem]. *)
Lemma clearAllData_refused (s : HouseholdBudgetData) :
  clearAllData false s =
  (Throw StorageError, with_filteredTransactions [] (with_transactions [] s)).
Proof. reflexivity. Qed.

(** X11. [clearAllData] empties the collection and the filtered view;
    the categories, the filter and the id counter stay, and so do the
    oldest and the newest date of the statistics, which then describe
    transactions that are gone.  Where localStorage lets the saved item
    be removed the call returns, the caches are emptied, the count is
    zero, [dataCleared] and [dataChanged] are emitted, and the summary
    computed next is all zeros.  Where localStorage is missing or
    refuses access the call is rejected at that point: beyond the
    two emptied arrays the state is the one before the call, so the
    caches, the count and the events are as they were, and a summary
    cached when the ledger held nothing is handed out again. *)
Theorem clearAllData_clears (storageAnswers : bool) (s : HouseholdBudgetData) :
  let s' := after (clearAllData storageAnswers) s in
  transactions s' = []
  /\ filteredTransactions s' = []
  /\ oldestTransaction (stats s') = oldestTransaction (stats s)
  /\ newestTransaction (stats s') = newestTransaction (stats s)
  /\ categories s' = categories s
  /\ filters s' = filters s
  /\ idCounter s' = idCounter s
  /\ if storageAnswers then
       answer (clearAllData storageAnswers) s = Return tt
       /\ cachesCleared s'
       /\ totalTransactions (stats s') = 0%nat
       /\ emitted s' = emitted s ++ [DataCleared; DataChanged]
       /\ answer calculateSummary s' =
          Return {| s_income := 0; s_expense := 0; s_balance := 0;
                    s_transactionCount := 0; s_avgIncome := 0;
                    s_avgExpense := 0 |}
     else
       answer (clearAllData storageAnswers) s = Throw StorageError
       /\ s' = with_filteredTransactions [] (with_transactions [] s)
       /\ summaryCache s' = summaryCache s
       /\ lastSummaryUpdate s' = lastSummaryUpdate s
       /\ monthlyDataCache s' = monthlyDataCache s
       /\ stats s' = stats s
       /\ emitted s' = emitted s
       /\ (forall cached,
             summaryCache s = Some cached ->
             lastSummaryUpdate s = Some 0%nat ->
             answer calculateSummary s' = Return cached).
Proof.
  destruct storageAnswers; cbv zeta.
  - destruct (clearAllData_answered s)
      as (Ans & T & V & C & N & Old & New & Ca & Fi & Ic & Ev & Z).
    cbv zeta in *. repeat (split; [assumption|]). assumption.
  - unfold after, answer. rewrite clearAllData_refused. cbn [fst snd].
    repeat (split; [reflexivity|]).
    intros cached C L. unfold calculateSummary.
    rewrite bind_run, get_run. cbv beta iota.
    cbn [summaryCache lastSummaryUpdate transactions
         with_filteredTransactions with_transactions].
    rewrite C, L. reflexivity.
Qed.

End LedgerMore.

(** ** What every call leaves alone *)

Section LedgerFrames.
Import Sanitizer Ledger Notions Shapes LedgerNotions LedgerFacts.
Context `{Host}.

Lemma leaves_preserves {A X} (f : HouseholdBudgetData -> X) (m : M A) (x : X) :
  leaves f m -> preserves (fun s => f s = x) m.
Proof. intros L s E. rewrite L. exact E. Qed.

Lemma preserves_leaves {A X} (f : HouseholdBudgetData -> X) (m : M A) :
  (forall x, preserves (fun s => f s = x) m) -> leaves f m.
Proof. intros P s. apply (P (f s) s). reflexivity. Qed.

Lemma leaves_validateRows {X} (f : HouseholdBudgetData -> X) :
  (forall n s, f (with_clockReads n s) = f s) ->
  (forall n s, f (with_idsDrawn n s) = f s) ->
  forall rows i acc errs, leaves f (validateRows i rows acc errs).
Proof.
  intros C I. induction rows as [|row rest IH]; intros i acc errs.
  - unfold validateRows. apply leaves_ret.
  - unfold validateRows; fold (@validateRows H). cbv zeta.
    destruct (isValid (validateAndSanitizeTransaction row)).
    + apply leaves_bind; [apply leaves_generateUniqueId, I | intros id].
      apply leaves_bind; [apply leaves_now, C | intros created].
      apply leaves_bind; [apply leaves_now, C | intros updated].
      apply IH.
    + apply IH.
Qed.

(** *** removeCategory, for any property of the state

    A property that the two halves of an update keep, and that does not
    depend on the registry or on the events emitted, is kept by
    [removeCategory]. *)

Section Reassigning.
Variable K : HouseholdBudgetData -> Prop.
Hypothesis K_replace : forall id u, preserves K (updateTransaction_replace id u).
Hypothesis K_settle : forall u, preserves K (updateTransaction_settle u).
Hypothesis K_categories : forall c s, K s -> K (with_categories c s).
Hypothesis K_emitted : forall e s, K s -> K (with_emitted e s).

Lemma kept_updateTransaction id u : preserves K (updateTransaction id u).
Proof.
  unfold updateTransaction. apply preserves_bind; [apply K_replace | apply K_settle].
Qed.

Lemma kept_started id u : preserves K (updateTransaction_started id u).
Proof.
  unfold updateTransaction_started.
  apply preserves_bind; [apply preserves_get | intros s].
  destruct (persists s).
  - apply preserves_tryCatch; [|apply preserves_ret].
    apply preserves_bind; [apply K_replace | intros u'; apply preserves_ret].
  - apply preserves_bind; [|intros; apply preserves_ret].
    apply preserves_forget, kept_updateTransaction.
Qed.

Lemma kept_startAll related u : preserves K (startAll related u).
Proof.
  induction related as [|t rest IH]; simpl; [apply preserves_ret|].
  apply preserves_bind; [apply kept_started | intros started].
  apply preserves_bind; [exact IH | intros pending]. apply preserves_ret.
Qed.

Lemma kept_settling pending :
  preserves K (forEach (fun u => forget (updateTransaction_settle u)) pending).
Proof. apply preserves_forEach. intros u. apply preserves_forget, K_settle. Qed.

Lemma kept_removeCategory type name replacement :
  preserves K (removeCategory type name replacement).
Proof.
  unfold removeCategory.
  apply preserves_bind;
    [|intros r; apply preserves_bind;
        [apply kept_settling | intros; apply preserves_ret]].
  unfold removeCategory_body.
  apply preserves_bind; [apply preserves_get | intros s0]. cbv zeta.
  apply preserves_bind.
  { destruct (0 <? length _)%nat; [|apply preserves_ret].
    destruct (negb (truthy replacement));
      [apply preserves_throw | apply kept_startAll]. }
  intros pending s1 K1. unfold after.
  destruct (categoriesOf type (categories s1)) as [names|].
  - rewrite bind_run, modify_run. cbv beta iota.
    rewrite bind_run, emit_run. cbv beta iota.
    rewrite bind_run, emit_run. cbv beta iota.
    unfold ret. cbn [snd]. apply K_emitted, K_emitted, K_categories, K1.
  - unfold throw. cbn [snd]. apply kept_settling, K1.
Qed.

End Reassigning.

Lemma leaves_removeCategory {X} (f : HouseholdBudgetData -> X)
    type name replacement :
  (forall id u, leaves f (updateTransaction_replace id u)) ->
  (forall u, leaves f (updateTransaction_settle u)) ->
  (forall c s, f (with_categories c s) = f s) ->
  (forall e s, f (with_emitted e s) = f s) ->
  leaves f (removeCategory type name replacement).
Proof.
  intros R S C E. apply preserves_leaves. intros x.
  apply kept_removeCategory.
  - intros id u. apply leaves_preserves, R.
  - intros u. apply leaves_preserves, S.
  - intros c s. rewrite C. auto.
  - intros e s. rewrite E. auto.
Qed.

End LedgerFrames.

(** The methods, unfolded for [frame]. *)
Ltac frame_of :=
  unfold Ledger.addTransaction, Ledger.updateTransaction,
    Ledger.updateTransaction_replace, Ledger.updateTransaction_settle,
    Ledger.deleteTransaction, Ledger.addTransactionsBatch,
    Ledger.applyFilters, Ledger.calculateSummary, Ledger.getMonthlyData,
    Ledger.addCategory, Ledger.fromSaveFormat, Ledger.clearAllData;
  repeat first
    [ frame_step
    | apply leaves_validateRows; intros; reflexivity ].

Ltac frame_all :=
  first
    [ apply leaves_removeCategory;
      [ intros; frame_of | intros; frame_of
      | intros; reflexivity | intros; reflexivity ]
    | frame_of ].

(** A part of the state after a call is the part before it. *)
Ltac framed :=
  lazymatch goal with
  | |- Ledger.stats_createdAt (Ledger.stats (Ledger.after ?m ?s0)) = _ =>
      let L := fresh "L" in
      assert (LedgerNotions.leaves
                (fun s => Ledger.stats_createdAt (Ledger.stats s)) m) as L
        by frame_all;
      apply L
  | |- ?f (Ledger.after ?m ?s0) = _ =>
      let L := fresh "L" in
      assert (LedgerNotions.leaves f m) as L by frame_all; apply L
  end.

Section LedgerFrame.
Import Sanitizer Ledger Notions Shapes LedgerNotions LedgerFacts.
Context `{Host}.

(** X12. Each call assigns only the parts of the ledger that are its
    own.  The registry of categories changes in [addCategory],
    [removeCategory] and [fromSaveFormat] only; the filter in
    [applyFilters] and [fromSaveFormat] only; the filtered view in
    [applyFilters] and [clearAllData] only, so that a transaction added,
    updated or deleted leaves the view as it was last computed; the id
    counter and the creation time of the statistics in [fromSaveFormat]
    only; and no call changes [isInitialized] or the database handle. *)
Theorem perform_leaves (c : Call) (s : HouseholdBudgetData) :
  let s' := perform c s in
  (assignsCategories c = false -> categories s' = categories s)
  /\ (assignsFilters c = false -> filters s' = filters s)
  /\ (assignsView c = false -> filteredTransactions s' = filteredTransactions s)
  /\ (loads c = false ->
      idCounter s' = idCounter s
      /\ stats_createdAt (stats s') = stats_createdAt (stats s))
  /\ isInitialized s' = isInitialized s
  /\ db s' = db s.
Proof.
  cbv zeta. split; [|split; [|split; [|split; [|split]]]].
  - destruct c; simpl; try discriminate; intros _; try reflexivity; framed.
  - destruct c; simpl; try discriminate; intros _; try reflexivity; framed.
  - destruct c; simpl; try discriminate; intros _; try reflexivity; framed.
  - destruct c; simpl; try discriminate; intros _; split; try reflexivity;
      framed.
  - destruct c; simpl; try reflexivity; framed.
  - destruct c; simpl; try reflexivity; framed.
Qed.

End LedgerFrame.
(** ** The registry of categories *)

Section Registry.
Import Sanitizer Ledger Notions Shapes LedgerNotions LedgerFacts.
Context `{Host}.

Lemma includes_In (l : list jsstring) (x : jsstring) :
  includes l x = true <-> In x l.
Proof.
  unfold includes. rewrite existsb_exists. split.
  - intros (y & I & E). apply str_eqb_eq in E. subst. exact I.
  - intros I. exists x. split; [exact I | apply str_eqb_refl].
Qed.

Lemma distinct_set (type : jsstring) (names : list jsstring) (c : Categories) :
  distinctNames c -> List.NoDup names ->
  distinctNames (setCategoriesOf type names c).
Proof.
  intros [I E] N. unfold setCategoriesOf, distinctNames.
  destruct (str_eqb type CONSTANTS.INCOME); simpl; auto.
Qed.

Lemma distinct_of (type : jsstring) (names : list jsstring) (c : Categories) :
  distinctNames c -> categoriesOf type c = Some names -> List.NoDup names.
Proof.
  intros [I E]. unfold categoriesOf.
  destruct (str_eqb type CONSTANTS.INCOME); [intros Q; inversion Q; subst; auto|].
  destruct (str_eqb type CONSTANTS.EXPENSE); [|discriminate].
  intros Q; inversion Q; subst; auto.
Qed.

Lemma NoDup_snoc (l : list jsstring) (x : jsstring) :
  List.NoDup l -> ~ In x l -> List.NoDup (l ++ [x]).
Proof.
  intros N I. induction N as [|y l Ny N IH]; simpl.
  - constructor; [intros [] | constructor].
  - constructor.
    + rewrite in_app_iff. intros [Q | [Q | []]]; [auto|].
      subst. apply I. left. reflexivity.
    + apply IH. intros Q. apply I. right. exact Q.
Qed.

Lemma NoDup_filter_keep {A} (p : A -> bool) (l : list A) :
  List.NoDup l -> List.NoDup (List.filter p l).
Proof.
  induction 1 as [|x l Nx N IH]; simpl; [constructor|].
  destruct (p x); [|exact IH]. constructor; [|exact IH].
  intros I. apply filter_In in I. apply Nx, I.
Qed.

(** What [addCategory] does to the registry. *)
Lemma addCategory_run (type : jsstring) (categoryName : jsval)
    (s : HouseholdBudgetData) :
  let name := sanitizeCategory categoryName in
  addCategory type categoryName s =
  if str_eqb name [] then (Throw InvalidCategoryName, s)
  else
    match categoriesOf type (categories s) with
    | None => (Throw TypeError, s)
    | Some names =>
        if includes names name then (Throw CategoryExists, s)
        else
          (Return true,
           with_emitted (emitted s ++ [CategoryAdded type name])
             (with_categories
                (setCategoriesOf type (names ++ [name]) (categories s)) s))
    end.
Proof.
  cbv zeta. unfold addCategory.
  destruct (str_eqb (sanitizeCategory categoryName) []); [reflexivity|].
  rewrite bind_run, get_run. cbv beta iota.
  destruct (categoriesOf type (categories s)) as [names|]; [|reflexivity].
  destruct (includes names (sanitizeCategory categoryName)); [reflexivity|].
  rewrite bind_run, modify_run. cbv beta iota.
  rewrite bind_run, emit_run. cbv beta iota. reflexivity.
Qed.

Lemma addCategory_distinct type categoryName :
  preserves (fun s => distinctNames (categories s)) (addCategory type categoryName).
Proof.
  intros s D. unfold after. rewrite addCategory_run. cbv zeta.
  destruct (str_eqb _ []); [exact D|].
  destruct (categoriesOf type (categories s)) as [names|] eqn:C; [|exact D].
  destruct (includes names _) eqn:I; [exact D|].
  cbn [snd categories with_emitted with_categories].
  apply distinct_set; [exact D|]. apply NoDup_snoc.
  - eapply distinct_of; eassumption.
  - intros Q. apply includes_In in Q. congruence.
Qed.

Lemma ret_run {A} (a : A) (s : HouseholdBudgetData) : ret a s = (Return a, s).
Proof. reflexivity. Qed.

Lemma throw_run {A} (e : Error) (s : HouseholdBudgetData) :
  @throw A e s = (Throw e, s).
Proof. reflexivity. Qed.

(** [removeCategory] leaves the registry as it is, or takes the name
    out of the list of the type. *)
Lemma removeCategory_registry type name replacement (s : HouseholdBudgetData) :
  let s' := after (removeCategory type name replacement) s in
  categories s' = categories s
  \/ exists names,
       categoriesOf type (categories s) = Some names
       /\ categories s' =
          setCategoriesOf type
            (List.filter (fun c => negb (str_eqb c name)) names) (categories s).
Proof.
  cbv zeta. unfold removeCategory. rewrite after_bind.
  unfold removeCategory_body. rewrite bind_run, get_run. cbv beta iota zeta.
  rewrite bind_run.
  set (first :=
         if (0 <? length (List.filter (refersTo type name) (transactions s)))%nat
         then if negb (truthy replacement)
              then throw (CategoryInUse
                            (length (List.filter (refersTo type name)
                                                 (transactions s))))
              else startAll (List.filter (refersTo type name) (transactions s))
                            (recategorize replacement)
         else ret []).
  assert (leaves categories first) as First.
  { unfold first. destruct (0 <? _)%nat; [|apply leaves_ret].
    destruct (negb _); [apply leaves_throw|].
    apply preserves_leaves. intros x. apply kept_startAll.
    - intros id u. apply leaves_preserves. frame_of.
    - intros u. apply leaves_preserves. frame_of. }
  specialize (First s). unfold after in First.
  destruct (first s) as [[pending|e] s1]; cbn [snd] in First; [|left; exact First].
  assert (leaves categories
            (forEach (fun u => forget (updateTransaction_settle u)) pending))
    as Settled by frame_of.
  destruct (categoriesOf type (categories s1)) as [names|] eqn:C.
  - rewrite bind_run, modify_run. cbv beta iota.
    rewrite bind_run, emit_run. cbv beta iota.
    rewrite bind_run, emit_run. cbv beta iota.
    rewrite ret_run. cbv beta iota. cbn [fst snd].
    right. exists names. rewrite <- First. split; [exact C|].
    assert (leaves categories
              (forEach (fun u => forget (updateTransaction_settle u)) pending ;;;
               ret (length (List.filter (refersTo type name) (transactions s)))))
      as L by frame_of.
    rewrite L. reflexivity.
  - rewrite throw_run. cbv beta iota. left. rewrite Settled. exact First.
Qed.

Lemma removeCategory_distinct type name replacement :
  preserves (fun s => distinctNames (categories s))
            (removeCategory type name replacement).
Proof.
  intros s D. destruct (removeCategory_registry type name replacement s)
    as [E | (names & C & E)]; cbv zeta in E; rewrite E; [exact D|].
  apply distinct_set; [exact D|]. apply NoDup_filter_keep.
  eapply distinct_of; eassumption.
Qed.

Lemma DEFAULT_CATEGORIES_distinct : distinctNames DEFAULT_CATEGORIES.
Proof.
  split; unfold DEFAULT_CATEGORIES; cbn [income expense];
    repeat (constructor; [simpl; intuition discriminate|]); constructor.
Qed.

End Registry.

Section RegistryTheorems.
Import Sanitizer Ledger Notions Shapes LedgerNotions LedgerFacts.
Context `{Host}.

Lemma perform_distinct (c : Call) (s : HouseholdBudgetData) :
  loads c = false ->
  distinctNames (categories s) -> distinctNames (categories (perform c s)).
Proof.
  intros L D.
  destruct c; try discriminate; simpl;
    try apply (addCategory_distinct _ _ _ D);
    try apply (removeCategory_distinct _ _ _ _ D);
    try exact D;
    match goal with |- distinctNames (categories (after ?m s)) =>
      let F := fresh "F" in
      assert (leaves categories m) as F by frame_all; rewrite F; exact D
    end.
Qed.

(** X13. The registry of a new ledger has no name twice in the list of
    a type, and it stays so whatever is called, as long as no registry is
    taken over from a saved file: [addCategory] refuses a name that the
    list has, [removeCategory] only takes names out, and the other calls
    leave the registry alone. *)
Theorem session_distinct_names (calls : list Call) (s : HouseholdBudgetData) :
  Forall (fun c => loads c = false) calls ->
  distinctNames (categories s) ->
  distinctNames (categories (session calls s)).
Proof.
  intros L. revert s. induction L as [|c calls Lc L IH]; intros s D; simpl.
  - exact D.
  - apply IH. apply perform_distinct; assumption.
Qed.

Lemma filter_out_last (names : list jsstring) (name : jsstring) :
  ~ In name names ->
  List.filter (fun c => negb (str_eqb c name)) (names ++ [name]) = names.
Proof.
  intros N. induction names as [|x names IH]; simpl.
  - rewrite str_eqb_refl. reflexivity.
  - assert (str_eqb x name = false) as E.
    { apply str_eqb_neq. intros Q. apply N. left. exact Q. }
    rewrite E. simpl. rewrite IH; [reflexivity|].
    intros Q. apply N. right. exact Q.
Qed.

Lemma setCategoriesOf_back (type : jsstring) (names other : list jsstring)
    (c : Categories) :
  categoriesOf type c = Some names ->
  setCategoriesOf type names (setCategoriesOf type other c) = c.
Proof.
  unfold categoriesOf, setCategoriesOf. destruct c as [inc exp]. simpl.
  destruct (str_eqb type CONSTANTS.INCOME); [intros Q; inversion Q; reflexivity|].
  destruct (str_eqb type CONSTANTS.EXPENSE); [|discriminate].
  intros Q; inversion Q; reflexivity.
Qed.

(** X14. A name that sanitizing does not empty and that the list of
    the type does not have is added at the end of the list; adding it
    once more is refused as existing.  As long as no transaction refers
    to it, [removeCategory] takes it out again without asking for a
    replacement, and the registry and the transactions are what they were
    before the name was added. *)
Theorem addCategory_then_remove (type : jsstring) (categoryName : jsval)
    (names : list jsstring) (s : HouseholdBudgetData) :
  categoriesOf type (categories s) = Some names ->
  sanitizeCategory categoryName <> [] ->
  ~ In (sanitizeCategory categoryName) names ->
  List.filter (refersTo type (sanitizeCategory categoryName)) (transactions s)
    = [] ->
  let name := sanitizeCategory categoryName in
  let s1 := after (addCategory type categoryName) s in
  let s2 := after (removeCategory type name VNull) s1 in
  answer (addCategory type categoryName) s = Return true
  /\ categoriesOf type (categories s1) = Some (names ++ [name])
  /\ transactions s1 = transactions s
  /\ answer (addCategory type categoryName) s1 = Throw CategoryExists
  /\ answer (removeCategory type name VNull) s1 = Return 0%nat
  /\ categories s2 = categories s
  /\ transactions s2 = transactions s.
Proof.
  intros C Ne New Unused. cbv zeta.
  set (name := sanitizeCategory categoryName) in *.
  assert (str_eqb name [] = false) as E1 by (apply str_eqb_neq; exact Ne).
  assert (includes names name = false) as E2.
  { destruct (includes names name) eqn:I; [|reflexivity].
    apply includes_In in I. contradiction. }
  pose proof (addCategory_run type categoryName s) as R. cbv zeta in R.
  fold name in R. rewrite E1, C, E2 in R.
  assert (after (addCategory type categoryName) s = snd (addCategory type categoryName s))
    as A by reflexivity.
  rewrite R in A. cbn [snd] in A. rewrite A.
  set (s1 := with_emitted _ _) in *.
  assert (categoriesOf type (categories s1) = Some (names ++ [name])) as C1.
  { unfold s1. cbn [categories with_emitted with_categories].
    eapply categoriesOf_set, C. }
  split; [unfold answer; rewrite R; reflexivity|].
  split; [exact C1|]. split; [reflexivity|].
  split.
  { unfold answer. pose proof (addCategory_run type categoryName s1) as R1.
    cbv zeta in R1. fold name in R1. rewrite E1, C1 in R1.
    assert (includes (names ++ [name]) name = true) as I.
    { apply includes_In, in_or_app. right. left. reflexivity. }
    rewrite I in R1. rewrite R1. reflexivity. }
  assert (removeCategory type name VNull s1 =
          (Return 0%nat,
           with_emitted ((emitted s1 ++ [CategoryRemoved type name]) ++ [DataChanged])
             (with_emitted (emitted s1 ++ [CategoryRemoved type name])
                (with_categories
                   (setCategoriesOf type names (categories s1)) s1)))) as Run.
  { unfold removeCategory, removeCategory_body.
    rewrite bind_run, bind_run, get_run. cbv beta iota zeta.
    assert (transactions s1 = transactions s) as T by reflexivity.
    rewrite T, Unused. cbn [length Nat.ltb Nat.leb].
    rewrite bind_run, ret_run. cbv beta iota. rewrite C1.
    rewrite bind_run, modify_run. cbv beta iota.
    rewrite bind_run, emit_run. cbv beta iota.
    rewrite bind_run, emit_run. cbv beta iota.
    rewrite ret_run. cbv beta iota. cbn [fst snd forEach].
    rewrite bind_run, ret_run. cbv beta iota. rewrite ret_run.
    rewrite (filter_out_last names name New). reflexivity. }
  split; [unfold answer; rewrite Run; reflexivity|].
  unfold after. rewrite Run. cbn [snd categories transactions with_emitted
                                  with_categories].
  split; [|reflexivity].
  unfold s1. cbn [categories with_emitted with_categories].
  apply setCategoriesOf_back, C.
Qed.

End RegistryTheorems.

(** ** init *)

Section Init.
Import Sanitizer Ledger Notions Shapes LedgerNotions LedgerFacts.
Context `{Host}.

Lemma ensures_establishes {A} (m : M A) (Q : HouseholdBudgetData -> Prop) :
  establishes Q m -> ensures m Q.
Proof.
  intros E s a s' R. specialize (E s). unfold after in E. rewrite R in E.
  exact E.
Qed.

Lemma ensures_after {A B} (m : M A) (k : A -> M B)
    (Q : HouseholdBudgetData -> Prop) :
  (forall a, ensures (k a) Q) -> ensures (bind m k) Q.
Proof.
  intros E s b s' R. rewrite bind_run in R.
  destruct (m s) as [[a|e] s1]; [|discriminate]. eapply E, R.
Qed.

Lemma establishes_tryCatch {A} (m h : M A) (Q : HouseholdBudgetData -> Prop) :
  ensures m Q -> establishes Q h -> establishes Q (tryCatch m h).
Proof.
  intros E Eh s. unfold after, tryCatch.
  destruct (m s) as [[a|e] s1] eqn:R; simpl.
  - eapply E, R.
  - apply Eh.
Qed.

Lemma total_tryCatch {A} (m h : M A) : total h -> total (tryCatch m h).
Proof.
  intros T s. unfold tryCatch. destruct (m s) as [[a|e] s1].
  - eexists _, _. reflexivity.
  - apply T.
Qed.

Lemma total_emit e : total (emit e).
Proof. apply total_modify. Qed.

Lemma total_answer {A} (m : M A) s : total m -> exists a, answer m s = Return a.
Proof. intros T. destruct (T s) as (a & s' & R). exists a. unfold answer. rewrite R. reflexivity. Qed.

Lemma loadFromLocalStorage_total local : total (loadFromLocalStorage local).
Proof.
  unfold loadFromLocalStorage. apply total_tryCatch.
  apply total_bind; [apply total_modify | intros _; apply total_emit].
Qed.

Lemma init_total database local : total (init database local).
Proof.
  unfold init. destruct database as [|stored settings].
  - apply loadFromLocalStorage_total.
  - apply total_bind; [apply total_modify | intros _].
    apply total_tryCatch, loadFromLocalStorage_total.
Qed.

Lemma loadFromLocalStorage_ready local :
  establishes (fun s => isInitialized s = true) (loadFromLocalStorage local).
Proof.
  unfold loadFromLocalStorage. apply establishes_tryCatch.
  - apply ensures_after. intros _. apply ensures_establishes.
    apply establishes_bind; [intros s; reflexivity | intros _].
    apply leaves_preserves. frame.
  - apply establishes_bind; [intros s; reflexivity | intros _].
    apply leaves_preserves. frame.
Qed.

Lemma emit_announces :
  establishes (fun s => In DataLoaded (emitted s)) (emit DataLoaded).
Proof.
  intros s. unfold after. rewrite emit_run. cbn [snd emitted with_emitted].
  apply in_or_app. right. left. reflexivity.
Qed.

Lemma emit_keeps_announced e :
  preserves (fun s => In DataLoaded (emitted s)) (emit e).
Proof.
  intros s I. unfold after. rewrite emit_run. cbn [snd emitted with_emitted].
  apply in_or_app. left. exact I.
Qed.

Lemma loadFromLocalStorage_announces local :
  establishes (fun s => In DataLoaded (emitted s)) (loadFromLocalStorage local).
Proof.
  unfold loadFromLocalStorage. apply establishes_tryCatch.
  - do 3 (apply ensures_after; intros _). apply ensures_establishes.
    apply establishes_bind; [apply emit_announces | intros _].
    apply emit_keeps_announced.
  - apply establishes_after; [apply total_modify | intros _].
    apply emit_announces.
Qed.

(** X15. [init] always returns, whatever the database and the local
    storage answer and whatever they hold: every failure ends in the
    fallback, which catches its own.  It leaves the ledger initialized
    and has emitted [dataLoaded].  With a database that answers both
    reads and stored dates that are dates, the ledger holds the stored
    transactions, the local storage is not consulted, and [dataLoaded]
    and [dataChanged] are emitted once each. *)
Theorem init_ready (database : Database) (local : LocalStorage)
    (s : HouseholdBudgetData) :
  let s' := after (init database local) s in
  answer (init database local) s = Return tt
  /\ isInitialized s' = true
  /\ In DataLoaded (emitted s')
  /\ (forall stored settings dates,
        database = DatabaseOpen (Resolved stored) (Resolved settings) ->
        parseAll (map t_date stored) = Some dates ->
        transactions s' = stored
        /\ db s' = true
        /\ totalTransactions (stats s') = length stored
        /\ emitted s' = emitted s ++ [DataLoaded; DataChanged]).
Proof.
  cbv zeta. split; [|split; [|split]].
  - destruct (total_answer (init database local) s (init_total _ _)) as [[] E].
    exact E.
  - revert s. change (establishes (fun s => isInitialized s = true)
                                  (init database local)).
    unfold init. destruct database as [|stored settings].
    + apply loadFromLocalStorage_ready.
    + apply establishes_after; [apply total_modify | intros _].
      apply establishes_tryCatch; [|apply loadFromLocalStorage_ready].
      apply ensures_after. intros _. apply ensures_establishes.
      apply establishes_bind; [intros s; reflexivity | intros _].
      apply leaves_preserves. frame.
  - revert s. change (establishes (fun s => In DataLoaded (emitted s))
                                  (init database local)).
    unfold init. destruct database as [|stored settings].
    + apply loadFromLocalStorage_announces.
    + apply establishes_after; [apply total_modify | intros _].
      apply establishes_tryCatch; [|apply loadFromLocalStorage_announces].
      do 2 (apply ensures_after; intros _). apply ensures_establishes.
      apply establishes_bind; [apply emit_announces | intros _].
      apply emit_keeps_announced.
  - intros stored settings dates -> P.
    assert (exists s1,
              loadData (Resolved stored) (Resolved settings) (with_db true s)
                = (Return tt, s1)
              /\ transactions s1 = stored
              /\ db s1 = true
              /\ totalTransactions (stats s1) = length stored
              /\ emitted s1 = emitted s) as (s1 & L & T & D & C & E).
    { unfold loadData. rewrite bind_run, modify_run. cbv beta iota.
      match goal with |- context [bind ?m _ ?st] =>
        assert (exists s0, m st = (Return tt, s0)
                           /\ transactions s0 = stored /\ db s0 = true
                           /\ emitted s0 = emitted s) as (s0 & R & T0 & D0 & E0)
      end.
      { destruct settings as [st|].
        - eexists. rewrite modify_run. split; [reflexivity|].
          repeat split.
        - eexists. rewrite ret_run. split; [reflexivity|]. repeat split. }
      rewrite bind_run, R. cbv beta iota.
      exists (after updateStats s0).
      assert (answer updateStats s0 = Return tt) as Ok.
      { apply (updateStats_returns s0 dates). rewrite T0. exact P. }
      rewrite (run_pair updateStats s0), Ok.
      split; [reflexivity|].
      assert (leaves transactions updateStats) as L1 by frame.
      assert (leaves db updateStats) as L2 by frame.
      assert (leaves emitted updateStats) as L3 by frame.
      rewrite L1, L2, L3, updateStats_count, T0. auto. }
    assert (init (DatabaseOpen (Resolved stored) (Resolved settings)) local s =
            (Return tt,
             with_emitted ((emitted s1 ++ [DataLoaded]) ++ [DataChanged])
               (with_emitted (emitted s1 ++ [DataLoaded])
                  (with_isInitialized true s1)))) as Run.
    { unfold init. rewrite bind_run, modify_run. cbv beta iota.
      unfold tryCatch. rewrite bind_run, L. cbv beta iota.
      rewrite bind_run, modify_run. cbv beta iota.
      rewrite bind_run, emit_run. cbv beta iota. rewrite emit_run.
      reflexivity. }
    unfold after. rewrite Run. cbn. rewrite E, <- app_assoc. auto.
Qed.

End Init.


(** ** What the ledger holds when nothing is taken over from outside *)

Section Validated.
Import Regex Sanitizer Ledger Notions Shapes LedgerNotions LedgerFacts.
Context `{Host}.

Lemma leaves_keeps {A X} (f : HouseholdBudgetData -> X) (m : M A)
    (P : X -> Prop) :
  leaves f m -> preserves (fun s => P (f s)) m.
Proof. intros L s Q. rewrite L. exact Q. Qed.

Lemma sanitizeCategory_allowed (category : jsval) :
  (length (sanitizeCategory category) <= 50)%nat
  /\ Forall (fun c => categoryChar c = true) (sanitizeCategory category).
Proof.
  unfold sanitizeCategory.
  destruct (negb (truthy category)); [split; [simpl; lia | constructor]|].
  pose proof (shortened 50 (List.filter categoryChar (sanitizeHTML category)))
    as [Len Sub].
  cbv zeta in Len, Sub. set (cut := if (_ <? _)%nat then _ else _) in *.
  pose proof (trim_sublist cut) as Tr.
  split; [apply sublist_length in Tr; lia|].
  eapply sublist_Forall_keep; [etransitivity; eassumption|].
  apply filter_Forall_true.
Qed.

Lemma sanitizeDescription_clean (description : jsval) :
  (length (sanitizeDescription description)
   <= CONSTANTS.MAX_DESCRIPTION_LENGTH)%nat
  /\ ~ hasTag (sanitizeDescription description).
Proof.
  unfold sanitizeDescription.
  destruct (negb (truthy description));
    [split; [simpl; lia | apply hasTag_nil]|].
  pose proof (shortened CONSTANTS.MAX_DESCRIPTION_LENGTH
                (sanitizeHTML description)) as [Len Sub].
  cbv zeta in Len, Sub. set (cut := if (_ <? _)%nat then _ else _) in *.
  pose proof (trim_sublist cut) as Tr.
  split; [apply sublist_length in Tr; lia|].
  intros Tag. apply (sanitizeHTML_clean description).
  eapply hasTag_sublist; [|exact Tag]. etransitivity; eassumption.
Qed.

Lemma sanitizeDate_valid (dateString : jsval) :
  sanitizeDate dateString <> [] ->
  isoDate (sanitizeDate dateString)
  /\ exists d,
       Date_parse (sanitizeDate dateString) = Some d
       /\ CONSTANTS.MIN_YEAR <= Date_getFullYear d <= CONSTANTS.MAX_YEAR.
Proof.
  unfold sanitizeDate.
  destruct (negb (truthy dateString)); [congruence|].
  destruct (fullmatch dateRegex (sanitizeHTML dateString)) eqn:F;
    simpl negb; cbv iota; [|congruence].
  destruct (Date_parse (sanitizeHTML dateString)) as [t|] eqn:P;
    [|congruence].
  destruct (Date_getFullYear t <? CONSTANTS.MIN_YEAR) eqn:Lo;
    [simpl; congruence|].
  destruct (CONSTANTS.MAX_YEAR <? Date_getFullYear t) eqn:Hi;
    [simpl; congruence|].
  simpl orb. cbv iota. intros _.
  split; [apply dateRegex_isoDate, F|].
  exists t. split; [exact P|]. apply Z.ltb_ge in Lo, Hi. lia.
Qed.

Lemma valid_description (d : Draft) :
  sd_description (sanitizedData (validateAndSanitizeTransaction d))
  = sanitizeDescription (js_or (d_description d) (VStr [])).
Proof.
  with_strategy transparent [validateAndSanitizeTransaction]
    (unfold validateAndSanitizeTransaction). reflexivity.
Qed.

(** The record made of a valid draft has all that the validation
    promises. *)
Lemma record_wellFormed (d : Draft) (id : jsstring) (created updated : Z) :
  isValid (validateAndSanitizeTransaction d) = true ->
  wellFormed
    (record id (sanitizedData (validateAndSanitizeTransaction d)) created updated).
Proof.
  intros V. pose proof (record_withinLimits d id created updated V) as W.
  destruct (valid_sanitized d V) as (D & Dn & T & (ty & Ty) & C & Cn & A & R).
  unfold wellFormed, record. cbn [t_type t_category t_date t_description].
  rewrite D, Ty, C, valid_description. cbn [default].
  rewrite Ty in T. apply knownType_spec in T. destruct T as [_ T].
  destruct (sanitizeCategory_allowed (d_category d)) as [CL CF].
  destruct (sanitizeDescription_clean (js_or (d_description d) (VStr [])))
    as [DL DC].
  destruct (sanitizeDate_valid _ Dn) as [Iso Parse].
  repeat split; try assumption; apply W.
Qed.

Lemma stamped_wellFormed ids clock rows :
  Forall wellFormed (stamped ids clock rows).
Proof.
  apply List.Forall_forall. intros t I.
  destruct (stamped_from _ _ _ _ I) as (row & i & c & c' & _ & V & ->).
  apply record_wellFormed, V.
Qed.

Lemma Forall_insert_at {A} (P : A -> Prop) (l : list A) (i : nat) (x : A) :
  Forall P l -> P x -> Forall P (<[i := x]> l).
Proof.
  intros F Px. revert i. induction F as [|y l Py F IH]; intros [|i]; simpl;
    constructor; auto.
Qed.

Lemma Forall_delete_at {A} (P : A -> Prop) (l : list A) (i : nat) :
  Forall P l -> Forall P (delete i l).
Proof.
  intros F. revert i. induction F as [|y l Py F IH]; intros [|i]; simpl;
    try constructor; auto.
Qed.

Lemma wellFormed_replace id u :
  preserves (fun s => Forall wellFormed (transactions s))
            (updateTransaction_replace id u).
Proof.
  intros s W. unfold after.
  pose proof (updateTransaction_replace_effect id u s) as R. cbv zeta in R.
  destruct (findIndex _ _) as [i|]; [|rewrite R; exact W].
  destruct (_ !! _) as [current|]; [|rewrite R; exact W].
  destruct (isValid _) eqn:V; rewrite R; [|exact W].
  cbn [snd transactions with_transactions with_clockReads].
  apply Forall_insert_at; [exact W|]. apply record_wellFormed, V.
Qed.

Lemma clearAllData_empty (storageAnswers : bool) (s : HouseholdBudgetData) :
  transactions (after (clearAllData storageAnswers) s) = [].
Proof.
  destruct storageAnswers; [|reflexivity].
  apply (clearAllData_answered s).
Qed.

Lemma perform_wellFormed (c : Call) (s : HouseholdBudgetData) :
  loads c = false ->
  Forall wellFormed (transactions s) ->
  Forall wellFormed (transactions (perform c s)).
Proof.
  intros L W. destruct c; try discriminate; cbn [perform];
    try (match goal with |- Forall _ (transactions (after ?m s)) =>
           let F := fresh "F" in
           assert (leaves transactions m) as F by frame_of;
           rewrite F; exact W
         end).
  - pose proof (addTransaction_effect transactionData s) as E. cbv zeta in E.
    destruct (isValid _) eqn:V; [|destruct E as [-> _]; exact W].
    destruct E as (-> & _). apply Forall_app. split; [exact W|].
    constructor; [|constructor]. apply record_wellFormed, V.
  - pose proof (updateTransaction_effect id updates s) as E. cbv zeta in E.
    destruct (findIndex _ _) as [i|]; [|destruct E as [-> _]; exact W].
    destruct (_ !! _) as [current|]; [|destruct E as [-> _]; exact W].
    destruct (isValid _) eqn:V; [|destruct E as [-> _]; exact W].
    destruct E as (-> & _). apply Forall_insert_at; [exact W|].
    apply record_wellFormed, V.
  - pose proof (deleteTransaction_effect id s) as E. cbv zeta in E.
    destruct (findIndex _ _) as [i|]; [|destruct E as [-> _]; exact W].
    destruct (_ !! _) as [deleted|]; [|destruct E as [-> _]; exact W].
    destruct E as (-> & _). apply Forall_delete_at, W.
  - pose proof (addTransactionsBatch_effect rows s) as E. cbv zeta in E.
    destruct (stamped _ _ _) as [|t added] eqn:S;
      [destruct E as [-> _]; exact W|].
    destruct E as [(-> & _) _]. apply Forall_app. split; [exact W|].
    rewrite <- S. apply stamped_wellFormed.
  - revert s W.
    apply (kept_removeCategory (fun s => Forall wellFormed (transactions s))).
    + apply wellFormed_replace.
    + intros u. apply (leaves_keeps transactions). frame_of.
    + intros c s W. exact W.
    + intros e s W. exact W.
  - rewrite clearAllData_empty. constructor.
Qed.

Lemma wellFormed_dated (l : list Transaction) :
  Forall wellFormed l -> exists dates, parseAll (map t_date l) = Some dates.
Proof.
  induction 1 as [|t l W F (dates & P)]; simpl; [eauto|].
  destruct W as (_ & _ & _ & _ & _ & _ & (d & D & _) & _).
  rewrite D, P. eauto.
Qed.

(** X16. As long as no transactions are taken over from a saved file,
    every record that the ledger holds is what the validation lets
    through: its type is income or expense; its category is not empty,
    at most 50 units long and made of the permitted units; its amount is
    between 1 and 99,999,999; its date has the form YYYY-MM-DD, is a date
    and has a year between 1900 and 2100; and its description is at most
    200 units long and holds no tag.  So every stored date is a date, and
    no call fails on the statistics. *)
Theorem session_wellFormed (calls : list Call) (s : HouseholdBudgetData) :
  Forall (fun c => loads c = false) calls ->
  Forall wellFormed (transactions s) ->
  Forall wellFormed (transactions (session calls s))
  /\ exists dates,
       parseAll (map t_date (transactions (session calls s))) = Some dates.
Proof.
  intros L W.
  assert (Forall wellFormed (transactions (session calls s))) as F.
  { revert s W. induction L as [|c calls Lc L IH]; intros s W; simpl.
    - exact W.
    - apply IH, perform_wellFormed; assumption. }
  split; [exact F | apply wellFormed_dated, F].
Qed.

End Validated.


(** ** Identifiers *)

Section Identifiers.
Import Regex Sanitizer Ledger Notions Shapes LedgerNotions LedgerFacts.
Context `{Host}.
Hypothesis Distinct : distinctIds.

(** The invariant depends on the ids stored and on the number of the
    identifiers drawn. *)
Lemma idsIssued_same (s s' : HouseholdBudgetData) :
  map t_id (transactions s') = map t_id (transactions s) ->
  idsDrawn s' = idsDrawn s ->
  idsIssued s -> idsIssued s'.
Proof. unfold idsIssued. intros -> ->. auto. Qed.

Lemma idsIssued_leaves {A} (m : M A) :
  leaves transactions m -> leaves idsDrawn m -> preserves idsIssued m.
Proof.
  intros T I s K. apply (idsIssued_same s); [rewrite T; reflexivity | apply I | exact K].
Qed.

Lemma issued_more (n m : nat) (ids : list jsstring) :
  (n <= m)%nat ->
  Forall (fun id => exists k, (k < n)%nat /\ id = generateId k) ids ->
  Forall (fun id => exists k, (k < m)%nat /\ id = generateId k) ids.
Proof.
  intros L. apply List.Forall_impl. intros id (k & Lt & E). exists k.
  split; [lia | exact E].
Qed.

(** Identifiers drawn from [n] on are new to a ledger that has drawn
    [n]. *)
Lemma issued_append (n count : nat) (ids : list jsstring) :
  List.NoDup ids ->
  Forall (fun id => exists k, (k < n)%nat /\ id = generateId k) ids ->
  List.NoDup (ids ++ map generateId (seq n count))
  /\ Forall (fun id => exists k, (k < n + count)%nat /\ id = generateId k)
            (ids ++ map generateId (seq n count)).
Proof.
  intros N F. split.
  - apply NoDup_ListNoDup. apply NoDup_app. split; [apply NoDup_ListNoDup, N|].
    split.
    + intros id I J. apply list_elem_of_In in I, J.
      rewrite List.Forall_forall in F. destruct (F id I) as (k & Lt & ->).
      apply in_map_iff in J. destruct J as (j & E & Ij).
      apply Distinct in E. subst j. apply in_seq in Ij. lia.
    + apply NoDup_ListNoDup. apply Finite.Injective_map_NoDup.
      * intros a b. apply Distinct.
      * apply seq_NoDup.
  - apply Forall_app. split.
    + eapply issued_more; [|exact F]. lia.
    + apply List.Forall_forall. intros id J.
      apply in_map_iff in J. destruct J as (j & E & Ij).
      apply in_seq in Ij. exists j. split; [lia | congruence].
Qed.

Lemma stamped_ids (rows : list Draft) :
  forall ids clock,
    map t_id (stamped ids clock rows)
    = map generateId (seq ids (length (stamped ids clock rows))).
Proof.
  induction rows as [|row rest IH]; intros ids clock; simpl; [reflexivity|].
  destruct (isValid (validateAndSanitizeTransaction row)); [|apply IH].
  simpl. rewrite IH. reflexivity.
Qed.

Lemma validateRows_drawn (rows : list Draft) :
  forall i acc errs s,
    idsDrawn (after (validateRows i rows acc errs) s)
    = (idsDrawn s + length (stamped (idsDrawn s) (clockReads s) rows))%nat.
Proof.
  induction rows as [|row rest IH]; intros i acc errs s.
  - unfold validateRows. rewrite after_ret. simpl. lia.
  - unfold validateRows; fold (@validateRows H). cbv zeta. simpl stamped.
    destruct (isValid (validateAndSanitizeTransaction row)).
    + rewrite after_bind, generateUniqueId_run. cbv beta iota.
      rewrite after_bind, now_run. cbv beta iota.
      rewrite after_bind, now_run. cbv beta iota.
      rewrite IH. cbn [idsDrawn clockReads with_clockReads with_idsDrawn length].
      lia.
    + apply IH.
Qed.

Lemma ids_insert (l : list Transaction) (i : nat) (current new : Transaction) :
  l !! i = Some current ->
  t_id new = t_id current ->
  map t_id (<[i := new]> l) = map t_id l.
Proof.
  revert i. induction l as [|x l IH]; intros [|i]; simpl; try discriminate.
  - intros E Q. inversion E. subst. rewrite Q. reflexivity.
  - intros E Q. rewrite (IH i E Q). reflexivity.
Qed.

Lemma idsIssued_replace id u : preserves idsIssued (updateTransaction_replace id u).
Proof.
  intros s K. unfold after.
  pose proof (updateTransaction_replace_effect id u s) as R. cbv zeta in R.
  destruct (findIndex _ _) as [i|] eqn:F; [|rewrite R; exact K].
  destruct (findIndex_Some _ _ _ F) as (x & Lx & Px & _).
  rewrite Lx in R.
  destruct (isValid _) eqn:V; rewrite R; [|exact K].
  cbn [snd]. apply (idsIssued_same s); [|reflexivity | exact K].
  cbn [transactions with_transactions with_clockReads].
  eapply ids_insert; [exact Lx|].
  apply has_id_true in Px. unfold replaced, record. cbn [t_id]. congruence.
Qed.

Lemma ids_delete (l : list Transaction) (i : nat) :
  map t_id (delete i l) `sublist_of` map t_id l.
Proof.
  revert i. induction l as [|x l IH]; intros [|i]; simpl.
  - reflexivity.
  - reflexivity.
  - apply sublist_cons. reflexivity.
  - apply sublist_skip, IH.
Qed.

Lemma idsIssued_sublist (s s' : HouseholdBudgetData) :
  map t_id (transactions s') `sublist_of` map t_id (transactions s) ->
  idsDrawn s' = idsDrawn s ->
  idsIssued s -> idsIssued s'.
Proof.
  intros S D [N F]. unfold idsIssued. rewrite D. split.
  - apply NoDup_ListNoDup. eapply sublist_NoDup; [|exact S].
    apply NoDup_ListNoDup, N.
  - eapply sublist_Forall_keep; eassumption.
Qed.

Lemma perform_idsIssued (c : Call) (s : HouseholdBudgetData) :
  loads c = false -> idsIssued s -> idsIssued (perform c s).
Proof.
  intros L K. destruct c; try discriminate; cbn [perform];
    try (match goal with |- idsIssued (after ?m s) =>
           let F := fresh "F" in let G := fresh "G" in
           assert (leaves transactions m) as F by frame_of;
           assert (leaves idsDrawn m) as G by frame_of;
           apply (idsIssued_leaves m F G s K)
         end).
  - pose proof (addTransaction_effect transactionData s) as E. cbv zeta in E.
    destruct (isValid _) eqn:V; [|destruct E as [-> _]; exact K].
    destruct E as (T & _).
    assert (idsDrawn (after (addTransaction transactionData) s)
            = S (idsDrawn s)) as D.
    { unfold addTransaction. rewrite V. change (negb true) with false.
      cbv iota. rewrite after_bind, generateUniqueId_run. cbv beta iota.
      match goal with |- idsDrawn (after ?m ?st) = _ =>
        assert (leaves idsDrawn m) as F by frame; rewrite F end.
      reflexivity. }
    destruct K as [N F].
    destruct (issued_append (idsDrawn s) 1 _ N F) as [N' F'].
    unfold idsIssued. rewrite T, D, map_app.
    replace (S (idsDrawn s)) with (idsDrawn s + 1)%nat by lia.
    split; [exact N' | exact F'].
  - revert s K. apply kept_updateTransaction.
    + apply idsIssued_replace.
    + intros u. apply idsIssued_leaves; frame_of.
  - pose proof (deleteTransaction_effect id s) as E. cbv zeta in E.
    destruct (findIndex _ _) as [i|]; [|destruct E as [-> _]; exact K].
    destruct (_ !! _) as [deleted|]; [|destruct E as [-> _]; exact K].
    destruct E as (T & _).
    apply (idsIssued_sublist s); [rewrite T; apply ids_delete | | exact K].
    assert (leaves idsDrawn (deleteTransaction id)) as F by frame_of.
    apply F.
  - pose proof (addTransactionsBatch_effect rows s) as E. cbv zeta in E.
    destruct (stamped _ _ _) as [|t added] eqn:S;
      [destruct E as [-> _]; exact K|].
    destruct E as [(T & _) _].
    assert (idsDrawn (after (addTransactionsBatch rows) s)
            = (idsDrawn s + length (stamped (idsDrawn s) (clockReads s) rows))%nat)
      as D.
    { unfold addTransactionsBatch. rewrite after_bind.
      pose proof (validateRows_drawn rows 0 [] [] s) as VD. unfold after in VD.
      destruct (validateRows_run rows 0 [] [] s) as (s1 & R & _).
      rewrite R in *. cbn [snd] in VD. rewrite <- VD.
      match goal with |- idsDrawn (after ?m s1) = _ =>
        assert (leaves idsDrawn m) as F by frame_of; apply F end. }
    destruct K as [N F].
    destruct (issued_append (idsDrawn s)
                (length (stamped (idsDrawn s) (clockReads s) rows)) _ N F)
      as [N' F'].
    unfold idsIssued. rewrite T, D, map_app, <- S, stamped_ids.
    split; [exact N' | exact F'].
  - revert s K. apply kept_removeCategory.
    + apply idsIssued_replace.
    + intros u. apply idsIssued_leaves; frame_of.
    + intros c s K. exact K.
    + intros e s K. exact K.
  - unfold idsIssued. rewrite clearAllData_empty. split; constructor.
Qed.

(** X17. Provided the host never hands out an identifier twice, and as
    long as no transactions are taken over from a saved file, no two
    stored transactions have the same id: a record gets an identifier
    that no stored record has, an update keeps the id of the record it
    replaces, and the other calls add no record. *)
Theorem session_ids_distinct (calls : list Call) (s : HouseholdBudgetData) :
  Forall (fun c => loads c = false) calls ->
  idsIssued s ->
  idsIssued (session calls s)
  /\ List.NoDup (map t_id (transactions (session calls s))).
Proof.
  intros L K.
  assert (idsIssued (session calls s)) as F.
  { revert s K. induction L as [|c calls Lc L IH]; intros s K; simpl.
    - exact K.
    - apply IH, perform_idsIssued; assumption. }
  split; [exact F | apply F].
Qed.

End Identifiers.


(** ** Monthly totals *)

Section Monthly.
Import Regex Sanitizer Ledger Notions Shapes LedgerNotions LedgerFacts.
Context `{Host}.

Lemma mapGet_mapSet_same {V} (key : jsstring) (v : V) (m : list (jsstring * V)) :
  mapGet key (mapSet key v m) = Some v.
Proof.
  induction m as [|[k w] m IH]; simpl.
  - rewrite str_eqb_refl. reflexivity.
  - destruct (str_eqb k key) eqn:E; simpl; rewrite E; [reflexivity | exact IH].
Qed.

Lemma mapGet_mapSet_other {V} (key other : jsstring) (v : V)
    (m : list (jsstring * V)) :
  key <> other -> mapGet other (mapSet key v m) = mapGet other m.
Proof.
  intros N. induction m as [|[k w] m IH]; simpl.
  - apply str_eqb_neq in N. rewrite N. reflexivity.
  - destruct (str_eqb k key) eqn:E; simpl.
    + apply str_eqb_eq in E. subst k. apply str_eqb_neq in N. rewrite N.
      reflexivity.
    + rewrite IH. reflexivity.
Qed.

(** What one record adds to the totals of the month [key]. *)
Lemma accumulate_get (data : MonthlyData) (t : Transaction) (key : jsstring) :
  mapGet key (accumulate data t) =
  match mapGet key data with
  | Some (inc, exp) => Some (inc + incomeIn key [t], exp + outgoIn key [t])
  | None => None
  end.
Proof.
  destruct (str_eqb (firstn 7 (t_date t)) key) eqn:E.
  - unfold accumulate, incomeIn, outgoIn, inMonth. rewrite E.
    apply str_eqb_eq in E. rewrite E.
    destruct (mapGet key data) as [[inc exp]|] eqn:G; [|exact G].
    destruct (str_eqb (t_type t) CONSTANTS.INCOME); simpl;
      rewrite mapGet_mapSet_same; do 2 f_equal; lia.
  - assert (mapGet key (accumulate data t) = mapGet key data) as Same.
    { unfold accumulate. apply str_eqb_neq in E.
      destruct (mapGet (firstn 7 (t_date t)) data) as [[inc exp]|];
        [|reflexivity].
      destruct (str_eqb (t_type t) CONSTANTS.INCOME);
        rewrite mapGet_mapSet_other by exact E; reflexivity. }
    rewrite Same. unfold incomeIn, outgoIn, inMonth. rewrite E. simpl.
    destruct (mapGet key data) as [[inc exp]|]; [|reflexivity].
    do 2 f_equal; lia.
Qed.

Lemma accumulate_all (l : list Transaction) :
  forall (data : MonthlyData) (key : jsstring),
    mapGet key (fold_left accumulate l data) =
    match mapGet key data with
    | Some (inc, exp) => Some (inc + incomeIn key l, exp + outgoIn key l)
    | None => None
    end.
Proof.
  induction l as [|t l IH]; intros data key.
  - simpl. destruct (mapGet key data) as [[inc exp]|]; [|reflexivity].
    do 2 f_equal; lia.
  - cbn [fold_left]. rewrite IH, accumulate_get.
    destruct (mapGet key data) as [[inc exp]|]; [|reflexivity].
    cbn [incomeIn outgoIn]. do 2 f_equal; lia.
Qed.

(** Months set to zero one after the other. *)
Lemma zeros_get {I} (keyOf : I -> jsstring) (l : list I) :
  forall (data : MonthlyData) (key : jsstring),
    mapGet key (fold_left (fun data i => mapSet (keyOf i) (0, 0) data) l data) =
    if existsb (fun i => str_eqb (keyOf i) key) l then Some (0, 0)
    else mapGet key data.
Proof.
  induction l as [|i l IH]; intros data key; [reflexivity|].
  cbn [fold_left existsb]. rewrite IH.
  destruct (str_eqb (keyOf i) key) eqn:E.
  - apply str_eqb_eq in E. subst key. rewrite mapGet_mapSet_same.
    cbn [orb]. destruct (existsb _ l); reflexivity.
  - apply str_eqb_neq in E. rewrite mapGet_mapSet_other by exact E.
    reflexivity.
Qed.

Lemma emptyMonths_zero (months : MonthSpan) (endDate : Z)
    (l : list Transaction) (key : jsstring) (v : Z * Z) :
  mapGet key (emptyMonths months endDate l) = Some v -> v = (0, 0).
Proof.
  assert (forall I (keyOf : I -> jsstring) (indices : list I),
            mapGet key (fold_left (fun data i => mapSet (keyOf i) (0, 0) data)
                                  indices []) = Some v -> v = (0, 0)) as Zero.
  { intros I keyOf indices. rewrite zeros_get.
    destruct (existsb _ indices); [congruence | discriminate]. }
  destruct months; cbn [emptyMonths]; [apply Zero| |];
    (destruct (head _); [|discriminate]);
    (destruct (last _); [|discriminate]);
    (destruct (Date_parse _); [|discriminate]);
    (destruct (Date_parse _); [|discriminate]);
    apply Zero.
Qed.

Lemma emptyMonths_window (n : nat) (endDate : Z) (l : list Transaction)
    (key : jsstring) :
  mapGet key (emptyMonths (Months n) endDate l) <> None
  <-> In key (windowKeys n endDate).
Proof.
  cbn [emptyMonths]. rewrite zeros_get. unfold windowKeys.
  rewrite in_map_iff.
  destruct (existsb _ _) eqn:E.
  - split; [|discriminate]. intros _.
    apply existsb_exists in E. destruct E as (i & I & E).
    exists i. apply str_eqb_eq in E. split; [exact E|].
    apply in_rev. exact I.
  - split; [intros N; exfalso; apply N; reflexivity|].
    intros (i & E' & I). exfalso.
    assert (existsb
              (fun i => str_eqb
                 (monthKey (firstOfMonth (Date_getFullYear endDate)
                                         (Date_getMonth endDate - Z.of_nat i)))
                 key) (rev (seq 0 n)) = true) as T.
    { apply existsb_exists. exists i. split; [apply in_rev in I; exact I|].
      apply str_eqb_eq, E'. }
    congruence.
Qed.

(** X18. A call of [getMonthlyData] with an end date, for which nothing
    is cached, returns a map in which every month of the window has the
    sum of the amounts of the incomes whose date starts with the key of
    the month, and the sum of the amounts of all the other transactions
    whose date starts with it; no other month has an entry.  For a
    number of months the window is that many months ending with the
    month of the end date.  The same call made again returns the same
    map and leaves the state as it is. *)
Theorem getMonthlyData_totals (months : MonthSpan) (endDate : Z)
    (s : HouseholdBudgetData) :
  mapGet (spanKey months ++ js "-" ++ firstn 7 (Date_toISOString endDate))
         (monthlyDataCache s) = None ->
  exists data,
    answer (getMonthlyData months (Some endDate)) s = Return data
    /\ (forall key,
          mapGet key data =
          match mapGet key (emptyMonths months endDate (transactions s)) with
          | Some _ => Some (incomeIn key (transactions s),
                            outgoIn key (transactions s))
          | None => None
          end)
    /\ (forall n key,
          months = Months n ->
          (mapGet key data <> None <-> In key (windowKeys n endDate)))
    /\ let s' := after (getMonthlyData months (Some endDate)) s in
       transactions s' = transactions s
       /\ getMonthlyData months (Some endDate) s' = (Return data, s').
Proof.
  intros Miss.
  assert (forall key,
            mapGet key (fold_left accumulate (transactions s)
                          (emptyMonths months endDate (transactions s))) =
            match mapGet key (emptyMonths months endDate (transactions s)) with
            | Some _ => Some (incomeIn key (transactions s),
                              outgoIn key (transactions s))
            | None => None
            end) as Totals.
  { intros key. rewrite accumulate_all.
    destruct (mapGet key (emptyMonths _ _ _)) as [[inc exp]|] eqn:E;
      [|reflexivity].
    apply emptyMonths_zero in E. inversion E. reflexivity. }
  assert (getMonthlyData months (Some endDate) s =
          (Return (fold_left accumulate (transactions s)
                     (emptyMonths months endDate (transactions s))),
           with_monthlyDataCache
             (mapSet (spanKey months ++ js "-"
                        ++ firstn 7 (Date_toISOString endDate))
                     (fold_left accumulate (transactions s)
                        (emptyMonths months endDate (transactions s)))
                     (monthlyDataCache s)) s)) as Run.
  { unfold getMonthlyData. rewrite bind_run, ret_run, bind_run, get_run.
    rewrite Miss. rewrite bind_run, modify_run, ret_run. reflexivity. }
  eexists. split; [unfold answer; rewrite Run; reflexivity|].
  split; [exact Totals|].
  split.
  { intros n key ->. rewrite Totals.
    rewrite <- emptyMonths_window with (l := transactions s).
    destruct (mapGet key (emptyMonths _ _ _)); split; congruence. }
  cbv zeta. unfold after. rewrite Run. cbn [snd].
  split; [reflexivity|].
  unfold getMonthlyData. rewrite bind_run, ret_run, bind_run, get_run.
  cbn [monthlyDataCache with_monthlyDataCache].
  rewrite mapGet_mapSet_same. reflexivity.
Qed.

End Monthly.


(** ** The integrity check *)

Section IntegrityCheck.
Import Regex Sanitizer Ledger Notions Shapes LedgerNotions LedgerFacts.

(** The first loop: an issue for every id met before, and only for
    those. *)
Lemma checkIds_spec (l : list Transaction) :
  forall seenIds duplicateIds issues,
    exists extra,
      snd (checkIds l seenIds duplicateIds issues) = issues ++ extra
      /\ (extra = [] <->
          List.NoDup (map t_id l)
          /\ Forall (fun id => ~ In id seenIds) (map t_id l))
      /\ (length (fst (fst (checkIds l seenIds duplicateIds issues)))
          + length extra = length seenIds + length l)%nat
      /\ (snd (fst (checkIds l seenIds duplicateIds issues)) = [] <->
          duplicateIds = [] /\ extra = []).
Proof.
  induction l as [|t l IH]; intros seenIds duplicateIds issues.
  - exists []. simpl. rewrite app_nil_r.
    split; [reflexivity|]. split; [|split; [lia | tauto]].
    split; [|reflexivity]. intros _. split; constructor.
  - cbn [checkIds]. destruct (includes seenIds (t_id t)) eqn:Seen.
    + apply includes_In in Seen.
      set (dup := if includes duplicateIds (t_id t) then duplicateIds
                  else duplicateIds ++ [t_id t]).
      assert (dup <> []) as Grown.
      { unfold dup. destruct (includes duplicateIds (t_id t)) eqn:D.
        - apply includes_In in D. intros ->. exact D.
        - intros E. apply app_eq_nil in E. destruct E; discriminate. }
      destruct (IH seenIds dup (issues ++ [DuplicateId (t_id t)]))
        as (extra & E & _ & Count & Dup).
      exists (DuplicateId (t_id t) :: extra).
      split; [rewrite E, <- app_assoc; reflexivity|].
      split.
      { split; [discriminate|]. intros [_ F]. exfalso.
        inversion F; subst. tauto. }
      split; [simpl; simpl in Count; lia|].
      split.
      * intros E'. apply Dup in E'. tauto.
      * intros [_ E']. discriminate.
    + assert (~ In (t_id t) seenIds) as Fresh.
      { intros I. apply includes_In in I. congruence. }
      destruct (IH (seenIds ++ [t_id t]) duplicateIds issues)
        as (extra & E & Empty & Count & Dup).
      exists extra. split; [exact E|].
      split.
      { rewrite Empty. cbn [map]. split.
        - intros [N F]. split.
          + constructor; [|exact N]. intros I.
            rewrite List.Forall_forall in F. apply (F _ I).
            apply in_or_app. right. left. reflexivity.
          + constructor; [exact Fresh|].
            eapply List.Forall_impl; [|exact F]. intros id N' I.
            apply N'. apply in_or_app. left. exact I.
        - intros [N F]. inversion N as [|? ? New Rest]; subst.
          inversion F as [|? ? Unseen Others]; subst.
          split; [assumption|].
          apply List.Forall_forall. intros id I J.
          apply in_app_or in J. destruct J as [J|[J|[]]].
          + rewrite List.Forall_forall in Others. apply (Others id I J).
          + subst id. tauto. }
      split; [rewrite length_app in Count; simpl in *; lia | exact Dup].
Qed.

Lemma forEachIndexed_nil (body : nat -> Transaction -> list Issue)
    (P : Transaction -> Prop) :
  (forall index t, body index t = [] <-> P t) ->
  forall l index, forEachIndexed body index l = [] <-> Forall P l.
Proof.
  intros B. induction l as [|t l IH]; intros index; simpl.
  - split; [constructor | reflexivity].
  - split.
    + intros E. apply app_eq_nil in E. destruct E as [E1 E2].
      constructor; [apply (B index), E1 | apply (IH (S index)), E2].
    + intros F. inversion F as [|? ? Hd Tl]; subst.
      apply (B index) in Hd. apply (IH (S index)) in Tl.
      rewrite Hd, Tl. reflexivity.
Qed.

Lemma checkFields_nil (index : nat) (t : Transaction) :
  checkFields index t = [] <->
  t_id t <> [] /\ t_date t <> []
  /\ (t_type t = CONSTANTS.INCOME \/ t_type t = CONSTANTS.EXPENSE)
  /\ t_category t <> [] /\ 0 < t_amount t.
Proof.
  unfold checkFields, knownType.
  destruct (str_eqb (t_id t) []) eqn:I;
    destruct (str_eqb (t_date t) []) eqn:D;
    destruct (str_eqb (t_type t) CONSTANTS.INCOME) eqn:T1;
    destruct (str_eqb (t_type t) CONSTANTS.EXPENSE) eqn:T2;
    destruct (str_eqb (t_category t) []) eqn:C;
    destruct (t_amount t <=? 0) eqn:A;
    cbn [orb app];
    rewrite ?str_eqb_eq, ?str_eqb_neq in *;
    rewrite ?Z.leb_le, ?Z.leb_gt in *;
    (split; [try discriminate; intros _ | try reflexivity; intros (? & ? & ? & ? & ?)]);
    try (repeat split; (assumption || (left; assumption) || (right; assumption)));
    try (exfalso; (congruence || lia || tauto)).
Qed.

Lemma checkCategory_nil (allCategories : list jsstring) (index : nat)
    (t : Transaction) :
  checkCategory allCategories index t = [] <-> In (t_category t) allCategories.
Proof.
  unfold checkCategory.
  destruct (includes allCategories (t_category t)) eqn:I.
  - apply includes_In in I. tauto.
  - split; [discriminate|]. intros J. apply includes_In in J. congruence.
Qed.

(** X19. [validateDataIntegrity] reports a valid ledger exactly when no
    two transactions have the same id and every transaction has an id, a
    date, one of the two types, a category that is in the registry and
    an amount above zero.  It counts as many unique ids as there are
    transactions exactly when no id occurs twice, and never more, and it
    lists a duplicate id exactly when there is one. *)
Theorem validateDataIntegrity_verdict (s : HouseholdBudgetData) :
  let report := validateDataIntegrity s in
  (i_isValid report = true <->
   List.NoDup (map t_id (transactions s))
   /\ Forall (sound (categories s)) (transactions s))
  /\ (i_isValid report = true <-> i_issues report = [])
  /\ (i_uniqueIds report <= i_totalTransactions report)%nat
  /\ (i_uniqueIds report = i_totalTransactions report <->
      List.NoDup (map t_id (transactions s)))
  /\ (i_duplicateIds report = [] <-> List.NoDup (map t_id (transactions s)))
  /\ i_totalTransactions report = length (transactions s).
Proof.
  cbv zeta. unfold validateDataIntegrity.
  destruct (checkIds_spec (transactions s) [] [] [])
    as (extra & E & Empty & Count & Dup).
  destruct (checkIds (transactions s) [] [] []) as [[seenIds duplicateIds] issues].
  cbn [fst snd app length] in *. subst issues.
  cbn [i_isValid i_issues i_uniqueIds i_totalTransactions i_duplicateIds].
  assert (extra = [] <-> List.NoDup (map t_id (transactions s))) as Ids.
  { rewrite Empty. split; [tauto|]. intros N. split; [exact N|].
    apply List.Forall_forall. intros id _ []. }
  assert (forEachIndexed checkFields 0 (transactions s) = [] /\
          forEachIndexed
            (checkCategory (income (categories s) ++ expense (categories s)))
            0 (transactions s) = []
          <-> Forall (sound (categories s)) (transactions s)) as Rows.
  { rewrite (forEachIndexed_nil checkFields _ checkFields_nil).
    rewrite (forEachIndexed_nil _ _
               (checkCategory_nil
                  (income (categories s) ++ expense (categories s)))).
    rewrite <- Forall_and. apply Forall_iff. intros t. unfold sound. tauto. }
  assert ((length ((extra ++ forEachIndexed checkFields 0 (transactions s))
                   ++ forEachIndexed
                        (checkCategory
                           (income (categories s) ++ expense (categories s)))
                        0 (transactions s)) =? 0)%nat = true
          <-> (extra ++ forEachIndexed checkFields 0 (transactions s))
              ++ forEachIndexed
                   (checkCategory
                      (income (categories s) ++ expense (categories s)))
                   0 (transactions s) = []) as Verdict.
  { rewrite Nat.eqb_eq. split.
    - apply length_zero_iff_nil.
    - intros ->. reflexivity. }
  split.
  { rewrite Verdict, <- Ids, <- Rows. split.
    - intros A. apply app_eq_nil in A. destruct A as [A C].
      apply app_eq_nil in A. tauto.
    - intros (-> & -> & ->). reflexivity. }
  split; [exact Verdict|].
  split; [lia|].
  split.
  { rewrite <- Ids. split.
    - intros U. apply length_zero_iff_nil. lia.
    - intros ->. simpl in Count. lia. }
  split; [|reflexivity].
  rewrite <- Ids. rewrite Dup. tauto.
Qed.

End IntegrityCheck.


(** ** The statistics *)

Section Statistics.
Import Regex Sanitizer Ledger Notions Shapes LedgerNotions LedgerFacts.
Context `{Host}.

Lemma sessions_wellFormed (calls : list Call) :
  Forall (fun c => loads c = false) calls ->
  forall s, Forall wellFormed (transactions s) ->
            Forall wellFormed (transactions (session calls s)).
Proof.
  induction 1 as [|c calls Lc L IH]; intros s W; simpl; [exact W|].
  apply IH, perform_wellFormed; assumption.
Qed.

(** X20. In a ledger without a database that has been used from its
    creation, after any calls in which localStorage let [clearAllData]
    remove the saved item, [stats.totalTransactions] is the number of
    the stored transactions.  If no call has taken transactions over
    from a saved file and the ledger is not empty, all stored dates are
    dates, and [stats.oldestTransaction] and [stats.newestTransaction]
    are the earliest and the latest of them.  A [clearAllData] that
    localStorage stops ends this: the ledger is empty then and the
    count is still the number of the transactions it held. *)
Theorem session_stats (calls : list Call) :
  Forall (fun c => storageFails c = false) calls ->
  let s := session calls constructor in
  totalTransactions (stats s) = length (transactions s)
  /\ (Forall (fun c => loads c = false) calls ->
      transactions s <> [] ->
      exists dates,
        parseAll (map t_date (transactions s)) = Some dates
        /\ oldestTransaction (stats s) = Some (Math_min dates)
        /\ newestTransaction (stats s) = Some (Math_max dates))
  /\ (let s' := perform (ClearAllData false) s in
      transactions s' = []
      /\ totalTransactions (stats s') = length (transactions s)).
Proof.
  intros Storage. cbv zeta.
  destruct (session_synced calls Storage constructor synced_constructor)
    as [Count Dates].
  split; [exact Count|]. split.
  - intros L N.
    destruct (wellFormed_dated (transactions (session calls constructor)))
      as (dates & P).
    { apply sessions_wellFormed; [exact L | constructor]. }
    exists dates. split; [exact P|]. apply Dates; assumption.
  - cbn [perform]. unfold after. rewrite clearAllData_refused. cbn [snd].
    split; [reflexivity|]. exact Count.
Qed.

End Statistics.

Section StatisticsExample.
Import Regex Sanitizer Ledger Notions Shapes LedgerNotions LedgerFacts.
#[local] Existing Instance SampleHost.host.

(** A salary and a lunch are added, the ledger is cleared, a rent is
    added. *)
Lemma session_stats_witness :
  let calls := [AddTransaction Sample.salary; AddTransaction Sample.lunch;
                ClearAllData true; AddTransaction Sample.rent] in
  let s := session calls constructor in
  totalTransactions (stats s) = length (transactions s)
  /\ (Forall (fun c => loads c = false) calls ->
      transactions s <> [] ->
      exists dates,
        parseAll (map t_date (transactions s)) = Some dates
        /\ oldestTransaction (stats s) = Some (Math_min dates)
        /\ newestTransaction (stats s) = Some (Math_max dates))
  /\ (let s' := perform (ClearAllData false) s in
      transactions s' = []
      /\ totalTransactions (stats s') = length (transactions s)).
Proof.
  intros calls. apply (session_stats calls).
  repeat (apply List.Forall_cons; [reflexivity|]). apply List.Forall_nil.
Defined.

End StatisticsExample.


(** * The event emitter: the registry *)

Section Registered.
Import EventEmitter EmitterNotions.

Lemma listeners_default (event : string) (events : registry) :
  default [] (events !! event) = listeners event events.
Proof. unfold listeners. destruct (events !! event); reflexivity. Qed.

Lemma listenerCount_length (event : string) (events : registry) :
  listenerCount event events = length (listeners event events).
Proof.
  unfold listenerCount, listeners. destruct (events !! event); reflexivity.
Qed.

Lemma listeners_on (event : string) (l : nat) (events : registry) :
  listeners event (on event l events) = listeners event events ++ [l].
Proof.
  unfold on. rewrite listeners_default. unfold listeners at 1.
  rewrite lookup_insert_eq. reflexivity.
Qed.

Lemma listeners_on_other (event other : string) (l : nat) (events : registry) :
  event <> other ->
  listeners other (on event l events) = listeners other events.
Proof.
  intros N. unfold on, listeners. rewrite lookup_insert_ne by exact N.
  reflexivity.
Qed.

Lemma listeners_off (event : string) (l : nat) (events : registry) :
  listeners event (off event l events)
  = removeFirst l (listeners event events).
Proof.
  unfold off, listeners. destruct (events !! event) as [ls|] eqn:E.
  - destruct (removeFirst l ls) as [|x rest] eqn:R.
    + rewrite lookup_delete_eq. reflexivity.
    + rewrite lookup_insert_eq. reflexivity.
  - rewrite E. reflexivity.
Qed.

Lemma listeners_off_other (event other : string) (l : nat) (events : registry) :
  event <> other ->
  listeners other (off event l events) = listeners other events.
Proof.
  intros N. unfold off, listeners. destruct (events !! event) as [ls|] eqn:E.
  - destruct (removeFirst l ls) as [|x rest] eqn:R.
    + rewrite lookup_delete_ne by exact N. reflexivity.
    + rewrite lookup_insert_ne by exact N. reflexivity.
  - reflexivity.
Qed.

Lemma removeFirst_absent (l : nat) (ls : list nat) :
  ~ In l ls -> removeFirst l ls = ls.
Proof.
  induction ls as [|x ls IH]; intros N; simpl; [reflexivity|].
  destruct (Nat.eqb_spec x l) as [-> | D].
  - exfalso. apply N. left. reflexivity.
  - rewrite IH; [reflexivity|]. intros I. apply N. right. exact I.
Qed.

Lemma removeFirst_last (l : nat) (ls : list nat) :
  ~ In l ls -> removeFirst l (ls ++ [l]) = ls.
Proof.
  induction ls as [|x ls IH]; intros N; simpl.
  - rewrite Nat.eqb_refl. reflexivity.
  - destruct (Nat.eqb_spec x l) as [-> | D].
    + exfalso. apply N. left. reflexivity.
    + rewrite IH; [reflexivity|]. intros I. apply N. right. exact I.
Qed.

Lemma removeFirst_length (l : nat) (ls : list nat) :
  In l ls -> length (removeFirst l ls) = pred (length ls).
Proof.
  induction ls as [|x ls IH]; simpl; [intros []|].
  destruct (Nat.eqb_spec x l) as [-> | D]; [reflexivity|].
  intros [E | I]; [contradiction|]. simpl. rewrite (IH I).
  destruct ls; [destruct I | reflexivity].
Qed.

(** X21. Unsubscribing a listener right after it has been subscribed
    leaves every event with the listeners it had, provided the listener
    was not subscribed to the event before; and the registry itself is
    as it was when no event had been left with an empty array.  (A
    listener that was subscribed before loses its first place
    instead.) *)
Theorem off_after_on (event : string) (l : nat) (events : registry) :
  ~ In l (listeners event events) ->
  (forall e, listeners e (off event l (on event l events)) = listeners e events)
  /\ (tidy events -> off event l (on event l events) = events).
Proof.
  intros Fresh. split.
  - intros e. destruct (decide (event = e)) as [<- | N].
    + rewrite listeners_off, listeners_on. apply removeFirst_last, Fresh.
    + rewrite listeners_off_other, listeners_on_other by exact N. reflexivity.
  - intros T. unfold off, on. rewrite lookup_insert_eq.
    rewrite listeners_default, (removeFirst_last _ _ Fresh).
    unfold listeners in *. destruct (events !! event) as [ls|] eqn:E.
    + destruct ls as [|x rest]; [exfalso; apply (T event [] E); reflexivity|].
      rewrite insert_insert_eq. apply insert_id, E.
    + apply delete_insert_id, E.
Qed.

(** X22. [on] adds one listener to the event, also when that listener is
    subscribed already; [off] takes one away when the listener is
    subscribed to the event, and nothing otherwise.  The listeners of
    the other events stay as they are. *)
Theorem listenerCount_on_off (event : string) (l : nat) (events : registry) :
  listenerCount event (on event l events) = S (listenerCount event events)
  /\ (In l (listeners event events) ->
      listenerCount event (off event l events)
      = pred (listenerCount event events))
  /\ (~ In l (listeners event events) ->
      listeners event (off event l events) = listeners event events)
  /\ (forall other,
        event <> other ->
        listeners other (on event l events) = listeners other events
        /\ listeners other (off event l events) = listeners other events).
Proof.
  rewrite !listenerCount_length, listeners_on, listeners_off, length_app.
  split; [simpl; lia|].
  split; [apply removeFirst_length|].
  split; [apply removeFirst_absent|].
  intros other N.
  split; [apply listeners_on_other | apply listeners_off_other]; exact N.
Qed.

End Registered.


(** ** Emitting *)

Section Dispatching.
Import EventEmitter EmitterNotions.

Lemma tidy_on (event : string) (l : nat) (events : registry) :
  tidy events -> tidy (on event l events).
Proof.
  intros T e ls. unfold on. destruct (decide (event = e)) as [<- | N].
  - rewrite lookup_insert_eq. intros E. inversion E.
    intros A. apply app_eq_nil in A. destruct A; discriminate.
  - rewrite lookup_insert_ne by exact N. apply T.
Qed.

Lemma tidy_off (event : string) (l : nat) (events : registry) :
  tidy events -> tidy (off event l events).
Proof.
  intros T e ls. unfold off. destruct (events !! event) as [old|] eqn:E;
    [|apply T].
  destruct (removeFirst l old) as [|x rest] eqn:R.
  - destruct (decide (event = e)) as [<- | N].
    + rewrite lookup_delete_eq. discriminate.
    + rewrite lookup_delete_ne by exact N. apply T.
  - destruct (decide (event = e)) as [<- | N].
    + rewrite lookup_insert_eq. intros A. inversion A. discriminate.
    + rewrite lookup_insert_ne by exact N. apply T.
Qed.

Lemma tidy_removeAllListeners (event : option string) (events : registry) :
  tidy events -> tidy (removeAllListeners event events).
Proof.
  intros T e ls. unfold removeAllListeners.
  assert (forall ls, (∅ : registry) !! e = Some ls -> ls <> []) as Empty.
  { intros ls'. rewrite lookup_empty. discriminate. }
  destruct event as [name|]; [|apply Empty].
  destruct (String.eqb name EmptyString); [apply Empty|].
  destruct (decide (name = e)) as [<- | N].
  - rewrite lookup_delete_eq. discriminate.
  - rewrite lookup_delete_ne by exact N. apply T.
Qed.

Lemma tidy_acts (acts : list action) :
  forall events, tidy events -> tidy (fold_left perform acts events).
Proof.
  induction acts as [|a acts IH]; intros events T; simpl; [exact T|].
  apply IH. destruct a; [apply tidy_on | apply tidy_off]; exact T.
Qed.

(** A dispatch ends with true or with the overflow of a nested
    [emit]. *)
Lemma dispatch_tidy (beh : behaviour)
    (emit' : string -> list value -> registry -> result)
    (event : string) (args : list value) (listeners : list nat) :
  (forall ev a events, tidy events -> tidy (snd (fst (emit' ev a events)))) ->
  forall events log,
    tidy events ->
    tidy (snd (fst (dispatch beh emit' event args listeners events log)))
    /\ (forall b,
          fst (fst (dispatch beh emit' event args listeners events log))
          = Done b -> b = true).
Proof.
  intros Sub. induction listeners as [|l rest IH]; intros events log T.
  - simpl. split; [exact T|]. intros b E. inversion E. reflexivity.
  - rewrite dispatch_cons. cbv zeta.
    pose proof (tidy_acts (acts (beh l event args)) events T) as T1.
    destruct (thrown (beh l event args)) as [error|]; [|apply IH, T1].
    pose proof (Sub "error"%string [error; Name event] _ T1) as T2.
    destruct (emit' "error"%string [error; Name event] _)
      as [[[b|] events2] sub]; cbn [fst snd] in *.
    + apply IH, T2.
    + split; [exact T2 | discriminate].
Qed.

Lemma emit_tidy (beh : behaviour) (depth : nat) :
  forall event args events,
    tidy events -> tidy (snd (fst (emit beh depth event args events))).
Proof.
  induction depth as [|depth IH]; intros event args events T; simpl;
    [exact T|].
  destruct (events !! event) as [listeners|]; [|exact T].
  apply dispatch_tidy; assumption.
Qed.

(** X23. No call leaves an event with an empty array of listeners: what
    [on], [off], [removeAllListeners] and [emit] -- whatever the
    listeners do -- make of a registry without such an event is again
    one.  In such a registry [emit], when it returns, returns whether
    the event had a listener. *)
Theorem emit_returns_whether_heard (beh : behaviour) (depth : nat)
    (event : string) (args : list value) (events : registry) :
  tidy events ->
  (forall e l, tidy (on e l events) /\ tidy (off e l events))
  /\ (forall e, tidy (removeAllListeners e events))
  /\ tidy (snd (fst (emit beh depth event args events)))
  /\ (forall b,
        fst (fst (emit beh depth event args events)) = Done b ->
        b = (0 <? listenerCount event events)%nat).
Proof.
  intros T.
  split; [intros e l; split; [apply tidy_on | apply tidy_off]; exact T|].
  split; [intros e; apply tidy_removeAllListeners, T|].
  split; [apply emit_tidy, T|].
  destruct depth as [|depth]; [discriminate|].
  rewrite emit_S. unfold listenerCount.
  destruct (events !! event) as [listeners|] eqn:E.
  - intros b D.
    destruct (dispatch_tidy beh (emit beh depth) event args listeners
                (emit_tidy beh depth) events [Emitted event args] T)
      as [_ Heard]. rewrite (Heard b D).
    destruct listeners as [|l rest]; [|reflexivity].
    exfalso. apply (T event [] E). reflexivity.
  - intros b D. inversion D. reflexivity.
Qed.

(** A dispatch in which no listener throws: the listeners act one after
    the other on the registry, and each is called once. *)
Lemma dispatch_peaceful (beh : behaviour) emit' (event : string)
    (args : list value) (listeners : list nat) :
  peaceful beh ->
  forall events log,
    dispatch beh emit' event args listeners events log =
    (Done true,
     fold_left (fun events l => fold_left perform (acts (beh l event args)) events)
               listeners events,
     log ++ map (fun l => Called event l args) listeners).
Proof.
  intros P. induction listeners as [|l rest IH]; intros events log.
  - simpl. rewrite app_nil_r. reflexivity.
  - rewrite dispatch_cons. cbv zeta. rewrite P, IH.
    cbn [fold_left map]. rewrite <- app_assoc. reflexivity.
Qed.

Lemma count_removeFirst (l x : nat) (ls : list nat) :
  (count_occ Nat.eq_dec (removeFirst x ls) l <= count_occ Nat.eq_dec ls l)%nat.
Proof.
  induction ls as [|y ls IH]; simpl; [lia|].
  destruct (Nat.eqb_spec y x) as [-> | D].
  - destruct (Nat.eq_dec x l); lia.
  - simpl. destruct (Nat.eq_dec y l); lia.
Qed.

Lemma count_removeFirst_self (l : nat) (ls : list nat) :
  count_occ Nat.eq_dec (removeFirst l ls) l = pred (count_occ Nat.eq_dec ls l).
Proof.
  induction ls as [|y ls IH]; simpl; [reflexivity|].
  destruct (Nat.eqb_spec y l) as [-> | D].
  - destruct (Nat.eq_dec l l); [reflexivity | contradiction].
  - simpl. destruct (Nat.eq_dec y l); [contradiction | exact IH].
Qed.

(** How often [wrapper] is subscribed to [event] does not grow by
    actions that do not subscribe it. *)
Lemma count_perform (event : string) (wrapper : nat) (a : action)
    (events : registry) :
  (forall e, a <> On e wrapper) ->
  (count_occ Nat.eq_dec (listeners event (perform events a)) wrapper
   <= count_occ Nat.eq_dec (listeners event events) wrapper)%nat.
Proof.
  intros N. destruct a as [e l | e l]; simpl.
  - destruct (decide (e = event)) as [-> | D].
    + rewrite listeners_on, count_occ_app. simpl.
      destruct (Nat.eq_dec l wrapper) as [-> | _]; [|lia].
      exfalso. apply (N event). reflexivity.
    + rewrite listeners_on_other by exact D. lia.
  - destruct (decide (e = event)) as [-> | D].
    + rewrite listeners_off. apply count_removeFirst.
    + rewrite listeners_off_other by exact D. lia.
Qed.

Lemma count_acts (event : string) (wrapper : nat) (acts : list action) :
  (forall e, ~ In (On e wrapper) acts) ->
  forall events,
    (count_occ Nat.eq_dec (listeners event (fold_left perform acts events)) wrapper
     <= count_occ Nat.eq_dec (listeners event events) wrapper)%nat.
Proof.
  induction acts as [|a acts IH]; intros N events; simpl; [lia|].
  etransitivity; [apply IH|].
  - intros e I. apply (N e). right. exact I.
  - apply count_perform. intros e ->. apply (N e). left. reflexivity.
Qed.

Lemma count_dispatched (beh : behaviour) (event : string) (wrapper : nat)
    (args : list value) (ls : list nat) :
  unknownTo beh wrapper ->
  forall events,
    (count_occ Nat.eq_dec
       (listeners event
          (fold_left
             (fun events l => fold_left perform (acts (beh l event args)) events)
             ls events)) wrapper
     <= count_occ Nat.eq_dec (listeners event events) wrapper)%nat.
Proof.
  intros U. induction ls as [|l ls IH]; intros events; simpl; [lia|].
  etransitivity; [apply IH|]. apply count_acts. intros e. apply U.
Qed.

Lemma fold_same {A B} (f g : A -> B -> A) (l : list B) :
  (forall a b, In b l -> f a b = g a b) ->
  forall a, fold_left f l a = fold_left g l a.
Proof.
  induction l as [|b l IH]; intros E a; simpl; [reflexivity|].
  rewrite E by (left; reflexivity). apply IH.
  intros a' b' I. apply E. right. exact I.
Qed.

(** X24. A listener subscribed with [once] is called once.  Take
    listeners that do not throw, and a wrapper -- the function that
    [once] makes -- which is new: not subscribed to the event and not
    subscribed by any listener.  Then an [emit] of the event calls the
    wrapper exactly once, after the listeners subscribed before it, and
    leaves it unsubscribed, and an [emit] of the event in the registry
    that is left does not call it. *)
Theorem once_fires_once (beh : behaviour) (depth : nat) (event : string)
    (wrapper listener : nat) (args : list value) (events : registry) :
  peaceful beh ->
  unknownTo beh wrapper ->
  ~ In wrapper (listeners event events) ->
  let beh' := onceWrapper beh event wrapper listener in
  exists events' log,
    emit beh' (S depth) event args (once event wrapper events)
    = (Done true, events', log)
    /\ calledFor event log = listeners event events ++ [wrapper]
    /\ ~ In wrapper (listeners event events')
    /\ forall depth' args',
         ~ In wrapper
             (calledFor event
                (snd (emit beh' depth' event args' events'))).
Proof.
  intros P U Fresh beh'.
  assert (peaceful beh') as P'.
  { intros l ev a. unfold beh', onceWrapper.
    destruct (l =? wrapper)%nat; apply P. }
  assert (forall ev a events0 ls,
            ~ In wrapper ls ->
            fold_left (fun events l => fold_left perform (acts (beh' l ev a)) events)
                      ls events0
            = fold_left (fun events l => fold_left perform (acts (beh l ev a)) events)
                        ls events0) as Others.
  { intros ev a events0 ls N. apply fold_same. intros r l I.
    unfold beh', onceWrapper.
    destruct (Nat.eqb_spec l wrapper) as [-> | _]; [contradiction | reflexivity]. }
  unfold once. rewrite emit_S.
  assert (on event wrapper events !! event
          = Some (listeners event events ++ [wrapper])) as Snapshot.
  { unfold on. rewrite lookup_insert_eq, listeners_default. reflexivity. }
  rewrite Snapshot, (dispatch_peaceful beh' _ event args _ P').
  eexists _, _. split; [reflexivity|].
  split.
  { rewrite EmitFacts.calledFor_app, EmitFacts.calledFor_calls.
    reflexivity. }
  assert (count_occ Nat.eq_dec
            (listeners event
               (fold_left
                  (fun events l =>
                     fold_left perform (acts (beh' l event args)) events)
                  (listeners event events ++ [wrapper])
                  (on event wrapper events))) wrapper = 0)%nat as Gone.
  { rewrite fold_left_app. cbn [fold_left].
    rewrite (Others _ _ _ _ Fresh).
    unfold beh' at 1, onceWrapper. rewrite Nat.eqb_refl. cbn [acts fold_left perform].
    set (before := fold_left _ (listeners event events) _).
    assert (count_occ Nat.eq_dec (listeners event before) wrapper <= 1)%nat
      as Before.
    { etransitivity; [apply count_dispatched, U|].
      rewrite listeners_on, count_occ_app. simpl.
      apply (count_occ_not_In Nat.eq_dec) in Fresh. rewrite Fresh.
      destruct (Nat.eq_dec wrapper wrapper); lia. }
    pose proof (count_acts event wrapper (acts (beh listener event args))
                  (fun e => U listener event args e)
                  (off event wrapper before)) as After.
    rewrite listeners_off, count_removeFirst_self in After. lia. }
  split; [apply (count_occ_not_In Nat.eq_dec), Gone|].
  intros depth' args'. destruct depth' as [|depth']; [intros []|].
  rewrite emit_S.
  set (events' := fold_left _ (listeners event events ++ [wrapper]) _) in *.
  destruct (events' !! event) as [ls|] eqn:E.
  - rewrite (dispatch_peaceful beh' _ event args' _ P'). cbn [snd].
    rewrite EmitFacts.calledFor_app, EmitFacts.calledFor_calls. simpl.
    apply (count_occ_not_In Nat.eq_dec). unfold listeners in Gone.
    rewrite E in Gone. exact Gone.
  - simpl. tauto.
Qed.

(** X25. After [removeAllListeners] for an event with a name that is not
    empty, an [emit] of the event returns false and calls nobody, and
    the other events keep their listeners.  Without an event, or for the
    empty name, no event has a listener left. *)
Theorem removeAllListeners_silences (beh : behaviour) (depth : nat)
    (event : string) (args : list value) (events : registry) :
  let events' := removeAllListeners (Some event) events in
  emit beh (S depth) event args events' = (Done false, events', [Emitted event args])
  /\ (event <> EmptyString ->
      forall other, other <> event ->
                    listeners other events' = listeners other events)
  /\ (forall other,
        listeners other (removeAllListeners None events) = []
        /\ listeners other (removeAllListeners (Some EmptyString) events) = []).
Proof.
  cbv zeta. unfold removeAllListeners, listeners.
  split; [|split].
  - rewrite emit_S. destruct (String.eqb event EmptyString).
    + rewrite lookup_empty. reflexivity.
    + rewrite lookup_delete_eq. reflexivity.
  - intros N other D. destruct (String.eqb_spec event EmptyString) as [E|_];
      [contradiction|].
    rewrite lookup_delete_ne by congruence. reflexivity.
  - intros other. simpl. rewrite lookup_empty. split; reflexivity.
Qed.

End Dispatching.


(** * The sanitizer: what it lets through *)

Section Plain.
Import Regex Sanitizer Shapes.

Lemma plain_suffix (s s' : jsstring) : s' `suffix_of` s -> plain s -> plain s'.
Proof.
  intros [front ->] P. apply Forall_app in P. apply P.
Qed.

(** A pattern that demands a unit which the string does not have finds
    no match in it. *)
Lemma demands_no_match (q : N -> bool) (r : regex) :
  demands q r ->
  forall R prev s (k : option N -> jsstring -> option R),
    Forall (fun c => q c = false) s -> rmatch r prev s k = None.
Proof.
  induction r as [|p|a IHa b IHb|a IHa|a IHa|]; simpl; try tauto.
  - intros D R prev [|c s] k F; [reflexivity|].
    destruct (p c) eqn:E; [|reflexivity].
    inversion F; subst. apply D in E. congruence.
  - intros [D | D] R prev s k F.
    + apply IHa; assumption.
    + destruct (rmatch a prev s _) as [x|] eqn:M; [|reflexivity].
      apply rmatch_suffix in M. destruct M as (p' & s' & [front ->] & M).
      rewrite IHb in M; [discriminate | exact D|].
      apply Forall_app in F. apply F.
Qed.

Lemma remove_from_same (q : N -> bool) (r : regex) (fuel : nat) :
  demands q r ->
  forall prev s,
    Forall (fun c => q c = false) s -> remove_from r fuel prev s = s.
Proof.
  intros D. induction fuel as [|fuel IH]; intros prev s F; [reflexivity|].
  cbn [remove_from]. rewrite (demands_no_match q r D) by exact F.
  destruct s as [|c rest]; [reflexivity|].
  inversion F; subst. rewrite IH by assumption. reflexivity.
Qed.

Lemma removeAll_plain (r : regex) (s : jsstring) :
  demands markupUnit r -> plain s -> removeAll r s = s.
Proof. intros D P. apply (remove_from_same markupUnit); assumption. Qed.

Lemma ci_markup (p c : N) :
  markupUnit p = true -> Chars.ci p c = true -> markupUnit c = true.
Proof.
  unfold markupUnit at 1. rewrite !orb_true_iff, !N.eqb_eq.
  intros [[-> | ->] | ->]; unfold Chars.ci;
    (destruct (N.eqb_spec c 60) as [-> | _]; [reflexivity|]);
    (destruct (N.eqb_spec c 58) as [-> | _]; [reflexivity|]);
    (destruct (N.eqb_spec c 61) as [-> | _]; [reflexivity|]);
    cbn; rewrite ?andb_false_r; discriminate.
Qed.

Lemma demands_pairedTag (name : string) :
  demands markupUnit (pairedTag name).
Proof.
  unfold pairedTag. cbv zeta. cbn [seqs]. left.
  unfold lit_i, js.
  change (list_ascii_of_string ("<" ++ name))
    with ("<"%char :: list_ascii_of_string name).
  cbn [map].
  match goal with
  | |- demands _ (seqs (_ :: ?l)) => destruct l as [|r rest]
  end; cbn [seqs demands]; [|left]; intros c; apply ci_markup; reflexivity.
Qed.

Lemma demands_linkTag : demands markupUnit linkTag.
Proof.
  unfold linkTag. cbn. left. left. intros c. apply ci_markup. reflexivity.
Qed.

Lemma demands_javascriptScheme : demands markupUnit javascriptScheme.
Proof.
  unfold javascriptScheme, lit_i, js.
  cbn [list_ascii_of_string map seqs demands].
  do 10 right. intros c. apply ci_markup. reflexivity.
Qed.

Lemma demands_eventAttribute : demands markupUnit eventAttribute.
Proof.
  unfold eventAttribute. cbn [seqs demands]. do 3 right.
  intros c E. unfold one in E. cbn in E. apply N.eqb_eq in E. subst c.
  reflexivity.
Qed.

Lemma demands_anyTag : demands markupUnit anyTag.
Proof.
  unfold anyTag. cbn [seqs demands]. left.
  intros c E. unfold one in E. cbn in E. apply N.eqb_eq in E. subst c.
  reflexivity.
Qed.

Lemma stripHTML_plain (s : jsstring) : plain s -> stripHTML s = s.
Proof.
  intros P. unfold stripHTML.
  rewrite (removeAll_plain (pairedTag "script")) by (apply demands_pairedTag || exact P).
  rewrite (removeAll_plain (pairedTag "iframe")) by (apply demands_pairedTag || exact P).
  rewrite (removeAll_plain (pairedTag "object")) by (apply demands_pairedTag || exact P).
  rewrite (removeAll_plain (pairedTag "embed")) by (apply demands_pairedTag || exact P).
  rewrite (removeAll_plain linkTag) by (apply demands_linkTag || exact P).
  rewrite (removeAll_plain (pairedTag "style")) by (apply demands_pairedTag || exact P).
  rewrite (removeAll_plain javascriptScheme)
    by (apply demands_javascriptScheme || exact P).
  rewrite (removeAll_plain eventAttribute)
    by (apply demands_eventAttribute || exact P).
  apply removeAll_plain; [apply demands_anyTag | exact P].
Qed.

(** X26. [sanitizeHTML] returns a string that has no opening angle
    bracket, no colon and no equals sign as it is: none of its patterns
    matches without one of the three.  So all that
    [sanitizeDescription] does to such a text is to cut it to 200 units
    and then to take the white space off its ends. *)
Theorem sanitizeHTML_plain (s : jsstring) :
  plain s ->
  sanitizeHTML (VStr s) = s
  /\ sanitizeDescription (VStr s)
     = trim (if (CONSTANTS.MAX_DESCRIPTION_LENGTH <? length s)%nat
             then substring0 CONSTANTS.MAX_DESCRIPTION_LENGTH s
             else s).
Proof.
  intros P. split; [apply stripHTML_plain, P|].
  unfold sanitizeDescription. destruct s as [|c rest]; [reflexivity|].
  change (truthy (VStr (c :: rest))) with true. cbn [negb]. cbv zeta.
  unfold sanitizeHTML. rewrite stripHTML_plain by exact P. reflexivity.
Qed.

Lemma trim_of_trimmed (s : jsstring) : trimmed s -> trim s = s.
Proof.
  intros [First Last]. unfold trim.
  assert (forall x : jsstring,
            match head x with
            | Some c => Chars.is_space c = false
            | None => True
            end -> trimStart x = x) as Start.
  { intros [|c x]; simpl; [reflexivity|]. intros ->. reflexivity. }
  rewrite (Start s First). rewrite Start; [apply rev_involutive|].
  destruct s as [|c rest] using rev_ind; [exact Logic.I|].
  rewrite rev_app_distr. simpl. rewrite last_snoc in Last. exact Last.
Qed.

Lemma categoryChar_plain (s : jsstring) :
  Forall (fun c => categoryChar c = true) s -> plain s.
Proof.
  apply List.Forall_impl. intros c E. unfold markupUnit.
  destruct (N.eqb_spec c 60) as [-> | _]; [discriminate|].
  destruct (N.eqb_spec c 58) as [-> | _]; [discriminate|].
  destruct (N.eqb_spec c 61) as [-> | _]; [discriminate|].
  reflexivity.
Qed.

Lemma filter_all {A} (p : A -> bool) (l : list A) :
  Forall (fun x => p x = true) l -> List.filter p l = l.
Proof.
  induction 1 as [|x l E F IH]; simpl; [reflexivity|].
  rewrite E, IH. reflexivity.
Qed.

Lemma sanitizeCategory_trimmed (category : jsval) :
  trimmed (sanitizeCategory category).
Proof.
  unfold sanitizeCategory. destruct (negb (truthy category)).
  - split; exact Logic.I.
  - cbv zeta. apply trim_trimmed.
Qed.

(** A name that [sanitizeCategory] could have returned is returned as it
    is. *)
Lemma sanitizeCategory_keeps (name : jsstring) :
  Forall (fun c => categoryChar c = true) name ->
  (length name <= 50)%nat ->
  trimmed name ->
  sanitizeCategory (VStr name) = name.
Proof.
  intros Allowed Short Trimmed. unfold sanitizeCategory.
  destruct name as [|c rest]; [reflexivity|].
  change (truthy (VStr (c :: rest))) with true. cbn [negb]. cbv zeta.
  unfold sanitizeHTML. rewrite stripHTML_plain by apply categoryChar_plain, Allowed.
  rewrite filter_all by exact Allowed.
  apply Nat.ltb_ge in Short. rewrite Short.
  apply trim_of_trimmed, Trimmed.
Qed.

End Plain.

Section Again.
Import Regex Sanitizer Shapes LedgerNotions.
Context `{Host}.

Lemma isoDate_plain (s : jsstring) : isoDate s -> plain s.
Proof.
  intros (y1 & y2 & y3 & y4 & m1 & m2 & d1 & d2 & -> & Digits).
  assert (forall c, Chars.is_digit c = true -> markupUnit c = false) as Digit.
  { intros c E. unfold markupUnit.
    destruct (N.eqb_spec c 60) as [-> | _]; [discriminate|].
    destruct (N.eqb_spec c 58) as [-> | _]; [discriminate|].
    destruct (N.eqb_spec c 61) as [-> | _]; [discriminate|].
    reflexivity. }
  repeat match goal with
         | F : Forall _ (_ :: _) |- _ => inversion F; subst; clear F
         end.
  repeat constructor; auto.
Qed.

(** A date that [sanitizeDate] could have returned is returned as it
    is. *)
Lemma sanitizeDate_keeps (date : jsstring) (d : Z) :
  isoDate date ->
  Date_parse date = Some d ->
  CONSTANTS.MIN_YEAR <= Date_getFullYear d <= CONSTANTS.MAX_YEAR ->
  sanitizeDate (VStr date) = date.
Proof.
  intros Iso Parse Year. unfold sanitizeDate.
  assert (sanitizeHTML (VStr date) = date) as Same
    by apply stripHTML_plain, isoDate_plain, Iso.
  rewrite (isoDate_truthy (VStr date)) by (rewrite Same; exact Iso).
  cbn [negb]. cbv zeta. rewrite Same.
  apply dateRegex_isoDate in Iso. rewrite Iso. cbn [negb].
  rewrite Parse.
  destruct (Z.ltb_spec (Date_getFullYear d) CONSTANTS.MIN_YEAR); [lia|].
  destruct (Z.ltb_spec CONSTANTS.MAX_YEAR (Date_getFullYear d)); [lia|].
  reflexivity.
Qed.

(** X27. [sanitizeDate] accepts a date of the form YYYY-MM-DD that the
    host reads as a date of the years 1900 to 2100, and returns it as it
    is.  So sanitizing what it has returned changes nothing. *)
Theorem sanitizeDate_again (dateString : jsval) :
  (forall date d,
     isoDate date ->
     Date_parse date = Some d ->
     CONSTANTS.MIN_YEAR <= Date_getFullYear d <= CONSTANTS.MAX_YEAR ->
     sanitizeDate (VStr date) = date)
  /\ sanitizeDate (VStr (sanitizeDate dateString)) = sanitizeDate dateString.
Proof.
  split; [apply sanitizeDate_keeps|].
  destruct (sanitizeDate dateString) as [|c rest] eqn:E; [reflexivity|].
  assert (sanitizeDate dateString <> []) as N by (rewrite E; discriminate).
  apply sanitizeDate_valid in N. rewrite E in N.
  destruct N as (Iso & d & Parse & Year).
  apply (sanitizeDate_keeps _ d); assumption.
Qed.

(** X28. [sanitizeCategory] returns a name of at most 50 permitted units
    without white space at its ends as it is.  So sanitizing what it has
    returned changes nothing. *)
Theorem sanitizeCategory_again (category : jsval) :
  (forall name,
     Forall (fun c => categoryChar c = true) name ->
     (length name <= 50)%nat ->
     trimmed name ->
     sanitizeCategory (VStr name) = name)
  /\ sanitizeCategory (VStr (sanitizeCategory category))
     = sanitizeCategory category.
Proof.
  split; [apply sanitizeCategory_keeps|].
  destruct (sanitizeCategory_allowed category) as [Short Allowed].
  apply sanitizeCategory_keeps;
    [exact Allowed | exact Short | apply sanitizeCategory_trimmed].
Qed.

End Again.


(** ** Updating a part of a record *)

Section Kept.
Import Regex Sanitizer Ledger Notions Shapes LedgerNotions LedgerFacts.
Context `{Host}.

(** What the validation makes of the fields of a validated record. *)
Lemma wellFormed_again (current : Transaction) :
  wellFormed current ->
  trimmed (t_category current) ->
  sanitizeDate (VStr (t_date current)) = t_date current
  /\ knownType (VStr (t_type current)) = Some (t_type current)
  /\ sanitizeCategory (VStr (t_category current)) = t_category current
  /\ numAmount (VNum (Fin (inject_Z (t_amount current)))) <> NaN
  /\ sanitizeAmount (VNum (Fin (inject_Z (t_amount current)))) = t_amount current.
Proof.
  intros (Ty & Cat & Short & Allowed & Limits & Iso & (d & Parse & Year) & _)
         Trimmed.
  split; [apply (sanitizeDate_keeps _ d); assumption|].
  split; [apply knownType_spec; split; [reflexivity | exact Ty]|].
  split; [apply sanitizeCategory_keeps; assumption|].
  split; [discriminate|].
  rewrite (sanitizeAmount_finite _ (inject_Z (t_amount current)))
    by reflexivity.
  rewrite Math_round_whole. unfold withinLimits in Limits. lia.
Qed.

(** X29. An update keeps what it does not patch.  Take a stored record
    that is what the validation lets through, with a category without
    white space at its ends, as the records are that the ledger has
    validated.  An update of it that patches neither date, type,
    category nor amount is valid; and after a valid update every one of
    these four fields that the patch leaves out is as it was. *)
Theorem updateTransaction_keeps (id : jsstring) (u : Patch)
    (s : HouseholdBudgetData) (i : nat) (current : Transaction) :
  transactions s !! i = Some current ->
  t_id current = id ->
  (forall j t, (j < i)%nat -> transactions s !! j = Some t -> t_id t <> id) ->
  wellFormed current ->
  trimmed (t_category current) ->
  let s' := after (updateTransaction id u) s in
  let v := validateAndSanitizeTransaction (merged current u) in
  (p_date u = None -> p_type u = None -> p_category u = None ->
   p_amount u = None -> isValid v = true)
  /\ (isValid v = true ->
      exists new,
        transactions s' !! i = Some new
        /\ (p_date u = None -> t_date new = t_date current)
        /\ (p_type u = None -> t_type new = t_type current)
        /\ (p_category u = None -> t_category new = t_category current)
        /\ (p_amount u = None -> t_amount new = t_amount current)).
Proof.
  intros L Id First W Trimmed. cbv zeta.
  destruct (wellFormed_again current W Trimmed) as (D & T & C & N & A).
  split.
  { intros Pd Pt Pc Pa.
    apply (isValid_intro _ (t_type current)); unfold merged; cbn;
      rewrite ?Pd, ?Pt, ?Pc, ?Pa; cbn.
    - rewrite D. destruct W as (_ & _ & _ & _ & _ & Iso & _).
      apply isoDate_nonempty, Iso.
    - exact T.
    - rewrite C. apply W.
    - exact N. }
  intros V.
  pose proof (updateTransaction_effect id u s) as F. cbv zeta in F.
  assert (findIndex (has_id id) (transactions s) = Some i) as E.
  { apply (findIndex_first _ _ _ current L).
    - apply has_id_true, Id.
    - intros j t Lt Lj. apply has_id_false. eapply First; eauto. }
  rewrite E, L, V in F. destruct F as (Tr & _).
  assert (i < length (transactions s))%nat as B
    by (apply lookup_lt_is_Some; eauto).
  eexists. split.
  { rewrite Tr. apply list_lookup_insert_eq. exact B. }
  destruct (valid_sanitized _ V) as (Sd & _ & St & _ & Sc & _ & Sa & _).
  cbv zeta in Sd, St, Sc, Sa.
  unfold replaced, record. cbn [t_date t_type t_category t_amount].
  rewrite Sd, <- St, Sc, Sa. unfold merged.
  cbn [d_date d_type d_category d_amount].
  split; [intros ->; exact D|].
  split.
  { intros ->.
    change (default [] (knownType (VStr (t_type current))) = t_type current).
    rewrite T. reflexivity. }
  split; [intros ->; exact C|].
  intros ->. exact A.
Qed.

End Kept.


(** ** The integrity of a ledger in use *)

Section Sound.
Import Regex Sanitizer Ledger Notions Shapes LedgerNotions LedgerFacts.
Context `{Host}.

Lemma forEachIndexed_In (body : nat -> Transaction -> list Issue)
    (P : Issue -> Prop) :
  (forall index t issue, In issue (body index t) -> P issue) ->
  forall l index issue, In issue (forEachIndexed body index l) -> P issue.
Proof.
  intros B. induction l as [|t l IH]; intros index issue; simpl; [intros []|].
  rewrite in_app_iff. intros [I | I]; [eapply B | eapply IH]; eassumption.
Qed.

Lemma sessions_idsIssued (calls : list Call) :
  distinctIds ->
  Forall (fun c => loads c = false) calls ->
  forall s, idsIssued s -> idsIssued (session calls s).
Proof.
  intros Distinct. induction 1 as [|c calls Lc L IH]; intros s K; simpl;
    [exact K|].
  apply IH, perform_idsIssued; assumption.
Qed.

(** X30. The ledger's own calls leave nothing for the integrity check
    to find but categories that the registry does not have.  Let the
    host hand out identifiers that are not empty and pairwise distinct.
    In a ledger used from its creation, without transactions taken over
    from a saved file, [validateDataIntegrity] reports no duplicate id,
    counts as many unique ids as transactions, and every issue it
    reports is that of a category which is not in the registry. *)
Theorem validateDataIntegrity_in_use (calls : list Call) :
  distinctIds ->
  (forall k, generateId k <> []) ->
  Forall (fun c => loads c = false) calls ->
  let report := validateDataIntegrity (session calls constructor) in
  i_duplicateIds report = []
  /\ i_uniqueIds report = i_totalTransactions report
  /\ forall issue,
       In issue (i_issues report) ->
       exists row category, issue = CategoryUnknown row category.
Proof.
  intros Distinct Named L. cbv zeta.
  set (s := session calls constructor).
  assert (Forall wellFormed (transactions s)) as W
    by (apply sessions_wellFormed; [exact L | constructor]).
  assert (idsIssued s) as [N Issued]
    by (apply sessions_idsIssued; [exact Distinct | exact L | split; constructor]).
  unfold validateDataIntegrity.
  destruct (checkIds_spec (transactions s) [] [] [])
    as (extra & E & Empty & Count & Dup).
  destruct (checkIds (transactions s) [] [] []) as [[seenIds duplicateIds] issues].
  cbn [fst snd app length] in *. subst issues.
  cbn [i_issues i_uniqueIds i_totalTransactions i_duplicateIds].
  assert (extra = []) as ->.
  { apply Empty. split; [exact N|].
    apply List.Forall_forall. intros id _ []. }
  split; [apply Dup; split; reflexivity|].
  split; [simpl in Count; lia|].
  assert (forEachIndexed checkFields 0 (transactions s) = []) as ->.
  { apply (forEachIndexed_nil checkFields _ checkFields_nil).
    rewrite List.Forall_forall in *. intros t I.
    destruct (W t I) as (Ty & Cat & _ & _ & Limits & Iso & _).
    split.
    { destruct (Issued (t_id t)) as (k & _ & ->);
        [apply in_map, I | apply Named]. }
    split; [apply isoDate_nonempty, Iso|].
    split; [exact Ty|].
    split; [exact Cat|].
    unfold withinLimits, CONSTANTS.MIN_AMOUNT in Limits. lia. }
  cbn [app]. apply forEachIndexed_In.
  intros index t issue. unfold checkCategory.
  destruct (includes _ _); [intros []|]. intros [<- | []]. eauto.
Qed.

End Sound.


(** * Examples on the sample host *)

Section SampleIds.
Import Sanitizer Ledger LedgerNotions.

Lemma js_inj (a b : string) : js a = js b -> a = b.
Proof.
  unfold js. intros E.
  rewrite <- (string_of_list_ascii_of_string a),
          <- (string_of_list_ascii_of_string b).
  f_equal. revert E.
  generalize (list_ascii_of_string a) (list_ascii_of_string b).
  induction l as [|x l IH]; intros [|y l']; simpl; try discriminate;
    [reflexivity|].
  intros E. inversion E as [[Ex El]].
  rewrite <- (ascii_N_embedding x), <- (ascii_N_embedding y), Ex.
  f_equal. apply IH, El.
Qed.

Lemma decimal_inj (m n : Z) : decimal m = decimal n -> m = n.
Proof.
  unfold decimal. intros E. apply js_inj in E.
  apply DecimalZ.to_int_inj.
  assert (forall z, NilZero.int_of_string (NilZero.string_of_int (Z.to_int z))
                    = Some (Z.to_int z)) as Back.
  { intros z. apply NilZero.isi; destruct z; simpl; try discriminate;
      intros A; inversion A as [B];
      apply (DecimalPos.Unsigned.to_uint_nonnil _ B). }
  pose proof (Back m) as Bm. rewrite E, Back in Bm. inversion Bm.
  reflexivity.
Qed.

(** The identifiers of the sample host are numbered. *)
Lemma sample_distinctIds : distinctIds (H := SampleHost.host).
Proof.
  intros m n E. cbn [generateId SampleHost.host] in E.
  apply app_inv_head in E. apply decimal_inj in E. lia.
Qed.

Lemma sample_named (k : nat) : generateId (Host := SampleHost.host) k <> [].
Proof. cbn [generateId SampleHost.host]. discriminate. Qed.

End SampleIds.


Section LedgerExamples.
Import Regex Sanitizer Ledger Notions Shapes LedgerNotions LedgerFacts.
#[local] Existing Instance SampleHost.host.

Lemma deleteTransaction_removes_first_witness :
  let a := Sample.stored "a1" "2025-01-15" "expense" "Food" 1200 in
  let b := Sample.stored "a2" "2025-01-16" "expense" "Food" 800 in
  let s := with_transactions [a; b] constructor in
  let s' := after (deleteTransaction (js "a1")) s in
  transactions s' = [] ++ [b]
  /\ cachesCleared s'
  /\ totalTransactions (stats s') = length ([] ++ [b])
  /\ categories s' = categories s
  /\ match parseAll (map t_date ([] ++ [b])) with
     | Some _ =>
         answer (deleteTransaction (js "a1")) s = Return (Some a)
         /\ emitted s' = emitted s ++ [TransactionDeleted a; DataChanged]
     | None =>
         answer (deleteTransaction (js "a1")) s = Throw RangeError
         /\ emitted s' = emitted s
     end.
Proof.
  intros a b s.
  apply (deleteTransaction_removes_first (js "a1") [] [b] a s).
  - reflexivity.
  - reflexivity.
  - intros [].
Defined.

Lemma addTransaction_then_delete_witness :
  let s := constructor in
  let s1 := after (addTransaction Sample.lunch) s in
  let s2 := after (deleteTransaction (generateId (idsDrawn s))) s1 in
  transactions s2 = transactions s
  /\ categories s2 = categories s
  /\ filters s2 = filters s
  /\ filteredTransactions s2 = filteredTransactions s
  /\ cachesCleared s2
  /\ totalTransactions (stats s2) = length (transactions s).
Proof.
  intros s. apply (addTransaction_then_delete Sample.lunch s).
  - vm_compute. reflexivity.
  - intros [].
Defined.

Lemma session_distinct_names_witness :
  distinctNames
    (categories
       (session [AddCategory CONSTANTS.EXPENSE (VStr (js "Pets"));
                 AddTransaction Sample.lunch;
                 RemoveCategory CONSTANTS.EXPENSE (js "Pets") VNull]
                constructor)).
Proof.
  apply session_distinct_names.
  - repeat (apply List.Forall_cons; [reflexivity|]). apply List.Forall_nil.
  - exact DEFAULT_CATEGORIES_distinct.
Defined.

Lemma addCategory_then_remove_witness :
  let s := constructor in
  let name := sanitizeCategory (VStr (js "Pets")) in
  let s1 := after (addCategory CONSTANTS.EXPENSE (VStr (js "Pets"))) s in
  let s2 := after (removeCategory CONSTANTS.EXPENSE name VNull) s1 in
  answer (addCategory CONSTANTS.EXPENSE (VStr (js "Pets"))) s = Return true
  /\ categoriesOf CONSTANTS.EXPENSE (categories s1)
     = Some (expense DEFAULT_CATEGORIES ++ [name])
  /\ transactions s1 = transactions s
  /\ answer (addCategory CONSTANTS.EXPENSE (VStr (js "Pets"))) s1
     = Throw CategoryExists
  /\ answer (removeCategory CONSTANTS.EXPENSE name VNull) s1 = Return 0%nat
  /\ categories s2 = categories s
  /\ transactions s2 = transactions s.
Proof.
  intros s.
  apply (addCategory_then_remove CONSTANTS.EXPENSE (VStr (js "Pets"))
           (expense DEFAULT_CATEGORIES) s).
  - reflexivity.
  - vm_compute. discriminate.
  - vm_compute. intuition discriminate.
  - reflexivity.
Defined.

Lemma session_wellFormed_witness :
  let calls := [AddTransaction Sample.salary; AddTransaction Sample.lunch;
                DeleteTransaction (js "id-0");
                UpdateTransaction (js "id-1") (Sample.amountPatch 1500)] in
  Forall wellFormed (transactions (session calls constructor))
  /\ exists dates,
       parseAll (map t_date (transactions (session calls constructor)))
       = Some dates.
Proof.
  intros calls. apply (session_wellFormed calls constructor).
  - repeat (apply List.Forall_cons; [reflexivity|]). apply List.Forall_nil.
  - apply List.Forall_nil.
Defined.

Lemma session_ids_distinct_witness :
  let calls := [AddTransaction Sample.salary; AddTransaction Sample.lunch;
                AddTransactionsBatch [Sample.rent; Sample.unreadable];
                DeleteTransaction (js "id-0")] in
  idsIssued (session calls constructor)
  /\ List.NoDup (map t_id (transactions (session calls constructor))).
Proof.
  intros calls.
  apply (session_ids_distinct sample_distinctIds calls constructor).
  - repeat (apply List.Forall_cons; [reflexivity|]). apply List.Forall_nil.
  - split; constructor.
Defined.

Lemma getMonthlyData_totals_witness :
  let a := Sample.stored "a1" "2025-01-15" "expense" "Food" 1200 in
  let b := Sample.stored "a2" "2025-02-16" "income" "Salary" 250000 in
  let s := with_transactions [a; b] constructor in
  let endDate := 1740000000000 in
  exists data,
    answer (getMonthlyData (Months 3) (Some endDate)) s = Return data
    /\ (forall key,
          mapGet key data =
          match mapGet key (emptyMonths (Months 3) endDate (transactions s)) with
          | Some _ => Some (incomeIn key (transactions s),
                            outgoIn key (transactions s))
          | None => None
          end)
    /\ (forall n key,
          Months 3 = Months n ->
          (mapGet key data <> None <-> In key (windowKeys n endDate)))
    /\ let s' := after (getMonthlyData (Months 3) (Some endDate)) s in
       transactions s' = transactions s
       /\ getMonthlyData (Months 3) (Some endDate) s' = (Return data, s').
Proof.
  intros a b s endDate.
  apply (getMonthlyData_totals (Months 3) endDate s). reflexivity.
Defined.

Lemma stored_wellFormed :
  wellFormed (Sample.stored "a1" "2025-01-15" "expense" "Food" 1200).
Proof.
  split; [right; reflexivity|].
  split; [discriminate|].
  split; [vm_compute; repeat constructor|].
  split; [repeat constructor|].
  split; [split; discriminate|].
  split.
  { exists 50%N, 48%N, 50%N, 53%N, 48%N, 49%N, 49%N, 53%N.
    split; [reflexivity | repeat constructor]. }
  split.
  { eexists. split; [vm_compute; reflexivity|].
    vm_compute. split; discriminate. }
  split; [simpl; lia|].
  intros (before & inside & rest & E). destruct before; discriminate.
Qed.

Lemma updateTransaction_keeps_witness :
  let current := Sample.stored "a1" "2025-01-15" "expense" "Food" 1200 in
  let s := with_transactions [current] constructor in
  let u := {| p_date := None; p_type := None; p_category := None;
              p_amount := None;
              p_description := Some (VStr (js "lunch")) |} in
  let s' := after (updateTransaction (js "a1") u) s in
  let v := validateAndSanitizeTransaction (merged current u) in
  (p_date u = None -> p_type u = None -> p_category u = None ->
   p_amount u = None -> isValid v = true)
  /\ (isValid v = true ->
      exists new,
        transactions s' !! 0%nat = Some new
        /\ (p_date u = None -> t_date new = t_date current)
        /\ (p_type u = None -> t_type new = t_type current)
        /\ (p_category u = None -> t_category new = t_category current)
        /\ (p_amount u = None -> t_amount new = t_amount current)).
Proof.
  intros current s u.
  apply (updateTransaction_keeps (js "a1") u s 0 current).
  - reflexivity.
  - reflexivity.
  - intros j t L. lia.
  - exact stored_wellFormed.
  - split; reflexivity.
Defined.

Lemma validateDataIntegrity_in_use_witness :
  let calls := [AddTransaction Sample.salary; AddTransaction Sample.lunch;
                DeleteTransaction (js "id-0")] in
  let report := validateDataIntegrity (session calls constructor) in
  i_duplicateIds report = []
  /\ i_uniqueIds report = i_totalTransactions report
  /\ forall issue,
       In issue (i_issues report) ->
       exists row category, issue = CategoryUnknown row category.
Proof.
  intros calls.
  apply (validateDataIntegrity_in_use calls sample_distinctIds sample_named).
  repeat (apply List.Forall_cons; [reflexivity|]). apply List.Forall_nil.
Defined.

Lemma sanitizeHTML_plain_witness :
  sanitizeHTML (VStr (js "2025-01-15 lunch")) = js "2025-01-15 lunch"
  /\ sanitizeDescription (VStr (js "2025-01-15 lunch"))
     = trim (if (CONSTANTS.MAX_DESCRIPTION_LENGTH
                 <? length (js "2025-01-15 lunch"))%nat
             then substring0 CONSTANTS.MAX_DESCRIPTION_LENGTH
                             (js "2025-01-15 lunch")
             else js "2025-01-15 lunch").
Proof.
  apply (sanitizeHTML_plain (js "2025-01-15 lunch")).
  repeat constructor.
Defined.

End LedgerExamples.

Section EmitterExamples.
Import EventEmitter EmitterNotions.

Lemma off_after_on_witness :
  (forall e,
     listeners e (off "change" 5%nat (on "change" 5%nat EmitSample.subscribed))
     = listeners e EmitSample.subscribed)
  /\ (tidy EmitSample.subscribed ->
      off "change" 5%nat (on "change" 5%nat EmitSample.subscribed)
      = EmitSample.subscribed).
Proof.
  apply (off_after_on "change" 5%nat EmitSample.subscribed).
  unfold listeners. rewrite subscribed_change. simpl. lia.
Defined.

Lemma subscribed_tidy : tidy EmitSample.subscribed.
Proof.
  unfold EmitSample.subscribed. repeat apply tidy_on.
  intros event l. rewrite lookup_empty. discriminate.
Qed.

Lemma emit_returns_whether_heard_witness :
  (forall e l, tidy (on e l EmitSample.subscribed)
               /\ tidy (off e l EmitSample.subscribed))
  /\ (forall e, tidy (removeAllListeners e EmitSample.subscribed))
  /\ tidy (snd (fst (emit EmitSample.careful 3 "change" [] EmitSample.subscribed)))
  /\ (forall b,
        fst (fst (emit EmitSample.careful 3 "change" [] EmitSample.subscribed))
        = Done b ->
        b = (0 <? listenerCount "change" EmitSample.subscribed)%nat).
Proof.
  apply (emit_returns_whether_heard EmitSample.careful 3 "change" []
           EmitSample.subscribed).
  exact subscribed_tidy.
Defined.

Lemma once_fires_once_witness :
  let beh := fun (_ : nat) (_ : string) (_ : list value) => EmitSample.silent in
  let beh' := onceWrapper beh "change" 9%nat 4%nat in
  exists events' log,
    emit beh' 1 "change" [Data 1] (once "change" 9%nat EmitSample.subscribed)
    = (Done true, events', log)
    /\ calledFor "change" log = listeners "change" EmitSample.subscribed ++ [9%nat]
    /\ ~ In 9%nat (listeners "change" events')
    /\ forall depth' args',
         ~ In 9%nat
             (calledFor "change"
                (snd (emit beh' depth' "change" args' events'))).
Proof.
  intros beh.
  apply (once_fires_once beh 0 "change" 9%nat 4%nat [Data 1]
           EmitSample.subscribed).
  - intros l ev args. reflexivity.
  - intros l ev args e [].
  - unfold listeners. rewrite subscribed_change. simpl. lia.
Defined.

End EmitterExamples.
